(** * Tight Margins carousel builder: a model of [src/App.jsx]

    The development follows the 14-template version of the application
    (the first of the two variants kept in [src/App.jsx]).  It embeds

    - the JavaScript string primitives the layout code relies on,
    - the 2D canvas context as a state-and-trace monad,
    - the wrapping helpers [wrapText] and [drawTextWithEmphasis],
    - the fourteen slide renderers and the two places that dispatch on the
      renderer table ([SlideCanvas] and [exportPDF]),
    - the slide-list operations of the editor ([App]),

    and then states and proves the properties of the specification.

    Conventions.  A JavaScript string is a [string] whose characters are
    code units below 256.  A JavaScript number is a rational [Q]: coordinates
    and sizes are computed exactly, and the rounding of floating-point
    arithmetic is not modelled for them.  The one test that is made on a
    sum of measured widths and picks between two layouts, the fit test of
    the flow diagram, is evaluated in IEEE 754 double precision as the
    engine evaluates it ([F64]).  What the host supplies
    (text measurement, trigonometry, upper-casing) is a parameter, the class
    [Host].  The painting calls of a program are kept as a trace; what a
    call does to the pixels of a bitmap is a parameter of the one section
    that speaks of pixels, with the two facts it assumes stated there. *)

From Stdlib Require Import ZArith QArith Qround List String Ascii Bool Lia Lqa.
From Stdlib Require Import DecimalString.
From Stdlib Require SpecFloat.
From stdpp Require Import base list strings gmap.

Set Default Proof Using "Type".

(* ================================================================== *)
(** * Numbers *)

Definition Qgtb (a b : Q) : bool := negb (Qle_bool a b).
Definition Qleb (a b : Q) : bool := Qle_bool a b.
Definition N2Q (n : nat) : Q := inject_Z (Z.of_nat n).
Definition Qmax (a b : Q) : Q := if Qle_bool a b then b else a.
Definition Qmin (a b : Q) : Q := if Qle_bool a b then a else b.

(** [reduce((a, b) => a + b, 0)] *)
Definition sumQ (l : list Q) : Q := fold_left Qplus l (0 : Q).

(** [Math.max(...l)] for a non-empty [l] (the callers guard emptiness). *)
Definition maxList (l : list Q) : Q :=
  match l with
  | [] => 0
  | a :: r => fold_left Qmax r a
  end.

(** [Math.ceil(n / 2)] *)
Definition ceilHalf (n : nat) : nat := Z.to_nat (Qceiling (N2Q n / 2)).

(** ** Double precision

    The numbers of the engine are IEEE 754 binary64 values, and its
    arithmetic rounds to the nearest of them, ties to even.  Where the
    rounding decides what is drawn, the model computes on [spec_float], the
    specification of the format in the standard library. *)
Module F64.

Definition prec : Z := 53.
Definition emax : Z := 1024.

Definition zero : SpecFloat.spec_float := SpecFloat.S754_zero false.

(** The double nearest to a rational: a numeric literal of the source, or
    a width the host reports.  It is the quotient of the two integers,
    rounded once. *)
Definition ofQ (q : Q) : SpecFloat.spec_float :=
  let den := SpecFloat.S754_finite false (Qden q) 0 in
  match Qnum q with
  | Z0 => zero
  | Zpos n => SpecFloat.SFdiv prec emax (SpecFloat.S754_finite false n 0) den
  | Zneg n => SpecFloat.SFdiv prec emax (SpecFloat.S754_finite true n 0) den
  end.

(** The length of an array as a number. *)
Definition ofNat (n : nat) : SpecFloat.spec_float :=
  SpecFloat.binary_normalize prec emax (Z.of_nat n) 0 false.

Definition add : SpecFloat.spec_float -> SpecFloat.spec_float -> SpecFloat.spec_float :=
  SpecFloat.SFadd prec emax.
Definition sub : SpecFloat.spec_float -> SpecFloat.spec_float -> SpecFloat.spec_float :=
  SpecFloat.SFsub prec emax.
Definition mul : SpecFloat.spec_float -> SpecFloat.spec_float -> SpecFloat.spec_float :=
  SpecFloat.SFmul prec emax.

(** [a <= b] *)
Definition leb : SpecFloat.spec_float -> SpecFloat.spec_float -> bool := SpecFloat.SFleb.

(** [l.reduce((a, b) => a + b, 0)] *)
Definition sum (l : list SpecFloat.spec_float) : SpecFloat.spec_float :=
  fold_left add l zero.

End F64.

(* ================================================================== *)
(** * JavaScript strings *)

Module Js.

Definition nl : string := String "010"%char EmptyString.
Definition dquote : ascii := "034"%char.

(** White space as [String.prototype.trim] sees it, among code units
    below 256: TAB, LF, VT, FF, CR, SPACE and NO-BREAK SPACE. *)
Definition isWhiteSpace (c : ascii) : bool :=
  let n := nat_of_ascii c in
  ((9 <=? n)%nat && (n <=? 13)%nat) || (n =? 32)%nat || (n =? 160)%nat.

Fixpoint trimStart (s : string) : string :=
  match s with
  | EmptyString => EmptyString
  | String c r => if isWhiteSpace c then trimStart r else s
  end.

Fixpoint trimEnd (s : string) : string :=
  match s with
  | EmptyString => EmptyString
  | String c r =>
      match trimEnd r with
      | EmptyString => if isWhiteSpace c then EmptyString else String c EmptyString
      | t => String c t
      end
  end.

Definition trim (s : string) : string := trimStart (trimEnd s).

(** [s.split(sep)] for a one-character separator: never empty. *)
Fixpoint split (sep : ascii) (s : string) : list string :=
  match s with
  | EmptyString => [EmptyString]
  | String c r =>
      if Ascii.eqb c sep then EmptyString :: split sep r
      else match split sep r with
           | w :: ws => String c w :: ws
           | [] => [String c EmptyString]
           end
  end.

(** [toLowerCase] on code units below 256: A-Z and the accented capitals
    U+00C0..U+00DE (U+00D7, the multiplication sign, apart) move up by 32. *)
Definition lowerChar (c : ascii) : ascii :=
  let n := nat_of_ascii c in
  if ((65 <=? n)%nat && (n <=? 90)%nat)
     || ((192 <=? n)%nat && (n <=? 222)%nat && negb (n =? 215)%nat)
  then ascii_of_nat (n + 32) else c.

Fixpoint toLowerCase (s : string) : string :=
  match s with
  | EmptyString => EmptyString
  | String c r => String (lowerChar c) (toLowerCase r)
  end.

(** [s.includes(sub)] *)
Fixpoint includes (s sub : string) : bool :=
  String.prefix sub s
  || match s with
     | EmptyString => false
     | String _ r => includes r sub
     end.

(** The character class of the emphasis regular expression: full stop,
    comma, exclamation mark, question mark, semicolon, colon, and the single
    and double quotes. *)
Definition isPunct (c : ascii) : bool :=
  existsb (Ascii.eqb c) ["."; ","; "!"; "?"; ";"; ":"; "'"; dquote]%char.

(** [s.replace(re, empty)] for that class with the [g] flag: every
    occurrence is removed, wherever it stands in the string. *)
Fixpoint removePunct (s : string) : string :=
  match s with
  | EmptyString => EmptyString
  | String c r => if isPunct c then removePunct r else String c (removePunct r)
  end.

Definition isDigit (c : ascii) : bool :=
  let n := nat_of_ascii c in (48 <=? n)%nat && (n <=? 57)%nat.

(** [s.replace(/\d00/, "700")]: the first match only. *)
Fixpoint replace_d00 (s : string) : string :=
  match s with
  | EmptyString => EmptyString
  | String c r =>
      match r with
      | String "0" (String "0" rest) =>
          if isDigit c then "700" +:+ rest else String c (replace_d00 r)
      | _ => String c (replace_d00 r)
      end
  end.

(** [String(n)] for a natural number. *)
Definition String_ (n : nat) : string := NilEmpty.string_of_uint (Nat.to_uint n).

(** [s.padStart(2, "0")] *)
Definition padStart2 (s : string) : string :=
  match String.length s with
  | O => "00"
  | S O => "0" +:+ s
  | _ => s
  end.

(** Truthiness of a string value, and [a || b] on strings.  A field that is
    absent reads as [undefined], which is falsy like the empty string; every
    use in the source goes through one of these two. *)
Definition truthy (s : string) : bool := negb (String.eqb s "").
Definition or_ (a b : string) : string := if truthy a then a else b.

(** [l.filter(Boolean)] on strings *)
Definition filterBoolean (l : list string) : list string := List.filter truthy l.

End Js.

Notation "a ||| b" := (Js.or_ a b) (at level 50, left associativity).

(** A field-value record: a JavaScript object from field keys to strings. *)
Abbreviation Data := (gmap string string).

(** [data.key], read as a string ([undefined] reads as the empty string). *)
Definition field (data : Data) (key : string) : string := default "" (data !! key).

(* ================================================================== *)
(** * Design system constants *)

Module C.
Definition paper := "#F0EDEA".
Definition ink := "#2A2A2A".
Definition red := "#C83232".
Definition dark := "#333333".
Definition grey := "#D0CCC8".
Definition callout := "#555555".
Definition slide : Q := 1080.
Definition marginLine : Q := 144.
Definition contentStart : Q := 176.
Definition outerMargin : Q := 64.
Definition contentEnd : Q := 1016.
Definition coverBandL : Q := 280.
Definition coverBandR : Q := 800.
Definition coverChannelW : Q := 520.
Definition ruledInterval : Q := 32.
Definition ruledStart : Q := 64.
End C.

(* ================================================================== *)
(** * The host *)

(** What the browser supplies and the source only calls. *)
Class Host := {
  (** [ctx.measureText(s).width] under a font and a letter spacing *)
  measure : string -> string -> string -> Q;
  (** [s.toUpperCase()] (it leaves the code units below 256) *)
  toUpperCase : string -> string;
  Math_cos : Q -> Q;
  Math_sin : Q -> Q;
  Math_PI : Q;
  (** ["letterSpacing" in ctx] *)
  hasLetterSpacing : bool
}.

(* ================================================================== *)
(** * The 2D canvas context *)

(** The drawing state that [save] and [restore] keep: the attributes the
    source assigns, and the scale the exporter applies. *)
Record DrawState := mkDraw {
  fillStyle : string;
  strokeStyle : string;
  font : string;
  lineWidth : Q;
  globalAlpha : Q;
  textAlign : string;
  lineDash : list Q;
  lineCap : string;
  lineJoin : string;
  letterSpacing : string;
  transform : Q * Q
}.

Inductive PathSeg :=
| MoveTo (x y : Q)
| LineTo (x y : Q)
| Arc (x y r a0 a1 : Q)
| ClosePath.

(** What each kind of painting reads from the drawing state. *)
Record Paint := mkPaint { p_fill : string; p_alpha : Q; p_xf : Q * Q }.
Record Pen := mkPen {
  n_stroke : string; n_width : Q; n_alpha : Q;
  n_dash : list Q; n_cap : string; n_join : string; n_xf : Q * Q }.
Record TextStyle := mkText {
  t_font : string; t_fill : string; t_alpha : Q;
  t_align : string; t_spacing : string; t_xf : Q * Q }.

(** The calls that touch the bitmap, in the order they are made. *)
Inductive Op :=
| ClearRect (xf : Q * Q) (x y w h : Q)
| FillRect (p : Paint) (x y w h : Q)
| StrokeRect (p : Pen) (x y w h : Q)
| FillText (t : TextStyle) (s : string) (x y : Q)
| Stroke (p : Pen) (path : list PathSeg)
| Fill (p : Paint) (path : list PathSeg).

Record Context2D := mkCtx {
  draw : DrawState;
  saved : list DrawState;
  path : list PathSeg
}.

Definition paintOf (d : DrawState) : Paint :=
  mkPaint (fillStyle d) (globalAlpha d) (transform d).
Definition penOf (d : DrawState) : Pen :=
  mkPen (strokeStyle d) (lineWidth d) (globalAlpha d)
        (lineDash d) (lineCap d) (lineJoin d) (transform d).
Definition textOf (d : DrawState) : TextStyle :=
  mkText (font d) (fillStyle d) (globalAlpha d)
         (textAlign d) (letterSpacing d) (transform d).

(** The state of a context that was just created (or whose canvas was just
    resized). *)
Definition defaultDraw : DrawState :=
  mkDraw "#000000" "#000000" "10px sans-serif" 1 1 "start" [] "butt" "miter" "0px" (1, 1)%Q.
Definition freshContext : Context2D := mkCtx defaultDraw [] [].

(** A canvas program: it reads and updates the context and appends to the
    trace of painting calls. *)
Definition Canvas (A : Type) : Type := Context2D -> A * Context2D * list Op.

Definition ret {A} (a : A) : Canvas A := fun c => (a, c, []).
Definition bind {A B} (m : Canvas A) (k : A -> Canvas B) : Canvas B :=
  fun c =>
    let '(a, c1, o1) := m c in
    let '(b, c2, o2) := k a c1 in
    (b, c2, o1 ++ o2).

Declare Scope canvas_scope.
Delimit Scope canvas_scope with canvas.
Bind Scope canvas_scope with Canvas.
Notation "x <- m ;; k" := (bind m (fun x => k))
  (at level 100, m at next level, k at level 200, right associativity) : canvas_scope.
Notation "m ;; k" := (bind m (fun _ => k))
  (at level 100, k at level 200, right associativity) : canvas_scope.

Definition trace {A} (r : A * Context2D * list Op) : list Op := snd r.
Definition final {A} (r : A * Context2D * list Op) : Context2D := snd (fst r).
Definition value {A} (r : A * Context2D * list Op) : A := fst (fst r).

Definition modify (f : DrawState -> DrawState) : Canvas unit :=
  fun c => (tt, mkCtx (f (draw c)) (saved c) (path c), []).
Definition emit (f : DrawState -> Op) : Canvas unit :=
  fun c => (tt, c, [f (draw c)]).
Definition addPath (s : PathSeg) : Canvas unit :=
  fun c => (tt, mkCtx (draw c) (saved c) (path c ++ [s]), []).

(** The drawing state with one attribute replaced. *)
Definition with_fillStyle (v : string) (d : DrawState) : DrawState :=
  mkDraw v (strokeStyle d) (font d) (lineWidth d) (globalAlpha d) (textAlign d) (lineDash d) (lineCap d) (lineJoin d) (letterSpacing d) (transform d).
Definition with_strokeStyle (v : string) (d : DrawState) : DrawState :=
  mkDraw (fillStyle d) v (font d) (lineWidth d) (globalAlpha d) (textAlign d) (lineDash d) (lineCap d) (lineJoin d) (letterSpacing d) (transform d).
Definition with_font (v : string) (d : DrawState) : DrawState :=
  mkDraw (fillStyle d) (strokeStyle d) v (lineWidth d) (globalAlpha d) (textAlign d) (lineDash d) (lineCap d) (lineJoin d) (letterSpacing d) (transform d).
Definition with_lineWidth (v : Q) (d : DrawState) : DrawState :=
  mkDraw (fillStyle d) (strokeStyle d) (font d) v (globalAlpha d) (textAlign d) (lineDash d) (lineCap d) (lineJoin d) (letterSpacing d) (transform d).
Definition with_globalAlpha (v : Q) (d : DrawState) : DrawState :=
  mkDraw (fillStyle d) (strokeStyle d) (font d) (lineWidth d) v (textAlign d) (lineDash d) (lineCap d) (lineJoin d) (letterSpacing d) (transform d).
Definition with_textAlign (v : string) (d : DrawState) : DrawState :=
  mkDraw (fillStyle d) (strokeStyle d) (font d) (lineWidth d) (globalAlpha d) v (lineDash d) (lineCap d) (lineJoin d) (letterSpacing d) (transform d).
Definition with_lineDash (v : list Q) (d : DrawState) : DrawState :=
  mkDraw (fillStyle d) (strokeStyle d) (font d) (lineWidth d) (globalAlpha d) (textAlign d) v (lineCap d) (lineJoin d) (letterSpacing d) (transform d).
Definition with_lineCap (v : string) (d : DrawState) : DrawState :=
  mkDraw (fillStyle d) (strokeStyle d) (font d) (lineWidth d) (globalAlpha d) (textAlign d) (lineDash d) v (lineJoin d) (letterSpacing d) (transform d).
Definition with_lineJoin (v : string) (d : DrawState) : DrawState :=
  mkDraw (fillStyle d) (strokeStyle d) (font d) (lineWidth d) (globalAlpha d) (textAlign d) (lineDash d) (lineCap d) v (letterSpacing d) (transform d).
Definition with_letterSpacing (v : string) (d : DrawState) : DrawState :=
  mkDraw (fillStyle d) (strokeStyle d) (font d) (lineWidth d) (globalAlpha d) (textAlign d) (lineDash d) (lineCap d) (lineJoin d) v (transform d).
Definition with_scale (sx sy : Q) (d : DrawState) : DrawState :=
  mkDraw (fillStyle d) (strokeStyle d) (font d) (lineWidth d) (globalAlpha d) (textAlign d) (lineDash d) (lineCap d) (lineJoin d) (letterSpacing d)
    (fst (transform d) * sx, snd (transform d) * sy)%Q.

(** Assignments to the attributes.  The values the source assigns are the
    constants of [C] and font shorthands; the context keeps them as given. *)
Definition set_fillStyle (v : string) : Canvas unit := modify (with_fillStyle v).
Definition set_strokeStyle (v : string) : Canvas unit := modify (with_strokeStyle v).
Definition set_font (v : string) : Canvas unit := modify (with_font v).
Definition set_lineWidth (v : Q) : Canvas unit := modify (with_lineWidth v).
Definition set_globalAlpha (v : Q) : Canvas unit := modify (with_globalAlpha v).
Definition set_textAlign (v : string) : Canvas unit := modify (with_textAlign v).
Definition setLineDash (v : list Q) : Canvas unit := modify (with_lineDash v).
Definition set_lineCap (v : string) : Canvas unit := modify (with_lineCap v).
Definition set_lineJoin (v : string) : Canvas unit := modify (with_lineJoin v).
Definition set_letterSpacing (v : string) : Canvas unit := modify (with_letterSpacing v).
Definition scale (sx sy : Q) : Canvas unit := modify (with_scale sx sy).

Definition get_font : Canvas string := fun c => (font (draw c), c, []).
Definition get_fillStyle : Canvas string := fun c => (fillStyle (draw c), c, []).

(** [ctx.save()] pushes the drawing state; [ctx.restore()] pops it, and does
    nothing on an empty stack.  The current path is not part of it. *)
Definition save : Canvas unit :=
  fun c => (tt, mkCtx (draw c) (draw c :: saved c) (path c), []).
Definition restore : Canvas unit :=
  fun c =>
    match saved c with
    | [] => (tt, c, [])
    | d :: r => (tt, mkCtx d r (path c), [])
    end.

Definition beginPath : Canvas unit :=
  fun c => (tt, mkCtx (draw c) (saved c) [], []).
Definition moveTo (x y : Q) : Canvas unit := addPath (MoveTo x y).
Definition lineTo (x y : Q) : Canvas unit := addPath (LineTo x y).
Definition arc (x y r a0 a1 : Q) : Canvas unit := addPath (Arc x y r a0 a1).
Definition closePath : Canvas unit := addPath ClosePath.
Definition stroke : Canvas unit :=
  fun c => (tt, c, [Stroke (penOf (draw c)) (path c)]).
Definition fill : Canvas unit :=
  fun c => (tt, c, [Fill (paintOf (draw c)) (path c)]).

Definition clearRect (x y w h : Q) : Canvas unit :=
  emit (fun d => ClearRect (transform d) x y w h).
Definition fillRect (x y w h : Q) : Canvas unit :=
  emit (fun d => FillRect (paintOf d) x y w h).
Definition strokeRect (x y w h : Q) : Canvas unit :=
  emit (fun d => StrokeRect (penOf d) x y w h).
Definition fillText (s : string) (x y : Q) : Canvas unit :=
  emit (fun d => FillText (textOf d) s x y).

(** [ctx.measureText(s).width] in a given drawing state, and the call that
    reads it off the context: [mt <- measureText] names the measuring
    function of the context as it stands, and [mt s] is
    [ctx.measureText(s).width] for as long as the font is not assigned. *)
Definition measureWith `{Host} (d : DrawState) (s : string) : Q :=
  measure (font d) (letterSpacing d) s.
Definition measureText `{Host} : Canvas (string -> Q) :=
  fun c => (measureWith (draw c), c, []).

(** [l.forEach((x, i) => body)] *)
Fixpoint forEachFrom {A} (i : nat) (l : list A) (body : A -> nat -> Canvas unit)
  : Canvas unit :=
  match l with
  | [] => ret tt
  | x :: r => (body x i ;; forEachFrom (S i) r body)%canvas
  end.
Definition forEach {A} (l : list A) (body : A -> nat -> Canvas unit) : Canvas unit :=
  forEachFrom 0 l body.

(** A [forEach] whose body updates one local variable of the enclosing
    function (a running x position). *)
Fixpoint forEachAccFrom {A V} (i : nat) (l : list A) (v : V)
  (body : V -> A -> nat -> Canvas V) : Canvas V :=
  match l with
  | [] => ret v
  | x :: r => (v1 <- body v x i ;; forEachAccFrom (S i) r v1 body)%canvas
  end.
Definition forEachAcc {A V} (l : list A) (v : V) (body : V -> A -> nat -> Canvas V)
  : Canvas V := forEachAccFrom 0 l v body.

(** [i < n - 1] on indices *)
Definition beforeLast (i n : nat) : bool := (Z.of_nat i <? Z.of_nat n - 1)%Z.

(* ================================================================== *)
(** * Canvas drawing helpers *)

Section Helpers.
Context `{Host}.

(** [for (let y = C.ruledStart; y <= C.slide; y += C.ruledInterval)]: the
    loop runs while [y <= 1080]; [fuel] bounds the number of turns. *)
Fixpoint ruledLoop (fuel : nat) (y : Q) : Canvas unit :=
  match fuel with
  | O => ret tt
  | S f =>
      if Qleb y C.slide then
        (beginPath ;; moveTo 0 y ;; lineTo C.slide y ;; stroke ;;
         ruledLoop f (y + C.ruledInterval)%Q)%canvas
      else ret tt
  end.

Definition drawRuledLines : Canvas unit :=
  (save ;;
   set_strokeStyle C.grey ;;
   set_lineWidth (1 # 2) ;;
   set_globalAlpha (35 # 100) ;;
   ruledLoop 64 C.ruledStart ;;
   restore)%canvas.

Definition drawMarginLine (x : Q) (opacity : Q) : Canvas unit :=
  (save ;;
   set_strokeStyle C.red ;;
   set_lineWidth 2 ;;
   set_globalAlpha opacity ;;
   beginPath ;;
   moveTo x 0 ;;
   lineTo x C.slide ;;
   stroke ;;
   restore)%canvas.

(** [drawMarginLine(ctx)] with its default arguments *)
Definition drawMarginLine0 : Canvas unit := drawMarginLine C.marginLine (7 # 10).

(** The body of the loop over the words of a paragraph:
    [lines] and [line] are the two variables it updates. *)
Definition wrapWord (mt : string -> Q) (maxWidth : Q)
  (st : list string * string) (word : string) : list string * string :=
  let '(lines, line) := st in
  let test := line +:+ word +:+ " " in
  if Qgtb (mt test) maxWidth && negb (String.eqb line "")
  then (lines ++ [Js.trim line], word +:+ " ")
  else (lines, test).

(** The body of the loop over the paragraphs. *)
Definition wrapParagraph (mt : string -> Q) (maxWidth : Q)
  (lines : list string) (paragraph : string) : list string :=
  if String.eqb (Js.trim paragraph) "" then lines ++ [""]
  else
    let '(lines1, line) :=
      fold_left (wrapWord mt maxWidth) (Js.split " " paragraph) (lines, "") in
    lines1 ++ [Js.trim line].

(** The array [lines] that [wrapText] and [drawTextWithEmphasis] both build
    (the two functions carry the same loop). *)
Definition layoutLines (mt : string -> Q) (text : string) (maxWidth : Q) : list string :=
  fold_left (wrapParagraph mt maxWidth) (Js.split "010" text) [].

Definition wrapText (text : string) (x y maxWidth lineHeight : Q) : Canvas nat :=
  if negb (Js.truthy text) then ret O
  else
    (mt <- measureText ;;
     let lines := layoutLines mt text maxWidth in
     forEach lines (fun l i =>
       if negb (String.eqb l "") then fillText l x (y + N2Q i * lineHeight)%Q
       else ret tt) ;;
     ret (length lines))%canvas.

(** The word as the emphasis test sees it. *)
Definition cleanWord (w : string) : string := Js.removePunct (Js.toLowerCase w).

Definition isEmph (emphWords : list string) (w : string) : bool :=
  existsb (String.eqb (cleanWord w)) emphWords.

(** [boldFont.includes("700") ? boldFont : "bold " + origFont] *)
Definition emphFont (origFont : string) : string :=
  let boldFont := Js.replace_d00 origFont in
  if Js.includes boldFont "700" then boldFont else "bold " +:+ origFont.

(** The callback of [lineWords.forEach]: it draws the word [w] at [cx] and
    returns the new value of [cx]. *)
Definition drawWord (emphWords : list string) (origFont origFill emphColor : string)
  (ly spW : Q) (nWords : nat) (cx : Q) (w : string) (wi : nat) : Canvas Q :=
  (cx1 <-
     (if isEmph emphWords w then
        set_font (emphFont origFont) ;;
        set_fillStyle C.ink ;;
        fillText w cx ly ;;
        mt <- measureText ;;
        let ww := mt w in
        save ;;
        set_strokeStyle emphColor ;;
        set_lineWidth 2 ;;
        beginPath ;;
        moveTo cx (ly + 4)%Q ;;
        lineTo (cx + ww)%Q (ly + 4)%Q ;;
        stroke ;;
        restore ;;
        set_font origFont ;;
        set_fillStyle origFill ;;
        ret (cx + ww)%Q
      else
        fillText w cx ly ;;
        mt <- measureText ;;
        ret (cx + mt w)%Q) ;;
   ret (if beforeLast wi nWords then (cx1 + spW)%Q else cx1))%canvas.

(** The callback of [lines.forEach]. *)
Definition drawLine (emphWords : list string) (origFont origFill emphColor : string)
  (x y lineHeight : Q) (l : string) (i : nat) : Canvas unit :=
  let ly := (y + N2Q i * lineHeight)%Q in
  if String.eqb l "" then ret tt
  else
    (let lineWords := Js.split " " l in
     mt <- measureText ;;
     let spW := mt " " in
     _ <- forEachAcc lineWords x
            (drawWord emphWords origFont origFill emphColor ly spW (length lineWords)) ;;
     ret tt)%canvas.

Definition drawTextWithEmphasis (text emphasisWord : string)
  (x y maxWidth lineHeight : Q) (emphColor : string) : Canvas nat :=
  if negb (Js.truthy text) then ret O
  else if negb (Js.truthy emphasisWord)
          || negb (Js.includes (Js.toLowerCase text) (Js.toLowerCase emphasisWord))
  then wrapText text x y maxWidth lineHeight
  else
    (mt <- measureText ;;
     let lines := layoutLines mt text maxWidth in
     origFont <- get_font ;;
     origFill <- get_fillStyle ;;
     let emphWords := Js.split " " (Js.toLowerCase emphasisWord) in
     forEach lines (drawLine emphWords origFont origFill emphColor x y lineHeight) ;;
     ret (length lines))%canvas.

End Helpers.

(* ================================================================== *)
(** * Slide renderers *)

Section Renderers.
Context `{Host}.

(** [true] for a slide number the renderers print: [if (slideNum)] fails on
    [null] and on [0]. *)
Definition slideNumShown (slideNum : option nat) : option nat :=
  match slideNum with
  | Some (S n) => Some (S n)
  | _ => None
  end.

(** The four statements every paper slide starts with. *)
Definition paperBackground : Canvas unit :=
  (set_fillStyle C.paper ;;
   fillRect 0 0 C.slide C.slide ;;
   drawRuledLines ;;
   drawMarginLine0)%canvas.

(** The [if (slideNum) { ... }] block that ten renderers repeat. *)
Definition slideNumLabel (slideNum : option nat) : Canvas unit :=
  match slideNumShown slideNum with
  | Some n =>
      (set_fillStyle C.grey ;;
       set_font "400 20px 'JetBrains Mono', monospace" ;;
       fillText (Js.padStart2 (Js.String_ n)) 64 80)%canvas
  | None => ret tt
  end.

(** [if (s) { body }] on a string value *)
Definition whenTruthy (s : string) (body : Canvas unit) : Canvas unit :=
  if Js.truthy s then body else ret tt.

Definition render_cover (data : Data) (slideNum : option nat) : Canvas unit :=
  (set_fillStyle C.dark ;;
   fillRect 0 0 C.coverBandL C.slide ;;
   set_fillStyle C.paper ;;
   fillRect C.coverBandL 0 C.coverChannelW C.slide ;;
   set_fillStyle C.dark ;;
   fillRect C.coverBandR 0 (C.slide - C.coverBandR)%Q C.slide ;;
   drawMarginLine C.coverBandL 1 ;;
   let tx := (C.coverBandL + 24)%Q in
   let maxW := (C.coverChannelW - 48)%Q in
   save ;;
   set_fillStyle C.red ;;
   fillRect tx 56 32 3 ;;
   set_fillStyle C.callout ;;
   set_font "700 14px 'JetBrains Mono', monospace" ;;
   fillText "TIGHT MARGINS" tx 84 ;;
   restore ;;
   set_fillStyle C.ink ;;
   set_font "700 72px 'Inter Tight', sans-serif" ;;
   titleLines <- wrapText (field data "title" ||| "Your Title Here") tx 420 maxW 80 ;;
   let ruleY := (420 + N2Q titleLines * 80 + 16)%Q in
   set_fillStyle C.red ;;
   fillRect tx ruleY 80 4 ;;
   set_fillStyle C.red ;;
   set_font "500 32px 'Newsreader', Georgia, serif" ;;
   _ <- wrapText (field data "subtitle" ||| "") tx (ruleY + 44)%Q maxW 42 ;;
   set_fillStyle C.grey ;;
   set_font "400 18px 'JetBrains Mono', monospace" ;;
   fillText "TIGHT MARGINS" tx (C.slide - 48)%Q)%canvas.

Definition render_single (data : Data) (slideNum : option nat) : Canvas unit :=
  (paperBackground ;;
   slideNumLabel slideNum ;;
   set_fillStyle C.ink ;;
   set_font "700 68px 'Inter Tight', sans-serif" ;;
   hLines <- wrapText (field data "headline" ||| "Headline")
               C.contentStart 180 (C.contentEnd - C.contentStart)%Q 76 ;;
   let bodyY := (180 + N2Q hLines * 76 + 48)%Q in
   set_fillStyle C.ink ;;
   set_font "500 34px 'Newsreader', Georgia, serif" ;;
   _ <- drawTextWithEmphasis (field data "body" ||| "") (field data "emphasis" ||| "")
          C.contentStart bodyY (C.contentEnd - C.contentStart)%Q 46 C.red ;;
   ret tt)%canvas.

Definition render_comparison (data : Data) (slideNum : option nat) : Canvas unit :=
  (paperBackground ;;
   slideNumLabel slideNum ;;
   let colL := C.contentStart in
   let colMid := (C.contentStart + (C.contentEnd - C.contentStart) / 2)%Q in
   let colR := C.contentEnd in
   let colW := ((colR - colL - 24) / 2)%Q in
   save ;;
   set_strokeStyle C.grey ;;
   set_lineWidth 0.5 ;;
   beginPath ;;
   moveTo colMid 120 ;;
   lineTo colMid (C.slide - 64)%Q ;;
   stroke ;;
   restore ;;
   whenTruthy (field data "vs_label")
     (set_fillStyle C.grey ;;
      set_font "700 22px 'JetBrains Mono', monospace" ;;
      set_textAlign "center" ;;
      fillText (field data "vs_label") colMid 310 ;;
      set_textAlign "start") ;;
   set_fillStyle C.ink ;;
   set_font "600 44px 'Inter Tight', sans-serif" ;;
   fillText (field data "left_header" ||| "Left") colL 180 ;;
   set_font "500 30px 'Newsreader', Georgia, serif" ;;
   _ <- wrapText (field data "left_body" ||| "") colL 236 colW 42 ;;
   set_fillStyle C.ink ;;
   set_font "600 44px 'Inter Tight', sans-serif" ;;
   fillText (field data "right_header" ||| "Right") (colMid + 12)%Q 180 ;;
   set_font "500 30px 'Newsreader', Georgia, serif" ;;
   _ <- wrapText (field data "right_body" ||| "") (colMid + 12)%Q 236 colW 42 ;;
   ret tt)%canvas.

(** ** The framework renderer and its four diagram types *)

Definition labelFont : string := "500 24px 'JetBrains Mono', monospace".

(** [(data.labels || "").split(",").map(s => s.trim()).filter(Boolean).slice(0, 8)] *)
Definition parseLabels (data : Data) : list string :=
  firstn 8 (Js.filterBoolean (map Js.trim (Js.split "," (field data "labels" ||| "")))).

Definition arrowW : Q := 36.

(** One box of a flow row, with the arrow to the next box when there is
    one.  [yBox] is the top of the box, [yMid] the height of the arrow and
    [yText] the text baseline; the callback returns the next [curX]. *)
Definition flowBox (rowLen : nat) (rw : list Q) (boxH yBox yMid yText : Q)
  (curX : Q) (label : string) (i : nat) : Canvas Q :=
  (let bw := nth i rw 0%Q in
   save ;;
   set_strokeStyle C.ink ;;
   set_lineWidth 2 ;;
   strokeRect curX yBox bw boxH ;;
   set_fillStyle C.ink ;;
   set_font labelFont ;;
   set_textAlign "center" ;;
   fillText label (curX + bw / 2)%Q yText ;;
   set_textAlign "start" ;;
   restore ;;
   (if beforeLast i rowLen then
      let ax := (curX + bw + 4)%Q in
      save ;;
      set_strokeStyle C.ink ;;
      set_lineWidth 1.5 ;;
      beginPath ;;
      moveTo ax yMid ;;
      lineTo (ax + arrowW - 8)%Q yMid ;;
      stroke ;;
      beginPath ;;
      moveTo (ax + arrowW - 8)%Q yMid ;;
      lineTo (ax + arrowW - 14)%Q (yMid - 5)%Q ;;
      lineTo (ax + arrowW - 14)%Q (yMid + 5)%Q ;;
      closePath ;;
      set_fillStyle C.ink ;;
      fill ;;
      restore
    else ret tt) ;;
   ret (curX + bw + arrowW)%Q)%canvas.

(** [boxWidths.reduce((a, b) => a + b, 0) + (labels.length - 1) * arrowW]
    as the engine computes it: every box width is the measured width plus
    [pad * 2], the widths are added to 0 one after the other in the order
    of the labels, and every operation rounds. *)
Definition flowTotal (mt : string -> Q) (labels : list string) : SpecFloat.spec_float :=
  let pad := F64.ofQ 28 in
  let boxWidths := map (fun l => F64.add (F64.ofQ (mt l)) (F64.mul pad (F64.ofQ 2))) labels in
  F64.add (F64.sum boxWidths)
    (F64.mul (F64.sub (F64.ofNat (length labels)) (F64.ofQ 1)) (F64.ofQ arrowW)).

(** [type === "flow"].  The test [totalSingleRow <= contentW] is made on
    the sum in double precision; the places of the boxes are computed
    exactly. *)
Definition framework_flow (labels : list string) (cx cy contentW : Q) : Canvas unit :=
  (set_font labelFont ;;
   let pad := 28%Q in
   let boxH := 64%Q in
   mt <- measureText ;;
   let boxWidths := map (fun l => (mt l + pad * 2)%Q) labels in
   let totalSingleRow := (sumQ boxWidths + (N2Q (length labels) - 1) * arrowW)%Q in
   if F64.leb (flowTotal mt labels) (F64.ofQ contentW) then
     let startX := (cx - totalSingleRow / 2)%Q in
     _ <- forEachAcc labels startX
            (flowBox (length labels) boxWidths boxH
               (cy - boxH / 2)%Q cy (cy + 8)%Q) ;;
     ret tt
   else
     let half := ceilHalf (length labels) in
     let rows := [firstn half labels; skipn half labels] in
     let rowWidths := [firstn half boxWidths; skipn half boxWidths] in
     forEach rows (fun row ri =>
       let rw := nth ri rowWidths [] in
       let totalW := (sumQ rw + (N2Q (length row) - 1) * arrowW)%Q in
       let startX := (cx - totalW / 2)%Q in
       let rowY := (cy - 50 + N2Q ri * (boxH + 40))%Q in
       _ <- forEachAcc row startX
              (flowBox (length row) rw boxH
                 rowY (rowY + boxH / 2)%Q (rowY + boxH / 2 + 8)%Q) ;;
       ret tt))%canvas.

(** [type === "quadrant"] *)
Definition framework_quadrant (labels : list string) (cx cy contentW areaH : Q)
  : Canvas unit :=
  (let qW := (contentW * 0.78)%Q in
   let qH := (areaH * 0.82)%Q in
   let qx := (cx - qW / 2)%Q in
   let qy := (cy - qH / 2)%Q in
   save ;;
   set_strokeStyle C.ink ;;
   set_lineWidth 1.5 ;;
   beginPath ;;
   moveTo cx qy ;;
   lineTo cx (qy + qH)%Q ;;
   moveTo qx cy ;;
   lineTo (qx + qW)%Q cy ;;
   stroke ;;
   restore ;;
   let positions :=
     [ (qx + qW * 0.25, qy + qH * 0.3)%Q;
       (qx + qW * 0.75, qy + qH * 0.3)%Q;
       (qx + qW * 0.25, qy + qH * 0.7)%Q;
       (qx + qW * 0.75, qy + qH * 0.7)%Q ] in
   forEach (firstn 4 labels) (fun label i =>
     let p := nth i positions (0, 0)%Q in
     save ;;
     set_fillStyle C.ink ;;
     set_font labelFont ;;
     set_textAlign "center" ;;
     fillText label (fst p) (snd p + 8)%Q ;;
     set_textAlign "start" ;;
     restore))%canvas.

(** The radius every node of a cycle diagram is drawn with. *)
Definition cycleNodeR (mt : string -> Q) (labels : list string) : Q :=
  let maxLabelW := maxList (map (fun l => mt l) labels) in
  Qmax 36 (maxLabelW / 2 + 16)%Q.

(** [-Math.PI / 2 + (i / n) * Math.PI * 2] *)
Definition cycleAngle (i n : nat) : Q :=
  (- Math_PI / 2 + (N2Q i / N2Q n) * Math_PI * 2)%Q.

(** The callback of [labels.forEach] in the cycle diagram: one node. *)
Definition cycleNode (n : nat) (cx cy radius nodeR : Q) (label : string) (i : nat)
  : Canvas unit :=
  (let angle := cycleAngle i n in
   let nx := (cx + Math_cos angle * radius)%Q in
   let ny := (cy + Math_sin angle * radius)%Q in
   save ;;
   beginPath ;;
   arc nx ny nodeR 0 (Math_PI * 2)%Q ;;
   set_fillStyle C.paper ;;
   fill ;;
   set_strokeStyle C.ink ;;
   set_lineWidth 1.5 ;;
   stroke ;;
   set_fillStyle C.ink ;;
   set_font labelFont ;;
   set_textAlign "center" ;;
   fillText label nx (ny + 8)%Q ;;
   set_textAlign "start" ;;
   restore)%canvas.

(** [type === "cycle"] *)
Definition framework_cycle (labels : list string) (cx cy contentW areaH : Q)
  : Canvas unit :=
  (let n := length labels in
   let radius := (Qmin contentW areaH * 0.32)%Q in
   set_font labelFont ;;
   mt <- measureText ;;
   let nodeR := cycleNodeR mt labels in
   save ;;
   set_strokeStyle C.grey ;;
   set_lineWidth 1 ;;
   setLineDash [6; 4]%Q ;;
   beginPath ;;
   arc cx cy radius 0 (Math_PI * 2)%Q ;;
   stroke ;;
   setLineDash [] ;;
   restore ;;
   forEach labels (cycleNode n cx cy radius nodeR))%canvas.

(** [l.map(f)] for a callback that touches the context *)
Fixpoint mapM {A B} (f : A -> Canvas B) (l : list A) : Canvas (list B) :=
  match l with
  | [] => ret []
  | x :: r => (y <- f x ;; ys <- mapM f r ;; ret (y :: ys))%canvas
  end.

(** [type === "hierarchy"] *)
Definition framework_hierarchy (labels : list string) (cx areaTop : Q) : Canvas unit :=
  (let root := hd "" labels in
   let children := skipn 1 labels in
   set_font labelFont ;;
   mt <- measureText ;;
   let rootW := (mt root + 56)%Q in
   let boxH := 56%Q in
   let rootX := (cx - rootW / 2)%Q in
   let rootY := (areaTop + 20)%Q in
   save ;;
   set_strokeStyle C.red ;;
   set_lineWidth 2 ;;
   strokeRect rootX rootY rootW boxH ;;
   set_fillStyle C.red ;;
   set_font labelFont ;;
   set_textAlign "center" ;;
   fillText root cx (rootY + boxH / 2 + 8)%Q ;;
   set_textAlign "start" ;;
   restore ;;
   if (0 <? length children)%nat then
     childBoxWidths <- mapM (fun c =>
       set_font labelFont ;;
       mt1 <- measureText ;;
       ret (mt1 c + 40)%Q) children ;;
     let gap := 20%Q in
     let totalChildW := (sumQ childBoxWidths + (N2Q (length children) - 1) * gap)%Q in
     let childStartX := (cx - totalChildW / 2)%Q in
     let junctionY := (rootY + boxH + 36)%Q in
     let childY := (junctionY + 36)%Q in
     save ;;
     set_strokeStyle C.ink ;;
     set_lineWidth 1.5 ;;
     beginPath ;;
     moveTo cx (rootY + boxH)%Q ;;
     lineTo cx junctionY ;;
     stroke ;;
     _ <- forEachAcc children childStartX (fun curX child i =>
       let bw := nth i childBoxWidths 0%Q in
       let childCx := (curX + bw / 2)%Q in
       beginPath ;;
       moveTo cx junctionY ;;
       lineTo childCx junctionY ;;
       lineTo childCx childY ;;
       stroke ;;
       set_strokeStyle C.ink ;;
       set_lineWidth 1.5 ;;
       strokeRect curX childY bw boxH ;;
       set_fillStyle C.ink ;;
       set_font labelFont ;;
       set_textAlign "center" ;;
       fillText child childCx (childY + boxH / 2 + 8)%Q ;;
       set_textAlign "start" ;;
       set_strokeStyle C.ink ;;
       ret (curX + bw + gap)%Q) ;;
     restore
   else ret tt)%canvas.

Definition render_framework (data : Data) (slideNum : option nat) : Canvas unit :=
  (paperBackground ;;
   slideNumLabel slideNum ;;
   set_fillStyle C.ink ;;
   set_font "700 52px 'Inter Tight', sans-serif" ;;
   fillText (field data "title" ||| "Framework") C.contentStart 172 ;;
   let labels := parseLabels data in
   let type := field data "diagram_type" ||| "flow" in
   let contentW := (C.contentEnd - C.contentStart)%Q in
   (if (0 <? length labels)%nat then
      let areaTop := 230%Q in
      let areaBot := if Js.truthy (field data "caption")
                     then (C.slide - 120)%Q else (C.slide - 80)%Q in
      let areaH := (areaBot - areaTop)%Q in
      let cx := (C.contentStart + contentW / 2)%Q in
      let cy := (areaTop + areaH / 2)%Q in
      if String.eqb type "flow" then framework_flow labels cx cy contentW
      else if String.eqb type "quadrant" then framework_quadrant labels cx cy contentW areaH
      else if String.eqb type "cycle" then framework_cycle labels cx cy contentW areaH
      else if String.eqb type "hierarchy" then framework_hierarchy labels cx areaTop
      else ret tt
    else ret tt) ;;
   whenTruthy (field data "caption")
     (set_fillStyle C.callout ;;
      set_font "500 24px 'Newsreader', Georgia, serif" ;;
      fillText (field data "caption") C.contentStart (C.slide - 80)%Q))%canvas.

(** The array [testLines] of the punchline renderer: one paragraph, the
    same greedy loop as [wrapText]. *)
Definition punchLines (mt : string -> Q) (text : string) (fullW : Q) : list string :=
  let '(testLines, testLine) :=
    fold_left (wrapWord mt fullW) (Js.split " " text) ([], "") in
  testLines ++ [Js.trim testLine].

Definition render_punchline (data : Data) (slideNum : option nat) : Canvas unit :=
  (paperBackground ;;
   let text := field data "text" ||| "Your punchline here." in
   let emphasis := field data "emphasis" ||| "" in
   set_fillStyle C.ink ;;
   set_font "700 76px 'Inter Tight', sans-serif" ;;
   let fullW := (C.contentEnd - C.contentStart)%Q in
   mt <- measureText ;;
   let testLines := punchLines mt text fullW in
   let totalH := (N2Q (length testLines) * 84)%Q in
   let startY := ((C.slide - totalH) / 2 + 76)%Q in
   let emphWords :=
     if Js.truthy emphasis then Js.split " " (Js.toLowerCase emphasis) else [] in
   let spaceW := mt " " in
   forEach testLines (fun line i =>
     let ly := (startY + N2Q i * 84)%Q in
     if (0 <? length emphWords)%nat then
       let lineWords := Js.split " " line in
       _ <- forEachAcc lineWords C.contentStart (fun cx w wi =>
         set_fillStyle (if isEmph emphWords w then C.red else C.ink) ;;
         fillText w cx ly ;;
         mt1 <- measureText ;;
         let cx1 := (cx + mt1 w)%Q in
         ret (if beforeLast wi (length lineWords) then (cx1 + spaceW)%Q else cx1)) ;;
       ret tt
     else fillText line C.contentStart ly))%canvas.

Definition render_data (data : Data) (slideNum : option nat) : Canvas unit :=
  (paperBackground ;;
   slideNumLabel slideNum ;;
   set_fillStyle C.red ;;
   set_font "700 108px 'JetBrains Mono', monospace" ;;
   fillText (field data "data_point" ||| "0%") C.contentStart 480 ;;
   set_fillStyle C.ink ;;
   set_font "500 32px 'Newsreader', Georgia, serif" ;;
   _ <- wrapText (field data "context" ||| "") C.contentStart 548
          (C.contentEnd - C.contentStart)%Q 44 ;;
   whenTruthy (field data "source")
     (set_fillStyle C.grey ;;
      set_font "italic 500 20px 'Newsreader', Georgia, serif" ;;
      fillText (field data "source") C.contentStart (C.slide - 80)%Q))%canvas.

Definition render_cta (data : Data) (slideNum : option nat) : Canvas unit :=
  (set_fillStyle C.dark ;;
   fillRect 0 0 C.slide C.slide ;;
   drawMarginLine C.marginLine 0.6 ;;
   set_fillStyle C.paper ;;
   set_font "900 72px 'Inter Tight', sans-serif" ;;
   fillText "TIGHT MARGINS" C.contentStart 440 ;;
   set_fillStyle C.red ;;
   fillRect C.contentStart 468 80 4 ;;
   set_fillStyle C.paper ;;
   set_font "600 40px 'Inter Tight', sans-serif" ;;
   fillText (field data "cta_text" ||| "Subscribe for more.") C.contentStart 540 ;;
   set_fillStyle C.red ;;
   set_font "400 26px 'JetBrains Mono', monospace" ;;
   fillText (field data "url" ||| "tightmargins.com") C.contentStart 592 ;;
   whenTruthy (field data "handle")
     (set_fillStyle C.grey ;;
      set_font "400 22px 'JetBrains Mono', monospace" ;;
      fillText (field data "handle") C.contentStart 628))%canvas.

(** The loop [for (let n = 1; n <= 5; n++)] of the numbered list: the
    items whose title is set, each with its body. *)
Definition numberedItems (data : Data) : list (string * string) :=
  flat_map (fun n =>
    let t := field data ("item" +:+ Js.String_ n +:+ "_title") in
    if Js.truthy t
    then [(t, field data ("item" +:+ Js.String_ n +:+ "_body") ||| "")]
    else []) [1; 2; 3; 4; 5]%nat.

Definition render_numbered_list (data : Data) (slideNum : option nat) : Canvas unit :=
  (paperBackground ;;
   slideNumLabel slideNum ;;
   set_fillStyle C.ink ;;
   set_font "700 68px 'Inter Tight', sans-serif" ;;
   hLines <- wrapText (field data "headline" ||| "Your List")
               C.contentStart 180 (C.contentEnd - C.contentStart)%Q 76 ;;
   let items := numberedItems data in
   if (length items =? 0)%nat then ret tt
   else
     let numX := C.contentStart in
     let textX := (C.contentStart + 72)%Q in
     let textW := (C.contentEnd - textX)%Q in
     let listStart := Qmax (180 + N2Q hLines * 76 + 34)%Q 290 in
     let spacing : Q :=
       if (length items <=? 3)%nat then 140%Q
       else if (length items =? 4)%nat then 118%Q else 100%Q in
     forEach items (fun item i =>
       let baseY := (listStart + N2Q i * spacing)%Q in
       set_fillStyle C.red ;;
       set_font "700 36px 'JetBrains Mono', monospace" ;;
       fillText (Js.String_ (i + 1)) numX (baseY + 28)%Q ;;
       set_fillStyle C.ink ;;
       set_font "600 24px 'Inter Tight', sans-serif" ;;
       fillText (fst item) textX (baseY + 20)%Q ;;
       whenTruthy (snd item)
         (set_font "400 20px 'Newsreader', Georgia, serif" ;;
          _ <- wrapText (snd item) textX (baseY + 48)%Q textW 28 ;;
          ret tt) ;;
       if beforeLast i (length items) then
         save ;;
         set_strokeStyle C.grey ;;
         set_lineWidth 0.5 ;;
         set_globalAlpha 0.5 ;;
         beginPath ;;
         moveTo textX (baseY + spacing - 16)%Q ;;
         lineTo (C.contentStart + 524)%Q (baseY + spacing - 16)%Q ;;
         stroke ;;
         restore
       else ret tt))%canvas.

(** The literal U+201C (left double quotation mark), as its UTF-8 bytes:
    the renderer only hands it to [fillText]. *)
Definition openQuote : string :=
  String "226"%char (String "128"%char (String "156"%char EmptyString)).

Definition render_quote (data : Data) (slideNum : option nat) : Canvas unit :=
  (paperBackground ;;
   slideNumLabel slideNum ;;
   save ;;
   set_fillStyle C.red ;;
   set_globalAlpha 0.25 ;;
   set_font "600 120px 'Newsreader', Georgia, serif" ;;
   fillText openQuote 164 400 ;;
   restore ;;
   set_fillStyle C.ink ;;
   set_font "italic 500 32px 'Newsreader', Georgia, serif" ;;
   qLines <- wrapText (field data "quote_text" ||| "Your quote here.")
               C.contentStart 440 740 46 ;;
   let ruleY := (440 + N2Q qLines * 46 + 20)%Q in
   set_fillStyle C.red ;;
   fillRect C.contentStart ruleY 48 2 ;;
   whenTruthy (field data "attribution")
     (set_fillStyle C.grey ;;
      set_font "400 16px 'JetBrains Mono', monospace" ;;
      fillText (field data "attribution") C.contentStart (ruleY + 32)%Q ;;
      whenTruthy (field data "role")
        (save ;;
         set_globalAlpha 0.7 ;;
         set_font "400 13px 'JetBrains Mono', monospace" ;;
         fillText (field data "role") C.contentStart (ruleY + 54)%Q ;;
         restore)))%canvas.

(** [if ("letterSpacing" in ctx) ctx.letterSpacing = v] *)
Definition setLetterSpacingIfSupported (v : string) : Canvas unit :=
  if hasLetterSpacing then set_letterSpacing v else ret tt.

Definition render_section_divider (data : Data) (slideNum : option nat) : Canvas unit :=
  (paperBackground ;;
   set_fillStyle C.red ;;
   set_font "400 16px 'JetBrains Mono', monospace" ;;
   setLetterSpacingIfSupported "1.3px" ;;
   fillText (toUpperCase (field data "part_label" ||| "PART ONE")) C.contentStart 440 ;;
   setLetterSpacingIfSupported "0px" ;;
   fillRect C.contentStart 456 48 2 ;;
   set_fillStyle C.ink ;;
   set_font "700 44px 'Inter Tight', sans-serif" ;;
   _ <- wrapText (field data "section_title" ||| "Section Title")
          C.contentStart 510 (C.contentEnd - C.contentStart)%Q 52 ;;
   ret tt)%canvas.

Definition render_two_up (data : Data) (slideNum : option nat) : Canvas unit :=
  (paperBackground ;;
   slideNumLabel slideNum ;;
   set_fillStyle C.ink ;;
   set_font "700 68px 'Inter Tight', sans-serif" ;;
   hLines <- wrapText (field data "headline" ||| "Two things")
               C.contentStart 180 (C.contentEnd - C.contentStart)%Q 76 ;;
   let item1Y := Qmax (180 + N2Q hLines * 76 + 12)%Q 268 in
   let item2Y := (item1Y + 272)%Q in
   let dividerY := (item1Y + 232)%Q in
   let textX := (C.contentStart + 80)%Q in
   let textW := (C.contentEnd - textX)%Q in
   forEach [ (field data "item1_title", field data "item1_body", item1Y);
             (field data "item2_title", field data "item2_body", item2Y) ]
     (fun '(title, body, y) i =>
       save ;;
       set_fillStyle C.red ;;
       set_globalAlpha 0.25 ;;
       set_font "700 52px 'JetBrains Mono', monospace" ;;
       fillText (Js.String_ (i + 1)) C.contentStart (y + 44)%Q ;;
       restore ;;
       set_fillStyle C.ink ;;
       set_font "600 26px 'Inter Tight', sans-serif" ;;
       fillText (title ||| "") textX (y + 28)%Q ;;
       whenTruthy body
         (set_font "400 22px 'Newsreader', Georgia, serif" ;;
          _ <- wrapText body textX (y + 60)%Q textW 32 ;;
          ret tt)) ;;
   save ;;
   set_strokeStyle C.grey ;;
   set_lineWidth 0.5 ;;
   set_globalAlpha 0.5 ;;
   beginPath ;;
   moveTo textX dividerY ;;
   lineTo 900 dividerY ;;
   stroke ;;
   restore)%canvas.

Definition render_three_up (data : Data) (slideNum : option nat) : Canvas unit :=
  (paperBackground ;;
   slideNumLabel slideNum ;;
   set_fillStyle C.ink ;;
   set_font "700 68px 'Inter Tight', sans-serif" ;;
   hLines <- wrapText (field data "headline" ||| "Three pillars")
               C.contentStart 180 (C.contentEnd - C.contentStart)%Q 76 ;;
   let colW := 256%Q in
   let gutter := 36%Q in
   let cols := [ C.contentStart;
                 (C.contentStart + colW + gutter)%Q;
                 (C.contentStart + (colW + gutter) * 2)%Q ] in
   let itemsY := Qmax (180 + N2Q hLines * 76 + 34)%Q 290 in
   let circleR := 28%Q in
   forEach [ (nth 1 cols 0%Q - gutter / 2)%Q; (nth 2 cols 0%Q - gutter / 2)%Q ]
     (fun dx _ =>
       save ;;
       set_strokeStyle C.grey ;;
       set_lineWidth 0.5 ;;
       set_globalAlpha 0.4 ;;
       beginPath ;;
       moveTo dx itemsY ;;
       lineTo dx (C.slide - 64)%Q ;;
       stroke ;;
       restore) ;;
   forEach cols (fun colX i =>
     let title := field data ("item" +:+ Js.String_ (i + 1) +:+ "_title") ||| "" in
     let body := field data ("item" +:+ Js.String_ (i + 1) +:+ "_body") ||| "" in
     let cx := (colX + circleR)%Q in
     let cy := (itemsY + circleR)%Q in
     let color := if (i =? 0)%nat then C.red else C.ink in
     save ;;
     beginPath ;;
     arc cx cy circleR 0 (Math_PI * 2)%Q ;;
     set_strokeStyle color ;;
     set_lineWidth 2 ;;
     stroke ;;
     set_fillStyle color ;;
     set_font "700 22px 'JetBrains Mono', monospace" ;;
     set_textAlign "center" ;;
     fillText (Js.String_ (i + 1)) cx (cy + 8)%Q ;;
     set_textAlign "start" ;;
     restore ;;
     let titleY := (itemsY + circleR * 2 + 28)%Q in
     set_fillStyle C.ink ;;
     set_font "600 22px 'Inter Tight', sans-serif" ;;
     fillText title colX titleY ;;
     set_font "400 18px 'Newsreader', Georgia, serif" ;;
     _ <- wrapText body colX (titleY + 28)%Q colW 26 ;;
     ret tt))%canvas.

Definition render_checklist (data : Data) (slideNum : option nat) : Canvas unit :=
  (paperBackground ;;
   slideNumLabel slideNum ;;
   set_fillStyle C.ink ;;
   set_font "700 68px 'Inter Tight', sans-serif" ;;
   _ <- wrapText (field data "headline" ||| "Do this, not that")
          C.contentStart 180 (C.contentEnd - C.contentStart)%Q 76 ;;
   let col1X := C.contentStart in
   let col2X := 612%Q in
   let colW := 400%Q in
   let headerY := 256%Q in
   save ;;
   set_strokeStyle C.grey ;;
   set_lineWidth 0.5 ;;
   set_globalAlpha 0.3 ;;
   beginPath ;;
   moveTo 596 244 ;;
   lineTo 596 (C.slide - 80)%Q ;;
   stroke ;;
   restore ;;
   set_fillStyle C.red ;;
   set_font "700 14px 'JetBrains Mono', monospace" ;;
   fillText "DO THIS" col1X headerY ;;
   mt <- measureText ;;
   let doW := mt "DO THIS" in
   save ;;
   set_strokeStyle C.red ;;
   set_lineWidth 1 ;;
   beginPath ;;
   moveTo col1X (headerY + 4)%Q ;;
   lineTo (col1X + doW)%Q (headerY + 4)%Q ;;
   stroke ;;
   restore ;;
   set_fillStyle C.grey ;;
   set_font "700 14px 'JetBrains Mono', monospace" ;;
   fillText "NOT THIS" col2X headerY ;;
   mt1 <- measureText ;;
   let dontW := mt1 "NOT THIS" in
   save ;;
   set_strokeStyle C.grey ;;
   set_lineWidth 1 ;;
   beginPath ;;
   moveTo col2X (headerY + 4)%Q ;;
   lineTo (col2X + dontW)%Q (headerY + 4)%Q ;;
   stroke ;;
   restore ;;
   let doItems := Js.filterBoolean
     [field data "do1"; field data "do2"; field data "do3"; field data "do4"] in
   let dontItems := Js.filterBoolean
     [field data "dont1"; field data "dont2"; field data "dont3"; field data "dont4"] in
   let itemSpacing := 80%Q in
   forEach doItems (fun item i =>
     let y := (290 + N2Q i * itemSpacing)%Q in
     save ;;
     set_strokeStyle C.red ;;
     set_lineWidth 2.5 ;;
     set_lineCap "round" ;;
     set_lineJoin "round" ;;
     beginPath ;;
     moveTo (col1X + 4)%Q (y + 10)%Q ;;
     lineTo (col1X + 9)%Q (y + 16)%Q ;;
     lineTo (col1X + 20)%Q (y + 3)%Q ;;
     stroke ;;
     restore ;;
     set_fillStyle C.ink ;;
     set_font "400 20px 'Newsreader', Georgia, serif" ;;
     _ <- wrapText item (col1X + 32)%Q (y + 14)%Q (colW - 36)%Q 28 ;;
     ret tt) ;;
   forEach dontItems (fun item i =>
     let y := (290 + N2Q i * itemSpacing)%Q in
     save ;;
     set_strokeStyle C.grey ;;
     set_lineWidth 2.5 ;;
     set_lineCap "round" ;;
     beginPath ;;
     moveTo (col2X + 3)%Q (y + 3)%Q ;;
     lineTo (col2X + 19)%Q (y + 19)%Q ;;
     moveTo (col2X + 19)%Q (y + 3)%Q ;;
     lineTo (col2X + 3)%Q (y + 19)%Q ;;
     stroke ;;
     restore ;;
     set_fillStyle C.grey ;;
     set_font "400 20px 'Newsreader', Georgia, serif" ;;
     _ <- wrapText item (col2X + 32)%Q (y + 14)%Q (colW - 36)%Q 28 ;;
     ret tt))%canvas.

Definition render_blank (data : Data) (slideNum : option nat) : Canvas unit :=
  (paperBackground ;;
   slideNumLabel slideNum ;;
   whenTruthy (field data "header")
     (set_fillStyle C.ink ;;
      set_font "700 40px 'Inter Tight', sans-serif" ;;
      _ <- wrapText (field data "header") C.contentStart 180 760 48 ;;
      ret tt) ;;
   whenTruthy (field data "callout")
     (set_fillStyle C.grey ;;
      set_font "italic 400 18px 'Newsreader', Georgia, serif" ;;
      _ <- wrapText (field data "callout") C.contentStart 980 500 26 ;;
      ret tt))%canvas.

(** ** The renderer table *)

Definition Renderer := Data -> option nat -> Canvas unit.

(** The own properties of the object [renderers]. *)
Definition renderers : list (string * Renderer) :=
  [ ("cover", render_cover);
    ("single", render_single);
    ("comparison", render_comparison);
    ("framework", render_framework);
    ("punchline", render_punchline);
    ("data", render_data);
    ("cta", render_cta);
    ("numbered_list", render_numbered_list);
    ("quote", render_quote);
    ("section_divider", render_section_divider);
    ("two_up", render_two_up);
    ("three_up", render_three_up);
    ("checklist", render_checklist);
    ("blank", render_blank) ].

Fixpoint assoc {V} (k : string) (l : list (string * V)) : option V :=
  match l with
  | [] => None
  | (k1, v) :: r => if String.eqb k k1 then Some v else assoc k r
  end.

(** The properties an object literal inherits from [Object.prototype]:
    reading one of them on [renderers] gives a value that is not
    [undefined]. *)
Definition objectPrototypeKeys : list string :=
  [ "constructor"; "__defineGetter__"; "__defineSetter__"; "hasOwnProperty";
    "__lookupGetter__"; "__lookupSetter__"; "isPrototypeOf";
    "propertyIsEnumerable"; "toString"; "valueOf"; "__proto__";
    "toLocaleString" ].

(** [renderers[template]] *)
Inductive Lookup :=
| Own (r : Renderer)
| Inherited
| Undefined.

Definition renderers_get (template : string) : Lookup :=
  match assoc template renderers with
  | Some r => Own r
  | None =>
      if existsb (String.eqb template) objectPrototypeKeys then Inherited
      else Undefined
  end.

(** What a request to render one slide comes to: the renderer ran and
    painted; the guard [if (renderers[template])] skipped the call; the
    call threw; or the guard let through a value inherited from
    [Object.prototype] and that value is called.  What the call of such a
    value does is told where the loop of [exportPDF] is run
    ([inheritedCallThrows]). *)
Inductive Outcome :=
| Rendered (c : Context2D) (ops : list Op)
| Skipped (c : Context2D) (ops : list Op)
| Threw
| InheritedCall.

(** The effect of [SlideCanvas] once the fonts are there: the canvas is
    sized (which gives a fresh context), cleared, and the renderer called
    under the guard. *)
Definition SlideCanvas_effect (template : string) (data : Data) (slideNum : option nat)
  : Outcome :=
  let '(_, c0, o0) := clearRect 0 0 C.slide C.slide freshContext in
  match renderers_get template with
  | Own r => let '(_, c1, o1) := r data slideNum c0 in Rendered c1 (o0 ++ o1)
  | Inherited => InheritedCall
  | Undefined => Skipped c0 o0
  end.

End Renderers.

(* ================================================================== *)
(** * Slides and the editor *)

(** A slide object.  [locked] and [note] are properties that may be absent
    ([None]); [locked] is used for its truthiness only. *)
Record Slide := mkSlide {
  template : string;
  locked : option bool;
  note : option string;
  data : Data
}.

Definition isLocked (s : Slide) : bool :=
  match locked s with
  | Some true => true
  | _ => false
  end.

(** The array [slides].  An element is [None] where the JavaScript array has
    a hole or [undefined]. *)
Abbreviation Slides := (list (option Slide)).

(** [slides[i]] *)
Definition arr_get (slides : Slides) (i : Z) : option Slide :=
  if (i <? 0)%Z then None else mjoin (slides !! Z.to_nat i).

(** [next[i] = v].  Past the end the array grows, with holes in between.
    A negative [i] names no element: the assignment adds a property that
    the length, iteration, spreading and serialisation of the array do not
    see, and the elements stay as they are. *)
Definition arr_set (slides : Slides) (i : Z) (v : Slide) : Slides :=
  if (i <? 0)%Z then slides
  else
    let n := Z.to_nat i in
    if (n <? length slides)%nat then <[n := Some v]> slides
    else slides ++ replicate (n - length slides) None ++ [Some v].

(** The position [splice(start, ...)] works at. *)
Definition spliceStart (len : nat) (start : Z) : nat :=
  if (start <? 0)%Z then Z.to_nat (Z.max (Z.of_nat len + start) 0)
  else Nat.min (Z.to_nat start) len.

(** [next.splice(start, 0, v)] *)
Definition splice_insert (slides : Slides) (start : Z) (v : Slide) : Slides :=
  let k := spliceStart (length slides) start in
  take k slides ++ Some v :: drop k slides.

(** [next.splice(start, 1)] *)
Definition splice_remove (slides : Slides) (start : Z) : Slides :=
  let k := spliceStart (length slides) start in
  take k slides ++ drop (S k) slides.

(** ** Sequence patterns *)

Record Skeleton := mkSkeleton {
  sk_template : string;
  sk_locked : option bool;
  sk_note : string
}.

Record Sequence := mkSequence {
  seq_name : string;
  seq_desc : string;
  seq_slides : list Skeleton
}.

(** U+2014 (em dash), as its UTF-8 bytes, between the two halves of a note *)
Definition dash (a b : string) : string :=
  a +:+ " " +:+ String "226"%char (String "128"%char (String "148"%char EmptyString))
    +:+ " " +:+ b.

Definition lockedSk (t n : string) : Skeleton := mkSkeleton t (Some true) n.
Definition freeSk (t n : string) : Skeleton := mkSkeleton t None n.

Definition SEQUENCES : list (string * Sequence) :=
  [ ("argument",
     mkSequence "The Argument"
       "10 slides. Frameworks, mental models, structured insights."
       [ lockedSk "cover" (dash "Hook" "provocative title");
         freeSk "single" (dash "Setup" "establish the context");
         freeSk "single" (dash "Complication" "introduce the problem");
         freeSk "framework" (dash "Model" "present the framework");
         freeSk "numbered_list" (dash "Breakdown" "key components");
         freeSk "comparison" (dash "Contrast" "the old vs new way");
         freeSk "quote" (dash "Validate" "expert backing");
         freeSk "punchline" (dash "Payoff" "the key insight");
         freeSk "data" (dash "Proof" "validating data");
         lockedSk "cta" (dash "Exit" "subscribe") ]);
    ("hottake",
     mkSequence "The Hot Take"
       "7 slides. Provocative claim, sharp observation."
       [ lockedSk "cover" (dash "Hook" "bold claim");
         freeSk "data" (dash "Shock" "the credible number");
         freeSk "single" (dash "Context" "why it matters");
         freeSk "checklist" (dash "Reality check" "do vs don't");
         freeSk "punchline" (dash "Resolution" "the real insight");
         freeSk "quote" (dash "Close" "a voice that agrees");
         lockedSk "cta" (dash "Exit" "subscribe") ]);
    ("casestudy",
     mkSequence "The Case Study"
       "10 slides. Real-world decision analysis."
       [ lockedSk "cover" (dash "Hook" "the decision");
         freeSk "single" (dash "Situation" "what was at stake");
         freeSk "data" (dash "Scale" "tangible stakes");
         freeSk "section_divider" (dash "Pivot" "entering analysis");
         freeSk "two_up" (dash "Options" "two choices compared");
         freeSk "comparison" (dash "Tradeoffs" "side by side");
         freeSk "single" (dash "Decision" "what was chosen");
         freeSk "punchline" (dash "Outcome" "what happened");
         freeSk "quote" (dash "Reflection" "the lesson");
         lockedSk "cta" (dash "Exit" "subscribe") ]);
    ("listicle",
     mkSequence "The Listicle"
       "8 slides. Numbered insights, high scannability."
       [ lockedSk "cover" (dash "Hook" "the list promise");
         freeSk "single" (dash "Setup" "why this list matters");
         freeSk "numbered_list" (dash "List part 1" "first items");
         freeSk "numbered_list" (dash "List part 2" "more items");
         freeSk "three_up" (dash "Summary" "three takeaways");
         freeSk "data" (dash "Anchor" "a proof point");
         freeSk "punchline" (dash "Close" "the one-liner");
         lockedSk "cta" (dash "Exit" "subscribe") ]);
    ("playbook",
     mkSequence "The Playbook"
       "12 slides. Deep structured guide with sections."
       [ lockedSk "cover" (dash "Hook" "the playbook title");
         freeSk "single" (dash "Overview" "what this covers");
         freeSk "section_divider" (dash "Part 1" "first section");
         freeSk "numbered_list" (dash "Steps" "the process");
         freeSk "two_up" (dash "Key contrast" "a critical choice");
         freeSk "section_divider" (dash "Part 2" "second section");
         freeSk "checklist" (dash "Standards" "do vs don't");
         freeSk "three_up" (dash "Principles" "three pillars");
         freeSk "quote" (dash "Authority" "expert voice");
         freeSk "data" (dash "Results" "proof it works");
         freeSk "punchline" (dash "Payoff" "the closing insight");
         lockedSk "cta" (dash "Exit" "subscribe") ]) ].

(** The keys of [TEMPLATES], in the order of the source. *)
Definition TEMPLATE_keys : list string :=
  [ "cover"; "single"; "comparison"; "framework"; "punchline"; "data"; "cta";
    "numbered_list"; "quote"; "section_divider"; "two_up"; "three_up";
    "checklist"; "blank" ].

(** ** The functions of [App] that build and change the slide list *)

(** What a call of one of the handlers comes to: it set a new list, it
    returned at a guard, or it threw on [undefined]. *)
Inductive Handled :=
| Updated (next : Slides)
| Returned
| TypeError.

(** The list after the call. *)
Definition after (h : Handled) (slides : Slides) : Slides :=
  match h with
  | Updated next => next
  | Returned | TypeError => slides
  end.

(** [initFromSequence(seqKey)]: [s.locked || false] makes the flag a
    boolean on every slide; an unknown key throws. *)
Definition initFromSequence (seqKey : string) : Handled :=
  match assoc seqKey SEQUENCES with
  | Some seq =>
      Updated (map (fun s =>
        Some (mkSlide (sk_template s)
                (Some (match sk_locked s with Some true => true | _ => false end))
                (Some (sk_note s)) ∅)) (seq_slides seq))
  | None => TypeError
  end.

Definition initCustom : Slides :=
  [ Some (mkSlide "cover" (Some true) (Some "Cover (always first)") ∅);
    Some (mkSlide "single" None (Some "Your content") ∅);
    Some (mkSlide "cta" (Some true) (Some "CTA (always last)") ∅) ].

(** [{ ...next[idx], template: newTemplate, data: {} }]: spreading
    [undefined] gives no property. *)
Definition retemplate (old : option Slide) (newTemplate : string) : Slide :=
  match old with
  | Some s => mkSlide newTemplate (locked s) (note s) ∅
  | None => mkSlide newTemplate None None ∅
  end.

Definition changeTemplate (idx : Z) (newTemplate : string) (slides : Slides) : Handled :=
  Updated (arr_set slides idx (retemplate (arr_get slides idx) newTemplate)).

Definition addSlide (afterIdx : Z) (slides : Slides) : Handled :=
  if (12 <=? length slides)%nat then Returned
  else Updated (splice_insert slides (afterIdx + 1) (mkSlide "single" None (Some "") ∅)).

Definition removeSlide (idx : Z) (slides : Slides) : Handled :=
  if (length slides <=? 6)%nat then Returned
  else match arr_get slides idx with
       | None => TypeError
       | Some s =>
           if isLocked s then Returned
           else Updated (splice_remove slides idx)
       end.

(** The swap [[next[idx], next[targetIdx]] = [next[targetIdx], next[idx]]]:
    both reads come first.  The guards leave both positions inside the
    array. *)
Definition swap (slides : Slides) (i j : Z) : Slides :=
  let a := slides !! Z.to_nat i in
  let b := slides !! Z.to_nat j in
  match a, b with
  | Some x, Some y => <[Z.to_nat j := x]> (<[Z.to_nat i := y]> slides)
  | _, _ => slides
  end.

Definition moveSlide (idx dir : Z) (slides : Slides) : Handled :=
  let targetIdx := (idx + dir)%Z in
  if (targetIdx <=? 0)%Z || (Z.of_nat (length slides) - 1 <=? targetIdx)%Z then Returned
  else match arr_get slides idx with
       | None => TypeError
       | Some s =>
           if isLocked s then Returned
           else Updated (swap slides idx targetIdx)
       end.

(** ** Export *)

(** The [disabled] attribute of the Export button. *)
Definition exportDisabled (exporting : bool) (slides : Slides) : bool :=
  exporting || (length slides <? 6)%nat || (12 <? length slides)%nat.

(** A click on the Export button: a disabled button does not run its
    handler; otherwise [handleExport] hands the list to [exportPDF]. *)
Definition clickExport (exporting : bool) (slides : Slides) : option Slides :=
  if exportDisabled exporting slides then None else Some slides.

Section ExportLoop.
Context `{Host}.

(** One turn of the loop of [exportPDF], on the context the turns share. *)
Definition exportPDF_page (slides : Slides) (i : nat) (c : Context2D) : Outcome :=
  let scaleF := 2%Q in
  let canvasSize := (C.slide * scaleF)%Q in
  let '(_, c0, o0) :=
    (clearRect 0 0 canvasSize canvasSize ;; save ;; scale scaleF scaleF)%canvas c in
  match mjoin (slides !! i) with
  | None => Threw
  | Some s =>
      let showNum :=
        negb (existsb (String.eqb (template s))
                ["cover"; "cta"; "punchline"; "section_divider"]) in
      match renderers_get (template s) with
      | Own r =>
          let '(_, c1, o1) :=
            (r (data s) (if showNum then Some (i + 1)%nat else None) ;; restore)%canvas c0 in
          Rendered c1 (o0 ++ o1)
      | Inherited => InheritedCall
      | Undefined =>
          let '(_, c1, o1) := restore c0 in
          Skipped c1 (o0 ++ o1)
      end
  end.

End ExportLoop.

(** ** Calls of the handlers, one after the other *)

Inductive Call :=
| CallAdd (afterIdx : Z)
| CallRemove (idx : Z)
| CallMove (idx dir : Z)
| CallChange (idx : Z) (newTemplate : string).

Definition handle (c : Call) (slides : Slides) : Handled :=
  match c with
  | CallAdd a => addSlide a slides
  | CallRemove i => removeSlide i slides
  | CallMove i d => moveSlide i d slides
  | CallChange i t => changeTemplate i t slides
  end.

Definition run_call (c : Call) (slides : Slides) : Slides := after (handle c slides) slides.

(** The calls the controls of the editor make.  The template selector and
    the buttons of a slide are only shown for a slide that is not locked,
    so [changeTemplate] reaches a slide that is there and not locked;
    [addSlide] is called with [selectedIdx] of such a slide or with
    [slides.length - 2], so after a slide that is not the last one. *)
Definition fromControls (c : Call) (slides : Slides) : bool :=
  match c with
  | CallAdd a => (0 <=? a)%Z && (a <=? Z.of_nat (length slides) - 2)%Z
  | CallChange i _ =>
      match arr_get slides i with
      | Some s => negb (isLocked s)
      | None => false
      end
  | CallRemove _ | CallMove _ _ => true
  end.

Definition firstTemplate (slides : Slides) : option string :=
  template <$> mjoin (head slides).
Definition lastTemplate (slides : Slides) : option string :=
  template <$> mjoin (last slides).

(** The lists the editor can be in, when every handler may be called with
    any arguments. *)
Inductive reachableByCalls : Slides -> Prop :=
| rc_custom : reachableByCalls initCustom
| rc_sequence key s : initFromSequence key = Updated s -> reachableByCalls s
| rc_call s c : reachableByCalls s -> reachableByCalls (run_call c s).

(** The lists the editor can be in, when the handlers are called as its
    controls call them. *)
Inductive reachable : Slides -> Prop :=
| r_custom : reachable initCustom
| r_sequence key s : initFromSequence key = Updated s -> reachable s
| r_call s c : reachable s -> fromControls c s = true -> reachable (run_call c s).

(* ================================================================== *)
(** * Describing traces *)

(** The painting calls of a loop whose turns leave the context alone, turn
    by turn. *)
Fixpoint flatMapFrom {A} (i : nat) (l : list A) (g : A -> nat -> list Op) : list Op :=
  match l with
  | [] => []
  | x :: r => g x i ++ flatMapFrom (S i) r g
  end.

(** The calls that draw the non-blank lines of [lines], line [i] at
    [y + i * lineHeight]. *)
Definition drawnLines (d : DrawState) (lines : list string) (x y lineHeight : Q)
  : list Op :=
  flatMapFrom 0 lines (fun l i =>
    if negb (String.eqb l "") then [FillText (textOf d) l x (y + N2Q i * lineHeight)%Q]
    else []).

(** A name for the lines of one paragraph, and two tests on strings that
    the statements use: a string with a space in it, and a string of white
    space only. *)
Fixpoint hasSpace (s : string) : bool :=
  match s with
  | EmptyString => false
  | String c r => Ascii.eqb c " " || hasSpace r
  end.

Fixpoint allWhite (s : string) : bool :=
  match s with
  | EmptyString => true
  | String c r => Js.isWhiteSpace c && allWhite r
  end.

(** The lines one paragraph gives. *)
Definition paragraphLines (mt : string -> Q) (maxWidth : Q) (paragraph : string)
  : list string :=
  wrapParagraph mt maxWidth [] paragraph.

(** A host for examples: every character is 10 wide in every font. *)
Definition demoHost : Host :=
  {| measure := fun _ _ s => (N2Q (String.length s) * 10)%Q;
     toUpperCase := fun s => s;
     Math_cos := fun _ => 1%Q;
     Math_sin := fun _ => 0%Q;
     Math_PI := (355 # 113)%Q;
     hasLetterSpacing := true |}.

(** A host under which a sum of widths rounds: the string [a] measures
    the double nearest to 130.02 and the string [b] the double nearest to
    561.98, every other string nothing. *)
Definition roundingHost : Host :=
  {| measure := fun _ _ s =>
       if String.eqb s "a" then (4574672058989937 # 35184372088832)%Q
       else if String.eqb s "b" then (1235807089155113 # 2199023255552)%Q
       else 0%Q;
     toUpperCase := fun s => s;
     Math_cos := fun _ => 1%Q;
     Math_sin := fun _ => 0%Q;
     Math_PI := (355 # 113)%Q;
     hasLetterSpacing := true |}.

(* ================================================================== *)
(** * Describing what the loops draw *)

(** A loop with a running variable whose turns only add to the trace: the
    value of the variable after the turns, and the calls the turns make. *)
Fixpoint accFrom {A V} (step : V -> A -> nat -> V) (i : nat) (l : list A) (v : V) : V :=
  match l with
  | [] => v
  | x :: r => accFrom step (S i) r (step v x i)
  end.

Fixpoint flatMapAccFrom {A V} (step : V -> A -> nat -> V) (g : V -> A -> nat -> list Op)
  (i : nat) (l : list A) (v : V) : list Op :=
  match l with
  | [] => []
  | x :: r => g v x i ++ flatMapAccFrom step g (S i) r (step v x i)
  end.

(** ** Words drawn with and without emphasis *)

Section EmphasisTrace.
Context `{Host}.

(** The drawing state a word is emphasised in: the bold font, the ink. *)
Definition boldState (d : DrawState) : DrawState :=
  with_fillStyle C.ink (with_font (emphFont (font d)) d).

(** A word drawn with emphasis at [(cx, ly)]: the word in the bold state,
    and under it a line in the emphasis colour, 4 below the baseline, as
    long as the word is wide in the bold font. *)
Definition emphasisedWord (d : DrawState) (emphColor w : string) (cx ly : Q) : list Op :=
  [ FillText (textOf (boldState d)) w cx ly;
    Stroke (penOf (with_lineWidth 2 (with_strokeStyle emphColor (boldState d))))
      [MoveTo cx (ly + 4)%Q; LineTo (cx + measureWith (boldState d) w)%Q (ly + 4)%Q] ].

(** A word drawn as the text around it. *)
Definition plainWord (d : DrawState) (w : string) (cx ly : Q) : list Op :=
  [FillText (textOf d) w cx ly].

(** Where the next word starts. *)
Definition nextWordX (emph : string -> bool) (d : DrawState) (spW : Q) (n : nat)
  (cx : Q) (w : string) (wi : nat) : Q :=
  let cx1 := (cx + measureWith (if emph w then boldState d else d) w)%Q in
  if beforeLast wi n then (cx1 + spW)%Q else cx1.

(** The calls that draw the lines word by word, the words that [emph]
    picks with emphasis. *)
Definition emphasisTrace (emph : string -> bool) (d : DrawState) (emphColor : string)
  (lines : list string) (x y lineHeight : Q) : list Op :=
  flatMapFrom 0 lines (fun l i =>
    if String.eqb l "" then []
    else
      let words := Js.split " " l in
      let ly := (y + N2Q i * lineHeight)%Q in
      flatMapAccFrom (nextWordX emph d (measureWith d " ") (length words))
        (fun cx w _ =>
           if emph w then emphasisedWord d emphColor w cx ly else plainWord d w cx ly)
        0 words x).

End EmphasisTrace.

(** The test of the specification, word for word: the lower-case form of
    the word, with the punctuation at its start and at its end stripped. *)
Fixpoint stripPunctStart (s : string) : string :=
  match s with
  | EmptyString => EmptyString
  | String c r => if Js.isPunct c then stripPunctStart r else s
  end.

Fixpoint stripPunctEnd (s : string) : string :=
  match s with
  | EmptyString => EmptyString
  | String c r =>
      match stripPunctEnd r with
      | EmptyString => if Js.isPunct c then EmptyString else String c EmptyString
      | t => String c t
      end
  end.

Definition stripPunctEnds (s : string) : string := stripPunctStart (stripPunctEnd s).

Definition matchesAsSpecified (emphasisWord w : string) : Prop :=
  In (stripPunctEnds (Js.toLowerCase w)) (Js.split " " (Js.toLowerCase emphasisWord)).

(** The test of the code: the lower-case form of the word with every
    punctuation character removed. *)
Definition matchesPhrase (emphasisWord w : string) : Prop :=
  In (Js.removePunct (Js.toLowerCase w)) (Js.split " " (Js.toLowerCase emphasisWord)).

(** ** The flow diagram: what is drawn, and the layout of the specification *)

(** The calls one turn of [flowBox] makes. *)
Definition flowBoxTrace (d : DrawState) (rowLen : nat) (rw : list Q)
  (boxH yBox yMid yText curX : Q) (label : string) (i : nat) : list Op :=
  let bw := nth i rw 0%Q in
  let boxState := with_lineWidth 2 (with_strokeStyle C.ink d) in
  let arrowState := with_lineWidth 1.5 (with_strokeStyle C.ink d) in
  [ StrokeRect (penOf boxState) curX yBox bw boxH;
    FillText (textOf (with_textAlign "center"
                        (with_font labelFont (with_fillStyle C.ink boxState))))
      label (curX + bw / 2)%Q yText ]
  ++ (if beforeLast i rowLen then
        let ax := (curX + bw + 4)%Q in
        [ Stroke (penOf arrowState) [MoveTo ax yMid; LineTo (ax + arrowW - 8)%Q yMid];
          Fill (paintOf (with_fillStyle C.ink arrowState))
            [ MoveTo (ax + arrowW - 8)%Q yMid;
              LineTo (ax + arrowW - 14)%Q (yMid - 5)%Q;
              LineTo (ax + arrowW - 14)%Q (yMid + 5)%Q;
              ClosePath ] ]
      else []).

(** A box as drawn: a stroked rectangle with its label. *)
Record Box := mkBox { b_label : string; b_x : Q; b_y : Q; b_w : Q; b_h : Q }.

(** The boxes of a trace: the stroked rectangles that a text follows. *)
Fixpoint drawnBoxes (ops : list Op) : list Box :=
  match ops with
  | [] => []
  | op :: r =>
      match op, r with
      | StrokeRect _ x y w h, FillText _ s _ _ :: _ => mkBox s x y w h :: drawnBoxes r
      | _, _ => drawnBoxes r
      end
  end.

(** The arrowheads of a trace: the filled triangles, each given by its tip. *)
Fixpoint drawnArrowTips (ops : list Op) : list (Q * Q) :=
  match ops with
  | [] => []
  | Fill _ [MoveTo tx ty; LineTo _ _; LineTo _ _; ClosePath] :: r =>
      (tx, ty) :: drawnArrowTips r
  | _ :: r => drawnArrowTips r
  end.

(** The layout in the words of the specification.  A row is laid out from
    the left, each box followed by the width of an arrow; it is centred when
    it starts half its width left of the midline; the labels go in one row
    when the row fits the content width and otherwise in two rows, the first
    [ceil(n/2)] labels above.  Whether the row fits is asked of the width
    [total] of the row as a double. *)
Fixpoint rowFrom (x0 y h : Q) (items : list (string * Q)) : list Box :=
  match items with
  | [] => []
  | (s, w) :: r => mkBox s x0 y w h :: rowFrom (x0 + w + arrowW)%Q y h r
  end.

Definition rowWidth (ws : list Q) : Q := (sumQ ws + (N2Q (length ws) - 1) * arrowW)%Q.

Definition centredRow (cx y h : Q) (items : list (string * Q)) : list Box :=
  rowFrom (cx - rowWidth (map snd items) / 2)%Q y h items.

Definition flowRows (total : SpecFloat.spec_float) (contentW : Q)
  (items : list (string * Q)) : list (list (string * Q)) :=
  if F64.leb total (F64.ofQ contentW) then [items]
  else
    let half := ceilHalf (length items) in
    [firstn half items; skipn half items].

(** The tips of the arrows of a row at height [yMid]: one after every box
    that has a box to its right, 4 + [arrowW] - 8 past the box. *)
Fixpoint rowArrowTips (yMid : Q) (row : list Box) : list (Q * Q) :=
  match row with
  | b :: ((_ :: _) as r) => (b_x b + b_w b + 4 + arrowW - 8, yMid)%Q :: rowArrowTips yMid r
  | _ => []
  end.

(** The left edge of a row and its right edge. *)
Definition rowLeft (row : list Box) : Q :=
  match row with
  | b :: _ => b_x b
  | [] => 0
  end.

Definition rowRight (row : list Box) : Q :=
  match last row with
  | Some b => (b_x b + b_w b)%Q
  | None => 0
  end.

(** ** The cycle diagram *)

(** The calls one node makes. *)
Definition cycleNodeTrace `{Host} (d : DrawState) (n : nat) (cx cy radius nodeR : Q)
  (label : string) (i : nat) : list Op :=
  let angle := cycleAngle i n in
  let nx := (cx + Math_cos angle * radius)%Q in
  let ny := (cy + Math_sin angle * radius)%Q in
  let disc := [Arc nx ny nodeR 0 (Math_PI * 2)%Q] in
  let filled := with_fillStyle C.paper d in
  let edged := with_lineWidth 1.5 (with_strokeStyle C.ink filled) in
  [ Fill (paintOf filled) disc;
    Stroke (penOf edged) disc;
    FillText (textOf (with_textAlign "center" (with_font labelFont (with_fillStyle C.ink edged))))
      label nx (ny + 8)%Q ].

(** The nodes of a trace: the filled discs, each as centre and radius. *)
Fixpoint drawnNodes (ops : list Op) : list (Q * Q * Q) :=
  match ops with
  | [] => []
  | Fill _ [Arc x y r _ _] :: rest => (x, y, r) :: drawnNodes rest
  | _ :: rest => drawnNodes rest
  end.

(** An angle given in degrees, in radians; and the point of the circle
    around [(cx, cy)] at an angle. *)
Definition deg2rad `{Host} (deg : Q) : Q := (deg * Math_PI / 180)%Q.
Definition onRing `{Host} (cx cy radius angle : Q) : Q * Q :=
  ((cx + Math_cos angle * radius)%Q, (cy + Math_sin angle * radius)%Q).

Fixpoint mapFrom {A B} (i : nat) (l : list A) (f : A -> nat -> B) : list B :=
  match l with
  | [] => []
  | x :: r => f x i :: mapFrom (S i) r f
  end.

(** ** The ends of the slide list *)

(** The first slide is a locked cover, the last a locked call to action,
    and they are two slides. *)
Definition endsInPlace (slides : Slides) : bool :=
  match mjoin (slides !! 0%nat), mjoin (slides !! pred (length slides)) with
  | Some c, Some z =>
      String.eqb (template c) "cover" && isLocked c
      && String.eqb (template z) "cta" && isLocked z
      && (2 <=? length slides)%nat
  | _, _ => false
  end.

(* ================================================================== *)
(** * What a renderer reads from the context it is given *)

(** A set of attributes of the drawing state, and the current path. *)
Record Mask := mkMask {
  k_fill : bool; k_stroke : bool; k_font : bool; k_width : bool;
  k_alpha : bool; k_align : bool; k_dash : bool; k_cap : bool;
  k_join : bool; k_spacing : bool; k_xf : bool; k_path : bool
}.

(** Two drawing states agree on the attributes of a mask. *)
Definition agree (m : Mask) (d1 d2 : DrawState) : Prop :=
  (k_fill m = true -> fillStyle d1 = fillStyle d2)
  /\ (k_stroke m = true -> strokeStyle d1 = strokeStyle d2)
  /\ (k_font m = true -> font d1 = font d2)
  /\ (k_width m = true -> lineWidth d1 = lineWidth d2)
  /\ (k_alpha m = true -> globalAlpha d1 = globalAlpha d2)
  /\ (k_align m = true -> textAlign d1 = textAlign d2)
  /\ (k_dash m = true -> lineDash d1 = lineDash d2)
  /\ (k_cap m = true -> lineCap d1 = lineCap d2)
  /\ (k_join m = true -> lineJoin d1 = lineJoin d2)
  /\ (k_spacing m = true -> letterSpacing d1 = letterSpacing d2)
  /\ (k_xf m = true -> transform d1 = transform d2).

(** An abstract context: the mask of the current state, and the masks of
    the states saved since the start, the last one first. *)
Definition Abs : Type := Mask * list Mask.

Fixpoint stackAgree (ms : list Mask) (s1 s2 : list DrawState) : Prop :=
  match ms with
  | [] => True
  | m :: ms1 =>
      match s1, s2 with
      | d1 :: r1, d2 :: r2 => agree m d1 d2 /\ stackAgree ms1 r1 r2
      | _, _ => False
      end
  end.

(** Two contexts agree as far as an abstract context says. *)
Definition agreeCtx (a : Abs) (c1 c2 : Context2D) : Prop :=
  agree (fst a) (draw c1) (draw c2)
  /\ (k_path (fst a) = true -> path c1 = path c2)
  /\ stackAgree (snd a) (saved c1) (saved c2).

(** A program reads no more than [pre]: from two contexts that agree on
    [pre] it returns the same value, makes the same calls, and leaves
    contexts that agree on [post]. *)
Definition reads {X} (pre : Abs) (m : Canvas X) (post : Abs) : Prop :=
  forall c1 c2, agreeCtx pre c1 c2 ->
    value (m c1) = value (m c2)
    /\ trace (m c1) = trace (m c2)
    /\ agreeCtx post (final (m c1)) (final (m c2)).

(** The saved states since the start agree with the state [d0] of the
    start, each on its mask, and below them the stack is [s0] still. *)
Fixpoint stackKept (ms : list Mask) (d0 : DrawState) (s0 s : list DrawState) : Prop :=
  match ms with
  | [] => s = s0
  | m :: ms1 =>
      match s with
      | d :: r => agree m d0 d /\ stackKept ms1 d0 s0 r
      | [] => False
      end
  end.

Definition keptCtx (c0 : Context2D) (a : Abs) (c : Context2D) : Prop :=
  agree (fst a) (draw c0) (draw c) /\ stackKept (snd a) (draw c0) (saved c0) (saved c).

(** A program started in a context that still has the attributes [pre] of
    [c0] leaves one that has the attributes [post] of [c0]. *)
Definition keeps {X} (c0 : Context2D) (pre : Abs) (m : Canvas X) (post : Abs) : Prop :=
  forall c, keptCtx c0 pre c -> keptCtx c0 post (final (m c)).

Definition maskLe (m1 m2 : Mask) : bool :=
  implb (k_fill m1) (k_fill m2) && implb (k_stroke m1) (k_stroke m2)
  && implb (k_font m1) (k_font m2) && implb (k_width m1) (k_width m2)
  && implb (k_alpha m1) (k_alpha m2) && implb (k_align m1) (k_align m2)
  && implb (k_dash m1) (k_dash m2) && implb (k_cap m1) (k_cap m2)
  && implb (k_join m1) (k_join m2) && implb (k_spacing m1) (k_spacing m2)
  && implb (k_xf m1) (k_xf m2) && implb (k_path m1) (k_path m2).

Fixpoint stackLe (ms1 ms2 : list Mask) : bool :=
  match ms1, ms2 with
  | [], [] => true
  | m1 :: r1, m2 :: r2 => maskLe m1 m2 && stackLe r1 r2
  | _, _ => false
  end.

(** [absLe a b]: [a] asks for no more than [b] gives. *)
Definition absLe (a b : Abs) : bool := maskLe (fst a) (fst b) && stackLe (snd a) (snd b).

Definition maskMeet (m1 m2 : Mask) : Mask :=
  mkMask (k_fill m1 && k_fill m2) (k_stroke m1 && k_stroke m2)
    (k_font m1 && k_font m2) (k_width m1 && k_width m2)
    (k_alpha m1 && k_alpha m2) (k_align m1 && k_align m2)
    (k_dash m1 && k_dash m2) (k_cap m1 && k_cap m2)
    (k_join m1 && k_join m2) (k_spacing m1 && k_spacing m2)
    (k_xf m1 && k_xf m2) (k_path m1 && k_path m2).

(** What holds after either of two branches that leave as many saved
    states: the first branch's stack, with the masks both give. *)
Fixpoint stackMeet (ms1 ms2 : list Mask) : list Mask :=
  match ms1, ms2 with
  | m1 :: r1, m2 :: r2 => maskMeet m1 m2 :: stackMeet r1 r2
  | _, _ => []
  end.

Definition sameDepth (a b : Abs) : bool := (length (snd a) =? length (snd b))%nat.

Definition absMeet (a b : Abs) : Abs := (maskMeet (fst a) (fst b), stackMeet (snd a) (snd b)).

(** The mask with one attribute set to a given answer. *)
Definition mask_fill (b : bool) (m : Mask) : Mask :=
  mkMask b (k_stroke m) (k_font m) (k_width m) (k_alpha m) (k_align m)
    (k_dash m) (k_cap m) (k_join m) (k_spacing m) (k_xf m) (k_path m).
Definition mask_stroke (b : bool) (m : Mask) : Mask :=
  mkMask (k_fill m) b (k_font m) (k_width m) (k_alpha m) (k_align m)
    (k_dash m) (k_cap m) (k_join m) (k_spacing m) (k_xf m) (k_path m).
Definition mask_font (b : bool) (m : Mask) : Mask :=
  mkMask (k_fill m) (k_stroke m) b (k_width m) (k_alpha m) (k_align m)
    (k_dash m) (k_cap m) (k_join m) (k_spacing m) (k_xf m) (k_path m).
Definition mask_width (b : bool) (m : Mask) : Mask :=
  mkMask (k_fill m) (k_stroke m) (k_font m) b (k_alpha m) (k_align m)
    (k_dash m) (k_cap m) (k_join m) (k_spacing m) (k_xf m) (k_path m).
Definition mask_alpha (b : bool) (m : Mask) : Mask :=
  mkMask (k_fill m) (k_stroke m) (k_font m) (k_width m) b (k_align m)
    (k_dash m) (k_cap m) (k_join m) (k_spacing m) (k_xf m) (k_path m).
Definition mask_align (b : bool) (m : Mask) : Mask :=
  mkMask (k_fill m) (k_stroke m) (k_font m) (k_width m) (k_alpha m) b
    (k_dash m) (k_cap m) (k_join m) (k_spacing m) (k_xf m) (k_path m).
Definition mask_dash (b : bool) (m : Mask) : Mask :=
  mkMask (k_fill m) (k_stroke m) (k_font m) (k_width m) (k_alpha m) (k_align m)
    b (k_cap m) (k_join m) (k_spacing m) (k_xf m) (k_path m).
Definition mask_cap (b : bool) (m : Mask) : Mask :=
  mkMask (k_fill m) (k_stroke m) (k_font m) (k_width m) (k_alpha m) (k_align m)
    (k_dash m) b (k_join m) (k_spacing m) (k_xf m) (k_path m).
Definition mask_join (b : bool) (m : Mask) : Mask :=
  mkMask (k_fill m) (k_stroke m) (k_font m) (k_width m) (k_alpha m) (k_align m)
    (k_dash m) (k_cap m) b (k_spacing m) (k_xf m) (k_path m).
Definition mask_spacing (b : bool) (m : Mask) : Mask :=
  mkMask (k_fill m) (k_stroke m) (k_font m) (k_width m) (k_alpha m) (k_align m)
    (k_dash m) (k_cap m) (k_join m) b (k_xf m) (k_path m).
Definition mask_xf (b : bool) (m : Mask) : Mask :=
  mkMask (k_fill m) (k_stroke m) (k_font m) (k_width m) (k_alpha m) (k_align m)
    (k_dash m) (k_cap m) (k_join m) (k_spacing m) b (k_path m).
Definition mask_path (b : bool) (m : Mask) : Mask :=
  mkMask (k_fill m) (k_stroke m) (k_font m) (k_width m) (k_alpha m) (k_align m)
    (k_dash m) (k_cap m) (k_join m) (k_spacing m) (k_xf m) b.

(** What each kind of call reads. *)
Definition readsPaint (m : Mask) : bool := k_fill m && k_alpha m && k_xf m.
Definition readsPen (m : Mask) : bool :=
  k_stroke m && k_width m && k_alpha m && k_dash m && k_cap m && k_join m && k_xf m.
Definition readsText (m : Mask) : bool :=
  k_font m && k_fill m && k_alpha m && k_align m && k_spacing m && k_xf m.
Definition readsMeasure (m : Mask) : bool := k_font m && k_spacing m.

(** The attributes no renderer assigns before it uses them: opacity, text
    alignment, dash pattern, line cap, line join, letter spacing and the
    transform.  (Colours, font, line width and path are always assigned
    first.) *)
Definition entryMask : Mask :=
  mkMask false false false false true true true true true true true false.
Definition entryAbs : Abs := (entryMask, []).

(** ** The canvases of the program and their contexts *)

(** The values of three attributes that every renderer finds and leaves. *)
Definition atRest (d : DrawState) : Prop :=
  globalAlpha d = 1%Q /\ textAlign d = "start" /\ letterSpacing d = "0px".

(** What a turn of the loop of [exportPDF] does before it calls the
    renderer. *)
Definition pageSetup : Canvas unit :=
  (clearRect 0 0 (C.slide * 2) (C.slide * 2) ;; save ;; scale 2 2)%canvas.

(** The context of [exportPDF] before the first page and after each page. *)
Inductive exportIdle `{Host} : Context2D -> Prop :=
| idle_new : exportIdle freshContext
| idle_rendered slides i c c1 ops :
    exportIdle c -> exportPDF_page slides i c = Rendered c1 ops -> exportIdle c1
| idle_skipped slides i c c1 ops :
    exportIdle c -> exportPDF_page slides i c = Skipped c1 ops -> exportIdle c1.

(** [rendersOn size c]: the program calls a renderer on a canvas [size]
    pixels wide and high whose context is [c].  [SlideCanvas] does on a
    canvas it just sized and cleared, [exportPDF] on its canvas of twice
    the size after [pageSetup]; the last rule is a renderer called once
    more on the canvas a renderer just left. *)
Inductive rendersOn `{Host} : nat -> Context2D -> Prop :=
| on_preview : rendersOn 1080 (final (clearRect 0 0 C.slide C.slide freshContext))
| on_page c : exportIdle c -> rendersOn 2160 (final (pageSetup c))
| on_again size c name r data slideNum :
    rendersOn size c -> In (name, r) renderers ->
    rendersOn size (final (r data slideNum c)).

(** ** The surface *)

(** A pixel of the bitmap: column and row. *)
Definition Pixel : Type := (nat * nat)%type.

Definition onCanvas (size : nat) (p : Pixel) : Prop :=
  (fst p < size)%nat /\ (snd p < size)%nat.

(** The rectangle, scaled by the transform, covers the whole square of
    the pixel. *)
Definition covers (xf : Q * Q) (x y w h : Q) (p : Pixel) : bool :=
  Qle_bool (fst xf * x) (N2Q (fst p))
  && Qle_bool (N2Q (fst p) + 1) (fst xf * (x + w))
  && Qle_bool (snd xf * y) (N2Q (snd p))
  && Qle_bool (N2Q (snd p) + 1) (snd xf * (y + h)).

(** The surface after a list of painting calls, for a given meaning
    [paint] of one call on a surface. *)
Definition paintAll {S} (paint : Op -> S -> S) (ops : list Op) (s : S) : S :=
  fold_left (fun s1 op => paint op s1) ops s.

(** The calls a renderer starts with: one rectangle for the paper and for
    the closing slide, three bands for the cover. *)
Definition background (name : string) (xf : Q * Q) : list Op :=
  if String.eqb name "cover" then
    [ FillRect (mkPaint C.dark 1 xf) 0 0 C.coverBandL C.slide;
      FillRect (mkPaint C.paper 1 xf) C.coverBandL 0 C.coverChannelW C.slide;
      FillRect (mkPaint C.dark 1 xf) C.coverBandR 0 (C.slide - C.coverBandR)%Q C.slide ]
  else if String.eqb name "cta" then
    [ FillRect (mkPaint C.dark 1 xf) 0 0 C.slide C.slide ]
  else
    [ FillRect (mkPaint C.paper 1 xf) 0 0 C.slide C.slide ].

(** The canvas sizes and scales of the program. *)
Definition geometry (size : nat) (xf : Q * Q) : Prop :=
  (size = 1080%nat /\ xf = (1, 1)%Q) \/ (size = 2160%nat /\ xf = (2, 2)%Q).

(** ** A raster for examples *)

(** A raster that shows filled rectangles only: a pixel the rectangle
    covers takes its colour when the opacity is 1. *)
Definition demoPaint (op : Op) (s : Pixel -> string) : Pixel -> string :=
  match op with
  | FillRect pt x y w h =>
      fun p => if covers (p_xf pt) x y w h p && Qeq_bool (p_alpha pt) 1
               then p_fill pt else s p
  | _ => s
  end.

(** ** The loop of the ruled lines *)

(** After [k] turns from [y] the loop of [drawRuledLines] is past the
    bottom edge. *)
Fixpoint ruledStops (k : nat) (y : Q) : bool :=
  match k with
  | O => negb (Qleb y C.slide)
  | S k1 => ruledStops k1 (y + C.ruledInterval)%Q
  end.

(* ================================================================== *)
(** * The template table and the field editor *)

(** One entry of a [fields] array.  A property the entry does not have is
    [None] ([max], [type], [options]) or [false] ([multiline]). *)
Record FieldDef := mkField {
  fd_key : string;
  fd_label : string;
  fd_max : option nat;
  fd_type : option string;
  fd_options : option (list string);
  fd_placeholder : string;
  fd_multiline : bool
}.

Record TemplateDef := mkTemplate {
  td_name : string;
  td_fields : list FieldDef
}.

(** The three shapes of entry the table has. *)
Definition textF (key label : string) (max : nat) (placeholder : string) : FieldDef :=
  mkField key label (Some max) None None placeholder false.
Definition areaF (key label : string) (max : nat) (placeholder : string) : FieldDef :=
  mkField key label (Some max) None None placeholder true.
Definition selectF (key label : string) (options : list string) (placeholder : string)
  : FieldDef :=
  mkField key label None (Some "select") (Some options) placeholder false.

Definition TEMPLATES : list (string * TemplateDef) :=
  [ ("cover",
     mkTemplate "Cover (Corridor)"
       [ textF "title" "Title" 50 "Why Most Frameworks Fail";
         textF "subtitle" "Subtitle" 80
           "The difference between a model and a framework that sticks." ]);
    ("single",
     mkTemplate "Single Concept"
       [ textF "headline" "Headline" 50 "Constraints Are Creative Fuel";
         areaF "body" "Body" 200
           "When you remove options, you force clarity. The best work happens inside tight margins, not open fields.";
         textF "emphasis" "Emphasis words (bold+underline)" 30 "tight margins" ]);
    ("comparison",
     mkTemplate "Comparison"
       [ textF "left_header" "Left header" 25 "Storytelling";
         areaF "left_body" "Left body" 150
           "Linear narrative. One arc. Emotion-driven.";
         textF "right_header" "Right header" 25 "Worldbuilding";
         areaF "right_body" "Right body" 150
           "Systemic context. Many layers. Intuition-driven.";
         textF "vs_label" "VS label (optional)" 10 "VS" ]);
    ("framework",
     mkTemplate "Framework / Diagram"
       [ textF "title" "Title" 40 "4 Communication Styles";
         selectF "diagram_type" "Diagram Type" ["flow"; "quadrant"; "cycle"; "hierarchy"] "";
         textF "labels" "Labels (max 8)" 200 "Messenger, Filter, Diffuser, Prism";
         textF "caption" "Caption (optional)" 100
           "Be a Prism when engaging with different teams" ]);
    ("punchline",
     mkTemplate "Punchline"
       [ textF "text" "Punchline text" 80 "The emptiness IS the emphasis.";
         textF "emphasis" "Emphasis word (in red)" 15 "emphasis" ]);
    ("data",
     mkTemplate "Data / Evidence"
       [ textF "data_point" "Data point" 20 "73%";
         areaF "context" "Context" 120
           "of enterprise decisions are made with incomplete data, despite having more tools than ever.";
         textF "source" "Source" 60 "Gartner Research, 2024" ]);
    ("cta",
     mkTemplate "Closing CTA"
       [ textF "cta_text" "CTA text" 40 "Subscribe for more.";
         textF "url" "URL" 60 "tightmargins.com";
         textF "handle" "Handle (optional)" 30 "@tightmargins" ]);
    ("numbered_list",
     mkTemplate "Numbered List"
       [ textF "headline" "Headline" 40 "Three signs it's working";
         textF "item1_title" "Item 1 title" 30 "People steal your language";
         areaF "item1_body" "Item 1 description" 80
           "When someone outside your team uses your exact framing without prompting.";
         textF "item2_title" "Item 2 title" 30 "Decisions speed up";
         areaF "item2_body" "Item 2 description" 80
           "The model answers questions before you have to.";
         textF "item3_title" "Item 3 title" 30 "Exceptions prove the rule";
         areaF "item3_body" "Item 3 description" 80
           "Edge cases feel obvious instead of destabilising.";
         textF "item4_title" "Item 4 title (optional)" 30 "";
         areaF "item4_body" "Item 4 description (optional)" 80 "";
         textF "item5_title" "Item 5 title (optional)" 30 "";
         areaF "item5_body" "Item 5 description (optional)" 80 "" ]);
    ("quote",
     mkTemplate "Quote"
       [ areaF "quote_text" "Quote" 160
           "The best frameworks don't tell you what to think. They tell you what to look at.";
         textF "attribution" "Attribution" 40 "Charlie Munger";
         textF "role" "Role / source (optional)" 60
           "Vice Chairman, Berkshire Hathaway" ]);
    ("section_divider",
     mkTemplate "Section Divider"
       [ textF "part_label" "Part label" 20 "PART TWO";
         textF "section_title" "Section title" 30 "The Solution" ]);
    ("two_up",
     mkTemplate "Two-Up Callout"
       [ textF "headline" "Headline" 40 "Two things we got wrong";
         textF "item1_title" "Item 1 title" 35 "We optimised for speed";
         areaF "item1_body" "Item 1 body" 140
           "Speed is addictive. We shipped fast and assumed the market would reward us. It didn't.";
         textF "item2_title" "Item 2 title" 35 "We hired for skill, not fit";
         areaF "item2_body" "Item 2 body" 140
           "Brilliant people in the wrong context become blockers, not builders." ]);
    ("three_up",
     mkTemplate "Three-Up Callout"
       [ textF "headline" "Headline" 40 "The three pillars";
         textF "item1_title" "Item 1 title" 20 "Clarity";
         areaF "item1_body" "Item 1 body" 100
           "Everyone knows what the decision is and why it was made.";
         textF "item2_title" "Item 2 title" 20 "Constraint";
         areaF "item2_body" "Item 2 body" 100
           "The edges are defined. You know what's out of scope.";
         textF "item3_title" "Item 3 title" 20 "Rhythm";
         areaF "item3_body" "Item 3 body" 100
           "Progress is visible. Feedback loops are short." ]);
    ("checklist",
     mkTemplate "Checklist"
       [ textF "headline" "Headline" 40 "Building frameworks";
         textF "do1" "Do #1" 60 "Start with the decision it needs to support";
         textF "do2" "Do #2" 60 "Test with real edge cases early";
         textF "do3" "Do #3" 60 "Kill your darlings if they don't earn a slot";
         textF "do4" "Do #4 (optional)" 60 "";
         textF "dont1" "Don't #1" 60 "Design for theoretical completeness";
         textF "dont2" "Don't #2" 60 "Add axes to look rigorous";
         textF "dont3" "Don't #3" 60 "Name it before you've validated it";
         textF "dont4" "Don't #4 (optional)" 60 "" ]);
    ("blank",
     mkTemplate "Blank"
       [ textF "header" "Header (top)" 60 "Let that sink in.";
         areaF "callout" "Callout (bottom, optional)" 120
           "This is what most people get wrong about building in public." ]) ].

(** [TEMPLATES[template]] *)
Inductive TemplateLookup :=
| OwnT (def : TemplateDef)
| InheritedT
| UndefinedT.

Definition TEMPLATES_get (template : string) : TemplateLookup :=
  match assoc template TEMPLATES with
  | Some def => OwnT def
  | None =>
      if existsb (String.eqb template) objectPrototypeKeys then InheritedT
      else UndefinedT
  end.

(** [l.join(sep)] *)
Fixpoint join (sep : string) (l : list string) : string :=
  match l with
  | [] => ""
  | [s] => s
  | s :: r => s +:+ sep +:+ join sep r
  end.

(** ** [FieldEditor] *)

(** [len > field.max]: with no [max] the comparison is with [undefined]
    and fails. *)
Definition FieldEditor_over (fd : FieldDef) (value : string) : bool :=
  match fd_max fd with
  | Some m => (m <? String.length value)%nat
  | None => false
  end.

(** The option a select field shows as chosen: [value || field.options[0]]
    (an empty array of options gives [undefined], which equals no option). *)
Definition FieldEditor_chosen (options : list string) (value : string) : option string :=
  if Js.truthy value then Some value else head options.

(** The rows of the labels editor: the labels the value holds, and at
    least two rows. *)
Definition labelItems (value : string) : list string :=
  let items := Js.filterBoolean (map Js.trim (Js.split "," value)) in
  items ++ replicate (2 - length items) "".

(** [copy.filter((s) => s.trim()).join(", ")] *)
Definition joinLabels (copy : list string) : string :=
  join ", " (List.filter (fun s => Js.truthy (Js.trim s)) copy).

(** What the user does in the control of one field. *)
Inductive FieldAction :=
| Typed (v : string)
| Chosen (opt : string)
| LabelTyped (idx : nat) (v : string)
| LabelRemoved (idx : nat)
| LabelAdded.

(** What an input element with [maxLength] lets the user enter. *)
Definition fitsMaxLength (max : option nat) (v : string) : bool :=
  match max with
  | Some m => (String.length v <=? m)%nat
  | None => true
  end.

(** The value [FieldEditor] hands to [onChange] on an action; [None] when
    the control the field shows has no such action. *)
Definition FieldEditor_onChange (fd : FieldDef) (value : string) (act : FieldAction)
  : option string :=
  if match fd_type fd with Some t => String.eqb t "select" | None => false end then
    match act, fd_options fd with
    | Chosen opt, Some options =>
        if existsb (String.eqb opt) options then Some opt else None
    | _, _ => None
    end
  else if match fd_type fd with Some t => String.eqb t "labels" | None => false end then
    let items := labelItems value in
    match act with
    | LabelTyped idx v =>
        if (idx <? length items)%nat && fitsMaxLength (Some 25%nat) v
        then Some (joinLabels (<[idx := v]> items))
        else None
    | LabelRemoved idx =>
        if (2 <? length items)%nat && (idx <? length items)%nat
        then Some (joinLabels (take idx items ++ drop (S idx) items))
        else None
    | LabelAdded =>
        if (length items <? 8)%nat
        then Some (join ", " (List.filter (fun s => Js.truthy (Js.trim s)) items ++ [""]))
        else None
    | _ => None
    end
  else
    match act with
    | Typed v => if fitsMaxLength (fd_max fd) v then Some v else None
    | _ => None
    end.

(* ================================================================== *)
(** * The editor as a whole *)

(** [updateSlideData(idx, key, value)]: reading [next[idx].data] throws
    where the list has no slide. *)
Definition updateSlideData (idx : Z) (key value : string) (slides : Slides) : Handled :=
  match arr_get slides idx with
  | None => TypeError
  | Some s =>
      Updated (arr_set slides idx
                 (mkSlide (template s) (locked s) (note s) (<[key := value]> (data s))))
  end.

(** The state of [App]: [slides] is [null] until a pattern is chosen. *)
Record Editor := mkEditor {
  st_slides : option Slides;
  st_selectedIdx : Z;
  st_previewMode : bool;
  st_exporting : bool
}.

Definition initialEditor : Editor := mkEditor None 0 false false.

(** What running a handler comes to. *)
Inductive Ran :=
| Next (ed : Editor)
| Throws.

(** The handlers of [App] with what they do to the selection.  A handler
    that reads [slides.length], or spreads [prev], throws on [null]. *)
Definition App_initFromSequence (seqKey : string) (ed : Editor) : Ran :=
  match initFromSequence seqKey with
  | Updated s => Next (mkEditor (Some s) 0 false (st_exporting ed))
  | _ => Throws
  end.

Definition App_initCustom (ed : Editor) : Ran :=
  Next (mkEditor (Some initCustom) 0 false (st_exporting ed)).

Definition App_handler (h : Slides -> Handled) (select : Z -> Z) (ed : Editor) : Ran :=
  match st_slides ed with
  | None => Throws
  | Some s =>
      match h s with
      | Updated next =>
          Next (mkEditor (Some next) (select (st_selectedIdx ed))
                  (st_previewMode ed) (st_exporting ed))
      | Returned => Next ed
      | TypeError => Throws
      end
  end.

Definition App_updateSlideData (idx : Z) (key value : string) : Editor -> Ran :=
  App_handler (updateSlideData idx key value) (fun sel => sel).

Definition App_changeTemplate (idx : Z) (newTemplate : string) : Editor -> Ran :=
  App_handler (changeTemplate idx newTemplate) (fun sel => sel).

(** [setSelectedIdx(afterIdx + 1)] *)
Definition App_addSlide (afterIdx : Z) : Editor -> Ran :=
  App_handler (addSlide afterIdx) (fun _ => (afterIdx + 1)%Z).

(** [if (selectedIdx >= idx && selectedIdx > 0) setSelectedIdx(selectedIdx - 1)] *)
Definition App_removeSlide (idx : Z) : Editor -> Ran :=
  App_handler (removeSlide idx)
    (fun sel => if (idx <=? sel)%Z && (0 <? sel)%Z then (sel - 1)%Z else sel).

(** [setSelectedIdx(targetIdx)] *)
Definition App_moveSlide (idx dir : Z) : Editor -> Ran :=
  App_handler (moveSlide idx dir) (fun _ => (idx + dir)%Z).

(** ** What [App] shows *)

(** The templates no slide number is printed on. *)
Definition unnumbered : list string := ["cover"; "cta"; "punchline"; "section_divider"].

(** [showSlideNum ? selectedIdx + 1 : null] *)
Definition previewSlideNum (cur : Slide) (selectedIdx : Z) : option nat :=
  if negb (existsb (String.eqb (template cur)) unnumbered)
  then Some (Z.to_nat selectedIdx + 1)%nat else None.

Definition present (o : option Slide) : bool :=
  match o with Some _ => true | None => false end.

(** [TEMPLATES[s.template].name] can be read. *)
Definition named (o : option Slide) : bool :=
  match o with
  | Some s => match TEMPLATES_get (template s) with UndefinedT => false | _ => true end
  | None => false
  end.

(** The screen [App] returns, or that rendering it throws: on
    [currentSlide.template] when the selection names no slide; in the
    preview on [s.template] for a missing slide; in the editor on
    [TEMPLATES[s.template].name] for a missing slide or an unknown
    template, and on [templateDef.fields.map] when [templateDef] is not an
    entry of the table.  A missing slide is an element that is
    [undefined]; a hole of the array, which [map] passes over, is counted
    with them, so that for a list with a hole the model may say
    [RenderThrows] where [App] renders the slides that are there. *)
Inductive Screen :=
| PickerScreen
| PreviewScreen (slides : Slides) (cur : Slide)
| EditScreen (slides : Slides) (cur : Slide) (templateDef : TemplateDef)
| RenderThrows.

Definition App_screen (ed : Editor) : Screen :=
  match st_slides ed with
  | None => PickerScreen
  | Some s =>
      match arr_get s (st_selectedIdx ed) with
      | None => RenderThrows
      | Some cur =>
          if st_previewMode ed then
            if forallb present s then PreviewScreen s cur else RenderThrows
          else if forallb named s then
            match TEMPLATES_get (template cur) with
            | OwnT def => EditScreen s cur def
            | _ => RenderThrows
            end
          else RenderThrows
      end
  end.

(** The options of the template selector:
    [Object.entries(TEMPLATES).filter(([k]) => k !== "cover" && k !== "cta")]. *)
Definition selectableTemplates : list string :=
  List.filter (fun k => negb (String.eqb k "cover") && negb (String.eqb k "cta"))
    (map fst TEMPLATES).

(** ** The controls *)

Inductive Event :=
| ClickSequence (key : string)
| ClickCustom
| ClickNew
| ClickPreview
| ClickBack
| ClickPrev
| ClickNext
| ClickThumb (i : nat)
| ClickItem (i : nat)
| ClickAddSlide
| SelectTemplate (t : string)
| ChangeField (key : string) (act : FieldAction)
| ClickMoveUp
| ClickMoveDown
| ClickInsertAfter
| ClickRemove
| ClickExport
| ExportDone.

Definition fieldOf (def : TemplateDef) (key : string) : option FieldDef :=
  find (fun fd => String.eqb (fd_key fd) key) (td_fields def).

(** The control is on the screen and not disabled.  ([ExportDone] is the
    timer [handleExport] sets, not a control: it is due while [exporting]
    is set.) *)
Definition available (e : Event) (ed : Editor) : bool :=
  let sel := st_selectedIdx ed in
  match e, App_screen ed with
  | ExportDone, _ => st_exporting ed
  | ClickSequence key, PickerScreen => existsb (String.eqb key) (map fst SEQUENCES)
  | ClickCustom, PickerScreen => true
  | ClickBack, PreviewScreen _ _ => true
  | ClickPrev, PreviewScreen _ _ => negb (sel =? 0)%Z
  | ClickNext, PreviewScreen s _ => negb (sel =? Z.of_nat (length s) - 1)%Z
  | ClickThumb i, PreviewScreen s _ => (i <? length s)%nat
  | ClickNew, EditScreen _ _ _ => true
  | ClickPreview, EditScreen _ _ _ => true
  | ClickItem i, EditScreen s _ _ => (i <? length s)%nat
  | ClickAddSlide, EditScreen s _ _ => (length s <? 12)%nat
  | SelectTemplate t, EditScreen _ cur _ =>
      negb (isLocked cur) && existsb (String.eqb t) selectableTemplates
  | ChangeField key act, EditScreen _ cur def =>
      match fieldOf def key with
      | Some fd =>
          match FieldEditor_onChange fd (field (data cur) key) act with
          | Some _ => true
          | None => false
          end
      | None => false
      end
  | ClickMoveUp, EditScreen _ cur _ => negb (isLocked cur) && negb (sel <=? 1)%Z
  | ClickMoveDown, EditScreen s cur _ =>
      negb (isLocked cur) && negb (Z.of_nat (length s) - 2 <=? sel)%Z
  | ClickInsertAfter, EditScreen s cur _ => negb (isLocked cur) && negb (12 <=? length s)%nat
  | ClickRemove, EditScreen s cur _ => negb (isLocked cur) && negb (length s <=? 6)%nat
  | ClickExport, EditScreen s _ _ => negb (exportDisabled (st_exporting ed) s)
  | _, _ => false
  end.

Definition setSelectedIdx (i : Z) (ed : Editor) : Editor :=
  mkEditor (st_slides ed) i (st_previewMode ed) (st_exporting ed).
Definition setPreviewMode (b : bool) (ed : Editor) : Editor :=
  mkEditor (st_slides ed) (st_selectedIdx ed) b (st_exporting ed).
Definition setExporting (b : bool) (ed : Editor) : Editor :=
  mkEditor (st_slides ed) (st_selectedIdx ed) (st_previewMode ed) b.

(** The handler of the control. *)
Definition run (e : Event) (ed : Editor) : Ran :=
  let sel := st_selectedIdx ed in
  match e with
  | ClickSequence key => App_initFromSequence key ed
  | ClickCustom => App_initCustom ed
  | ClickNew => Next (mkEditor None 0 (st_previewMode ed) (st_exporting ed))
  | ClickPreview => Next (setPreviewMode true ed)
  | ClickBack => Next (setPreviewMode false ed)
  | ClickPrev => Next (setSelectedIdx (sel - 1) ed)
  | ClickNext => Next (setSelectedIdx (sel + 1) ed)
  | ClickThumb i | ClickItem i => Next (setSelectedIdx (Z.of_nat i) ed)
  | ClickAddSlide =>
      match st_slides ed with
      | Some s => App_addSlide (Z.of_nat (length s) - 2) ed
      | None => Throws
      end
  | SelectTemplate t => App_changeTemplate sel t ed
  | ChangeField key act =>
      match App_screen ed with
      | EditScreen _ cur def =>
          match fieldOf def key with
          | Some fd =>
              match FieldEditor_onChange fd (field (data cur) key) act with
              | Some v => App_updateSlideData sel key v ed
              | None => Next ed
              end
          | None => Next ed
          end
      | _ => Next ed
      end
  | ClickMoveUp => App_moveSlide sel (-1) ed
  | ClickMoveDown => App_moveSlide sel 1 ed
  | ClickInsertAfter => App_addSlide sel ed
  | ClickRemove => App_removeSlide sel ed
  | ClickExport => Next (setExporting true ed)
  | ExportDone => Next (setExporting false ed)
  end.

(** The states the controls lead to. *)
Inductive editorReachable : Editor -> Prop :=
| er_initial : editorReachable initialEditor
| er_step ed e ed1 :
    editorReachable ed -> available e ed = true -> run e ed = Next ed1 ->
    editorReachable ed1.

(** [handleResize]: the side of the preview canvas for a window [w] wide. *)
Definition handleResize (w : Z) : Z :=
  if (w <? 768)%Z then (w - 48)%Z
  else if (w <? 1200)%Z then Z.min 480 (w - 580)
  else 540%Z.

(** ** The shape of the slide list *)

(** A value the control of the field can have delivered: within the length
    the field allows, and for a select field one of its options. *)
Definition fieldHolds (fd : FieldDef) (v : string) : Prop :=
  FieldEditor_over fd v = false
  /\ (forall options, fd_options fd = Some options -> In v options).

(** The record of a slide holds values for fields of its template only,
    each as its control delivers it. *)
Definition dataFits (sl : Slide) : Prop :=
  exists def,
    assoc (template sl) TEMPLATES = Some def
    /\ forall k v, data sl !! k = Some v ->
         exists fd, fieldOf def k = Some fd /\ fieldHolds fd v.

(** A slide between the two ends, and a slide at an end. *)
Definition midSlide (sl : Slide) : Prop :=
  isLocked sl = false /\ In (template sl) selectableTemplates /\ dataFits sl.
Definition endSlide (t : string) (sl : Slide) : Prop :=
  isLocked sl = true /\ template sl = t /\ dataFits sl.

(** A list with no hole: a first slide, the slides between, a last slide. *)
Definition carousel (first : Slide) (mid : list Slide) (last : Slide) : Slides :=
  Some first :: (Some <$> mid) ++ [Some last].

Definition goodSlides (s : Slides) : Prop :=
  exists first mid last,
    s = carousel first mid last
    /\ endSlide "cover" first /\ Forall midSlide mid /\ endSlide "cta" last
    /\ (1 <= length mid <= 10)%nat.

Definition goodEditor (ed : Editor) : Prop :=
  match st_slides ed with
  | None => True
  | Some s => goodSlides s /\ (0 <= st_selectedIdx ed < Z.of_nat (length s))%Z
  end.

(** The slides of a list with no hole, and its three parts. *)
Fixpoint allPresent (s : Slides) : option (list Slide) :=
  match s with
  | [] => Some []
  | Some x :: r => match allPresent r with Some l => Some (x :: l) | None => None end
  | None :: _ => None
  end.

Definition uncarousel (s : Slides) : option (Slide * list Slide * Slide) :=
  match allPresent s with
  | Some (f :: r) =>
      match rev r with
      | l :: m => Some (f, rev m, l)
      | [] => None
      end
  | _ => None
  end.

(** Every field of the table is a text field with a length, or a select
    field with options and no length. *)
Definition plainField (fd : FieldDef) : bool :=
  match fd_type fd, fd_options fd, fd_max fd with
  | None, None, Some _ => true
  | Some t, Some _, None => String.eqb t "select"
  | _, _, _ => false
  end.

(** The slide of a state at an index, and the number of slides. *)
Definition slideAt (ed : Editor) (i : Z) : option Slide :=
  match st_slides ed with
  | Some s => arr_get s i
  | None => None
  end.

Definition slideCount (ed : Editor) : nat :=
  match st_slides ed with
  | Some s => length s
  | None => O
  end.

(** The slide [addSlide] inserts. *)
Definition blankSingle : Slide := mkSlide "single" None (Some "") ∅.

(** The editor after [ClickCustom] on the picker. *)
Definition customEditor : Editor := mkEditor (Some initCustom) 0 false false.

(** The custom skeleton with a title typed into the cover. *)
Definition titledCover : Slide :=
  mkSlide "cover" (Some true) (Some "Cover (always first)") (<["title" := "Why"]> ∅).
Definition titledEditor : Editor :=
  mkEditor (Some (arr_set initCustom 0 titledCover)) 0 false false.

(** The editor after a click on the sequence [hottake] on the picker, and
    after a click on the button below its list. *)
Definition hottakeSlides : Slides := after (initFromSequence "hottake") [].
Definition hottakeEditor : Editor := mkEditor (Some hottakeSlides) 0 false false.
Definition hottakeGrown : Editor :=
  mkEditor (Some (splice_insert hottakeSlides 6 blankSingle)) 6 false false.

(** The two buttons that move the current slide. *)
Definition moveEvent (up : bool) : Event := if up then ClickMoveUp else ClickMoveDown.

(** The same editor with its third slide selected, after that slide was
    moved up, and after a slide was inserted behind it. *)
Definition hottakeThird : Editor := mkEditor (Some hottakeSlides) 2 false false.
Definition hottakeMoved : Editor := mkEditor (Some (swap hottakeSlides 2 1)) 1 false false.
Definition hottakeInserted : Editor :=
  mkEditor (Some (splice_insert hottakeSlides 3 blankSingle)) 3 false false.

(** The custom skeleton in the preview, on its first and on its second
    slide. *)
Definition customPreview : Editor := mkEditor (Some initCustom) 0 true false.
Definition customPreviewNext : Editor := mkEditor (Some initCustom) 1 true false.

(** ** The loop of [exportPDF] *)

(** What [exportPDF] comes to once the fonts are there: the pages it hands
    to the PDF, each as the calls made on the canvas in its turn of the
    loop; or a turn threw. *)
Inductive Exported :=
| Saved (pages : list (list Op))
| ExportThrew.

(** The calls of a turn of the loop that ran a renderer or skipped it. *)
Definition pageOps (o : Outcome) : option (list Op) :=
  match o with
  | Rendered _ ops | Skipped _ ops => Some ops
  | Threw | InheritedCall => None
  end.

(** The call [renderers[name](ctx, data, slideNum)] of a value that
    [renderers] inherits from [Object.prototype].  For three of the twelve
    names it throws a [TypeError]: [__proto__] gives the prototype itself,
    which is no function, and [__defineGetter__] and [__defineSetter__]
    want a function for second argument, where the call passes the record
    of the slide.  The other nine return and make no call on the canvas:
    [constructor] gives the context back; [hasOwnProperty],
    [propertyIsEnumerable], [__lookupGetter__] and [__lookupSetter__] take
    the context for a property key and [isPrototypeOf] for an object, and
    look it up in [renderers]; [toString], [toLocaleString] and [valueOf]
    do not look at their arguments. *)
Definition inheritedCallThrows (name : string) : bool :=
  existsb (String.eqb name) ["__defineGetter__"; "__defineSetter__"; "__proto__"].

Section ExportAll.
Context `{Host}.

(** One turn of the loop, the call of an inherited value followed: the
    context the turn leaves and the calls it made on the canvas, or [None]
    when the turn throws.  An inherited value that returns leaves a turn of
    [clearRect], [save], [scale] and [restore]. *)
Definition exportPDF_turn (slides : Slides) (i : nat) (c : Context2D)
  : option (Context2D * list Op) :=
  match exportPDF_page slides i c with
  | Rendered c1 ops | Skipped c1 ops => Some (c1, ops)
  | Threw => None
  | InheritedCall =>
      match mjoin (slides !! i) with
      | Some s =>
          if inheritedCallThrows (template s) then None
          else
            let '(_, c1, ops) := (pageSetup ;; restore)%canvas c in
            Some (c1, ops)
      | None => None
      end
  end.

(** The calls of one turn of the loop. *)
Definition turnOps (slides : Slides) (i : nat) (c : Context2D) : option (list Op) :=
  option_map snd (exportPDF_turn slides i c).

(** The turns [i], [i + 1], ... of the loop, [todo] of them, on the one
    context they share. *)
Fixpoint exportPDF_from (slides : Slides) (todo i : nat) (c : Context2D) : Exported :=
  match todo with
  | O => Saved []
  | S k =>
      match exportPDF_turn slides i c with
      | Some (c1, ops) =>
          match exportPDF_from slides k (S i) c1 with
          | Saved pages => Saved (ops :: pages)
          | ExportThrew => ExportThrew
          end
      | None => ExportThrew
      end
  end.

Definition exportPDF (slides : Slides) : Exported :=
  exportPDF_from slides (length slides) 0 freshContext.

End ExportAll.

(** The keys of the fields [TEMPLATES] declares for a template. *)
Definition declaredKeys (name : string) : list string :=
  match assoc name TEMPLATES with
  | Some def => map fd_key (td_fields def)
  | None => []
  end.

(** Two records of a cover that differ in a key the template does not
    declare. *)
Definition coverData : Data := <["title" := "Why"]> ∅.
Definition coverDataNoted : Data := <["title" := "Why"]> (<["remark" := "draft"]> ∅).

(** ** The text a trace draws *)

(** The characters of a string that are not white space. *)
Fixpoint visible (s : string) : string :=
  match s with
  | EmptyString => EmptyString
  | String c r => if Js.isWhiteSpace c then visible r else String c (visible r)
  end.

(** The strings of a list, one after the other. *)
Definition joined (l : list string) : string := fold_right String.append "" l.

(** The strings the calls of [fillText] in a trace draw, one after the
    other. *)
Definition drawnText (ops : list Op) : string :=
  joined (flat_map (fun op => match op with FillText _ s _ _ => [s] | _ => [] end) ops).

(** A string with the character [ch] in it. *)
Fixpoint hasChar (ch : ascii) (s : string) : bool :=
  match s with
  | EmptyString => false
  | String c r => Ascii.eqb c ch || hasChar ch r
  end.

(** A context that was drawn on: another fill colour and font, a saved
    state, a path. *)
Definition usedContext : Context2D :=
  mkCtx (with_font "700 68px 'Inter Tight', sans-serif" (with_fillStyle C.ink defaultDraw))
    [defaultDraw] [MoveTo 0 0; LineTo 10 10].

(** The style the slide number is drawn in, in a drawing state. *)
Definition slideNumStyle (d : DrawState) : TextStyle :=
  mkText "400 20px 'JetBrains Mono', monospace" C.grey
    (globalAlpha d) (textAlign d) (letterSpacing d) (transform d).

(** ** A context under another transform *)

(** The drawing state, the context and a painting call with the transform
    [xf] in place of theirs. *)
Definition with_transform (xf : Q * Q) (d : DrawState) : DrawState :=
  mkDraw (fillStyle d) (strokeStyle d) (font d) (lineWidth d) (globalAlpha d) (textAlign d)
    (lineDash d) (lineCap d) (lineJoin d) (letterSpacing d) xf.

Definition ctxAt (xf : Q * Q) (c : Context2D) : Context2D :=
  mkCtx (with_transform xf (draw c)) (map (with_transform xf) (saved c)) (path c).

Definition opAt (xf : Q * Q) (op : Op) : Op :=
  match op with
  | ClearRect _ x y w h => ClearRect xf x y w h
  | FillRect p x y w h => FillRect (mkPaint (p_fill p) (p_alpha p) xf) x y w h
  | StrokeRect p x y w h =>
      StrokeRect (mkPen (n_stroke p) (n_width p) (n_alpha p) (n_dash p) (n_cap p) (n_join p) xf)
        x y w h
  | FillText t s x y =>
      FillText (mkText (t_font t) (t_fill t) (t_alpha t) (t_align t) (t_spacing t) xf) s x y
  | Stroke p pth =>
      Stroke (mkPen (n_stroke p) (n_width p) (n_alpha p) (n_dash p) (n_cap p) (n_join p) xf) pth
  | Fill p pth => Fill (mkPaint (p_fill p) (p_alpha p) xf) pth
  end.

(** A program that does under the transform [xf] what it does under any
    other: it returns the same and makes the same calls, with [xf] in
    them. *)
Definition scaled {X} (xf : Q * Q) (m : Canvas X) : Prop :=
  forall c,
    m (ctxAt xf c)
    = (value (m c), ctxAt xf (final (m c)), map (opAt xf) (trace (m c))).

(** The two ends of the custom skeleton, the editor on a list between
    them, and the templates of the slides of a list (a hole has none). *)
Definition coverSlide : Slide := mkSlide "cover" (Some true) (Some "Cover (always first)") ∅.
Definition ctaSlide : Slide := mkSlide "cta" (Some true) (Some "CTA (always last)") ∅.
Definition customWith (mid : list Slide) (sel : Z) : Editor :=
  mkEditor (Some (carousel coverSlide mid ctaSlide)) sel false false.
Definition templatesOf (s : Slides) : list string :=
  map (fun o => match o with Some sl => template sl | None => "" end) s.

(** ** The colours of the design system *)

(** One of the six colours of [C]. *)
Definition inPalette (v : string) : bool :=
  existsb (String.eqb v) [C.paper; C.ink; C.red; C.dark; C.grey; C.callout].

(** A painting call in one of these colours ([clearRect] has none). *)
Definition opInPalette (op : Op) : bool :=
  match op with
  | ClearRect _ _ _ _ _ => true
  | FillRect p _ _ _ _ | Fill p _ => inPalette (p_fill p)
  | StrokeRect p _ _ _ _ | Stroke p _ => inPalette (n_stroke p)
  | FillText t _ _ _ => inPalette (t_fill t)
  end.

(** A drawing state, and a context with its saved states, whose fill and
    stroke colours are of the palette. *)
Definition drawInPalette (d : DrawState) : Prop :=
  inPalette (fillStyle d) = true /\ inPalette (strokeStyle d) = true.
Definition ctxInPalette (c : Context2D) : Prop :=
  drawInPalette (draw c) /\ Forall drawInPalette (saved c).

(** A program that stays in the palette: started in it, it paints in it
    and leaves the context in it. *)
Definition palettes {X} (m : Canvas X) : Prop :=
  forall c, ctxInPalette c ->
    forallb opInPalette (trace (m c)) = true /\ ctxInPalette (final (m c)).

(** The context with ink for its colours and nothing saved. *)
Definition inked (c : Context2D) : Context2D :=
  mkCtx (with_strokeStyle C.ink (with_fillStyle C.ink (draw c))) [] (path c).

(** ** The texts a trace draws *)

(** The strings the calls of [fillText] in a trace draw, in order. *)
Definition textsDrawn (ops : list Op) : list string :=
  flat_map (fun op => match op with FillText _ s _ _ => [s] | _ => [] end) ops.

(** A program that draws the strings [l], whatever the context. *)
Definition says {X} (m : Canvas X) (l : list string) : Prop :=
  forall c, textsDrawn (trace (m c)) = l.

(** The strings of the turns of a loop, one turn after the other. *)
Fixpoint saysFrom {A} (i : nat) (l : list A) (g : A -> nat -> list string) : list string :=
  match l with
  | [] => []
  | x :: r => g x i ++ saysFrom (S i) r g
  end.

(** The labels a diagram of the framework slide shows, by the words of
    the template: all of them, the quadrant the first four. *)
Definition diagramLabels (type : string) (labels : list string) : list string :=
  if String.eqb type "flow" then labels
  else if String.eqb type "quadrant" then firstn 4 labels
  else if String.eqb type "cycle" then labels
  else if String.eqb type "hierarchy" then labels
  else [].

(* ================================================================== *)
(** * Proofs *)

(** Runs a straight-line canvas program on a context given by its parts. *)
Ltac canvas_run :=
  cbv beta iota zeta delta
    [bind ret save restore modify emit measureText get_font get_fillStyle
     set_strokeStyle set_lineWidth set_globalAlpha set_fillStyle set_font set_textAlign
     setLineDash set_lineCap set_lineJoin set_letterSpacing scale
     strokeRect fillRect clearRect fillText beginPath moveTo lineTo arc closePath
     fill stroke addPath
     with_fillStyle with_strokeStyle with_font with_lineWidth with_globalAlpha
     with_textAlign with_lineDash with_lineCap with_lineJoin with_letterSpacing with_scale
     draw saved path fillStyle strokeStyle font lineWidth globalAlpha textAlign
     lineDash lineCap lineJoin letterSpacing transform paintOf penOf textOf
     trace final value fst snd app].

Ltac split_ctx c :=
  let d := fresh "d" in
  destruct c as [d ? ?]; destruct d.

(** ** Strings *)

Module JsFacts.
Import Js.

Lemma trimEnd_app_space (w : string) : trimEnd (w +:+ " ") = trimEnd w.
Proof.
  induction w as [|c w IH]; [reflexivity|].
  simpl. now rewrite IH.
Qed.

Lemma trim_app_space (w : string) : trim (w +:+ " ") = trim w.
Proof. unfold trim. now rewrite trimEnd_app_space. Qed.

Lemma split_nonempty sep s : split sep s <> [].
Proof.
  destruct s as [|c r]; cbn; [discriminate|].
  destruct (Ascii.eqb c sep); [discriminate|].
  destruct (split sep r); discriminate.
Qed.


Lemma split_nospace s : hasSpace s = false -> split " " s = [s].
Proof.
  induction s as [|c r IH]; intros Hs; [reflexivity|].
  cbn in Hs. apply orb_false_iff in Hs as [Hc Hr].
  cbn. rewrite Hc, (IH Hr). reflexivity.
Qed.




Lemma trimEnd_empty_iff s : trimEnd s = "" <-> allWhite s = true.
Proof.
  induction s as [|c r IH]; cbn; [tauto|].
  destruct (trimEnd r) as [|c1 t] eqn:Ht.
  - destruct (isWhiteSpace c); cbn.
    + split; intros _; [now apply IH | reflexivity].
    + split; discriminate.
  - split; [discriminate|]. intros Hw. apply andb_true_iff in Hw as [_ Hw].
    apply IH in Hw. discriminate.
Qed.

Lemma trimStart_white s : allWhite s = true -> trimStart s = "".
Proof.
  induction s as [|c r IH]; cbn; [reflexivity|].
  intros Hw. apply andb_true_iff in Hw as [-> Hr]. now apply IH.
Qed.

Lemma trimStart_empty_white s : trimStart s = "" -> allWhite s = true.
Proof.
  induction s as [|c r IH]; cbn; [reflexivity|].
  destruct (isWhiteSpace c); [intros Hs; now apply IH | discriminate].
Qed.

Lemma trimEnd_white_inv s : allWhite (trimEnd s) = true -> allWhite s = true.
Proof.
  induction s as [|c r IH]; cbn; [reflexivity|].
  destruct (trimEnd r) as [|c1 t] eqn:Ht.
  - destruct (isWhiteSpace c) eqn:Hc; cbn; [|rewrite Hc; discriminate].
    intros _. now apply IH.
  - cbn [allWhite]. intros Hw. apply andb_true_iff in Hw as [-> Hw]. now apply IH.
Qed.

Lemma trim_empty_iff s : trim s = "" <-> allWhite s = true.
Proof.
  unfold trim. split.
  - intros Hs. now apply trimEnd_white_inv, trimStart_empty_white.
  - intros Hw. apply trimEnd_empty_iff in Hw. now rewrite Hw.
Qed.


End JsFacts.


(** ** Numbers *)

Lemma Qgtb_true a b : Qgtb a b = true <-> (b < a)%Q.
Proof.
  unfold Qgtb. rewrite negb_true_iff. split.
  - intros Hle. apply Qnot_le_lt. intros Hab. apply Qle_bool_iff in Hab. congruence.
  - intros Hlt. destruct (Qle_bool a b) eqn:Hle; [|reflexivity].
    apply Qle_bool_iff in Hle. exfalso. exact (Qlt_not_le _ _ Hlt Hle).
Qed.


(** ** Loops that leave the context alone *)

Lemma forEachFrom_stateless {A} (body : A -> nat -> Canvas unit)
  (g : A -> nat -> list Op) (c : Context2D) :
  (forall x i, body x i c = (tt, c, g x i)) ->
  forall l i, forEachFrom i l body c = (tt, c, flatMapFrom i l g).
Proof.
  intros Hbody l. induction l as [|x r IH]; intros i; [reflexivity|].
  cbn [forEachFrom flatMapFrom]. unfold bind. rewrite Hbody, IH. reflexivity.
Qed.

Lemma in_flatMapFrom {A} (g : A -> nat -> list Op) op l i :
  In op (flatMapFrom i l g) -> exists x k, In x l /\ In op (g x k).
Proof.
  revert i. induction l as [|x r IH]; intros i Hin; cbn in Hin; [contradiction|].
  apply in_app_or in Hin as [Hin|Hin].
  - exists x, i. split; [now left | exact Hin].
  - destruct (IH _ Hin) as (x1 & k & Hx & Hop). exists x1, k. split; [now right | exact Hop].
Qed.

(** ** [wrapText] *)

Section WrapText.
Context `{Host}.

Lemma wrapText_empty x y W lh c : wrapText "" x y W lh c = (O, c, []).
Proof. reflexivity. Qed.

(** What a call of [wrapText] on a non-empty text comes to: the context is
    left as it was, the lines are counted, the non-blank ones drawn. *)
Lemma wrapText_run text x y W lh c :
  Js.truthy text = true ->
  wrapText text x y W lh c
  = (length (layoutLines (measureWith (draw c)) text W), c,
     drawnLines (draw c) (layoutLines (measureWith (draw c)) text W) x y lh).
Proof.
  intros Ht. unfold wrapText. rewrite Ht. cbn [negb].
  unfold bind, measureText, forEach, drawnLines. cbv beta iota zeta.
  rewrite (forEachFrom_stateless _
    (fun l i => if negb (String.eqb l "")
                then [FillText (textOf (draw c)) l x (y + N2Q i * lh)%Q] else [])).
  - unfold ret. cbn [app]. now rewrite app_nil_r.
  - intros l i. destruct (String.eqb l ""); reflexivity.
Qed.

Lemma wrapWord_fold_app (mt : string -> Q) W words lines line :
  fold_left (wrapWord mt W) words (lines, line)
  = (lines ++ fst (fold_left (wrapWord mt W) words ([], line)),
     snd (fold_left (wrapWord mt W) words ([], line))).
Proof.
  revert lines line. induction words as [|w r IH]; intros lines line.
  - cbn. now rewrite app_nil_r.
  - cbn [fold_left]. unfold wrapWord at 2 4 6.
    destruct (Qgtb _ _ && _).
    + rewrite (IH (lines ++ [Js.trim line])), (IH ([] ++ [Js.trim line])).
      cbn. now rewrite <- app_assoc.
    + apply IH.
Qed.

Lemma wrapParagraph_app (mt : string -> Q) W lines p :
  wrapParagraph mt W lines p = lines ++ paragraphLines mt W p.
Proof.
  unfold paragraphLines, wrapParagraph.
  destruct (String.eqb (Js.trim p) ""); [reflexivity|].
  rewrite wrapWord_fold_app.
  destruct (fold_left (wrapWord mt W) (Js.split " " p) ([], "")) as [l1 ln].
  cbn. now rewrite app_assoc.
Qed.

(** The lines of a text are the lines of its paragraphs, in order. *)
Lemma layoutLines_paragraphs (mt : string -> Q) text W :
  layoutLines mt text W = concat (map (paragraphLines mt W) (Js.split "010" text)).
Proof.
  unfold layoutLines.
  assert (Hgen : forall ps acc,
    fold_left (wrapParagraph mt W) ps acc = acc ++ concat (map (paragraphLines mt W) ps)).
  { induction ps as [|p r IH]; intros acc; cbn.
    - now rewrite app_nil_r.
    - rewrite IH, wrapParagraph_app. now rewrite <- app_assoc. }
  apply (Hgen _ []).
Qed.

Lemma paragraphLines_blank (mt : string -> Q) W p :
  Js.trim p = "" -> paragraphLines mt W p = [""].
Proof.
  intros Hp. unfold paragraphLines, wrapParagraph. now rewrite Hp.
Qed.

Lemma in_drawnLines d lines x y lh t l px py :
  In (FillText t l px py) (drawnLines d lines x y lh) ->
  In l lines /\ l <> "" /\ t = textOf d /\ px = x.
Proof.
  unfold drawnLines. intros Hin.
  apply in_flatMapFrom in Hin as (l1 & k & Hl & Hop).
  destruct (String.eqb l1 "") eqn:He; cbn in Hop; [contradiction|].
  destruct Hop as [Hop|[]]. inversion Hop; subst.
  apply String.eqb_neq in He. auto.
Qed.

(** A line is good when it is within the width or is one word alone. *)
Section Paragraph.
Variables (mt : string -> Q) (W : Q) (ws : list string).
Hypothesis measure_trim : forall s, (mt (Js.trim s) <= mt s)%Q.




End Paragraph.



End WrapText.

(** ** The example host *)





Example layoutLines_demo :
  layoutLines (@measureWith demoHost defaultDraw) "the quick brown fox jumps" 100
  = ["the quick"; "brown fox"; "jumps"].
Proof. vm_compute. reflexivity. Qed.

(** A word wider than the width stands alone and whole. *)
Example layoutLines_demo_wide :
  layoutLines (@measureWith demoHost defaultDraw) "a verylongsingleword b" 100
  = ["a"; "verylongsingleword"; "b"].
Proof. vm_compute. reflexivity. Qed.

(** ** Blank paragraphs *)

Section BlankParagraphs.
Context `{Host}.

Lemma wrapWord_first (mt : string -> Q) W lines w :
  wrapWord mt W (lines, "") w = (lines, w +:+ " ").
Proof. unfold wrapWord. cbn. now rewrite andb_false_r. Qed.

(** A paragraph of one word gives one line. *)
Lemma paragraphLines_single (mt : string -> Q) W w :
  hasSpace w = false -> Js.trim w <> "" -> paragraphLines mt W w = [Js.trim w].
Proof.
  intros Hs Hne. unfold paragraphLines, wrapParagraph.
  apply String.eqb_neq in Hne. rewrite Hne.
  rewrite (JsFacts.split_nospace _ Hs). cbn [fold_left].
  rewrite wrapWord_first. cbn [app]. now rewrite JsFacts.trim_app_space.
Qed.

(** C6, the general part, for a text that is not empty: the lines are those
    of the paragraphs between the newlines; a paragraph of white space gives
    one blank line; the count returned counts every line, blank ones too;
    and no blank line is drawn.  The particular part: on the text made of
    the letter a, two newlines and the letter b, whatever the host, the
    context and the width, [wrapText] returns 3 and draws the two letters,
    on the first and on the third line. *)
Theorem wrapText_blank_paragraphs (c : Context2D) (x y maxWidth lineHeight : Q) :
  let width := measureWith (draw c) in
  (forall text, Js.truthy text = true ->
     layoutLines width text maxWidth
       = concat (map (paragraphLines width maxWidth) (Js.split "010" text))
     /\ (forall p, In p (Js.split "010" text) -> allWhite p = true ->
           paragraphLines width maxWidth p = [""])
     /\ value (wrapText text x y maxWidth lineHeight c)
          = length (layoutLines width text maxWidth)
     /\ trace (wrapText text x y maxWidth lineHeight c)
          = drawnLines (draw c) (layoutLines width text maxWidth) x y lineHeight
     /\ (forall t l px py,
           In (FillText t l px py) (trace (wrapText text x y maxWidth lineHeight c)) ->
           l <> ""))
  /\ wrapText ("a" +:+ Js.nl +:+ Js.nl +:+ "b") x y maxWidth lineHeight c
     = (3%nat, c,
        [ FillText (textOf (draw c)) "a" x (y + N2Q 0 * lineHeight)%Q;
          FillText (textOf (draw c)) "b" x (y + N2Q 2 * lineHeight)%Q ]).
Proof.
  intros width. subst width. split.
  - intros text Ht. rewrite (wrapText_run _ _ _ _ _ _ Ht). cbn [value trace fst snd].
    repeat split.
    + apply layoutLines_paragraphs.
    + intros p _ Hw. apply paragraphLines_blank. now apply JsFacts.trim_empty_iff.
    + intros t l px py Hin. now apply in_drawnLines in Hin.
  - rewrite wrapText_run by reflexivity.
    assert (Hl : layoutLines (measureWith (draw c)) ("a" +:+ Js.nl +:+ Js.nl +:+ "b")
                   maxWidth = ["a"; ""; "b"]).
    { rewrite layoutLines_paragraphs.
      replace (Js.split "010" ("a" +:+ Js.nl +:+ Js.nl +:+ "b")) with ["a"; ""; "b"]
        by (vm_compute; reflexivity).
      cbn [map concat].
      rewrite (paragraphLines_single _ maxWidth "a"),
        (paragraphLines_single _ maxWidth "b") by (reflexivity || discriminate).
      rewrite (paragraphLines_blank _ maxWidth "") by reflexivity.
      reflexivity. }
    rewrite Hl. reflexivity.
Qed.

End BlankParagraphs.

(** C6 as it is worded fails on the empty text: its one paragraph is empty
    and would give one blank line, and [wrapText] returns 0 at its guard. *)
Lemma wrapText_empty_text_counts_nothing :
  Js.split "010" "" = [""]
  /\ map (paragraphLines (@measureWith demoHost defaultDraw) 100) (Js.split "010" "")
     = [[""]]
  /\ value (@wrapText demoHost "" 0 0 100 10 freshContext) = 0%nat.
Proof. repeat split. Qed.

(** C6 at work under the example host. *)
Lemma wrapText_blank_paragraphs_witness :
  Js.truthy (" " +:+ Js.nl +:+ "x") = true
  /\ value (@wrapText demoHost (" " +:+ Js.nl +:+ "x") 0 0 100 10 freshContext) = 2%nat
  /\ trace (@wrapText demoHost (" " +:+ Js.nl +:+ "x") 0 0 100 10 freshContext)
     = [FillText (textOf defaultDraw) "x" 0 (0 + N2Q 1 * 10)%Q].
Proof.
  destruct (@wrapText_blank_paragraphs demoHost freshContext 0 0 100 10) as [Hgen _].
  destruct (Hgen (" " +:+ Js.nl +:+ "x") eq_refl) as (_ & _ & Hv & Ht & _).
  split; [reflexivity|]. split.
  - rewrite Hv. reflexivity.
  - rewrite Ht. reflexivity.
Defined.

(** ** Loops whose turns keep the drawing state and the stack *)

Lemma forEachFrom_frame {A} (body : A -> nat -> Canvas unit) (g : A -> nat -> list Op) d sv :
  (forall x i pt, exists pt1, body x i (mkCtx d sv pt) = (tt, mkCtx d sv pt1, g x i)) ->
  forall l i pt, exists pt1,
    forEachFrom i l body (mkCtx d sv pt) = (tt, mkCtx d sv pt1, flatMapFrom i l g).
Proof.
  intros Hbody l. induction l as [|x r IH]; intros i pt.
  - exists pt. reflexivity.
  - destruct (Hbody x i pt) as [pt1 H1]. destruct (IH (S i) pt1) as [pt2 H2].
    exists pt2. cbn [forEachFrom flatMapFrom]. unfold bind. rewrite H1, H2. reflexivity.
Qed.

Lemma forEachAccFrom_frame {A V} (body : V -> A -> nat -> Canvas V)
  (step : V -> A -> nat -> V) (g : V -> A -> nat -> list Op) d sv :
  (forall v x i pt, exists pt1,
     body v x i (mkCtx d sv pt) = (step v x i, mkCtx d sv pt1, g v x i)) ->
  forall l i v pt, exists pt1,
    forEachAccFrom i l v body (mkCtx d sv pt)
    = (accFrom step i l v, mkCtx d sv pt1, flatMapAccFrom step g i l v).
Proof.
  intros Hbody l. induction l as [|x r IH]; intros i v pt.
  - exists pt. reflexivity.
  - destruct (Hbody v x i pt) as [pt1 H1]. destruct (IH (S i) (step v x i) pt1) as [pt2 H2].
    exists pt2. cbn [forEachAccFrom accFrom flatMapAccFrom]. unfold bind.
    rewrite H1, H2. reflexivity.
Qed.

Lemma flatMapFrom_ext {A} (g1 g2 : A -> nat -> list Op) l :
  (forall x i, g1 x i = g2 x i) -> forall i, flatMapFrom i l g1 = flatMapFrom i l g2.
Proof.
  intros Hg. induction l as [|x r IH]; intros i; cbn; [reflexivity|].
  now rewrite Hg, IH.
Qed.

(** ** [drawTextWithEmphasis] *)

Section Emphasis.
Context `{Host}.

Lemma isEmph_iff emphWords w :
  isEmph emphWords w = true <-> In (Js.removePunct (Js.toLowerCase w)) emphWords.
Proof.
  unfold isEmph, cleanWord. rewrite existsb_exists. split.
  - intros (e & He & Heq). apply String.eqb_eq in Heq. now subst.
  - intros Hin. eexists. split; [exact Hin | apply String.eqb_refl].
Qed.

Lemma toLowerCase_truthy s : Js.truthy (Js.toLowerCase s) = Js.truthy s.
Proof. destruct s; reflexivity. Qed.

Lemma includes_truthy s sub :
  Js.truthy sub = true -> Js.includes s sub = true -> Js.truthy s = true.
Proof.
  intros Hsub Hinc. destruct s; [|reflexivity].
  destruct sub; [discriminate|]. cbn in Hinc. discriminate.
Qed.

(** One word of a line. *)
Lemma drawWord_run emphWords emphColor (d : DrawState) sv ly spW n cx w wi pt :
  exists pt1,
    drawWord emphWords (font d) (fillStyle d) emphColor ly spW n cx w wi (mkCtx d sv pt)
    = (nextWordX (isEmph emphWords) d spW n cx w wi, mkCtx d sv pt1,
       if isEmph emphWords w then emphasisedWord d emphColor w cx ly
       else plainWord d w cx ly).
Proof.
  unfold drawWord, nextWordX. destruct d. destruct (isEmph emphWords w).
  - eexists. canvas_run. reflexivity.
  - eexists. canvas_run. reflexivity.
Qed.

(** One line. *)
Lemma drawLine_run emphWords emphColor (d : DrawState) sv x y lh l i pt :
  exists pt1,
    drawLine emphWords (font d) (fillStyle d) emphColor x y lh l i (mkCtx d sv pt)
    = (tt, mkCtx d sv pt1,
       if String.eqb l "" then []
       else
         let words := Js.split " " l in
         let ly := (y + N2Q i * lh)%Q in
         flatMapAccFrom (nextWordX (isEmph emphWords) d (measureWith d " ") (length words))
           (fun cx w _ =>
              if isEmph emphWords w then emphasisedWord d emphColor w cx ly
              else plainWord d w cx ly)
           0 words x).
Proof.
  unfold drawLine. destruct (String.eqb l ""); [exists pt; reflexivity|].
  cbv zeta.
  destruct (forEachAccFrom_frame
    (drawWord emphWords (font d) (fillStyle d) emphColor (y + N2Q i * lh)%Q
       (measureWith d " ") (length (Js.split " " l)))
    (nextWordX (isEmph emphWords) d (measureWith d " ") (length (Js.split " " l)))
    (fun cx w _ =>
       if isEmph emphWords w then emphasisedWord d emphColor w cx (y + N2Q i * lh)%Q
       else plainWord d w cx (y + N2Q i * lh)%Q)
    d sv
    (fun v w wi pt2 => drawWord_run emphWords emphColor d sv _ _ _ v w wi pt2)
    (Js.split " " l) 0%nat x pt) as [pt1 Hwords].
  exists pt1. unfold bind at 1. unfold measureText at 1. cbn [draw].
  unfold bind at 1. unfold forEachAcc. rewrite Hwords. unfold ret. cbn [app].
  now rewrite app_nil_r.
Qed.

(** What a call that passes the gate comes to. *)
Lemma drawTextWithEmphasis_run text emphasisWord x y W lh emphColor c :
  Js.truthy emphasisWord = true ->
  Js.includes (Js.toLowerCase text) (Js.toLowerCase emphasisWord) = true ->
  exists pt1,
    drawTextWithEmphasis text emphasisWord x y W lh emphColor c
    = (length (layoutLines (measureWith (draw c)) text W),
       mkCtx (draw c) (saved c) pt1,
       emphasisTrace (isEmph (Js.split " " (Js.toLowerCase emphasisWord))) (draw c)
         emphColor (layoutLines (measureWith (draw c)) text W) x y lh).
Proof.
  intros Hp Hinc.
  assert (Ht : Js.truthy text = true).
  { rewrite <- toLowerCase_truthy. eapply includes_truthy; [|exact Hinc].
    now rewrite toLowerCase_truthy. }
  unfold drawTextWithEmphasis. rewrite Ht, Hp, Hinc. cbn [negb orb].
  destruct c as [d sv pt]. cbn [draw saved].
  destruct (forEachFrom_frame _ _ d sv
    (fun l i pt0 =>
       drawLine_run (Js.split " " (Js.toLowerCase emphasisWord)) emphColor d sv x y lh l i pt0)
    (layoutLines (measureWith d) text W) 0%nat pt) as [pt1 Hloop].
  exists pt1. unfold bind at 1. unfold measureText at 1. cbn [draw].
  unfold bind at 1, get_font at 1. unfold bind at 1, get_fillStyle at 1.
  cbn [draw]. unfold bind at 1, forEach.
  rewrite Hloop. unfold ret, emphasisTrace. cbn [app].
  now rewrite app_nil_r.
Qed.

(** C3, as the code has it.  When the emphasis phrase is not empty and is,
    case apart, a part of the text, the words of the wrapped lines are drawn
    one after the other, and a word is drawn with emphasis (in the bold font,
    with a line 4 below the baseline as long as the word measures) exactly
    when its lower-case form with every punctuation character removed is one
    of the words of the lower-case phrase; equality, not containment. The
    font and the fill colour are as before afterwards. *)
Theorem drawTextWithEmphasis_marks_matching_words
    (c : Context2D) (text emphasisWord : string) (x y maxWidth lineHeight : Q)
    (emphColor : string) :
  Js.truthy emphasisWord = true ->
  Js.includes (Js.toLowerCase text) (Js.toLowerCase emphasisWord) = true ->
  let emphWords := Js.split " " (Js.toLowerCase emphasisWord) in
  let lines := layoutLines (measureWith (draw c)) text maxWidth in
  let run := drawTextWithEmphasis text emphasisWord x y maxWidth lineHeight emphColor c in
  (forall w, isEmph emphWords w = true <-> matchesPhrase emphasisWord w)
  /\ trace run = emphasisTrace (isEmph emphWords) (draw c) emphColor lines x y lineHeight
  /\ value run = length lines
  /\ draw (final run) = draw c
  /\ saved (final run) = saved c.
Proof.
  intros Hp Hinc emphWords lines run.
  split; [intros w; apply isEmph_iff|].
  destruct (drawTextWithEmphasis_run text emphasisWord x y maxWidth lineHeight emphColor c
              Hp Hinc) as [pt1 Hrun].
  subst run. rewrite Hrun. repeat split.
Qed.

End Emphasis.

(** The example of the specification: the second word of the body matches
    the phrase, the other two do not, nor does a word that only contains
    the phrase or is contained in it. *)
Example emphasis_tight_margins :
  let emphWords := Js.split " " (Js.toLowerCase "tight-margins") in
  Js.includes (Js.toLowerCase "The Tight-Margins. rule.") (Js.toLowerCase "tight-margins")
  = true
  /\ map (isEmph emphWords) (Js.split " " "The Tight-Margins. rule.") = [false; true; false]
  /\ isEmph emphWords "tight" = false
  /\ isEmph emphWords "Tight-Margins-rule" = false.
Proof. vm_compute. repeat split. Qed.

(** C3 at work on that example, under the example host: the second word is
    drawn bold and underlined from 40 to 180, 4 below the baseline. *)
Lemma drawTextWithEmphasis_marks_matching_words_witness :
  trace (@drawTextWithEmphasis demoHost "The Tight-Margins. rule." "tight-margins"
           0 0 1000 10 C.red freshContext)
  = [ FillText (textOf defaultDraw) "The" 0 (0 + N2Q 0 * 10)%Q ]
    ++ @emphasisedWord demoHost defaultDraw C.red "Tight-Margins."
         (0 + 30 + 10)%Q (0 + N2Q 0 * 10)%Q
    ++ [ FillText (textOf defaultDraw) "rule." (0 + 30 + 10 + 140 + 10)%Q (0 + N2Q 0 * 10)%Q ].
Proof.
  destruct (@drawTextWithEmphasis_marks_matching_words demoHost freshContext
              "The Tight-Margins. rule." "tight-margins" 0 0 1000 10 C.red
              eq_refl eq_refl) as (_ & Ht & _).
  rewrite Ht. vm_compute. reflexivity.
Defined.

(** C3 as it is worded fails in both directions, because the code removes
    the punctuation inside a word too.  With the phrase [us], the word
    [U.S.] is drawn with emphasis although stripping its ends leaves [u.s];
    with the phrase [don't], the word [don't] is not, although stripping its
    ends leaves it equal to the phrase. *)
Lemma emphasis_inner_punctuation :
  (Js.truthy "us" = true
   /\ Js.includes (Js.toLowerCase "U.S. leads us") (Js.toLowerCase "us") = true
   /\ isEmph (Js.split " " (Js.toLowerCase "us")) "U.S." = true
   /\ stripPunctEnds (Js.toLowerCase "U.S.") = "u.s"
   /\ ~ matchesAsSpecified "us" "U.S."
   /\ trace (@drawTextWithEmphasis demoHost "U.S. leads us" "us" 0 0 1000 10 C.red freshContext)
      = @emphasisedWord demoHost defaultDraw C.red "U.S." 0 (0 + N2Q 0 * 10)%Q
        ++ [ FillText (textOf defaultDraw) "leads" (0 + 40 + 10)%Q (0 + N2Q 0 * 10)%Q ]
        ++ @emphasisedWord demoHost defaultDraw C.red "us"
             (0 + 40 + 10 + 50 + 10)%Q (0 + N2Q 0 * 10)%Q)
  /\ (Js.truthy "don't" = true
      /\ Js.includes (Js.toLowerCase "I don't know") (Js.toLowerCase "don't") = true
      /\ isEmph (Js.split " " (Js.toLowerCase "don't")) "don't" = false
      /\ matchesAsSpecified "don't" "don't").
Proof.
  repeat split; try (vm_compute; reflexivity).
  - unfold matchesAsSpecified. vm_compute. intros [Heq|[]]. discriminate.
  - unfold matchesAsSpecified. vm_compute. now left.
Qed.

(** ** The flow diagram *)

Section Flow.
Context `{Host}.

Lemma flowBox_run rowLen rw boxH yBox yMid yText curX label i d sv pt :
  exists pt1,
    flowBox rowLen rw boxH yBox yMid yText curX label i (mkCtx d sv pt)
    = ((curX + nth i rw 0 + arrowW)%Q, mkCtx d sv pt1,
       flowBoxTrace d rowLen rw boxH yBox yMid yText curX label i).
Proof.
  unfold flowBox, flowBoxTrace. destruct d. destruct (beforeLast i rowLen).
  - eexists. canvas_run. reflexivity.
  - eexists. canvas_run. reflexivity.
Qed.

Lemma flowRow_run row rw boxH yBox yMid yText startX d sv pt :
  exists pt1 endX,
    forEachAcc row startX (flowBox (length row) rw boxH yBox yMid yText) (mkCtx d sv pt)
    = (endX, mkCtx d sv pt1,
       flatMapAccFrom (fun curX _ i => (curX + nth i rw 0 + arrowW)%Q)
         (fun curX label i =>
            flowBoxTrace d (length row) rw boxH yBox yMid yText curX label i)
         0 row startX).
Proof.
  destruct (forEachAccFrom_frame
    (flowBox (length row) rw boxH yBox yMid yText)
    (fun curX _ i => (curX + nth i rw 0 + arrowW)%Q)
    (fun curX label i => flowBoxTrace d (length row) rw boxH yBox yMid yText curX label i)
    d sv
    (fun v x i pt0 => flowBox_run (length row) rw boxH yBox yMid yText v x i d sv pt0)
    row 0%nat startX pt) as [pt1 Hrun].
  exists pt1. eexists. exact Hrun.
Qed.

End Flow.

Lemma beforeLast_spec i n : beforeLast i n = true <-> (S i < n)%nat.
Proof. unfold beforeLast. rewrite Z.ltb_lt. lia. Qed.

(** The boxes and the arrowheads of the calls of a row. *)
Lemma flowRow_observed d boxH yBox yMid yText ls :
  forall ws pre x0 n rest,
    length ls = length ws ->
    n = (length pre + length ls)%nat ->
    let ops :=
      flatMapAccFrom (fun curX (_ : string) i => (curX + nth i (pre ++ ws) 0 + arrowW)%Q)
        (fun curX label i =>
           flowBoxTrace d n (pre ++ ws) boxH yBox yMid yText curX label i)
        (length pre) ls x0 in
    drawnBoxes (ops ++ rest) = rowFrom x0 yBox boxH (combine ls ws) ++ drawnBoxes rest
    /\ drawnArrowTips (ops ++ rest)
       = rowArrowTips yMid (rowFrom x0 yBox boxH (combine ls ws)) ++ drawnArrowTips rest.
Proof.
  induction ls as [|l ls IH]; intros ws pre x0 n rest Hlen Hn ops.
  - subst ops. cbn. split; reflexivity.
  - destruct ws as [|w ws]; [discriminate|]. cbn in Hlen.
    assert (Hnth : nth (length pre) (pre ++ w :: ws) 0%Q = w) by apply nth_middle.
    assert (Hpre : pre ++ w :: ws = (pre ++ [w]) ++ ws) by (now rewrite <- app_assoc).
    assert (Hlp : S (length pre) = length (pre ++ [w]))
      by (rewrite length_app; cbn; lia).
    specialize (IH ws (pre ++ [w]) (x0 + w + arrowW)%Q n rest ltac:(lia)
                  ltac:(rewrite <- Hlp; cbn in Hn; lia)).
    cbv zeta in IH. rewrite <- Hpre, <- Hlp in IH. destruct IH as [IHb IHa].
    subst ops. cbn [flatMapAccFrom combine rowFrom]. rewrite Hnth.
    unfold flowBoxTrace at 1 3. rewrite Hnth. cbv zeta.
    destruct (beforeLast (length pre) n) eqn:Hb.
    + apply beforeLast_spec in Hb.
      destruct ls as [|l1 ls1]; [cbn in Hn; lia|].
      destruct ws as [|w1 ws1]; [discriminate|].
      cbn [app drawnBoxes drawnArrowTips]. rewrite <- !app_assoc in *.
      rewrite IHb, IHa. cbn [combine rowFrom rowArrowTips b_x b_w app]. split; reflexivity.
    + assert (Hls : ls = []).
      { destruct ls; [reflexivity|]. exfalso.
        assert (beforeLast (length pre) n = true)
          by (apply beforeLast_spec; cbn in Hn; lia).
        congruence. }
      subst ls. destruct ws; [|discriminate].
      cbn [app drawnBoxes drawnArrowTips flatMapAccFrom combine rowFrom rowArrowTips].
      destruct rest as [|[] rest]; split; reflexivity.
Qed.

(** ** Halves *)

Lemma Qfloor_half n : Qfloor (N2Q n / 2) = (Z.of_nat n / 2)%Z.
Proof.
  unfold N2Q, Qdiv, Qmult, Qinv, inject_Z, Qfloor. cbn [Qnum Qden].
  now rewrite Z.mul_1_r.
Qed.

Lemma Qceiling_half n : Qceiling (N2Q n / 2) = ((Z.of_nat n + 1) / 2)%Z.
Proof.
  unfold Qceiling, N2Q, Qdiv, Qmult, Qinv, inject_Z, Qopp, Qfloor. cbn [Qnum Qden].
  rewrite Z.mul_1_r. change (Z.pos (1 * 2)) with 2%Z.
  pose proof (Z.div_mod (- Z.of_nat n) 2 ltac:(lia)).
  pose proof (Z.mod_pos_bound (- Z.of_nat n) 2 ltac:(lia)).
  pose proof (Z.div_mod (Z.of_nat n + 1) 2 ltac:(lia)).
  pose proof (Z.mod_pos_bound (Z.of_nat n + 1) 2 ltac:(lia)).
  lia.
Qed.

Lemma ceilHalf_le n : (ceilHalf n <= n)%nat.
Proof.
  unfold ceilHalf. rewrite Qceiling_half.
  pose proof (Z.div_mod (Z.of_nat n + 1) 2 ltac:(lia)).
  pose proof (Z.mod_pos_bound (Z.of_nat n + 1) 2 ltac:(lia)).
  lia.
Qed.

Lemma ceilHalf_floor n : Z.of_nat (n - ceilHalf n) = Qfloor (N2Q n / 2).
Proof.
  pose proof (ceilHalf_le n). rewrite Qfloor_half.
  unfold ceilHalf in *. rewrite Qceiling_half in *.
  pose proof (Z.div_mod (Z.of_nat n + 1) 2 ltac:(lia)).
  pose proof (Z.mod_pos_bound (Z.of_nat n + 1) 2 ltac:(lia)).
  pose proof (Z.div_mod (Z.of_nat n) 2 ltac:(lia)).
  pose proof (Z.mod_pos_bound (Z.of_nat n) 2 ltac:(lia)).
  lia.
Qed.

Lemma ceilHalf_ceiling n : Z.of_nat (ceilHalf n) = Qceiling (N2Q n / 2).
Proof.
  unfold ceilHalf. rewrite Z2Nat.id; [reflexivity|].
  rewrite Qceiling_half.
  pose proof (Z.div_mod (Z.of_nat n + 1) 2 ltac:(lia)).
  pose proof (Z.mod_pos_bound (Z.of_nat n + 1) 2 ltac:(lia)).
  lia.
Qed.

(** ** Rows *)

Lemma map_snd_combine {A B} (l : list A) (l' : list B) :
  length l = length l' -> map snd (combine l l') = l'.
Proof.
  revert l'. induction l as [|a l IH]; intros [|b l'] Hlen; try discriminate; cbn.
  - reflexivity.
  - f_equal. apply IH. now injection Hlen.
Qed.

Lemma map_fst_combine {A B} (l : list A) (l' : list B) :
  length l = length l' -> map fst (combine l l') = l.
Proof.
  revert l'. induction l as [|a l IH]; intros [|b l'] Hlen; try discriminate; cbn.
  - reflexivity.
  - f_equal. apply IH. now injection Hlen.
Qed.

Lemma centredRow_combine cx y h (ls : list string) (ws : list Q) :
  length ls = length ws ->
  centredRow cx y h (combine ls ws)
  = rowFrom (cx - (sumQ ws + (N2Q (length ls) - 1) * arrowW) / 2)%Q y h (combine ls ws).
Proof.
  intros Hlen. unfold centredRow, rowWidth.
  rewrite (map_snd_combine _ _ Hlen). now rewrite Hlen.
Qed.

Lemma rowFrom_labels x0 y h items : map b_label (rowFrom x0 y h items) = map fst items.
Proof.
  revert x0. induction items as [|[s w] r IH]; intros x0; cbn; [reflexivity|].
  now rewrite IH.
Qed.

Lemma fold_left_Qplus l a : (fold_left Qplus l a == a + sumQ l)%Q.
Proof.
  unfold sumQ. revert a. induction l as [|w l IH]; intros a; cbn.
  - ring.
  - rewrite IH. rewrite (IH (0 + w)%Q). ring.
Qed.

Lemma sumQ_cons w l : (sumQ (w :: l) == w + sumQ l)%Q.
Proof. unfold sumQ at 1. cbn. rewrite fold_left_Qplus. ring. Qed.

Lemma N2Q_S n : (N2Q (S n) == N2Q n + 1)%Q.
Proof.
  unfold N2Q. rewrite Nat2Z.inj_succ. unfold Z.succ. rewrite inject_Z_plus. reflexivity.
Qed.

(** The right edge of a row that starts at [x0]. *)
Lemma rowFrom_right x0 y h items :
  items <> [] ->
  (rowRight (rowFrom x0 y h items) == x0 + rowWidth (map snd items))%Q.
Proof.
  revert x0. induction items as [|[s w] r IH]; intros x0 Hne; [contradiction|].
  destruct r as [|[s1 w1] r1].
  - unfold rowRight, rowWidth. cbn. unfold sumQ. cbn. unfold N2Q. cbn. ring.
  - assert (Hr : (s1, w1) :: r1 <> []) by discriminate.
    specialize (IH (x0 + w + arrowW)%Q Hr).
    change (rowRight (rowFrom x0 y h ((s, w) :: (s1, w1) :: r1)))
      with (rowRight (rowFrom (x0 + w + arrowW)%Q y h ((s1, w1) :: r1))).
    rewrite IH. unfold rowWidth.
    cbn [map snd length]. rewrite (sumQ_cons w), (N2Q_S (S (length (map snd r1)))).
    ring.
Qed.

(** A centred row is centred: its edges are as far from the midline on
    both sides. *)
Lemma centredRow_centred cx y h items :
  items <> [] ->
  (rowLeft (centredRow cx y h items) + rowRight (centredRow cx y h items) == 2 * cx)%Q.
Proof.
  intros Hne. unfold centredRow. rewrite (rowFrom_right _ y h items Hne).
  destruct items as [|[s w] r]; [contradiction|]. cbn [rowFrom rowLeft b_x]. field.
Qed.

(** The arrowhead after a box ends between that box and the next. *)
Lemma rowArrowTips_between yMid x0 y h items i b b1 tip :
  rowFrom x0 y h items !! i = Some b ->
  rowFrom x0 y h items !! S i = Some b1 ->
  rowArrowTips yMid (rowFrom x0 y h items) !! i = Some tip ->
  (b_x b + b_w b < fst tip)%Q /\ (fst tip < b_x b1)%Q /\ snd tip = yMid.
Proof.
  revert x0 i. induction items as [|[s w] r IH]; intros x0 i Hb Hb1 Htip; [discriminate|].
  destruct r as [|[s1 w1] r1]; [destruct i; discriminate|].
  destruct i as [|i].
  - cbn in Hb, Hb1, Htip. injection Hb as <-. injection Hb1 as <-. injection Htip as <-.
    cbn. unfold arrowW. repeat split.
    + apply Qlt_minus_iff. ring_simplify. reflexivity.
    + apply Qlt_minus_iff. ring_simplify. reflexivity.
  - apply (IH (x0 + w + arrowW)%Q i); assumption.
Qed.

Lemma rowArrowTips_length yMid row : length (rowArrowTips yMid row) = pred (length row).
Proof.
  induction row as [|b r IH]; [reflexivity|].
  destruct r as [|b1 r1]; [reflexivity|].
  transitivity (S (length (rowArrowTips yMid (b1 :: r1)))); [reflexivity|].
  rewrite IH. reflexivity.
Qed.

Section FlowLayout.
Context `{Host}.

Lemma firstn_combine {A B} k (l : list A) (l' : list B) :
  firstn k (combine l l') = combine (firstn k l) (firstn k l').
Proof.
  revert l l'. induction k as [|k IH]; intros [|a l] [|b l']; cbn; try reflexivity.
  now rewrite IH.
Qed.

Lemma skipn_combine {A B} k (l : list A) (l' : list B) :
  skipn k (combine l l') = combine (skipn k l) (skipn k l').
Proof.
  revert l l'. induction k as [|k IH]; intros [|a l] [|b l']; cbn; try reflexivity.
  - now destruct (skipn k l).
  - apply IH.
Qed.

(** The two branches of [framework_flow], run. *)
Lemma framework_flow_run labels cx cy contentW d0 sv pt :
  let d := with_font labelFont d0 in
  let widths := map (fun l => (measureWith d l + 28 * 2)%Q) labels in
  let half := ceilHalf (length labels) in
  let rowTop (ri : nat) := (cy - 50 + N2Q ri * (64 + 40))%Q in
  let rowOps n rw yBox yMid yText row startX :=
    flatMapAccFrom (fun curX (_ : string) i => (curX + nth i rw 0 + arrowW)%Q)
      (fun curX label i => flowBoxTrace d n rw 64 yBox yMid yText curX label i)
      0 row startX in
  trace (framework_flow labels cx cy contentW (mkCtx d0 sv pt))
  = if F64.leb (flowTotal (measureWith d) labels) (F64.ofQ contentW) then
      rowOps (length labels) widths (cy - 64 / 2)%Q cy (cy + 8)%Q labels
        (cx - (sumQ widths + (N2Q (length labels) - 1) * arrowW) / 2)%Q
    else
      rowOps (length (firstn half labels)) (firstn half widths)
        (rowTop 0%nat) (rowTop 0%nat + 64 / 2)%Q (rowTop 0%nat + 64 / 2 + 8)%Q
        (firstn half labels)
        (cx - (sumQ (firstn half widths)
               + (N2Q (length (firstn half labels)) - 1) * arrowW) / 2)%Q
      ++ rowOps (length (skipn half labels)) (skipn half widths)
        (rowTop 1%nat) (rowTop 1%nat + 64 / 2)%Q (rowTop 1%nat + 64 / 2 + 8)%Q
        (skipn half labels)
        (cx - (sumQ (skipn half widths)
               + (N2Q (length (skipn half labels)) - 1) * arrowW) / 2)%Q.
Proof.
  intros d widths half rowTop rowOps.
  unfold framework_flow. unfold bind at 1. unfold set_font at 1, modify. cbn [draw saved path].
  unfold bind at 1. unfold measureText at 1. cbn [draw]. fold d. cbv zeta. fold widths.
  destruct (F64.leb (flowTotal (measureWith d) labels) (F64.ofQ contentW)).
  - destruct (flowRow_run labels widths 64 (cy - 64 / 2)%Q cy (cy + 8)%Q
                (cx - (sumQ widths + (N2Q (length labels) - 1) * arrowW) / 2)%Q d sv pt)
      as (pt1 & endX & Hrun).
    unfold bind at 1. rewrite Hrun. unfold ret, trace. cbn [snd app].
    now rewrite app_nil_r.
  - fold half. unfold forEach. cbn [forEachFrom nth].
    destruct (flowRow_run (firstn half labels) (firstn half widths) 64
                (rowTop 0%nat) (rowTop 0%nat + 64 / 2)%Q (rowTop 0%nat + 64 / 2 + 8)%Q
                (cx - (sumQ (firstn half widths)
                       + (N2Q (length (firstn half labels)) - 1) * arrowW) / 2)%Q d sv pt)
      as (pt1 & endX1 & Hrun1).
    destruct (flowRow_run (skipn half labels) (skipn half widths) 64
                (rowTop 1%nat) (rowTop 1%nat + 64 / 2)%Q (rowTop 1%nat + 64 / 2 + 8)%Q
                (cx - (sumQ (skipn half widths)
                       + (N2Q (length (skipn half labels)) - 1) * arrowW) / 2)%Q d sv pt1)
      as (pt2 & endX2 & Hrun2).
    unfold bind at 1. unfold bind at 1. fold (rowTop 0%nat). rewrite Hrun1.
    unfold ret at 1. unfold bind at 1. unfold bind at 1. fold (rowTop 1%nat). rewrite Hrun2.
    unfold ret, trace. cbn [snd app]. now rewrite !app_nil_r.
Qed.

(** C2.  The flow diagram of [n] labels, each box as wide as its label
    measures plus 56.  The widths of the boxes and of the [n - 1] arrows
    between them are summed as the engine sums them, in double precision.
    When that sum is at most the content width, the boxes are drawn in one
    row; otherwise in two rows, the first [ceil(n/2)] labels above and the
    other [floor(n/2)] below, in order.  Every row is centred on the
    midline [cx], and an arrowhead is drawn after every box that has a box
    to its right, between the two. *)
Theorem framework_flow_layout (c : Context2D) (labels : list string) (cx cy contentW : Q) :
  let d := with_font labelFont (draw c) in
  let widths := map (fun l => (measureWith d l + 28 * 2)%Q) labels in
  let items := combine labels widths in
  let n := length labels in
  let total := flowTotal (measureWith d) labels in
  let T := trace (framework_flow labels cx cy contentW c) in
  let rowTop (ri : nat) := (cy - 50 + N2Q ri * (64 + 40))%Q in
  let top := firstn (ceilHalf n) items in
  let bottom := skipn (ceilHalf n) items in
  (F64.leb total (F64.ofQ contentW) = true ->
     flowRows total contentW items = [items]
     /\ drawnBoxes T = centredRow cx (cy - 64 / 2) 64 items
     /\ drawnArrowTips T = rowArrowTips cy (centredRow cx (cy - 64 / 2) 64 items))
  /\ (F64.leb total (F64.ofQ contentW) = false ->
     flowRows total contentW items = [top; bottom]
     /\ Z.of_nat (length top) = Qceiling (N2Q n / 2)
     /\ Z.of_nat (length bottom) = Qfloor (N2Q n / 2)
     /\ map fst top ++ map fst bottom = labels
     /\ drawnBoxes T
        = centredRow cx (rowTop 0%nat) 64 top ++ centredRow cx (rowTop 1%nat) 64 bottom
     /\ drawnArrowTips T
        = rowArrowTips (rowTop 0%nat + 64 / 2) (centredRow cx (rowTop 0%nat) 64 top)
          ++ rowArrowTips (rowTop 1%nat + 64 / 2) (centredRow cx (rowTop 1%nat) 64 bottom))
  /\ (forall y h row,
        map b_label (centredRow cx y h row) = map fst row
        /\ (row <> [] ->
            (rowLeft (centredRow cx y h row) + rowRight (centredRow cx y h row)
             == 2 * cx)%Q)
        /\ (forall yMid, length (rowArrowTips yMid (centredRow cx y h row))
                         = pred (length row))
        /\ (forall yMid i b b1 tip,
              centredRow cx y h row !! i = Some b ->
              centredRow cx y h row !! S i = Some b1 ->
              rowArrowTips yMid (centredRow cx y h row) !! i = Some tip ->
              (b_x b + b_w b < fst tip)%Q /\ (fst tip < b_x b1)%Q /\ snd tip = yMid)).
Proof.
  intros d widths items n total T rowTop top bottom.
  assert (Hlen : length labels = length widths) by (unfold widths; now rewrite length_map).
  assert (HT : T = trace (framework_flow labels cx cy contentW
                            (mkCtx (draw c) (saved c) (path c)))) by (now destruct c).
  rewrite framework_flow_run in HT. cbv zeta in HT. fold d widths n total in HT.
  split; [|split].
  - intros Hfit. rewrite Hfit in HT.
    split.
    { unfold flowRows. now rewrite Hfit. }
    unfold items at 1 2. rewrite (centredRow_combine _ _ _ _ _ Hlen). fold n.
    pose proof (flowRow_observed d 64 (cy - 64 / 2)%Q cy (cy + 8)%Q labels widths []
                  (cx - (sumQ widths + (N2Q n - 1) * arrowW) / 2)%Q n [] Hlen eq_refl)
      as Hobs.
    cbv zeta in Hobs. cbn [app length] in Hobs. rewrite !app_nil_r in Hobs.
    rewrite HT. exact Hobs.
  - intros Hfit. rewrite Hfit in HT.
    pose proof (ceilHalf_le n) as Hhalf.
    assert (Htop : length top = ceilHalf n).
    { unfold top, items. rewrite length_firstn, length_combine. fold n. lia. }
    assert (Hbot : length bottom = (n - ceilHalf n)%nat).
    { unfold bottom, items. rewrite length_skipn, length_combine. fold n. lia. }
    split; [|split; [|split; [|split]]].
    + unfold flowRows. rewrite Hfit. unfold top, bottom.
      replace (length items) with n; [reflexivity|].
      unfold items. rewrite length_combine. fold n. lia.
    + rewrite Htop. apply ceilHalf_ceiling.
    + rewrite Hbot. apply ceilHalf_floor.
    + unfold top, bottom. rewrite <- map_app, firstn_skipn. unfold items.
      apply map_fst_combine, Hlen.
    + assert (Hl1 : length (firstn (ceilHalf n) labels) = length (firstn (ceilHalf n) widths))
        by (rewrite !length_firstn; lia).
      assert (Hl2 : length (skipn (ceilHalf n) labels) = length (skipn (ceilHalf n) widths))
        by (rewrite !length_skipn; lia).
      unfold top, bottom, items. rewrite firstn_combine, skipn_combine.
      rewrite (centredRow_combine _ _ _ _ _ Hl1), (centredRow_combine _ _ _ _ _ Hl2).
      subst rowTop. cbv beta.
      pose proof (flowRow_observed d 64 (cy - 50 + N2Q 1 * (64 + 40))%Q
                    (cy - 50 + N2Q 1 * (64 + 40) + 64 / 2)%Q
                    (cy - 50 + N2Q 1 * (64 + 40) + 64 / 2 + 8)%Q (skipn (ceilHalf n) labels)
                    (skipn (ceilHalf n) widths) []
                    (cx - (sumQ (skipn (ceilHalf n) widths)
                           + (N2Q (length (skipn (ceilHalf n) labels)) - 1) * arrowW) / 2)%Q
                    (length (skipn (ceilHalf n) labels)) [] Hl2 eq_refl) as [Hobs2 Hobs2a].
      cbn [app length] in Hobs2, Hobs2a. rewrite !app_nil_r in Hobs2, Hobs2a.
      pose proof (fun rest => flowRow_observed d 64 (cy - 50 + N2Q 0 * (64 + 40))%Q
                    (cy - 50 + N2Q 0 * (64 + 40) + 64 / 2)%Q
                    (cy - 50 + N2Q 0 * (64 + 40) + 64 / 2 + 8)%Q (firstn (ceilHalf n) labels)
                    (firstn (ceilHalf n) widths) []
                    (cx - (sumQ (firstn (ceilHalf n) widths)
                           + (N2Q (length (firstn (ceilHalf n) labels)) - 1) * arrowW) / 2)%Q
                    (length (firstn (ceilHalf n) labels)) rest Hl1 eq_refl) as Hobs1.
      cbv zeta in Hobs1. cbn [app length] in Hobs1.
      split.
      * rewrite HT. rewrite (proj1 (Hobs1 _)). now rewrite Hobs2.
      * rewrite HT. rewrite (proj2 (Hobs1 _)). now rewrite Hobs2a.
  - intros y h row. split; [|split; [|split]].
    + apply rowFrom_labels.
    + apply centredRow_centred.
    + intros yMid. unfold centredRow. rewrite rowArrowTips_length.
      f_equal. rewrite <- (length_map b_label), rowFrom_labels. now rewrite length_map.
    + intros yMid i b b1 tip. apply rowArrowTips_between.
Qed.

End FlowLayout.

(** The arithmetic of the fit test at work.  The doubles nearest to 130.02
    and to 561.98 are the widths [roundingHost] reports, and 840 is a
    double.  With 56 added the widths are the doubles nearest to 186.02
    and to 617.98, and nothing is rounded; the sum of these two is rounded
    to 804; with the 36 of the arrow the engine gets 840. *)
Example F64_at_work :
  F64.ofQ (13002 # 100) = SpecFloat.S754_finite false 4574672058989937 (-45)
  /\ F64.ofQ (56198 # 100) = SpecFloat.S754_finite false 4943228356620452 (-43)
  /\ F64.ofQ (@measureWith roundingHost defaultDraw "a") = F64.ofQ (13002 # 100)
  /\ F64.ofQ (@measureWith roundingHost defaultDraw "b") = F64.ofQ (56198 # 100)
  /\ F64.ofQ 840 = SpecFloat.S754_finite false 7388718138654720 (-43)
  /\ F64.add (F64.ofQ (13002 # 100)) (F64.ofQ 56) = F64.ofQ (18602 # 100)
  /\ F64.add (F64.ofQ (56198 # 100)) (F64.ofQ 56) = F64.ofQ (61798 # 100)
  /\ F64.add (F64.ofQ (18602 # 100)) (F64.ofQ (61798 # 100)) = F64.ofQ 804
  /\ flowTotal (@measureWith roundingHost defaultDraw) ["a"; "b"] = F64.ofQ 840
  /\ F64.leb (F64.ofQ 840) (F64.ofQ 840) = true.
Proof. vm_compute. repeat split. Qed.

(** C2 at work under the example host.  Three short labels fit the width
    of 840 and stand in one centred row. *)
Lemma framework_flow_layout_witness :
  F64.leb (flowTotal (@measureWith demoHost (with_font labelFont defaultDraw))
             ["Plan"; "Build"; "Ship"]) (F64.ofQ 840) = true
  /\ drawnBoxes (trace (@framework_flow demoHost ["Plan"; "Build"; "Ship"] 596 600 840
                          freshContext))
     = centredRow 596 (600 - 64 / 2) 64 [("Plan", 40 + 28 * 2); ("Build", 50 + 28 * 2);
                                          ("Ship", 40 + 28 * 2)]%Q.
Proof.
  split; [vm_compute; reflexivity|].
  destruct (@framework_flow_layout demoHost freshContext ["Plan"; "Build"; "Ship"]
              596 600 840) as (Hone & _ & _).
  destruct (Hone ltac:(vm_compute; reflexivity)) as (_ & Hboxes & _).
  rewrite Hboxes. vm_compute. reflexivity.
Defined.

(** Five long labels do not fit: three boxes above, two below. *)
Example framework_flow_two_rows :
  map (fun b => (b_label b, Qred (b_x b), Qred (b_y b), Qred (b_w b)))
    (drawnBoxes (trace (@framework_flow demoHost
       ["Discovery phase"; "Design sprint"; "Build"; "Measure results"; "Learn"]
       596 600 840 freshContext)))
  = [ ("Discovery phase", 311, 550, 206); ("Design sprint", 553, 550, 186);
      ("Build", 775, 550, 106);
      ("Measure results", 422, 654, 206); ("Learn", 664, 654, 106) ]%Q.
Proof. vm_compute. reflexivity. Qed.

(** C2 as it is worded, with the sum taken exactly, fails where the sum
    rounds.  Under [roundingHost] the boxes of the labels [a] and [b] are
    186.02 and 617.98 wide, as doubles; with the arrow of 36 between them
    they are wider than the content width of 840 by 2^-45, so the claim
    puts them in two rows, [a] above [b].  The engine's sum is 840, the
    test [totalSingleRow <= contentW] holds, and both boxes are drawn in
    the one row at [cy - 32]: so the flow diagram draws them at the places
    of the framework renderer, and so does the framework renderer for the
    labels [a,b]. *)
Lemma flow_exact_sum_two_rows_one_drawn :
  let labels := ["a"; "b"] in
  let d := with_font labelFont defaultDraw in
  let widths := map (fun l => (@measureWith roundingHost d l + 28 * 2)%Q) labels in
  let items := combine labels widths in
  let T := trace (@framework_flow roundingHost labels 596 615 840 freshContext) in
  let R := trace (@render_framework roundingHost (<["labels" := "a,b"]> ∅) None
                    freshContext) in
  let rowTop (ri : nat) := (615 - 50 + N2Q ri * (64 + 40))%Q in
  (840 < sumQ widths + (N2Q (length labels) - 1) * arrowW)%Q
  /\ (sumQ widths + (N2Q (length labels) - 1) * arrowW == 840 + (1 # 35184372088832))%Q
  /\ F64.leb (flowTotal (@measureWith roundingHost d) labels) (F64.ofQ 840) = true
  /\ ceilHalf (length labels) = 1%nat
  /\ map (fun b => (b_label b, Qred (b_y b))) (drawnBoxes T) = [("a", 583%Q); ("b", 583%Q)]
  /\ map (fun b => (b_label b, Qred (b_y b))) (drawnBoxes R) = [("a", 583%Q); ("b", 583%Q)]
  /\ map (fun b => (b_label b, Qred (b_y b)))
       (centredRow 596 (rowTop 0%nat) 64 (firstn 1 items)
        ++ centredRow 596 (rowTop 1%nat) 64 (skipn 1 items))
     = [("a", 565%Q); ("b", 669%Q)]
  /\ drawnBoxes T
     <> centredRow 596 (rowTop 0%nat) 64 (firstn 1 items)
        ++ centredRow 596 (rowTop 1%nat) 64 (skipn 1 items).
Proof.
  cbv zeta.
  assert (Hdrawn :
    map (fun b => (b_label b, Qred (b_y b)))
      (drawnBoxes (trace (@framework_flow roundingHost ["a"; "b"] 596 615 840 freshContext)))
    = [("a", 583%Q); ("b", 583%Q)]) by (vm_compute; reflexivity).
  split; [vm_compute; reflexivity|].
  split; [vm_compute; reflexivity|].
  split; [vm_compute; reflexivity|].
  split; [vm_compute; reflexivity|].
  split; [exact Hdrawn|].
  split; [vm_compute; reflexivity|].
  split; [vm_compute; reflexivity|].
  intros Heq. rewrite Heq in Hdrawn. clear Heq. vm_compute in Hdrawn.
  discriminate Hdrawn.
Qed.

(** ** The cycle diagram *)

Lemma Qmax_spec a b :
  (a <= Qmax a b)%Q /\ (b <= Qmax a b)%Q /\ (Qmax a b = a \/ Qmax a b = b).
Proof.
  unfold Qmax. destruct (Qle_bool a b) eqn:Hle.
  - apply Qle_bool_iff in Hle. repeat split; [exact Hle | apply Qle_refl | now right].
  - repeat split; [apply Qle_refl | | now left].
    apply Qlt_le_weak, Qnot_le_lt. intros Hab. apply Qle_bool_iff in Hab. congruence.
Qed.

Lemma fold_left_Qmax_spec l a :
  (a <= fold_left Qmax l a)%Q
  /\ (forall x, In x l -> (x <= fold_left Qmax l a)%Q)
  /\ (fold_left Qmax l a = a \/ In (fold_left Qmax l a) l).
Proof.
  revert a. induction l as [|b l IH]; intros a; cbn [fold_left].
  - repeat split; [apply Qle_refl | intros x [] | now left].
  - destruct (IH (Qmax a b)) as (H1 & H2 & H3).
    destruct (Qmax_spec a b) as (Ha & Hb & Hab).
    repeat split.
    + eapply Qle_trans; [exact Ha | exact H1].
    + intros x [<-|Hx]; [eapply Qle_trans; [exact Hb | exact H1] | now apply H2].
    + destruct H3 as [H3|H3].
      * rewrite H3. destruct Hab as [->| ->]; [now left | right; now left].
      * right. now right.
Qed.

(** [maxList] of a non-empty list is its greatest element. *)
Lemma maxList_spec l :
  l <> [] ->
  (forall x, In x l -> (x <= maxList l)%Q) /\ In (maxList l) l.
Proof.
  destruct l as [|a l]; [contradiction|]. intros _. cbn [maxList].
  destruct (fold_left_Qmax_spec l a) as (H1 & H2 & H3). split.
  - intros x [<-|Hx]; [exact H1 | now apply H2].
  - destruct H3 as [->|H3]; [now left | now right].
Qed.

Section Cycle.
Context `{Host}.

Lemma cycleNode_run n cx cy radius nodeR label i d sv pt :
  exists pt1,
    cycleNode n cx cy radius nodeR label i (mkCtx d sv pt)
    = (tt, mkCtx d sv pt1, cycleNodeTrace d n cx cy radius nodeR label i).
Proof.
  unfold cycleNode, cycleNodeTrace. destruct d. eexists. canvas_run. reflexivity.
Qed.

Lemma drawnNodes_cycle d n cx cy radius nodeR labels :
  forall i,
    drawnNodes (flatMapFrom i labels (cycleNodeTrace d n cx cy radius nodeR))
    = mapFrom i labels (fun _ k =>
        (fst (onRing cx cy radius (cycleAngle k n)),
         snd (onRing cx cy radius (cycleAngle k n)), nodeR)).
Proof.
  induction labels as [|l r IH]; intros i; [reflexivity|].
  cbn [flatMapFrom mapFrom]. unfold cycleNodeTrace at 1. cbv zeta.
  cbn [app drawnNodes]. now rewrite IH.
Qed.

Lemma cycleAngle_degrees i n :
  (cycleAngle i n == deg2rad (-90 + (N2Q i / N2Q n) * 360))%Q.
Proof.
  unfold cycleAngle, deg2rad. generalize (N2Q i / N2Q n)%Q. intros q. field.
Qed.

(** C7.  The cycle diagram of the labels draws one node per label, in
    order.  The centre of node [i] is the point of the ring at the angle
    [-Math.PI / 2 + (i / n) * Math.PI * 2], which is -90 degrees plus
    [(i / n) * 360] degrees.  Every node has the same radius, the greater of
    36 and half the width of the widest label plus 16. *)
Theorem framework_cycle_nodes (c : Context2D) (labels : list string)
    (cx cy contentW areaH : Q) :
  let d := with_font labelFont (draw c) in
  let n := length labels in
  let radius := (Qmin contentW areaH * 0.32)%Q in
  let maxLabelW := maxList (map (measureWith d) labels) in
  let nodeR := Qmax 36 (maxLabelW / 2 + 16)%Q in
  drawnNodes (trace (framework_cycle labels cx cy contentW areaH c))
  = mapFrom 0 labels (fun _ i =>
      (fst (onRing cx cy radius (cycleAngle i n)),
       snd (onRing cx cy radius (cycleAngle i n)), nodeR))
  /\ (forall i, (cycleAngle i n == deg2rad (-90 + (N2Q i / N2Q n) * 360))%Q)
  /\ (labels <> [] ->
      (forall l, In l labels -> (measureWith d l <= maxLabelW)%Q)
      /\ (exists l, In l labels /\ maxLabelW = measureWith d l))
  /\ (36 <= nodeR)%Q /\ (maxLabelW / 2 + 16 <= nodeR)%Q
  /\ (nodeR = 36%Q \/ nodeR = (maxLabelW / 2 + 16)%Q).
Proof.
  intros d n radius maxLabelW nodeR.
  split; [|split; [|split]].
  - destruct c as [d0 sv pt]. cbn [draw] in d.
    unfold framework_cycle. cbv zeta.
    destruct (forEachFrom_frame _ _ d sv
      (fun l i pt0 => cycleNode_run n cx cy radius nodeR l i d sv pt0)
      labels 0%nat [Arc cx cy radius 0 (Math_PI * 2)%Q]) as [pt1 Hloop].
    unfold forEach.
    assert (Hrun : trace
      ((set_font labelFont ;;
        mt <- measureText ;;
        save ;;
        set_strokeStyle C.grey ;;
        set_lineWidth 1 ;;
        setLineDash [6; 4]%Q ;;
        beginPath ;;
        arc cx cy radius 0 (Math_PI * 2)%Q ;;
        stroke ;;
        setLineDash [] ;;
        restore ;;
        forEachFrom 0 labels (cycleNode (length labels) cx cy radius (cycleNodeR mt labels)))%canvas
         (mkCtx d0 sv pt))
      = Stroke (penOf (with_lineDash [6; 4]%Q (with_lineWidth 1 (with_strokeStyle C.grey d))))
          [Arc cx cy radius 0 (Math_PI * 2)%Q]
        :: flatMapFrom 0 labels (cycleNodeTrace d n cx cy radius nodeR)).
    { do 11 (unfold bind at 1).
      unfold set_font at 1, measureText at 1, save at 1, set_strokeStyle at 1,
        set_lineWidth at 1, setLineDash at 1, beginPath at 1, arc at 1, stroke at 1,
        setLineDash at 1, restore at 1, modify, addPath.
      cbn [draw saved path app].
      change (cycleNodeR (measureWith (with_font labelFont d0)) labels) with nodeR.
      fold d n. rewrite Hloop. reflexivity. }
    etransitivity; [apply (f_equal drawnNodes); exact Hrun|].
    cbn [drawnNodes]. apply drawnNodes_cycle.
  - intros i. apply cycleAngle_degrees.
  - intros Hne.
    destruct (maxList_spec (map (measureWith d) labels)) as [Hle Hin].
    { destruct labels; [contradiction | discriminate]. }
    split.
    + intros l Hl. apply Hle. now apply in_map.
    + apply in_map_iff in Hin as (l & Hl & Hin). exists l. split; [exact Hin | now symmetry].
  - destruct (Qmax_spec 36 (maxLabelW / 2 + 16)) as (H1 & H2 & H3). repeat split; assumption.
Qed.

End Cycle.

(** C7 at work under the example host: four labels, the widest 60 wide. *)
Lemma framework_cycle_nodes_witness :
  ["North"; "East"; "South!"; "West"] <> []
  /\ map (fun p => Qred (snd p))
       (drawnNodes (trace (@framework_cycle demoHost ["North"; "East"; "South!"; "West"]
                             596 600 840 770 freshContext)))
     = [46; 46; 46; 46]%Q.
Proof.
  destruct (@framework_cycle_nodes demoHost freshContext ["North"; "East"; "South!"; "West"]
              596 600 840 770) as (Hnodes & _ & Hmax & _).
  split; [discriminate|]. rewrite Hnodes. vm_compute. reflexivity.
Defined.

(** ** The slide list *)

Lemma arr_get_Some slides i s :
  arr_get slides i = Some s <->
  (0 <= i)%Z /\ slides !! Z.to_nat i = Some (Some s).
Proof.
  unfold arr_get. destruct (i <? 0)%Z eqn:Hneg.
  - apply Z.ltb_lt in Hneg. split; [discriminate | intros [Hi _]; lia].
  - apply Z.ltb_ge in Hneg. split.
    + intros Hget. split; [exact Hneg|].
      destruct (slides !! Z.to_nat i) as [[x|]|]; cbn in Hget; congruence.
    + intros [_ Hl]. now rewrite Hl.
Qed.

(** C10.  [changeTemplate] on a slide that is there sets the new template
    and an empty field record on it and keeps its lock flag and its note;
    the list keeps its length and every other position its content. *)
Theorem changeTemplate_resets_data (slides : Slides) (idx : Z) (newTemplate : string)
    (s : Slide) :
  arr_get slides idx = Some s ->
  exists next,
    changeTemplate idx newTemplate slides = Updated next
    /\ arr_get next idx = Some (mkSlide newTemplate (locked s) (note s) ∅)
    /\ (forall s1, arr_get next idx = Some s1 ->
          data s1 = ∅ /\ (forall key, field (data s1) key = "")
          /\ locked s1 = locked s /\ note s1 = note s /\ template s1 = newTemplate)
    /\ length next = length slides
    /\ (forall j, j <> idx -> arr_get next j = arr_get slides j).
Proof.
  intros Hget. pose proof Hget as Hg. apply arr_get_Some in Hg as [Hi Hl].
  assert (Hlt : (Z.to_nat idx < length slides)%nat) by (eapply lookup_lt_Some; exact Hl).
  exists (<[Z.to_nat idx := Some (mkSlide newTemplate (locked s) (note s) ∅)]> slides).
  assert (Hnew : arr_get (<[Z.to_nat idx := Some (mkSlide newTemplate (locked s) (note s) ∅)]> slides) idx
                 = Some (mkSlide newTemplate (locked s) (note s) ∅)).
  { apply arr_get_Some. split; [exact Hi|]. now apply list_lookup_insert_eq. }
  split; [|split; [|split; [|split]]].
  - unfold changeTemplate, arr_set. rewrite Hget. cbn [retemplate].
    destruct (idx <? 0)%Z eqn:Hneg; [apply Z.ltb_lt in Hneg; lia|].
    apply Nat.ltb_lt in Hlt. now rewrite Hlt.
  - exact Hnew.
  - intros s1 Hs1. rewrite Hnew in Hs1. injection Hs1 as <-.
    cbn [data locked note template]. split; [reflexivity|].
    split; [intros key; unfold field; now rewrite lookup_empty | repeat split].
  - apply length_insert.
  - intros j Hj. unfold arr_get. destruct (j <? 0)%Z eqn:Hneg; [reflexivity|].
    apply Z.ltb_ge in Hneg. rewrite list_lookup_insert_ne; [reflexivity | lia].
Qed.

(** C10 at work: the second slide of the custom skeleton, given a field
    value and then another template. *)
Lemma changeTemplate_resets_data_witness :
  let filled := mkSlide "single" None (Some "Your content") (<["headline" := "Hello"]> ∅) in
  let slides := <[1%nat := Some filled]> initCustom in
  arr_get slides 1 = Some filled
  /\ exists next,
       changeTemplate 1 "quote" slides = Updated next
       /\ arr_get next 1 = Some (mkSlide "quote" None (Some "Your content") ∅)
       /\ arr_get next 0 = arr_get initCustom 0
       /\ arr_get next 2 = arr_get initCustom 2.
Proof.
  intros filled slides. split; [reflexivity|].
  destruct (changeTemplate_resets_data slides 1 "quote" filled eq_refl)
    as (next & Hch & Hnew & _ & _ & Hother).
  exists next. repeat split; [exact Hch | exact Hnew | |].
  - rewrite (Hother 0%Z) by discriminate. reflexivity.
  - rewrite (Hother 2%Z) by discriminate. reflexivity.
Defined.

(** ** The export gate *)

Lemma exportDisabled_true exporting (slides : Slides) :
  exportDisabled exporting slides = true
  <-> exporting = true \/ (length slides < 6)%nat \/ (12 < length slides)%nat.
Proof.
  unfold exportDisabled. rewrite !orb_true_iff, !Nat.ltb_lt. tauto.
Qed.

(** C5.  The Export button hands the list to [exportPDF] exactly when no
    export is running and the list has 6 to 12 slides; a click is otherwise
    without effect.  So lists of 5 and of 13 slides are turned away and
    lists of 6 and of 12 slides go through.  The gate is the caller's: a
    turn of the loop of [exportPDF] itself runs on the three slides of the
    custom skeleton. *)
Theorem export_gate `{Host} :
  (forall exporting slides,
     clickExport exporting slides = Some slides
     <-> exporting = false /\ (6 <= length slides <= 12)%nat)
  /\ (forall exporting slides,
        clickExport exporting slides = None
        <-> exporting = true \/ (length slides < 6)%nat \/ (12 < length slides)%nat)
  /\ (forall (sl : option Slide),
        clickExport false (replicate 5 sl) = None
        /\ clickExport false (replicate 6 sl) = Some (replicate 6 sl)
        /\ clickExport false (replicate 13 sl) = None
        /\ clickExport false (replicate 12 sl) = Some (replicate 12 sl))
  /\ (exists c ops, exportPDF_page initCustom 0 freshContext = Rendered c ops).
Proof.
  split; [|split; [|split]].
  - intros exporting slides. unfold clickExport.
    pose proof (exportDisabled_true exporting slides) as Hd.
    destruct (exportDisabled exporting slides).
    + split; [discriminate|]. intros [He Hlen].
      destruct (proj1 Hd eq_refl) as [?|[?|?]]; [congruence | lia | lia].
    + split; [intros _ | reflexivity].
      destruct exporting; [exfalso; assert (false = true) by (apply Hd; now left); discriminate|].
      split; [reflexivity|].
      destruct (le_lt_dec 6 (length slides)) as [H6|H6];
        [destruct (le_lt_dec (length slides) 12) as [H12|H12]; [lia|] |];
        exfalso; assert (false = true) by (apply Hd; right; lia); discriminate.
  - intros exporting slides. unfold clickExport.
    rewrite <- exportDisabled_true.
    destruct (exportDisabled exporting slides); split; congruence.
  - intros sl. repeat split.
  - unfold exportPDF_page. cbn [initCustom lookup list_lookup mjoin option_join template].
    cbv zeta.
    destruct ((clearRect 0 0 (C.slide * 2) (C.slide * 2);; save;; scale 2 2)%canvas
                freshContext) as [[u c0] o0].
    cbn [existsb String.eqb Ascii.eqb Bool.eqb negb orb renderers_get].
    change (renderers_get "cover") with (Own render_cover).
    cbv beta iota.
    destruct ((render_cover (data (mkSlide "cover" (Some true) (Some "Cover (always first)") ∅))
                 None;; restore)%canvas c0) as [[u1 c1] o1].
    eauto.
Qed.

(** ** The ends of the slide list stay in place *)

Lemma endsInPlace_spec (slides : Slides) :
  endsInPlace slides = true <->
  exists c z,
    slides !! 0%nat = Some (Some c) /\ slides !! pred (length slides) = Some (Some z)
    /\ template c = "cover" /\ isLocked c = true
    /\ template z = "cta" /\ isLocked z = true
    /\ (2 <= length slides)%nat.
Proof.
  unfold endsInPlace. split.
  - destruct (slides !! 0%nat) as [[c|]|]; cbn [mjoin option_join]; try discriminate.
    destruct (slides !! pred (length slides)) as [[z|]|]; cbn [mjoin option_join];
      try discriminate.
    rewrite !andb_true_iff, !String.eqb_eq, Nat.leb_le.
    intros ((((Hc & Hlc) & Hz) & Hlz) & Hlen). exists c, z. repeat split; assumption.
  - intros (c & z & H0 & Hl & Hc & Hlc & Hz & Hlz & Hlen).
    rewrite H0, Hl. cbn [mjoin option_join].
    rewrite !andb_true_iff, !String.eqb_eq, Nat.leb_le. repeat split; assumption.
Qed.

Lemma endsInPlace_templates slides :
  endsInPlace slides = true ->
  firstTemplate slides = Some "cover" /\ lastTemplate slides = Some "cta".
Proof.
  intros Hinv. apply endsInPlace_spec in Hinv
    as (c & z & H0 & Hl & Hc & _ & Hz & _ & _).
  unfold firstTemplate, lastTemplate.
  rewrite head_lookup, last_lookup, H0, Hl. cbn. now rewrite Hc, Hz.
Qed.

(** What keeps the ends: a change at a position strictly inside. *)
Lemma endsInPlace_insert_inside slides k v :
  endsInPlace slides = true -> (1 <= k)%nat -> (S k < length slides)%nat ->
  endsInPlace (<[k := v]> slides) = true.
Proof.
  intros Hinv Hk1 Hk2. apply endsInPlace_spec in Hinv
    as (c & z & H0 & Hl & Hrest). apply endsInPlace_spec. exists c, z.
  rewrite length_insert, !list_lookup_insert_ne by lia. auto.
Qed.

Lemma endsInPlace_splice_insert slides k v :
  endsInPlace slides = true -> (1 <= k)%nat -> (k < length slides)%nat ->
  endsInPlace (take k slides ++ Some v :: drop k slides) = true.
Proof.
  intros Hinv Hk1 Hk2. apply endsInPlace_spec in Hinv
    as (c & z & H0 & Hl & Hc & Hlc & Hz & Hlz & Hlen). apply endsInPlace_spec. exists c, z.
  assert (Hlt : length (take k slides) = k) by (rewrite length_take; lia).
  repeat split; try assumption.
  - rewrite lookup_app_l by lia. now rewrite lookup_take_lt by lia.
  - rewrite length_app, Hlt. cbn [length]. rewrite length_drop.
    rewrite lookup_app_r by lia. rewrite Hlt.
    rewrite lookup_cons_ne_0 by lia. rewrite lookup_drop. rewrite <- Hl. f_equal. lia.
  - rewrite length_app, Hlt. cbn [length]. lia.
Qed.

Lemma endsInPlace_splice_remove slides k x :
  endsInPlace slides = true -> slides !! k = Some (Some x) -> isLocked x = false ->
  (6 < length slides)%nat ->
  endsInPlace (take k slides ++ drop (S k) slides) = true.
Proof.
  intros Hinv Hx Hfree Hlong. apply endsInPlace_spec in Hinv
    as (c & z & H0 & Hl & Hc & Hlc & Hz & Hlz & Hlen).
  assert (Hk0 : k <> 0%nat) by (intros ->; congruence).
  assert (Hkl : k <> pred (length slides)) by (intros ->; congruence).
  assert (Hklt : (k < length slides)%nat) by (eapply lookup_lt_Some; exact Hx).
  assert (Hlt : length (take k slides) = k) by (rewrite length_take; lia).
  apply endsInPlace_spec. exists c, z. repeat split; try assumption.
  - rewrite lookup_app_l by lia. now rewrite lookup_take_lt by lia.
  - rewrite length_app, Hlt, length_drop.
    rewrite lookup_app_r by lia. rewrite Hlt, lookup_drop. rewrite <- Hl. f_equal. lia.
  - rewrite length_app, Hlt, length_drop. lia.
Qed.

Lemma spliceStart_inside len i :
  (0 <= i)%Z -> (Z.to_nat i <= len)%nat -> spliceStart len i = Z.to_nat i.
Proof.
  intros Hi Hle. unfold spliceStart.
  destruct (i <? 0)%Z eqn:Hneg; [apply Z.ltb_lt in Hneg; lia | lia].
Qed.

(** Every call the controls make keeps the ends in place. *)
Lemma run_call_endsInPlace c slides :
  endsInPlace slides = true -> fromControls c slides = true ->
  endsInPlace (run_call c slides) = true.
Proof.
  intros Hinv Hctl. pose proof Hinv as Hspec.
  apply endsInPlace_spec in Hspec as (c0 & z & H0 & Hl & Hc & Hlc & Hz & Hlz & Hlen).
  unfold run_call. destruct c as [a|i|i dir|i t]; cbn [handle].
  - (* addSlide *)
    cbn [fromControls] in Hctl. apply andb_true_iff in Hctl as [Ha1 Ha2].
    apply Z.leb_le in Ha1, Ha2.
    unfold addSlide. destruct (12 <=? length slides)%nat; [exact Hinv|].
    cbn [after]. unfold splice_insert.
    rewrite spliceStart_inside by lia.
    apply endsInPlace_splice_insert; [exact Hinv | lia | lia].
  - (* removeSlide *)
    unfold removeSlide. destruct (length slides <=? 6)%nat eqn:Hshort; [exact Hinv|].
    apply Nat.leb_gt in Hshort.
    destruct (arr_get slides i) as [x|] eqn:Hget; [|exact Hinv].
    destruct (isLocked x) eqn:Hfree; [exact Hinv|].
    cbn [after]. apply arr_get_Some in Hget as [Hi Hx].
    unfold splice_remove. rewrite spliceStart_inside;
      [|lia | apply Nat.lt_le_incl; eapply lookup_lt_Some; exact Hx].
    eapply endsInPlace_splice_remove; eauto.
  - (* moveSlide *)
    unfold moveSlide.
    destruct ((i + dir <=? 0)%Z || (Z.of_nat (length slides) - 1 <=? i + dir)%Z) eqn:Hguard;
      [exact Hinv|].
    apply orb_false_iff in Hguard as [Hg1 Hg2].
    apply Z.leb_gt in Hg1, Hg2.
    destruct (arr_get slides i) as [x|] eqn:Hget; [|exact Hinv].
    destruct (isLocked x) eqn:Hfree; [exact Hinv|].
    cbn [after]. apply arr_get_Some in Hget as [Hi Hx].
    assert (Hi0 : Z.to_nat i <> 0%nat) by (intros He; rewrite He in Hx; congruence).
    assert (Hil : Z.to_nat i <> pred (length slides))
      by (intros He; rewrite He in Hx; congruence).
    assert (Hilt : (Z.to_nat i < length slides)%nat) by (eapply lookup_lt_Some; exact Hx).
    unfold swap. rewrite Hx.
    destruct (slides !! Z.to_nat (i + dir)) as [y|] eqn:Hy; [|exact Hinv].
    apply endsInPlace_insert_inside; [| lia | rewrite length_insert; lia].
    apply endsInPlace_insert_inside; [exact Hinv | lia | lia].
  - (* changeTemplate *)
    cbn [fromControls] in Hctl.
    destruct (arr_get slides i) as [x|] eqn:Hget; [|discriminate].
    apply negb_true_iff in Hctl.
    destruct (changeTemplate_resets_data slides i t x Hget) as (next & Hch & _).
    pose proof Hch as Hch1. unfold changeTemplate in Hch1. injection Hch1 as Hnext.
    rewrite Hch. cbn [after]. subst next.
    apply arr_get_Some in Hget as [Hi Hx].
    assert (Hi0 : Z.to_nat i <> 0%nat) by (intros He; rewrite He in Hx; congruence).
    assert (Hil : Z.to_nat i <> pred (length slides))
      by (intros He; rewrite He in Hx; congruence).
    assert (Hilt : (Z.to_nat i < length slides)%nat) by (eapply lookup_lt_Some; exact Hx).
    unfold arr_set. destruct (i <? 0)%Z eqn:Hneg; [exact Hinv|].
    apply Nat.ltb_lt in Hilt as Hb. rewrite Hb.
    apply endsInPlace_insert_inside; [exact Hinv | lia | lia].
Qed.

Lemma initFromSequence_endsInPlace key s :
  initFromSequence key = Updated s -> endsInPlace s = true.
Proof.
  unfold initFromSequence, SEQUENCES. cbn [assoc].
  repeat match goal with
  | |- context [String.eqb key ?k] =>
      destruct (String.eqb key k);
      [intros Hs; injection Hs as <-; vm_compute; reflexivity|]
  end.
  discriminate.
Qed.

Lemma reachable_endsInPlace s : reachable s -> endsInPlace s = true.
Proof.
  induction 1 as [|key s Hs|s c Hr IH Hctl].
  - reflexivity.
  - eapply initFromSequence_endsInPlace; exact Hs.
  - now apply run_call_endsInPlace.
Qed.

(** C4, for the calls the editor makes.  From the custom skeleton or from
    any sequence pattern, after any number of calls of [addSlide],
    [removeSlide], [moveSlide] and [changeTemplate], where [addSlide] is
    called after a slide that is not the last one and [changeTemplate] on a
    slide that is not locked, the first slide has the cover template and the
    last slide the cta template (and both are still locked). *)
Theorem ends_stay_in_place (slides : Slides) :
  reachable slides ->
  firstTemplate slides = Some "cover" /\ lastTemplate slides = Some "cta"
  /\ endsInPlace slides = true.
Proof.
  intros Hr. pose proof (reachable_endsInPlace _ Hr) as Hinv.
  destruct (endsInPlace_templates _ Hinv). auto.
Qed.

(** C4 at work: the custom skeleton, a slide added, retemplated, another
    added at the end, and the first of them moved down. *)
Lemma ends_stay_in_place_witness :
  let s1 := run_call (CallAdd 1) initCustom in
  let s2 := run_call (CallChange 2 "quote") s1 in
  let s3 := run_call (CallAdd (Z.of_nat (length s2) - 2)) s2 in
  let s4 := run_call (CallMove 1 1) s3 in
  reachable s4
  /\ map (fun s => template <$> s) s4
     = [Some "cover"; Some "quote"; Some "single"; Some "single"; Some "cta"]
  /\ firstTemplate s4 = Some "cover" /\ lastTemplate s4 = Some "cta".
Proof.
  intros s1 s2 s3 s4.
  assert (Hr : reachable s4).
  { repeat (apply r_call; [|reflexivity]). apply r_custom. }
  split; [exact Hr|]. split; [reflexivity|].
  destruct (ends_stay_in_place s4 Hr) as (Hf & Hl & _). split; assumption.
Defined.

(** C4 as it is worded fails: the guards inside the handlers do not keep
    the ends.  [changeTemplate] has no guard, and on the first slide of the
    custom skeleton it replaces the cover; [addSlide] only looks at the
    length, and after the last slide it puts a slide behind the call to
    action. *)
Lemma ends_moved_by_unguarded_calls :
  reachableByCalls (run_call (CallChange 0 "single") initCustom)
  /\ firstTemplate (run_call (CallChange 0 "single") initCustom) = Some "single"
  /\ reachableByCalls (run_call (CallAdd 2) initCustom)
  /\ lastTemplate (run_call (CallAdd 2) initCustom) = Some "single".
Proof.
  repeat split; try (apply rc_call, rc_custom).
Qed.

(** ** Unknown templates *)

Section UnknownTemplate.
Context `{Host}.

Lemma renderers_keys : map fst renderers = TEMPLATE_keys.
Proof. reflexivity. Qed.

Lemma assoc_None {V} k (l : list (string * V)) :
  assoc k l = None <-> ~ In k (map fst l).
Proof.
  induction l as [|[k1 v] r IH]; cbn; [tauto|].
  destruct (String.eqb k k1) eqn:He.
  - apply String.eqb_eq in He. split; [discriminate | intros Hn; exfalso; apply Hn; now left].
  - apply String.eqb_neq in He. rewrite IH. split.
    + intros Hn [Hk|Hk]; [congruence | contradiction].
    + intros Hn Hk. apply Hn. now right.
Qed.

(** The templates for which [renderers[template]] is [undefined]. *)
Lemma renderers_get_Undefined template :
  renderers_get template = Undefined
  <-> ~ In template TEMPLATE_keys /\ ~ In template objectPrototypeKeys.
Proof.
  unfold renderers_get. rewrite <- renderers_keys.
  destruct (assoc template renderers) as [r|] eqn:Ha.
  - split; [discriminate|]. intros [Hn _]. apply assoc_None in Hn. congruence.
  - apply assoc_None in Ha.
    destruct (existsb (String.eqb template) objectPrototypeKeys) eqn:Hp.
    + split; [discriminate|]. intros [_ Hn]. exfalso. apply Hn.
      apply existsb_exists in Hp as (k & Hk & He). apply String.eqb_eq in He. now subst.
    + split; [intros _ | reflexivity]. split; [exact Ha|].
      intros Hin. assert (existsb (String.eqb template) objectPrototypeKeys = true).
      { apply existsb_exists. exists template. split; [exact Hin | apply String.eqb_refl]. }
      congruence.
Qed.

(** C8, as the code has it.  For a template identifier that is neither one
    of the 14 templates nor the name of a property inherited from
    [Object.prototype], a request to render is skipped without a sign:
    [SlideCanvas] clears the canvas and draws nothing, and a turn of the
    export loop clears the canvas, draws nothing and leaves the context as
    it found it; neither throws. *)
Theorem unknown_template_is_skipped (templateId : string) (data : Data)
    (slideNum : option nat) :
  ~ In templateId TEMPLATE_keys -> ~ In templateId objectPrototypeKeys ->
  SlideCanvas_effect templateId data slideNum
  = Skipped freshContext [ClearRect (1, 1)%Q 0 0 C.slide C.slide]
  /\ (forall slides i s c,
        slides !! i = Some (Some s) -> template s = templateId ->
        exportPDF_page slides i c
        = Skipped (mkCtx (draw c) (saved c) (path c))
            [ClearRect (transform (draw c)) 0 0 (C.slide * 2) (C.slide * 2)]).
Proof.
  intros Hk Hp.
  assert (Hu : renderers_get templateId = Undefined) by (now apply renderers_get_Undefined).
  split.
  - unfold SlideCanvas_effect. rewrite Hu. reflexivity.
  - intros slides i s c Hs Ht. unfold exportPDF_page. rewrite Hs. cbn [mjoin option_join].
    rewrite Ht, Hu. destruct c as [d sv pt]. destruct d. reflexivity.
Qed.

End UnknownTemplate.

(** C8 at work on an identifier that is no template. *)
Lemma unknown_template_is_skipped_witness :
  ~ In "timeline" TEMPLATE_keys /\ ~ In "timeline" objectPrototypeKeys
  /\ @SlideCanvas_effect demoHost "timeline" ∅ (Some 3%nat)
     = Skipped freshContext [ClearRect (1, 1)%Q 0 0 C.slide C.slide].
Proof.
  assert (Hk : ~ In "timeline" TEMPLATE_keys).
  { cbn. intros H. repeat (destruct H as [H|H]; [discriminate|]). exact H. }
  assert (Hp : ~ In "timeline" objectPrototypeKeys).
  { cbn. intros H. repeat (destruct H as [H|H]; [discriminate|]). exact H. }
  split; [exact Hk|]. split; [exact Hp|].
  exact (proj1 (@unknown_template_is_skipped demoHost "timeline" ∅ (Some 3%nat) Hk Hp)).
Defined.

(** C8 as it is worded fails: for an identifier that is no template the
    request does not end in a failure, it ends with a cleared canvas. *)
Lemma unknown_template_does_not_throw :
  ~ In "timeline" TEMPLATE_keys
  /\ @SlideCanvas_effect demoHost "timeline" ∅ (Some 3%nat) <> Threw
  /\ @exportPDF_page demoHost [Some (mkSlide "timeline" None None ∅)] 0 freshContext
     <> Threw.
Proof.
  split; [|split].
  - cbn. intros H. repeat (destruct H as [H|H]; [discriminate|]). exact H.
  - discriminate.
  - discriminate.
Qed.
(* ================================================================== *)
(** ** Masks *)

Lemma maskLe_spec m1 m2 :
  maskLe m1 m2 = true ->
  (k_fill m1 = true -> k_fill m2 = true) /\ (k_stroke m1 = true -> k_stroke m2 = true)
  /\ (k_font m1 = true -> k_font m2 = true) /\ (k_width m1 = true -> k_width m2 = true)
  /\ (k_alpha m1 = true -> k_alpha m2 = true) /\ (k_align m1 = true -> k_align m2 = true)
  /\ (k_dash m1 = true -> k_dash m2 = true) /\ (k_cap m1 = true -> k_cap m2 = true)
  /\ (k_join m1 = true -> k_join m2 = true) /\ (k_spacing m1 = true -> k_spacing m2 = true)
  /\ (k_xf m1 = true -> k_xf m2 = true) /\ (k_path m1 = true -> k_path m2 = true).
Proof.
  unfold maskLe. rewrite !andb_true_iff, !Bool.implb_true_iff. tauto.
Qed.

Lemma agree_le m1 m2 d1 d2 :
  maskLe m1 m2 = true -> agree m2 d1 d2 -> agree m1 d1 d2.
Proof.
  intros Hle. apply maskLe_spec in Hle. unfold agree. tauto.
Qed.

Lemma maskMeet_le_l m1 m2 : maskLe (maskMeet m1 m2) m1 = true.
Proof.
  unfold maskLe, maskMeet. cbn.
  rewrite !andb_true_iff, !Bool.implb_true_iff, !andb_true_iff. tauto.
Qed.

Lemma maskMeet_le_r m1 m2 : maskLe (maskMeet m1 m2) m2 = true.
Proof.
  unfold maskLe, maskMeet. cbn.
  rewrite !andb_true_iff, !Bool.implb_true_iff, !andb_true_iff. tauto.
Qed.

Lemma stackAgree_le ms1 : forall ms2 s1 s2,
  stackLe ms1 ms2 = true -> stackAgree ms2 s1 s2 -> stackAgree ms1 s1 s2.
Proof.
  induction ms1 as [|m1 r1 IH]; intros [|m2 r2] s1 s2 Hle Hs; cbn in *; try discriminate; auto.
  apply andb_true_iff in Hle as [Hm Hr].
  destruct s1 as [|d1 t1], s2 as [|d2 t2]; try contradiction.
  destruct Hs as [Ha Hs]. split; [eapply agree_le; eauto | eapply IH; eauto].
Qed.

Lemma stackKept_le ms1 : forall ms2 d0 s0 s,
  stackLe ms1 ms2 = true -> stackKept ms2 d0 s0 s -> stackKept ms1 d0 s0 s.
Proof.
  induction ms1 as [|m1 r1 IH]; intros [|m2 r2] d0 s0 s Hle Hs; cbn in *; try discriminate; auto.
  apply andb_true_iff in Hle as [Hm Hr].
  destruct s as [|d1 t1]; try contradiction.
  destruct Hs as [Ha Hs]. split; [eapply agree_le; eauto | eapply IH; eauto].
Qed.

Lemma stackMeet_le_l ms1 : forall ms2,
  (length ms1 =? length ms2)%nat = true -> stackLe (stackMeet ms1 ms2) ms1 = true.
Proof.
  induction ms1 as [|m1 r1 IH]; intros [|m2 r2] Hl; cbn in *; try discriminate; auto.
  rewrite maskMeet_le_l. cbn. now apply IH.
Qed.

Lemma stackMeet_le_r ms1 : forall ms2,
  (length ms1 =? length ms2)%nat = true -> stackLe (stackMeet ms1 ms2) ms2 = true.
Proof.
  induction ms1 as [|m1 r1 IH]; intros [|m2 r2] Hl; cbn in *; try discriminate; auto.
  rewrite maskMeet_le_r. cbn. now apply IH.
Qed.

Lemma agreeCtx_le a b c1 c2 :
  absLe a b = true -> agreeCtx b c1 c2 -> agreeCtx a c1 c2.
Proof.
  unfold absLe, agreeCtx. intros Hle (Hd & Hp & Hs).
  apply andb_true_iff in Hle as [Hm Hst].
  split; [eapply agree_le; eauto | split; [| eapply stackAgree_le; eauto]].
  intros Hk. apply Hp. now apply (maskLe_spec _ _ Hm).
Qed.

Lemma keptCtx_le c0 a b c :
  absLe a b = true -> keptCtx c0 b c -> keptCtx c0 a c.
Proof.
  unfold absLe, keptCtx. intros Hle (Hd & Hs).
  apply andb_true_iff in Hle as [Hm Hst].
  split; [eapply agree_le; eauto | eapply stackKept_le; eauto].
Qed.

Lemma absMeet_le_l a b : sameDepth a b = true -> absLe (absMeet a b) a = true.
Proof.
  intros Hd. unfold absLe, absMeet. cbn. rewrite maskMeet_le_l. cbn.
  now apply stackMeet_le_l.
Qed.

Lemma absMeet_le_r a b : sameDepth a b = true -> absLe (absMeet a b) b = true.
Proof.
  intros Hd. unfold absLe, absMeet. cbn. rewrite maskMeet_le_r. cbn.
  now apply stackMeet_le_r.
Qed.

Lemma maskLe_refl m : maskLe m m = true.
Proof. unfold maskLe. now rewrite !Bool.implb_same. Qed.

Lemma stackLe_refl ms : stackLe ms ms = true.
Proof. induction ms as [|m r IH]; cbn; [reflexivity|]. now rewrite maskLe_refl, IH. Qed.

Lemma absLe_refl a : absLe a a = true.
Proof. unfold absLe. now rewrite maskLe_refl, stackLe_refl. Qed.

Lemma agree_paintOf m d1 d2 :
  readsPaint m = true -> agree m d1 d2 -> paintOf d1 = paintOf d2.
Proof.
  unfold readsPaint, agree, paintOf. rewrite !andb_true_iff.
  intros [[Hf Ha] Hx] Hag. decompose [and] Hag.
  f_equal; auto.
Qed.

Lemma agree_penOf m d1 d2 :
  readsPen m = true -> agree m d1 d2 -> penOf d1 = penOf d2.
Proof.
  unfold readsPen, agree, penOf. rewrite !andb_true_iff.
  intros Hr Hag. decompose [and] Hr. decompose [and] Hag.
  f_equal; auto.
Qed.

Lemma agree_textOf m d1 d2 :
  readsText m = true -> agree m d1 d2 -> textOf d1 = textOf d2.
Proof.
  unfold readsText, agree, textOf. rewrite !andb_true_iff.
  intros Hr Hag. decompose [and] Hr. decompose [and] Hag.
  f_equal; auto.
Qed.

Lemma agree_measureWith `{Host} m d1 d2 :
  readsMeasure m = true -> agree m d1 d2 -> measureWith d1 = measureWith d2.
Proof.
  unfold readsMeasure, agree, measureWith. rewrite !andb_true_iff.
  intros [Hf Hs] Hag. decompose [and] Hag.
  replace (font d2) with (font d1) by auto.
  replace (letterSpacing d2) with (letterSpacing d1) by auto.
  reflexivity.
Qed.

(* ================================================================== *)
(** ** How a program is run *)

Lemma run_bind {A B} (m : Canvas A) (k : A -> Canvas B) c :
  bind m k c =
  (value (k (value (m c)) (final (m c))),
   final (k (value (m c)) (final (m c))),
   trace (m c) ++ trace (k (value (m c)) (final (m c)))).
Proof.
  unfold bind, value, final, trace.
  destruct (m c) as [[a c1] o1]. cbn.
  destruct (k a c1) as [[b c2] o2]. reflexivity.
Qed.

Lemma trace_bind {A B} (m : Canvas A) (k : A -> Canvas B) c :
  trace (bind m k c) = trace (m c) ++ trace (k (value (m c)) (final (m c))).
Proof. now rewrite run_bind. Qed.

Lemma final_bind {A B} (m : Canvas A) (k : A -> Canvas B) c :
  final (bind m k c) = final (k (value (m c)) (final (m c))).
Proof. now rewrite run_bind. Qed.

(* ================================================================== *)
(** ** Rules for [reads] *)

Lemma reads_ret {X} (x : X) a : reads a (ret x) a.
Proof. intros c1 c2 Hc. cbn. auto. Qed.

Lemma reads_bind {A B} (m : Canvas A) (k : A -> Canvas B) a b c :
  reads a m b -> (forall x, reads b (k x) c) -> reads a (bind m k) c.
Proof.
  intros Hm Hk c1 c2 Hc. rewrite !run_bind. cbn [value trace final fst snd].
  destruct (Hm c1 c2 Hc) as (Hv & Ht & Hf).
  destruct (Hk (value (m c1)) _ _ Hf) as (Hv1 & Ht1 & Hf1).
  rewrite <- Hv. rewrite Hv1, Ht, Ht1. auto.
Qed.

Lemma reads_le_post {X} (m : Canvas X) a b b1 :
  reads a m b -> absLe b1 b = true -> reads a m b1.
Proof.
  intros Hm Hle c1 c2 Hc. destruct (Hm c1 c2 Hc) as (Hv & Ht & Hf).
  split; [|split]; auto. eapply agreeCtx_le; eauto.
Qed.

Lemma reads_le_pre {X} (m : Canvas X) a a1 b :
  reads a1 m b -> absLe a1 a = true -> reads a m b.
Proof.
  intros Hm Hle c1 c2 Hc. apply Hm. eapply agreeCtx_le; eauto.
Qed.

Lemma reads_if {X} (t : bool) (m1 m2 : Canvas X) a b1 b2 :
  reads a m1 b1 -> reads a m2 b2 -> sameDepth b1 b2 = true ->
  reads a (if t then m1 else m2) (absMeet b1 b2).
Proof.
  intros H1 H2 Hd. destruct t.
  - eapply reads_le_post; [exact H1 | now apply absMeet_le_l].
  - eapply reads_le_post; [exact H2 | now apply absMeet_le_r].
Qed.

Lemma reads_option {X V} (o : option V) (f : V -> Canvas X) (g : Canvas X) a b1 b2 :
  (forall v, reads a (f v) b1) -> reads a g b2 -> sameDepth b1 b2 = true ->
  reads a (match o with Some v => f v | None => g end) (absMeet b1 b2).
Proof.
  intros H1 H2 Hd. destruct o.
  - eapply reads_le_post; [apply H1 | now apply absMeet_le_l].
  - eapply reads_le_post; [exact H2 | now apply absMeet_le_r].
Qed.

Lemma reads_forEachFrom {V} (body : V -> nat -> Canvas unit) a b :
  (forall x i, reads a (body x i) b) -> absLe a b = true ->
  forall l i, reads a (forEachFrom i l body) a.
Proof.
  intros Hb Hle l. induction l as [|x r IH]; intros i; cbn [forEachFrom].
  - apply reads_ret.
  - eapply reads_bind; [eapply reads_le_post; [apply Hb | exact Hle] | intros _; apply IH].
Qed.

Lemma reads_forEach {V} (l : list V) (body : V -> nat -> Canvas unit) a b :
  (forall x i, reads a (body x i) b) -> absLe a b = true ->
  reads a (forEach l body) a.
Proof. intros Hb Hle. unfold forEach. now apply reads_forEachFrom with (b := b). Qed.

Lemma reads_forEachAccFrom {V W} (body : W -> V -> nat -> Canvas W) a b :
  (forall v x i, reads a (body v x i) b) -> absLe a b = true ->
  forall l i v, reads a (forEachAccFrom i l v body) a.
Proof.
  intros Hb Hle l. induction l as [|x r IH]; intros i v; cbn [forEachAccFrom].
  - apply reads_ret.
  - eapply reads_bind; [eapply reads_le_post; [apply Hb | exact Hle] | intros v1; apply IH].
Qed.

Lemma reads_forEachAcc {V W} (l : list V) (v : W) (body : W -> V -> nat -> Canvas W) a b :
  (forall v x i, reads a (body v x i) b) -> absLe a b = true ->
  reads a (forEachAcc l v body) a.
Proof. intros Hb Hle. unfold forEachAcc. now apply reads_forEachAccFrom with (b := b). Qed.

Lemma reads_mapM {V W} (f : V -> Canvas W) (l : list V) a b :
  (forall x, reads a (f x) b) -> absLe a b = true -> reads a (mapM f l) a.
Proof.
  intros Hb Hle. induction l as [|x r IH]; cbn [mapM].
  - apply reads_ret.
  - eapply reads_bind; [eapply reads_le_post; [apply Hb | exact Hle] |].
    intros y. eapply reads_bind; [exact IH | intros ys; apply reads_ret].
Qed.

Lemma reads_modify (f : DrawState -> DrawState) (mf : Mask -> Mask) a :
  (forall d1 d2, agree (fst a) d1 d2 -> agree (mf (fst a)) (f d1) (f d2)) ->
  k_path (mf (fst a)) = k_path (fst a) ->
  reads a (modify f) (mf (fst a), snd a).
Proof.
  intros Hf Hp c1 c2 (Hd & Hpath & Hs). unfold modify. cbn.
  split; [reflexivity | split; [reflexivity|]].
  split; [|split]; cbn; auto. rewrite Hp. exact Hpath.
Qed.

Lemma reads_emit (f : DrawState -> Op) a :
  (forall d1 d2, agree (fst a) d1 d2 -> f d1 = f d2) -> reads a (emit f) a.
Proof.
  intros Hf c1 c2 Hc. unfold emit. cbn.
  split; [reflexivity | split; [|exact Hc]].
  f_equal. apply Hf. apply Hc.
Qed.

Lemma reads_addPath s a : reads a (addPath s) a.
Proof.
  intros c1 c2 (Hd & Hp & Hs). unfold addPath. cbn.
  split; [reflexivity | split; [reflexivity|]].
  split; [|split]; cbn; auto. intros Hk. now rewrite Hp.
Qed.

Ltac agree_set := intros ? ?; unfold agree; cbn; intuition auto.

Lemma reads_set_fillStyle v a : reads a (set_fillStyle v) (mask_fill true (fst a), snd a).
Proof. apply (reads_modify (with_fillStyle v) (mask_fill true)); [agree_set | reflexivity]. Qed.
Lemma reads_set_strokeStyle v a : reads a (set_strokeStyle v) (mask_stroke true (fst a), snd a).
Proof. apply (reads_modify (with_strokeStyle v) (mask_stroke true)); [agree_set | reflexivity]. Qed.
Lemma reads_set_font v a : reads a (set_font v) (mask_font true (fst a), snd a).
Proof. apply (reads_modify (with_font v) (mask_font true)); [agree_set | reflexivity]. Qed.
Lemma reads_set_lineWidth v a : reads a (set_lineWidth v) (mask_width true (fst a), snd a).
Proof. apply (reads_modify (with_lineWidth v) (mask_width true)); [agree_set | reflexivity]. Qed.
Lemma reads_set_globalAlpha v a : reads a (set_globalAlpha v) (mask_alpha true (fst a), snd a).
Proof. apply (reads_modify (with_globalAlpha v) (mask_alpha true)); [agree_set | reflexivity]. Qed.
Lemma reads_set_textAlign v a : reads a (set_textAlign v) (mask_align true (fst a), snd a).
Proof. apply (reads_modify (with_textAlign v) (mask_align true)); [agree_set | reflexivity]. Qed.
Lemma reads_setLineDash v a : reads a (setLineDash v) (mask_dash true (fst a), snd a).
Proof. apply (reads_modify (with_lineDash v) (mask_dash true)); [agree_set | reflexivity]. Qed.
Lemma reads_set_lineCap v a : reads a (set_lineCap v) (mask_cap true (fst a), snd a).
Proof. apply (reads_modify (with_lineCap v) (mask_cap true)); [agree_set | reflexivity]. Qed.
Lemma reads_set_lineJoin v a : reads a (set_lineJoin v) (mask_join true (fst a), snd a).
Proof. apply (reads_modify (with_lineJoin v) (mask_join true)); [agree_set | reflexivity]. Qed.
Lemma reads_set_letterSpacing v a :
  reads a (set_letterSpacing v) (mask_spacing true (fst a), snd a).
Proof. apply (reads_modify (with_letterSpacing v) (mask_spacing true)); [agree_set | reflexivity]. Qed.

Lemma reads_scale sx sy a : reads a (scale sx sy) a.
Proof.
  destruct a as [m ms].
  apply (reads_modify (with_scale sx sy) (fun m => m) (m, ms)); [|reflexivity].
  intros d1 d2. unfold agree. cbn. intros Hag. decompose [and] Hag.
  repeat split; auto. intros Hk. replace (transform d2) with (transform d1) by auto. reflexivity.
Qed.

Lemma reads_save a : reads a save (fst a, fst a :: snd a).
Proof.
  intros c1 c2 (Hd & Hp & Hs). unfold save. cbn.
  split; [reflexivity | split; [reflexivity|]].
  split; [|split]; cbn; auto.
Qed.

Lemma reads_restore a m1 ms :
  snd a = m1 :: ms -> reads a restore (mask_path (k_path (fst a)) m1, ms).
Proof.
  intros Ha c1 c2 (Hd & Hp & Hs). rewrite Ha in Hs. unfold restore. cbn in Hs.
  destruct (saved c1) as [|d1 r1], (saved c2) as [|d2 r2]; try contradiction.
  destruct Hs as [Hag Hs]. cbn.
  split; [reflexivity | split; [reflexivity|]].
  split; [|split]; cbn; auto.
Qed.

Lemma reads_beginPath a : reads a beginPath (mask_path true (fst a), snd a).
Proof.
  intros c1 c2 (Hd & Hp & Hs). unfold beginPath. cbn.
  split; [reflexivity | split; [reflexivity|]].
  split; [|split]; cbn; auto.
Qed.

Lemma reads_moveTo x y a : reads a (moveTo x y) a.
Proof. apply reads_addPath. Qed.
Lemma reads_lineTo x y a : reads a (lineTo x y) a.
Proof. apply reads_addPath. Qed.
Lemma reads_arc x y r a0 a1 a : reads a (arc x y r a0 a1) a.
Proof. apply reads_addPath. Qed.
Lemma reads_closePath a : reads a closePath a.
Proof. apply reads_addPath. Qed.

Lemma reads_stroke a :
  readsPen (fst a) = true -> k_path (fst a) = true -> reads a stroke a.
Proof.
  intros Hr Hk c1 c2 Hc. unfold stroke. cbn.
  split; [reflexivity | split; [|exact Hc]].
  destruct Hc as (Hd & Hp & Hs).
  rewrite (agree_penOf _ _ _ Hr Hd), (Hp Hk). reflexivity.
Qed.

Lemma reads_fill a :
  readsPaint (fst a) = true -> k_path (fst a) = true -> reads a fill a.
Proof.
  intros Hr Hk c1 c2 Hc. unfold fill. cbn.
  split; [reflexivity | split; [|exact Hc]].
  destruct Hc as (Hd & Hp & Hs).
  rewrite (agree_paintOf _ _ _ Hr Hd), (Hp Hk). reflexivity.
Qed.

Lemma reads_fillRect x y w h a : readsPaint (fst a) = true -> reads a (fillRect x y w h) a.
Proof.
  intros Hr. apply reads_emit. intros d1 d2 Hd.
  now rewrite (agree_paintOf _ _ _ Hr Hd).
Qed.

Lemma reads_strokeRect x y w h a : readsPen (fst a) = true -> reads a (strokeRect x y w h) a.
Proof.
  intros Hr. apply reads_emit. intros d1 d2 Hd.
  now rewrite (agree_penOf _ _ _ Hr Hd).
Qed.

Lemma reads_fillText s x y a : readsText (fst a) = true -> reads a (fillText s x y) a.
Proof.
  intros Hr. apply reads_emit. intros d1 d2 Hd.
  now rewrite (agree_textOf _ _ _ Hr Hd).
Qed.

Lemma reads_clearRect x y w h a : k_xf (fst a) = true -> reads a (clearRect x y w h) a.
Proof.
  intros Hr. apply reads_emit. intros d1 d2 Hd.
  unfold agree in Hd. decompose [and] Hd.
  replace (transform d2) with (transform d1) by auto. reflexivity.
Qed.

Lemma reads_get_font a : k_font (fst a) = true -> reads a get_font a.
Proof.
  intros Hr c1 c2 Hc. unfold get_font. cbn.
  split; [|split; [reflexivity | exact Hc]].
  destruct Hc as (Hd & _). unfold agree in Hd. decompose [and] Hd. auto.
Qed.

Lemma reads_get_fillStyle a : k_fill (fst a) = true -> reads a get_fillStyle a.
Proof.
  intros Hr c1 c2 Hc. unfold get_fillStyle. cbn.
  split; [|split; [reflexivity | exact Hc]].
  destruct Hc as (Hd & _). unfold agree in Hd. decompose [and] Hd. auto.
Qed.

Lemma reads_measureText `{Host} a : readsMeasure (fst a) = true -> reads a measureText a.
Proof.
  intros Hr c1 c2 Hc. unfold measureText. cbn.
  split; [|split; [reflexivity | exact Hc]].
  destruct Hc as (Hd & _). now apply agree_measureWith with (m := fst a).
Qed.

Lemma maskLe_path m : maskLe m (mask_path true m) = true.
Proof.
  unfold maskLe, mask_path. cbn. rewrite !Bool.implb_same. cbn.
  now destruct (k_path m).
Qed.

Lemma reads_ruledLoop fuel : forall y a,
  readsPen (fst a) = true -> reads a (ruledLoop fuel y) a.
Proof.
  induction fuel as [|f IH]; intros y a Hr; cbn [ruledLoop]; [apply reads_ret|].
  destruct (Qleb y C.slide); [|apply reads_ret].
  eapply reads_le_post with (b := (mask_path true (fst a), snd a)).
  - eapply reads_bind; [apply reads_beginPath | intros _].
    eapply reads_bind; [apply reads_moveTo | intros _].
    eapply reads_bind; [apply reads_lineTo | intros _].
    eapply reads_bind; [apply reads_stroke; [exact Hr | reflexivity] | intros _].
    apply IH. exact Hr.
  - unfold absLe. cbn. now rewrite maskLe_path, stackLe_refl.
Qed.

(* ================================================================== *)
(** ** Rules for [keeps] *)

Section Keeps.
Variable c0 : Context2D.
Hypothesis align0 : textAlign (draw c0) = "start".
Hypothesis spacing0 : letterSpacing (draw c0) = "0px".

Lemma keeps_ret {X} (x : X) a : keeps c0 a (ret x) a.
Proof. intros c Hc. exact Hc. Qed.

Lemma keeps_bind {A B} (m : Canvas A) (k : A -> Canvas B) a b c :
  keeps c0 a m b -> (forall x, keeps c0 b (k x) c) -> keeps c0 a (bind m k) c.
Proof.
  intros Hm Hk c1 Hc. rewrite final_bind. apply Hk. now apply Hm.
Qed.

Lemma keeps_le_post {X} (m : Canvas X) a b b1 :
  keeps c0 a m b -> absLe b1 b = true -> keeps c0 a m b1.
Proof. intros Hm Hle c Hc. eapply keptCtx_le; [exact Hle | now apply Hm]. Qed.

Lemma keeps_if {X} (t : bool) (m1 m2 : Canvas X) a b1 b2 :
  keeps c0 a m1 b1 -> keeps c0 a m2 b2 -> sameDepth b1 b2 = true ->
  keeps c0 a (if t then m1 else m2) (absMeet b1 b2).
Proof.
  intros H1 H2 Hd. destruct t.
  - eapply keeps_le_post; [exact H1 | now apply absMeet_le_l].
  - eapply keeps_le_post; [exact H2 | now apply absMeet_le_r].
Qed.

Lemma keeps_option {X V} (o : option V) (f : V -> Canvas X) (g : Canvas X) a b1 b2 :
  (forall v, keeps c0 a (f v) b1) -> keeps c0 a g b2 -> sameDepth b1 b2 = true ->
  keeps c0 a (match o with Some v => f v | None => g end) (absMeet b1 b2).
Proof.
  intros H1 H2 Hd. destruct o.
  - eapply keeps_le_post; [apply H1 | now apply absMeet_le_l].
  - eapply keeps_le_post; [exact H2 | now apply absMeet_le_r].
Qed.

Lemma keeps_forEachFrom {V} (body : V -> nat -> Canvas unit) a b :
  (forall x i, keeps c0 a (body x i) b) -> absLe a b = true ->
  forall l i, keeps c0 a (forEachFrom i l body) a.
Proof.
  intros Hb Hle l. induction l as [|x r IH]; intros i; cbn [forEachFrom].
  - apply keeps_ret.
  - eapply keeps_bind; [eapply keeps_le_post; [apply Hb | exact Hle] | intros _; apply IH].
Qed.

Lemma keeps_forEach {V} (l : list V) (body : V -> nat -> Canvas unit) a b :
  (forall x i, keeps c0 a (body x i) b) -> absLe a b = true ->
  keeps c0 a (forEach l body) a.
Proof. intros Hb Hle. unfold forEach. now apply keeps_forEachFrom with (b := b). Qed.

Lemma keeps_forEachAccFrom {V W} (body : W -> V -> nat -> Canvas W) a b :
  (forall v x i, keeps c0 a (body v x i) b) -> absLe a b = true ->
  forall l i v, keeps c0 a (forEachAccFrom i l v body) a.
Proof.
  intros Hb Hle l. induction l as [|x r IH]; intros i v; cbn [forEachAccFrom].
  - apply keeps_ret.
  - eapply keeps_bind; [eapply keeps_le_post; [apply Hb | exact Hle] | intros v1; apply IH].
Qed.

Lemma keeps_forEachAcc {V W} (l : list V) (v : W) (body : W -> V -> nat -> Canvas W) a b :
  (forall v x i, keeps c0 a (body v x i) b) -> absLe a b = true ->
  keeps c0 a (forEachAcc l v body) a.
Proof. intros Hb Hle. unfold forEachAcc. now apply keeps_forEachAccFrom with (b := b). Qed.

Lemma keeps_mapM {V W} (f : V -> Canvas W) (l : list V) a b :
  (forall x, keeps c0 a (f x) b) -> absLe a b = true -> keeps c0 a (mapM f l) a.
Proof.
  intros Hb Hle. induction l as [|x r IH]; cbn [mapM].
  - apply keeps_ret.
  - eapply keeps_bind; [eapply keeps_le_post; [apply Hb | exact Hle] |].
    intros y. eapply keeps_bind; [exact IH | intros ys; apply keeps_ret].
Qed.

Lemma keeps_modify (f : DrawState -> DrawState) (mf : Mask -> Mask) a :
  (forall d, agree (fst a) (draw c0) d -> agree (mf (fst a)) (draw c0) (f d)) ->
  keeps c0 a (modify f) (mf (fst a), snd a).
Proof. intros Hf c (Hd & Hs). unfold modify. cbn. split; cbn; auto. Qed.

(** A call that leaves the drawing state and the stack alone. *)
Lemma keeps_still {X} (m : Canvas X) a :
  (forall c, draw (final (m c)) = draw c /\ saved (final (m c)) = saved c) ->
  keeps c0 a m a.
Proof.
  intros Hm c (Hd & Hs). destruct (Hm c) as [E1 E2].
  unfold keptCtx. now rewrite E1, E2.
Qed.

Ltac kept_set := intros ?; unfold agree; cbn; intuition auto; discriminate.

Lemma keeps_set_fillStyle v a : keeps c0 a (set_fillStyle v) (mask_fill false (fst a), snd a).
Proof. apply (keeps_modify (with_fillStyle v) (mask_fill false)). kept_set. Qed.
Lemma keeps_set_strokeStyle v a :
  keeps c0 a (set_strokeStyle v) (mask_stroke false (fst a), snd a).
Proof. apply (keeps_modify (with_strokeStyle v) (mask_stroke false)). kept_set. Qed.
Lemma keeps_set_font v a : keeps c0 a (set_font v) (mask_font false (fst a), snd a).
Proof. apply (keeps_modify (with_font v) (mask_font false)). kept_set. Qed.
Lemma keeps_set_lineWidth v a : keeps c0 a (set_lineWidth v) (mask_width false (fst a), snd a).
Proof. apply (keeps_modify (with_lineWidth v) (mask_width false)). kept_set. Qed.
Lemma keeps_set_globalAlpha v a :
  keeps c0 a (set_globalAlpha v) (mask_alpha false (fst a), snd a).
Proof. apply (keeps_modify (with_globalAlpha v) (mask_alpha false)). kept_set. Qed.
Lemma keeps_setLineDash v a : keeps c0 a (setLineDash v) (mask_dash false (fst a), snd a).
Proof. apply (keeps_modify (with_lineDash v) (mask_dash false)). kept_set. Qed.
Lemma keeps_set_lineCap v a : keeps c0 a (set_lineCap v) (mask_cap false (fst a), snd a).
Proof. apply (keeps_modify (with_lineCap v) (mask_cap false)). kept_set. Qed.
Lemma keeps_set_lineJoin v a : keeps c0 a (set_lineJoin v) (mask_join false (fst a), snd a).
Proof. apply (keeps_modify (with_lineJoin v) (mask_join false)). kept_set. Qed.
Lemma keeps_scale sx sy a : keeps c0 a (scale sx sy) (mask_xf false (fst a), snd a).
Proof. apply (keeps_modify (with_scale sx sy) (mask_xf false)). kept_set. Qed.

(** Assigning the value the attribute had at the start brings it back. *)
Lemma keeps_set_textAlign v a :
  keeps c0 a (set_textAlign v) (mask_align (String.eqb v "start") (fst a), snd a).
Proof using align0.
  apply (keeps_modify (with_textAlign v) (mask_align (String.eqb v "start"))).
  intros d. unfold agree. cbn. intuition auto.
  rewrite align0. symmetry. now apply String.eqb_eq.
Qed.

Lemma keeps_set_letterSpacing v a :
  keeps c0 a (set_letterSpacing v) (mask_spacing (String.eqb v "0px") (fst a), snd a).
Proof using spacing0.
  apply (keeps_modify (with_letterSpacing v) (mask_spacing (String.eqb v "0px"))).
  intros d. unfold agree. cbn. intuition auto.
  rewrite spacing0. symmetry. now apply String.eqb_eq.
Qed.

Lemma keeps_save a : keeps c0 a save (fst a, fst a :: snd a).
Proof. intros c (Hd & Hs). unfold save. cbn. split; cbn; auto. Qed.

Lemma keeps_restore a m1 ms :
  snd a = m1 :: ms -> keeps c0 a restore (mask_path (k_path (fst a)) m1, ms).
Proof.
  intros Ha c (Hd & Hs). rewrite Ha in Hs. unfold restore. cbn in Hs.
  destruct (saved c) as [|d1 r1]; try contradiction.
  destruct Hs as [Hag Hs]. cbn. split; cbn; auto.
Qed.

Lemma keeps_beginPath a : keeps c0 a beginPath (mask_path true (fst a), snd a).
Proof. intros c (Hd & Hs). unfold beginPath. cbn. split; cbn; auto. Qed.

Lemma keeps_moveTo x y a : keeps c0 a (moveTo x y) a.
Proof. apply keeps_still. intros c. now split. Qed.
Lemma keeps_lineTo x y a : keeps c0 a (lineTo x y) a.
Proof. apply keeps_still. intros c. now split. Qed.
Lemma keeps_arc x y r a0 a1 a : keeps c0 a (arc x y r a0 a1) a.
Proof. apply keeps_still. intros c. now split. Qed.
Lemma keeps_closePath a : keeps c0 a closePath a.
Proof. apply keeps_still. intros c. now split. Qed.
Lemma keeps_stroke a : keeps c0 a stroke a.
Proof. apply keeps_still. intros c. now split. Qed.
Lemma keeps_fill a : keeps c0 a fill a.
Proof. apply keeps_still. intros c. now split. Qed.
Lemma keeps_fillRect x y w h a : keeps c0 a (fillRect x y w h) a.
Proof. apply keeps_still. intros c. now split. Qed.
Lemma keeps_strokeRect x y w h a : keeps c0 a (strokeRect x y w h) a.
Proof. apply keeps_still. intros c. now split. Qed.
Lemma keeps_fillText s x y a : keeps c0 a (fillText s x y) a.
Proof. apply keeps_still. intros c. now split. Qed.
Lemma keeps_clearRect x y w h a : keeps c0 a (clearRect x y w h) a.
Proof. apply keeps_still. intros c. now split. Qed.
Lemma keeps_get_font a : keeps c0 a get_font a.
Proof. apply keeps_still. intros c. now split. Qed.
Lemma keeps_get_fillStyle a : keeps c0 a get_fillStyle a.
Proof. apply keeps_still. intros c. now split. Qed.
Lemma keeps_measureText `{Host} a : keeps c0 a measureText a.
Proof. apply keeps_still. intros c. now split. Qed.

Lemma keeps_ruledLoop fuel : forall y a, keeps c0 a (ruledLoop fuel y) a.
Proof.
  induction fuel as [|f IH]; intros y a; cbn [ruledLoop]; [apply keeps_ret|].
  destruct (Qleb y C.slide); [|apply keeps_ret].
  eapply keeps_le_post with (b := (mask_path true (fst a), snd a)).
  - eapply keeps_bind; [apply keeps_beginPath | intros _].
    eapply keeps_bind; [apply keeps_moveTo | intros _].
    eapply keeps_bind; [apply keeps_lineTo | intros _].
    eapply keeps_bind; [apply keeps_stroke | intros _].
    apply IH.
  - unfold absLe. cbn. now rewrite maskLe_path, stackLe_refl.
Qed.

End Keeps.

(* ================================================================== *)
(** ** Following a renderer statement by statement *)

(** The abstract context before the statement, computed. *)
Ltac abs_norm :=
  lazymatch goal with
  | |- reads ?a ?m ?b =>
      let a1 := eval vm_compute in a in change (reads a1 m b)
  | |- keeps ?c ?a ?m ?b =>
      let a1 := eval vm_compute in a in change (keeps c a1 m b)
  end.

Ltac side := vm_compute; reflexivity.

Ltac head_of t :=
  lazymatch t with
  | ?f _ => head_of f
  | _ => t
  end.

(** One statement: the rule for its head, for either judgement. *)
Ltac canvas_rules :=
  cbv beta iota zeta; abs_norm;
  lazymatch goal with
  | |- _ (bind _ _) _ =>
      first [eapply reads_bind | eapply keeps_bind];
      [canvas_rules | intros ?; canvas_rules]
  | |- _ (ret _) _ => first [apply reads_ret | apply keeps_ret]
  | |- _ (if _ then _ else _) _ =>
      first [eapply reads_if | eapply keeps_if];
      [canvas_rules | canvas_rules | side]
  | |- _ (match _ with Some _ => _ | None => _ end) _ =>
      first [eapply reads_option | eapply keeps_option];
      [intros ?; canvas_rules | canvas_rules | side]
  | |- _ (match ?x with pair _ _ => _ end) _ => destruct x; canvas_rules
  | |- _ ((match ?x with pair _ _ => _ end) _) _ => destruct x; canvas_rules
  | |- _ (forEach _ _) _ =>
      first [eapply reads_forEach | eapply keeps_forEach];
      [intros ? ?; canvas_rules | side]
  | |- _ (forEachAcc _ _ _) _ =>
      first [eapply reads_forEachAcc | eapply keeps_forEachAcc];
      [intros ? ? ?; canvas_rules | side]
  | |- _ (mapM _ _) _ =>
      first [eapply reads_mapM | eapply keeps_mapM];
      [intros ?; canvas_rules | side]
  | |- _ (ruledLoop _ _) _ =>
      first [apply reads_ruledLoop; side | apply keeps_ruledLoop]
  | |- _ (set_fillStyle _) _ => first [apply reads_set_fillStyle | apply keeps_set_fillStyle]
  | |- _ (set_strokeStyle _) _ =>
      first [apply reads_set_strokeStyle | apply keeps_set_strokeStyle]
  | |- _ (set_font _) _ => first [apply reads_set_font | apply keeps_set_font]
  | |- _ (set_lineWidth _) _ => first [apply reads_set_lineWidth | apply keeps_set_lineWidth]
  | |- _ (set_globalAlpha _) _ =>
      first [apply reads_set_globalAlpha | apply keeps_set_globalAlpha]
  | |- _ (set_textAlign _) _ =>
      first [apply reads_set_textAlign | apply keeps_set_textAlign; assumption]
  | |- _ (setLineDash _) _ => first [apply reads_setLineDash | apply keeps_setLineDash]
  | |- _ (set_lineCap _) _ => first [apply reads_set_lineCap | apply keeps_set_lineCap]
  | |- _ (set_lineJoin _) _ => first [apply reads_set_lineJoin | apply keeps_set_lineJoin]
  | |- _ (set_letterSpacing _) _ =>
      first [apply reads_set_letterSpacing | apply keeps_set_letterSpacing; assumption]
  | |- _ (scale _ _) _ => first [apply reads_scale | apply keeps_scale]
  | |- _ save _ => first [apply reads_save | apply keeps_save]
  | |- _ restore _ => first [eapply reads_restore | eapply keeps_restore]; side
  | |- _ beginPath _ => first [apply reads_beginPath | apply keeps_beginPath]
  | |- _ (moveTo _ _) _ => first [apply reads_moveTo | apply keeps_moveTo]
  | |- _ (lineTo _ _) _ => first [apply reads_lineTo | apply keeps_lineTo]
  | |- _ (arc _ _ _ _ _) _ => first [apply reads_arc | apply keeps_arc]
  | |- _ closePath _ => first [apply reads_closePath | apply keeps_closePath]
  | |- _ stroke _ => first [apply reads_stroke; side | apply keeps_stroke]
  | |- _ fill _ => first [apply reads_fill; side | apply keeps_fill]
  | |- _ (fillRect _ _ _ _) _ => first [apply reads_fillRect; side | apply keeps_fillRect]
  | |- _ (strokeRect _ _ _ _) _ =>
      first [apply reads_strokeRect; side | apply keeps_strokeRect]
  | |- _ (fillText _ _ _) _ => first [apply reads_fillText; side | apply keeps_fillText]
  | |- _ (clearRect _ _ _ _) _ => first [apply reads_clearRect; side | apply keeps_clearRect]
  | |- _ get_font _ => first [apply reads_get_font; side | apply keeps_get_font]
  | |- _ get_fillStyle _ => first [apply reads_get_fillStyle; side | apply keeps_get_fillStyle]
  | |- _ measureText _ => first [apply reads_measureText; side | apply keeps_measureText]
  | |- _ ?m _ => let h := head_of m in unfold h; canvas_rules
  end.

(* ================================================================== *)
(** ** The fourteen renderers *)

Section Analysis.
Context `{Host}.

Lemma reads_render_cover data slideNum :
  exists b, reads entryAbs (render_cover data slideNum) b.
Proof. eexists. canvas_rules. Qed.

Lemma reads_render_single data slideNum :
  exists b, reads entryAbs (render_single data slideNum) b.
Proof. eexists. canvas_rules. Qed.

Lemma reads_render_comparison data slideNum :
  exists b, reads entryAbs (render_comparison data slideNum) b.
Proof. eexists. canvas_rules. Qed.

Lemma reads_render_framework data slideNum :
  exists b, reads entryAbs (render_framework data slideNum) b.
Proof. eexists. canvas_rules. Qed.

Lemma reads_render_punchline data slideNum :
  exists b, reads entryAbs (render_punchline data slideNum) b.
Proof. eexists. canvas_rules. Qed.

Lemma reads_render_data data slideNum :
  exists b, reads entryAbs (render_data data slideNum) b.
Proof. eexists. canvas_rules. Qed.

Lemma reads_render_cta data slideNum :
  exists b, reads entryAbs (render_cta data slideNum) b.
Proof. eexists. canvas_rules. Qed.

Lemma reads_render_numbered_list data slideNum :
  exists b, reads entryAbs (render_numbered_list data slideNum) b.
Proof. eexists. canvas_rules. Qed.

Lemma reads_render_quote data slideNum :
  exists b, reads entryAbs (render_quote data slideNum) b.
Proof. eexists. canvas_rules. Qed.

Lemma reads_render_section_divider data slideNum :
  exists b, reads entryAbs (render_section_divider data slideNum) b.
Proof. eexists. canvas_rules. Qed.

Lemma reads_render_two_up data slideNum :
  exists b, reads entryAbs (render_two_up data slideNum) b.
Proof. eexists. canvas_rules. Qed.

Lemma reads_render_three_up data slideNum :
  exists b, reads entryAbs (render_three_up data slideNum) b.
Proof. eexists. canvas_rules. Qed.

Lemma reads_render_checklist data slideNum :
  exists b, reads entryAbs (render_checklist data slideNum) b.
Proof. eexists. canvas_rules. Qed.

Lemma reads_render_blank data slideNum :
  exists b, reads entryAbs (render_blank data slideNum) b.
Proof. eexists. canvas_rules. Qed.

(** Every renderer of the table reads, of the context it is given, the
    attributes of [entryMask] only. *)
Lemma renderers_read_entry name r data slideNum :
  In (name, r) renderers -> exists b, reads entryAbs (r data slideNum) b.
Proof.
  unfold renderers. cbn [In]. intros Hin.
  repeat (destruct Hin as [Hin|Hin]; [injection Hin as _ <- |]); try contradiction.
  - apply reads_render_cover.
  - apply reads_render_single.
  - apply reads_render_comparison.
  - apply reads_render_framework.
  - apply reads_render_punchline.
  - apply reads_render_data.
  - apply reads_render_cta.
  - apply reads_render_numbered_list.
  - apply reads_render_quote.
  - apply reads_render_section_divider.
  - apply reads_render_two_up.
  - apply reads_render_three_up.
  - apply reads_render_checklist.
  - apply reads_render_blank.
Qed.

Section Kept.
Variable c0 : Context2D.
Hypothesis align0 : textAlign (draw c0) = "start".
Hypothesis spacing0 : letterSpacing (draw c0) = "0px".

Lemma keeps_render_cover data slideNum :
  keeps c0 entryAbs (render_cover data slideNum) entryAbs.
Proof using align0 spacing0. eapply keeps_le_post; [canvas_rules | side]. Qed.

Lemma keeps_render_single data slideNum :
  keeps c0 entryAbs (render_single data slideNum) entryAbs.
Proof using align0 spacing0. eapply keeps_le_post; [canvas_rules | side]. Qed.

Lemma keeps_render_comparison data slideNum :
  keeps c0 entryAbs (render_comparison data slideNum) entryAbs.
Proof using align0 spacing0. eapply keeps_le_post; [canvas_rules | side]. Qed.

Lemma keeps_render_framework data slideNum :
  keeps c0 entryAbs (render_framework data slideNum) entryAbs.
Proof using align0 spacing0. eapply keeps_le_post; [canvas_rules | side]. Qed.

Lemma keeps_render_punchline data slideNum :
  keeps c0 entryAbs (render_punchline data slideNum) entryAbs.
Proof using align0 spacing0. eapply keeps_le_post; [canvas_rules | side]. Qed.

Lemma keeps_render_data data slideNum :
  keeps c0 entryAbs (render_data data slideNum) entryAbs.
Proof using align0 spacing0. eapply keeps_le_post; [canvas_rules | side]. Qed.

Lemma keeps_render_cta data slideNum :
  keeps c0 entryAbs (render_cta data slideNum) entryAbs.
Proof using align0 spacing0. eapply keeps_le_post; [canvas_rules | side]. Qed.

Lemma keeps_render_numbered_list data slideNum :
  keeps c0 entryAbs (render_numbered_list data slideNum) entryAbs.
Proof using align0 spacing0. eapply keeps_le_post; [canvas_rules | side]. Qed.

Lemma keeps_render_quote data slideNum :
  keeps c0 entryAbs (render_quote data slideNum) entryAbs.
Proof using align0 spacing0. eapply keeps_le_post; [canvas_rules | side]. Qed.

(** The letter spacing is assigned and reset under the same test, so the
    two cases are followed one by one. *)
Lemma keeps_render_section_divider data slideNum :
  keeps c0 entryAbs (render_section_divider data slideNum) entryAbs.
Proof using align0 spacing0.
  unfold render_section_divider, setLetterSpacingIfSupported.
  destruct hasLetterSpacing; (eapply keeps_le_post; [canvas_rules | side]).
Qed.

Lemma keeps_render_two_up data slideNum :
  keeps c0 entryAbs (render_two_up data slideNum) entryAbs.
Proof using align0 spacing0. eapply keeps_le_post; [canvas_rules | side]. Qed.

Lemma keeps_render_three_up data slideNum :
  keeps c0 entryAbs (render_three_up data slideNum) entryAbs.
Proof using align0 spacing0. eapply keeps_le_post; [canvas_rules | side]. Qed.

Lemma keeps_render_checklist data slideNum :
  keeps c0 entryAbs (render_checklist data slideNum) entryAbs.
Proof using align0 spacing0. eapply keeps_le_post; [canvas_rules | side]. Qed.

Lemma keeps_render_blank data slideNum :
  keeps c0 entryAbs (render_blank data slideNum) entryAbs.
Proof using align0 spacing0. eapply keeps_le_post; [canvas_rules | side]. Qed.

(** Every renderer of the table leaves the attributes of [entryMask] and
    the stack of saved states as it found them. *)
Lemma renderers_keep_entry name r data slideNum :
  In (name, r) renderers -> keeps c0 entryAbs (r data slideNum) entryAbs.
Proof using align0 spacing0.
  unfold renderers. cbn [In]. intros Hin.
  repeat (destruct Hin as [Hin|Hin]; [injection Hin as _ <- |]); try contradiction.
  - apply keeps_render_cover.
  - apply keeps_render_single.
  - apply keeps_render_comparison.
  - apply keeps_render_framework.
  - apply keeps_render_punchline.
  - apply keeps_render_data.
  - apply keeps_render_cta.
  - apply keeps_render_numbered_list.
  - apply keeps_render_quote.
  - apply keeps_render_section_divider.
  - apply keeps_render_two_up.
  - apply keeps_render_three_up.
  - apply keeps_render_checklist.
  - apply keeps_render_blank.
Qed.

End Kept.

End Analysis.

(* ================================================================== *)
(** ** The first calls of a renderer *)

Lemma fill_first col x y w h (k : Canvas unit) c :
  globalAlpha (draw c) = 1%Q ->
  trace ((set_fillStyle col ;; fillRect x y w h ;; k)%canvas c) =
  FillRect (mkPaint col 1 (transform (draw c))) x y w h
    :: trace (k (mkCtx (with_fillStyle col (draw c)) (saved c) (path c))).
Proof.
  intros Ha. unfold bind, set_fillStyle, modify, fillRect, emit. cbn.
  destruct (k _) as [[u c1] o1]. cbn. unfold paintOf. cbn. now rewrite Ha.
Qed.

Lemma background_paper name xf :
  String.eqb name "cover" = false -> String.eqb name "cta" = false ->
  background name xf = [FillRect (mkPaint C.paper 1 xf) 0 0 C.slide C.slide].
Proof. intros H1 H2. unfold background. now rewrite H1, H2. Qed.

Section Starts.
Context `{Host}.

Lemma paperBackground_start (k : Canvas unit) c :
  globalAlpha (draw c) = 1%Q ->
  exists rest,
    trace ((paperBackground ;; k)%canvas c) =
    FillRect (mkPaint C.paper 1 (transform (draw c))) 0 0 C.slide C.slide :: rest.
Proof.
  intros Ha. rewrite trace_bind. unfold paperBackground.
  rewrite (fill_first _ _ _ _ _ _ _ Ha). rewrite <- app_comm_cons.
  eexists. reflexivity.
Qed.

Ltac paper_start Ha :=
  rewrite background_paper by reflexivity; cbn [app];
  lazymatch goal with
  | |- exists rest, trace (?r _ _ _) = _ => let h := head_of r in unfold h
  end;
  exact (paperBackground_start _ _ Ha).

Lemma renderers_start name r data slideNum c :
  In (name, r) renderers -> globalAlpha (draw c) = 1%Q ->
  exists rest,
    trace (r data slideNum c) = background name (transform (draw c)) ++ rest.
Proof.
  unfold renderers. cbn [In]. intros Hin Ha.
  repeat (destruct Hin as [Hin|Hin]; [injection Hin as <- <- |]); try contradiction.
  - change (background "cover" (transform (draw c)))
      with [ FillRect (mkPaint C.dark 1 (transform (draw c))) 0 0 C.coverBandL C.slide;
             FillRect (mkPaint C.paper 1 (transform (draw c)))
               C.coverBandL 0 C.coverChannelW C.slide;
             FillRect (mkPaint C.dark 1 (transform (draw c)))
               C.coverBandR 0 (C.slide - C.coverBandR)%Q C.slide ].
    cbn [app]. unfold render_cover.
    rewrite (fill_first _ _ _ _ _ _ _ Ha).
    rewrite fill_first by exact Ha. rewrite fill_first by exact Ha.
    eexists. reflexivity.
  - paper_start Ha.
  - paper_start Ha.
  - paper_start Ha.
  - paper_start Ha.
  - paper_start Ha.
  - change (background "cta" (transform (draw c)))
      with [ FillRect (mkPaint C.dark 1 (transform (draw c))) 0 0 C.slide C.slide ].
    cbn [app]. unfold render_cta.
    rewrite (fill_first _ _ _ _ _ _ _ Ha). eexists. reflexivity.
  - paper_start Ha.
  - paper_start Ha.
  - paper_start Ha.
  - paper_start Ha.
  - paper_start Ha.
  - paper_start Ha.
  - paper_start Ha.
Qed.

End Starts.

(* ================================================================== *)
(** ** What a renderer leaves behind *)

Lemma agree_refl m d : agree m d d.
Proof. unfold agree. tauto. Qed.

Lemma assoc_In {V} k (v : V) l : assoc k l = Some v -> In (k, v) l.
Proof.
  induction l as [|[k1 v1] r IH]; cbn; [discriminate|].
  destruct (String.eqb k k1) eqn:E.
  - intros [= <-]. apply String.eqb_eq in E as <-. now left.
  - intros Hr. right. now apply IH.
Qed.

Section Left.
Context `{Host}.

Lemma renderers_get_Own t r : renderers_get t = Own r -> In (t, r) renderers.
Proof.
  unfold renderers_get. destruct (assoc t renderers) as [r1|] eqn:E.
  - intros [= <-]. now apply assoc_In.
  - destruct (existsb _ _); discriminate.
Qed.

(** A renderer leaves the attributes of [entryMask] and the stack as it
    found them. *)
Lemma renderer_leaves name r data slideNum c :
  In (name, r) renderers ->
  textAlign (draw c) = "start" -> letterSpacing (draw c) = "0px" ->
  agree entryMask (draw c) (draw (final (r data slideNum c)))
  /\ saved (final (r data slideNum c)) = saved c.
Proof.
  intros Hin Ha Hs.
  apply (renderers_keep_entry c Ha Hs name r data slideNum Hin c).
  split; [apply agree_refl | reflexivity].
Qed.

Lemma final_pageSetup c :
  final (pageSetup c) = mkCtx (with_scale 2 2 (draw c)) (draw c :: saved c) (path c).
Proof. reflexivity. Qed.

Lemma exportIdle_default c : exportIdle c -> draw c = defaultDraw /\ saved c = [].
Proof.
  induction 1 as [| slides i c c1 ops Hc [IHd IHs] Hpage | slides i c c1 ops Hc [IHd IHs] Hpage].
  - split; reflexivity.
  - unfold exportPDF_page in Hpage. cbv zeta in Hpage.
    change ((clearRect 0 0 (C.slide * 2) (C.slide * 2);; save;; scale 2 2)%canvas c)
      with (tt, final (pageSetup c), trace (pageSetup c)) in Hpage.
    cbv iota in Hpage.
    destruct (mjoin (slides !! i)) as [s|]; [|discriminate].
    destruct (renderers_get (template s)) as [r| |] eqn:Eg; try discriminate.
    apply renderers_get_Own in Eg.
    set (num := if negb _ then Some (i + 1)%nat else None) in Hpage.
    destruct ((r (data s) num;; restore)%canvas (final (pageSetup c)))
      as [[u c2] o2] eqn:E2.
    injection Hpage as <- _.
    assert (Ec : c2 = final ((r (data s) num;; restore)%canvas (final (pageSetup c))))
      by now rewrite E2.
    rewrite final_bind in Ec.
    destruct (renderer_leaves _ _ (data s) num (final (pageSetup c)) Eg) as [_ Hsaved].
    { rewrite final_pageSetup. cbn. now rewrite IHd. }
    { rewrite final_pageSetup. cbn. now rewrite IHd. }
    subst c2. unfold restore. rewrite Hsaved, final_pageSetup. cbn. auto.
  - unfold exportPDF_page in Hpage. cbv zeta in Hpage.
    change ((clearRect 0 0 (C.slide * 2) (C.slide * 2);; save;; scale 2 2)%canvas c)
      with (tt, final (pageSetup c), trace (pageSetup c)) in Hpage.
    cbv iota in Hpage.
    destruct (mjoin (slides !! i)) as [s|]; [|discriminate].
    destruct (renderers_get (template s)) as [r| |] eqn:Eg; try discriminate.
    + destruct ((r (data s) _;; restore)%canvas (final (pageSetup c)))
        as [[u c2] o2]; discriminate.
    + rewrite final_pageSetup in Hpage. cbn in Hpage. injection Hpage as <- _.
      cbn. auto.
Qed.

Lemma rendersOn_atRest size c :
  rendersOn size c -> atRest (draw c) /\ geometry size (transform (draw c)).
Proof.
  induction 1 as [| c Hc | size c name r data slideNum Hc [(Ha & Hal & Hsp) Hg] Hin].
  - split; [repeat split | left; split; reflexivity].
  - apply exportIdle_default in Hc as [Hd _]. rewrite final_pageSetup. cbn. rewrite Hd.
    split; [repeat split | right; split; reflexivity].
  - destruct (renderer_leaves name r data slideNum c Hin Hal Hsp) as [Hag _].
    unfold agree, entryMask in Hag. cbn in Hag. decompose [and] Hag.
    unfold atRest.
    replace (globalAlpha (draw (final (r data slideNum c)))) with (globalAlpha (draw c)) by auto.
    replace (textAlign (draw (final (r data slideNum c)))) with (textAlign (draw c)) by auto.
    replace (letterSpacing (draw (final (r data slideNum c))))
      with (letterSpacing (draw c)) by auto.
    replace (transform (draw (final (r data slideNum c)))) with (transform (draw c)) by auto.
    auto.
Qed.

(** Called once more on the context it left, a renderer makes the same
    painting calls. *)
Lemma renderer_again name r data slideNum c :
  In (name, r) renderers ->
  textAlign (draw c) = "start" -> letterSpacing (draw c) = "0px" ->
  trace (r data slideNum (final (r data slideNum c))) = trace (r data slideNum c).
Proof.
  intros Hin Hal Hsp.
  destruct (renderers_read_entry name r data slideNum Hin) as [b Hreads].
  destruct (renderer_leaves name r data slideNum c Hin Hal Hsp) as [Hag _].
  symmetry. apply (Hreads c (final (r data slideNum c))).
  split; [exact Hag | split; [discriminate | exact I]].
Qed.

End Left.

(* ================================================================== *)
(** ** The background covers the canvas *)

Lemma covers_spec sx sy x y w h i j :
  covers (inject_Z sx, inject_Z sy) (inject_Z x) (inject_Z y) (inject_Z w) (inject_Z h) (i, j)
    = true
  <-> (sx * x <= Z.of_nat i /\ Z.of_nat i + 1 <= sx * (x + w)
       /\ sy * y <= Z.of_nat j /\ Z.of_nat j + 1 <= sy * (y + h))%Z.
Proof.
  unfold covers, N2Q. cbn [fst snd].
  rewrite !andb_true_iff, !Qle_bool_iff.
  rewrite <- !inject_Z_mult, <- !inject_Z_plus, <- !inject_Z_mult.
  change 1%Q with (inject_Z 1). rewrite <- !inject_Z_plus.
  rewrite <- !Zle_Qle. tauto.
Qed.

(** On both canvases of the program every pixel lies under one rectangle
    of the background, whatever the template. *)
Lemma background_covers size xf name p :
  geometry size xf -> onCanvas size p ->
  exists pre col x y w h post,
    background name xf = pre ++ FillRect (mkPaint col 1 xf) x y w h :: post
    /\ (col = C.paper \/ col = C.dark)
    /\ covers xf x y w h p = true.
Proof.
  destruct p as [i j]. unfold onCanvas. cbn [fst snd]. intros Hg [Hi Hj].
  unfold background.
  destruct (String.eqb name "cover");
    [|destruct (String.eqb name "cta")].
  - destruct Hg as [[-> ->]|[-> ->]].
    + destruct (le_lt_dec 280 i) as [H1|H1]; [destruct (le_lt_dec 800 i) as [H2|H2]|].
      * eexists [_; _], C.dark, C.coverBandR, 0%Q, (C.slide - C.coverBandR)%Q, C.slide, [].
        split; [reflexivity | split; [now right|]].
        apply (covers_spec 1 1 800 0 280 1080). lia.
      * eexists [_], C.paper, C.coverBandL, 0%Q, C.coverChannelW, C.slide, [_].
        split; [reflexivity | split; [now left|]].
        apply (covers_spec 1 1 280 0 520 1080). lia.
      * eexists [], C.dark, 0%Q, 0%Q, C.coverBandL, C.slide, [_; _].
        split; [reflexivity | split; [now right|]].
        apply (covers_spec 1 1 0 0 280 1080). lia.
    + destruct (le_lt_dec 560 i) as [H1|H1]; [destruct (le_lt_dec 1600 i) as [H2|H2]|].
      * eexists [_; _], C.dark, C.coverBandR, 0%Q, (C.slide - C.coverBandR)%Q, C.slide, [].
        split; [reflexivity | split; [now right|]].
        apply (covers_spec 2 2 800 0 280 1080). lia.
      * eexists [_], C.paper, C.coverBandL, 0%Q, C.coverChannelW, C.slide, [_].
        split; [reflexivity | split; [now left|]].
        apply (covers_spec 2 2 280 0 520 1080). lia.
      * eexists [], C.dark, 0%Q, 0%Q, C.coverBandL, C.slide, [_; _].
        split; [reflexivity | split; [now right|]].
        apply (covers_spec 2 2 0 0 280 1080). lia.
  - eexists [], C.dark, 0%Q, 0%Q, C.slide, C.slide, [].
    split; [reflexivity | split; [now right|]].
    destruct Hg as [[-> ->]|[-> ->]].
    + apply (covers_spec 1 1 0 0 1080 1080). lia.
    + apply (covers_spec 2 2 0 0 1080 1080). lia.
  - eexists [], C.paper, 0%Q, 0%Q, C.slide, C.slide, [].
    split; [reflexivity | split; [now left|]].
    destruct Hg as [[-> ->]|[-> ->]].
    + apply (covers_spec 1 1 0 0 1080 1080). lia.
    + apply (covers_spec 2 2 0 0 1080 1080). lia.
Qed.

(* ================================================================== *)
(** ** Rendering twice *)

Section Surface.
Context `{Host}.

(** The colours of the pixels, and what one painting call makes of a
    surface.  Two facts about painting are assumed: the colour a call
    leaves at a pixel depends on the call and on the colour the pixel had,
    and a rectangle filled at opacity 1 with the paper or the dark colour
    (both given as six hexadecimal digits, so without transparency) leaves
    a pixel it covers wholly the same colour whatever the pixel had. *)
Variable Color : Type.
Variable paint : Op -> (Pixel -> Color) -> Pixel -> Color.
Hypothesis paint_local : forall op s1 s2 p, s1 p = s2 p -> paint op s1 p = paint op s2 p.
Hypothesis paint_opaque : forall col xf x y w h s1 s2 p,
  col = C.paper \/ col = C.dark -> covers xf x y w h p = true ->
  paint (FillRect (mkPaint col 1 xf) x y w h) s1 p
  = paint (FillRect (mkPaint col 1 xf) x y w h) s2 p.

Lemma paintAll_app ops1 ops2 (s : Pixel -> Color) :
  paintAll paint (ops1 ++ ops2) s = paintAll paint ops2 (paintAll paint ops1 s).
Proof. unfold paintAll. apply fold_left_app. Qed.

Lemma paintAll_local ops : forall (s1 s2 : Pixel -> Color) p,
  s1 p = s2 p -> paintAll paint ops s1 p = paintAll paint ops s2 p.
Proof using paint_local.
  induction ops as [|op r IH]; intros s1 s2 p Hp; cbn; [exact Hp|].
  apply IH. now apply paint_local.
Qed.

(** A list of calls with an opaque rectangle over the pixel leaves the
    pixel a colour that does not depend on the surface before. *)
Lemma paintAll_overwrites pre col xf x y w h post (s1 s2 : Pixel -> Color) p :
  col = C.paper \/ col = C.dark -> covers xf x y w h p = true ->
  paintAll paint (pre ++ FillRect (mkPaint col 1 xf) x y w h :: post) s1 p
  = paintAll paint (pre ++ FillRect (mkPaint col 1 xf) x y w h :: post) s2 p.
Proof using paint_local paint_opaque.
  intros Hc Hp. rewrite !paintAll_app. cbn.
  apply paintAll_local. now apply paint_opaque.
Qed.

(** C9.  For each of the fourteen renderers of the table, every record of
    field values and every slide number or none, on a canvas of the
    program ([SlideCanvas]'s preview canvas, [exportPDF]'s page canvas, or
    either after any renderers ran on it): the calls of the renderer
    followed by the calls of the same renderer run again on the context it
    left give every pixel of the canvas the colour the first run alone
    gives it, and that colour is the same from any two surfaces the run may
    start on. *)
Theorem render_twice_as_once size c name r data slideNum (s s' : Pixel -> Color) p :
  rendersOn size c -> In (name, r) renderers -> onCanvas size p ->
  paintAll paint
    (trace (r data slideNum c) ++ trace (r data slideNum (final (r data slideNum c)))) s p
  = paintAll paint (trace (r data slideNum c)) s p
  /\ paintAll paint (trace (r data slideNum c)) s p
     = paintAll paint (trace (r data slideNum c)) s' p.
Proof using paint_local paint_opaque.
  intros Hon Hin Hp.
  destruct (rendersOn_atRest size c Hon) as [(Ha & Hal & Hsp) Hg].
  destruct (renderers_start name r data slideNum c Hin Ha) as [rest Hstart].
  destruct (background_covers size (transform (draw c)) name p Hg Hp)
    as (pre & col & x & y & w & h & post & Hbg & Hcol & Hcov).
  assert (Hany : forall s1 s2 : Pixel -> Color,
             paintAll paint (trace (r data slideNum c)) s1 p
             = paintAll paint (trace (r data slideNum c)) s2 p).
  { intros s1 s2. rewrite Hstart, Hbg. rewrite !(paintAll_app _ rest).
    apply paintAll_local. now apply paintAll_overwrites. }
  split; [|apply Hany].
  rewrite paintAll_app, (renderer_again name r data slideNum c Hin Hal Hsp).
  apply Hany.
Qed.

End Surface.

(** The example raster paints as assumed. *)
Lemma demoPaint_local op (s1 s2 : Pixel -> string) p :
  s1 p = s2 p -> demoPaint op s1 p = demoPaint op s2 p.
Proof.
  intros Hp. destruct op; cbn; try exact Hp.
  destruct (covers _ _ _ _ _ _ && _); [reflexivity | exact Hp].
Qed.

Lemma demoPaint_opaque col xf x y w h (s1 s2 : Pixel -> string) p :
  col = C.paper \/ col = C.dark -> covers xf x y w h p = true ->
  demoPaint (FillRect (mkPaint col 1 xf) x y w h) s1 p
  = demoPaint (FillRect (mkPaint col 1 xf) x y w h) s2 p.
Proof. intros _ Hc. cbn. now rewrite Hc. Qed.

(** C9 at work under the example host and the example raster: the
    [single] renderer with no field set, as slide 2, on the preview canvas;
    the pixel in column 3 of row 5, from a black and from a white
    surface. *)
Lemma render_twice_as_once_witness :
  paintAll demoPaint
    (trace (render_single (H := demoHost) ∅ (Some 2%nat)
              (final (clearRect 0 0 C.slide C.slide freshContext)))
     ++ trace (render_single (H := demoHost) ∅ (Some 2%nat)
                 (final (render_single (H := demoHost) ∅ (Some 2%nat)
                           (final (clearRect 0 0 C.slide C.slide freshContext))))))
    (fun _ => "#000000") (3, 5)%nat
  = paintAll demoPaint
      (trace (render_single (H := demoHost) ∅ (Some 2%nat)
                (final (clearRect 0 0 C.slide C.slide freshContext))))
      (fun _ => "#000000") (3, 5)%nat
  /\ paintAll demoPaint
       (trace (render_single (H := demoHost) ∅ (Some 2%nat)
                 (final (clearRect 0 0 C.slide C.slide freshContext))))
       (fun _ => "#000000") (3, 5)%nat
     = paintAll demoPaint
         (trace (render_single (H := demoHost) ∅ (Some 2%nat)
                   (final (clearRect 0 0 C.slide C.slide freshContext))))
         (fun _ => "#FFFFFF") (3, 5)%nat.
Proof.
  apply (render_twice_as_once (H := demoHost) string demoPaint
           demoPaint_local demoPaint_opaque 1080 _ "single").
  - apply on_preview.
  - right. left. reflexivity.
  - split; cbn; lia.
Defined.

(* ================================================================== *)
(** ** The fuel of the ruled lines *)

Lemma ruledLoop_past k : forall y,
  ruledStops k y = true ->
  forall extra c, ruledLoop (k + extra) y c = ruledLoop k y c.
Proof.
  induction k as [|k IH]; intros y Hy extra c.
  - cbn in Hy. apply negb_true_iff in Hy.
    destruct extra; cbn [Nat.add ruledLoop]; [reflexivity|]. now rewrite Hy.
  - cbn [Nat.add ruledLoop]. destruct (Qleb y C.slide); [|reflexivity].
    repeat (rewrite run_bind; cbv beta). symmetry.
    repeat (rewrite run_bind; cbv beta). symmetry.
    now rewrite (IH _ Hy).
Qed.

(** The loop of [drawRuledLines] ends on its own test after 32 lines, at
    heights 64 to 1056: any fuel from 32 up gives what the fuel of the
    model gives. *)
Lemma ruledLoop_fuel fuel c :
  (32 <= fuel)%nat -> ruledLoop fuel C.ruledStart c = ruledLoop 64 C.ruledStart c.
Proof.
  intros Hf. replace fuel with (32 + (fuel - 32))%nat by lia.
  change 64%nat with (32 + 32)%nat.
  rewrite !(ruledLoop_past 32) by (vm_compute; reflexivity). reflexivity.
Qed.

(* ================================================================== *)
(** ** Lists with a first, a middle and a last slide *)

Lemma carousel_length f m l : length (carousel f m l) = S (S (length m)).
Proof. unfold carousel. cbn. rewrite length_app, length_fmap. cbn. lia. Qed.

Lemma carousel_lookup_mid f m l k :
  (k < length m)%nat -> carousel f m l !! S k = Some <$> (m !! k).
Proof.
  intros Hk. unfold carousel.
  change ((Some f :: (Some <$> m) ++ [Some l]) !! S k)
    with (((Some <$> m) ++ [Some l]) !! k).
  rewrite lookup_app_l by (rewrite length_fmap; lia).
  now rewrite list_lookup_fmap.
Qed.

Lemma carousel_lookup_last f m l : carousel f m l !! S (length m) = Some (Some l).
Proof.
  unfold carousel.
  change ((Some f :: (Some <$> m) ++ [Some l]) !! S (length m))
    with (((Some <$> m) ++ [Some l]) !! length m).
  rewrite lookup_app_r by (rewrite length_fmap; lia).
  rewrite length_fmap, Nat.sub_diag. reflexivity.
Qed.

(** The slide at an index of the list. *)
Lemma carousel_get f m l (i : Z) :
  (0 <= i < Z.of_nat (length (carousel f m l)))%Z ->
  exists sl, arr_get (carousel f m l) i = Some sl
    /\ ((i = 0%Z /\ sl = f)
        \/ (i = Z.of_nat (S (length m)) /\ sl = l)
        \/ ((1 <= i <= Z.of_nat (length m))%Z /\ m !! (Z.to_nat i - 1)%nat = Some sl)).
Proof.
  rewrite carousel_length. intros Hi. unfold arr_get.
  destruct (i <? 0)%Z eqn:E; [apply Z.ltb_lt in E; lia|].
  destruct (Z.to_nat i) as [|k] eqn:Ek.
  - exists f. split; [reflexivity|]. left. split; [lia | reflexivity].
  - destruct (Nat.eq_dec k (length m)) as [->|Hk].
    + exists l. rewrite carousel_lookup_last. split; [reflexivity|]. right; left. split; [lia|reflexivity].
    + assert (Hlt : (k < length m)%nat) by lia.
      rewrite carousel_lookup_mid by exact Hlt.
      destruct (lookup_lt_is_Some_2 m k Hlt) as [sl Hsl].
      exists sl. rewrite Hsl. split; [reflexivity|]. right; right.
      split; [lia|]. now replace (S k - 1)%nat with k by lia.
Qed.

Lemma take_carousel f m l k :
  (k <= length m)%nat ->
  take (S k) (carousel f m l) = Some f :: (Some <$> take k m).
Proof.
  intros Hk. unfold carousel. cbn. f_equal.
  rewrite take_app_le by (rewrite length_fmap; lia).
  now rewrite <- fmap_take.
Qed.

Lemma drop_carousel f m l k :
  (k <= length m)%nat ->
  drop (S k) (carousel f m l) = (Some <$> drop k m) ++ [Some l].
Proof.
  intros Hk. unfold carousel. cbn.
  rewrite drop_app_le by (rewrite length_fmap; lia).
  now rewrite <- fmap_drop.
Qed.

Lemma splice_insert_carousel f m l (k : Z) v :
  (1 <= k <= Z.of_nat (length m) + 1)%Z ->
  splice_insert (carousel f m l) k v
  = carousel f (take (Z.to_nat k - 1) m ++ v :: drop (Z.to_nat k - 1) m) l.
Proof.
  intros Hk. unfold splice_insert, spliceStart. rewrite carousel_length.
  destruct (k <? 0)%Z eqn:E; [apply Z.ltb_lt in E; lia|].
  replace (Nat.min (Z.to_nat k) (S (S (length m)))) with (S (Z.to_nat k - 1)) by lia.
  rewrite take_carousel, drop_carousel by lia.
  unfold carousel. cbn. f_equal. rewrite fmap_app. cbn. now rewrite <- app_assoc.
Qed.

Lemma splice_remove_carousel f m l (k : Z) :
  (1 <= k <= Z.of_nat (length m))%Z ->
  splice_remove (carousel f m l) k
  = carousel f (take (Z.to_nat k - 1) m ++ drop (Z.to_nat k) m) l.
Proof.
  intros Hk. unfold splice_remove, spliceStart. rewrite carousel_length.
  destruct (k <? 0)%Z eqn:E; [apply Z.ltb_lt in E; lia|].
  replace (Nat.min (Z.to_nat k) (S (S (length m)))) with (S (Z.to_nat k - 1)) by lia.
  rewrite take_carousel by lia.
  replace (S (S (Z.to_nat k - 1))) with (S (Z.to_nat k)) by lia.
  rewrite drop_carousel by lia.
  unfold carousel. cbn. f_equal. rewrite fmap_app. now rewrite <- app_assoc.
Qed.

Lemma insert_cons_S {A} (x : A) l k v : <[S k := v]> (x :: l) = x :: <[k := v]> l.
Proof. reflexivity. Qed.

Lemma insert_carousel_mid f m l k (v : Slide) :
  (k < length m)%nat ->
  <[S k := Some v]> (carousel f m l) = carousel f (<[k := v]> m) l.
Proof.
  intros Hk. unfold carousel. rewrite insert_cons_S. f_equal.
  rewrite insert_app_l by (rewrite length_fmap; lia).
  now rewrite list_fmap_insert.
Qed.

Lemma insert_carousel_last f m l (v : Slide) :
  <[S (length m) := Some v]> (carousel f m l) = carousel f m v.
Proof.
  unfold carousel. rewrite insert_cons_S. f_equal.
  rewrite insert_app_r_alt by (rewrite length_fmap; lia).
  rewrite length_fmap, Nat.sub_diag. reflexivity.
Qed.

(** [next[i] = v] on a slide that is there. *)
Lemma arr_set_carousel f m l (i : Z) v :
  (0 <= i < Z.of_nat (length (carousel f m l)))%Z ->
  arr_set (carousel f m l) i v
  = if (i =? 0)%Z then carousel v m l
    else if (i =? Z.of_nat (S (length m)))%Z then carousel f m v
    else carousel f (<[(Z.to_nat i - 1)%nat := v]> m) l.
Proof.
  rewrite carousel_length. intros Hi. unfold arr_set.
  destruct (i <? 0)%Z eqn:E; [apply Z.ltb_lt in E; lia|].
  rewrite carousel_length. cbv zeta.
  destruct (Z.to_nat i <? S (S (length m)))%nat eqn:E1;
    [|apply Nat.ltb_ge in E1; lia].
  destruct (i =? 0)%Z eqn:E0.
  - apply Z.eqb_eq in E0. subst i. reflexivity.
  - apply Z.eqb_neq in E0.
    destruct (i =? Z.of_nat (S (length m)))%Z eqn:E2.
    + apply Z.eqb_eq in E2. subst i. rewrite Nat2Z.id. apply insert_carousel_last.
    + apply Z.eqb_neq in E2.
      replace (Z.to_nat i) with (S (Z.to_nat i - 1)) at 1 by lia.
      apply insert_carousel_mid. lia.
Qed.

(* ================================================================== *)
(** ** The template table *)

Lemma TEMPLATES_keys : map fst TEMPLATES = TEMPLATE_keys.
Proof. reflexivity. Qed.

Lemma In_assoc_known {V} k (l : list (string * V)) :
  In k (map fst l) -> exists v, assoc k l = Some v.
Proof.
  induction l as [|[k1 v1] r IH]; cbn; [contradiction|].
  intros [->|Hin].
  - rewrite String.eqb_refl. eauto.
  - destruct (String.eqb k k1); eauto.
Qed.

Lemma selectable_known t :
  In t selectableTemplates -> exists def, assoc t TEMPLATES = Some def.
Proof.
  intros Hin. apply In_assoc_known.
  unfold selectableTemplates in Hin. now apply filter_In in Hin as [Hin _].
Qed.

Lemma selectable_not_end t :
  In t selectableTemplates -> t <> "cover" /\ t <> "cta".
Proof.
  intros Hin. unfold selectableTemplates in Hin. apply filter_In in Hin as [_ Hf].
  apply andb_true_iff in Hf as [H1 H2].
  apply negb_true_iff in H1, H2.
  split; intros ->; discriminate.
Qed.

Lemma TEMPLATES_plain name def fd :
  assoc name TEMPLATES = Some def -> In fd (td_fields def) -> plainField fd = true.
Proof.
  intros Ha Hin. apply assoc_In in Ha.
  assert (Hall : forallb (fun e => forallb plainField (td_fields (snd e))) TEMPLATES = true)
    by (vm_compute; reflexivity).
  rewrite forallb_forall in Hall. specialize (Hall _ Ha). cbn in Hall.
  rewrite forallb_forall in Hall. now apply Hall.
Qed.

Lemma fieldOf_In def key fd : fieldOf def key = Some fd -> In fd (td_fields def).
Proof. unfold fieldOf. intros Hf. now apply find_some in Hf as [Hin _]. Qed.

(** What a control of the table delivers, the field holds. *)
Lemma onChange_holds name def key fd value act v :
  assoc name TEMPLATES = Some def -> fieldOf def key = Some fd ->
  FieldEditor_onChange fd value act = Some v -> fieldHolds fd v.
Proof.
  intros Ha Hf Hon.
  pose proof (TEMPLATES_plain _ _ _ Ha (fieldOf_In _ _ _ Hf)) as Hp.
  unfold plainField in Hp. unfold FieldEditor_onChange in Hon. unfold fieldHolds, FieldEditor_over.
  destruct (fd_type fd) as [t|], (fd_options fd) as [o|], (fd_max fd) as [m|];
    try discriminate.
  - rewrite Hp in Hon. destruct act; try discriminate.
    destruct (existsb (String.eqb opt) o) eqn:E; [|discriminate].
    injection Hon as <-. split; [reflexivity|].
    intros o1 [= <-]. apply existsb_exists in E as (x & Hx & Heq).
    apply String.eqb_eq in Heq. now subst.
  - destruct act; try discriminate. cbn in Hon.
    destruct (String.length v0 <=? m)%nat eqn:E; [|discriminate].
    injection Hon as <-. split; [|discriminate].
    apply Nat.leb_le in E. apply Nat.ltb_ge. exact E.
Qed.

(* ================================================================== *)
(** ** The shape of the slide list is kept *)

Lemma dataFits_known sl : dataFits sl -> exists def, TEMPLATES_get (template sl) = OwnT def.
Proof.
  intros (def & Ha & _). exists def. unfold TEMPLATES_get. now rewrite Ha.
Qed.

Lemma dataFits_named sl : dataFits sl -> named (Some sl) = true.
Proof. intros H. destruct (dataFits_known _ H) as [def Hd]. cbn. now rewrite Hd. Qed.

Lemma midSlide_fits sl : midSlide sl -> dataFits sl.
Proof. now intros (_ & _ & H). Qed.

Lemma endSlide_fits t sl : endSlide t sl -> dataFits sl.
Proof. now intros (_ & _ & H). Qed.

Lemma forallb_carousel (P : option Slide -> bool) f m l :
  P (Some f) = true -> Forall (fun sl => P (Some sl) = true) m -> P (Some l) = true ->
  forallb P (carousel f m l) = true.
Proof.
  intros Hf Hm Hl. unfold carousel. cbn. rewrite Hf. cbn.
  rewrite forallb_app. cbn. rewrite Hl.
  rewrite andb_true_r. induction Hm as [|x r Hx _ IH]; cbn; [reflexivity|].
  now rewrite Hx, IH.
Qed.

(** The slide a valid selection names, and where it is in the list. *)
Lemma goodSlides_get s (i : Z) :
  goodSlides s -> (0 <= i < Z.of_nat (length s))%Z ->
  exists sl, arr_get s i = Some sl /\ dataFits sl.
Proof.
  intros (f & m & l & -> & Hf & Hm & Hl & Hlen) Hi.
  destruct (carousel_get f m l i Hi) as (sl & Hget & Hcase).
  exists sl. split; [exact Hget|].
  destruct Hcase as [[_ ->]|[[_ ->]|[_ Hmid]]].
  - eapply endSlide_fits; eauto.
  - eapply endSlide_fits; eauto.
  - apply midSlide_fits. eapply Forall_lookup_1; eauto.
Qed.

(** In a good state the screen is the picker, the preview or the editor. *)
Lemma goodEditor_screen ed s :
  goodEditor ed -> st_slides ed = Some s ->
  exists cur def,
    arr_get s (st_selectedIdx ed) = Some cur
    /\ assoc (template cur) TEMPLATES = Some def
    /\ App_screen ed = if st_previewMode ed then PreviewScreen s cur
                       else EditScreen s cur def.
Proof.
  unfold goodEditor, App_screen. intros Hg Hs. rewrite Hs in *.
  destruct Hg as [Hgood Hsel].
  destruct (goodSlides_get s _ Hgood Hsel) as (cur & Hget & Hfit).
  destruct Hfit as (def & Ha & Hdata).
  exists cur, def. rewrite Hget. split; [reflexivity|]. split; [exact Ha|].
  destruct Hgood as (f & m & l & -> & Hf & Hm & Hl & Hlen).
  destruct (st_previewMode ed).
  - rewrite forallb_carousel; [reflexivity | reflexivity | | reflexivity].
    apply Forall_forall. reflexivity.
  - rewrite forallb_carousel.
    + unfold TEMPLATES_get. now rewrite Ha.
    + apply dataFits_named. eapply endSlide_fits; eauto.
    + eapply Forall_impl; [exact Hm|]. intros sl Hsl. apply dataFits_named.
      now apply midSlide_fits.
    + apply dataFits_named. eapply endSlide_fits; eauto.
Qed.

Lemma emptyData_fits t lk nt def :
  assoc t TEMPLATES = Some def -> dataFits (mkSlide t lk nt ∅).
Proof.
  intros Ha. exists def. split; [exact Ha|]. cbn. intros k v Hk.
  rewrite lookup_empty in Hk. discriminate.
Qed.

Lemma allPresent_spec s : forall l, allPresent s = Some l -> s = Some <$> l.
Proof.
  induction s as [|[x|] r IH]; cbn; intros l Hl.
  - now injection Hl as <-.
  - destruct (allPresent r) as [l1|]; [|discriminate]. injection Hl as <-.
    cbn. f_equal. now apply IH.
  - discriminate.
Qed.

Lemma uncarousel_spec s f m l : uncarousel s = Some (f, m, l) -> s = carousel f m l.
Proof.
  unfold uncarousel. destruct (allPresent s) as [[|f1 r]|] eqn:E; try discriminate.
  destruct (rev r) as [|l1 m1] eqn:Er; [discriminate|].
  intros [= <- <- <-]. apply allPresent_spec in E. subst s.
  assert (Hr : r = rev m1 ++ [l1]).
  { rewrite <- (rev_involutive r), Er. reflexivity. }
  rewrite Hr. unfold carousel. cbn. now rewrite fmap_app.
Qed.

Lemma goodSlides_check s f m l :
  uncarousel s = Some (f, m, l) ->
  endSlide "cover" f -> Forall midSlide m -> endSlide "cta" l ->
  (1 <= length m <= 10)%nat -> goodSlides s.
Proof.
  intros Hu Hf Hm Hl Hlen. exists f, m, l. split; [now apply uncarousel_spec|]. auto.
Qed.

Lemma selectable_check t :
  existsb (String.eqb t) selectableTemplates = true -> In t selectableTemplates.
Proof.
  intros He. apply existsb_exists in He as (x & Hx & Heq).
  apply String.eqb_eq in Heq. now subst.
Qed.

Lemma newSlide_mid t nt :
  In t selectableTemplates -> midSlide (mkSlide t None nt ∅).
Proof.
  intros Hin. split; [reflexivity|]. split; [exact Hin|].
  destruct (selectable_known t Hin) as [def Hd]. eapply emptyData_fits; eauto.
Qed.

Lemma unlockedSlide_mid t nt :
  In t selectableTemplates -> midSlide (mkSlide t (Some false) nt ∅).
Proof.
  intros Hin. split; [reflexivity|]. split; [exact Hin|].
  destruct (selectable_known t Hin) as [def Hd]. eapply emptyData_fits; eauto.
Qed.

Ltac in_list := cbn; repeat (first [left; reflexivity | right]).

Lemma goodSlides_initCustom : goodSlides initCustom.
Proof.
  exists (mkSlide "cover" (Some true) (Some "Cover (always first)") ∅),
         [mkSlide "single" None (Some "Your content") ∅],
         (mkSlide "cta" (Some true) (Some "CTA (always last)") ∅).
  split; [reflexivity|]. split; [|split; [|split]].
  - split; [reflexivity|]. split; [reflexivity|].
    eapply emptyData_fits. reflexivity.
  - apply List.Forall_cons; [|apply List.Forall_nil]. apply newSlide_mid.
    apply selectable_check. vm_compute. reflexivity.
  - split; [reflexivity|]. split; [reflexivity|].
    eapply emptyData_fits. reflexivity.
  - cbn. lia.
Qed.

(** The slide [initFromSequence] makes of a skeleton. *)
Lemma skeleton_mid t n :
  In t selectableTemplates ->
  midSlide (mkSlide t (Some false) (Some n) ∅).
Proof. apply unlockedSlide_mid. Qed.

Lemma goodSlides_initFromSequence key s :
  initFromSequence key = Updated s -> goodSlides s.
Proof.
  unfold initFromSequence. destruct (assoc key SEQUENCES) as [sq|] eqn:E; [|discriminate].
  intros [= <-]. apply assoc_In in E. unfold SEQUENCES in E. cbn [In] in E.
  repeat (destruct E as [E|E]; [injection E as _ <- |]); try contradiction.
  all: eapply goodSlides_check; [lazy; reflexivity | | | |];
    [ split; [reflexivity|]; split; [reflexivity|]; eapply emptyData_fits; reflexivity
    | repeat (apply List.Forall_cons;
                [apply unlockedSlide_mid; apply selectable_check; vm_compute; reflexivity|]);
      apply List.Forall_nil
    | split; [reflexivity|]; split; [reflexivity|]; eapply emptyData_fits; reflexivity
    | cbn; lia ].
Qed.

(** A slide that is not locked is one of the slides between the ends. *)
Lemma unlocked_in_mid f m l (i : Z) cur :
  endSlide "cover" f -> endSlide "cta" l ->
  arr_get (carousel f m l) i = Some cur -> isLocked cur = false ->
  (1 <= i <= Z.of_nat (length m))%Z /\ m !! (Z.to_nat i - 1)%nat = Some cur.
Proof.
  intros Hf Hl Hget Hun.
  assert (Hi : (0 <= i < Z.of_nat (length (carousel f m l)))%Z).
  { apply arr_get_Some in Hget as [H0 Hlk]. split; [exact H0|].
    apply lookup_lt_Some in Hlk. lia. }
  destruct (carousel_get f m l i Hi) as (sl & Hget1 & Hcase).
  rewrite Hget in Hget1. injection Hget1 as <-.
  destruct Hcase as [[_ ->]|[[_ ->]|Hmid]].
  - destruct Hf as [Hlock _]. congruence.
  - destruct Hl as [Hlock _]. congruence.
  - exact Hmid.
Qed.

Lemma addSlide_carousel f m l (a : Z) :
  (0 <= a <= Z.of_nat (length m))%Z -> (length m < 10)%nat ->
  addSlide a (carousel f m l)
  = Updated (carousel f (take (Z.to_nat a) m
                           ++ mkSlide "single" None (Some "") ∅ :: drop (Z.to_nat a) m) l).
Proof.
  intros Ha Hlen. unfold addSlide. rewrite carousel_length.
  destruct (12 <=? S (S (length m)))%nat eqn:E; [apply Nat.leb_le in E; lia|].
  rewrite splice_insert_carousel by lia.
  now replace (Z.to_nat (a + 1) - 1)%nat with (Z.to_nat a) by lia.
Qed.

Lemma removeSlide_carousel f m l (i : Z) cur :
  (5 <= length m)%nat ->
  (1 <= i <= Z.of_nat (length m))%Z -> m !! (Z.to_nat i - 1)%nat = Some cur ->
  isLocked cur = false ->
  removeSlide i (carousel f m l)
  = Updated (carousel f (take (Z.to_nat i - 1) m ++ drop (Z.to_nat i) m) l).
Proof.
  intros Hlen Hi Hcur Hun. unfold removeSlide. rewrite carousel_length.
  destruct (S (S (length m)) <=? 6)%nat eqn:E; [apply Nat.leb_le in E; lia|].
  assert (Hget : arr_get (carousel f m l) i = Some cur).
  { apply arr_get_Some. split; [lia|].
    replace (Z.to_nat i) with (S (Z.to_nat i - 1)) by lia.
    rewrite carousel_lookup_mid by lia. now rewrite Hcur. }
  rewrite Hget, Hun. now rewrite splice_remove_carousel by lia.
Qed.

Lemma moveSlide_carousel f m l (i dir : Z) cur other :
  (1 <= i <= Z.of_nat (length m))%Z -> (1 <= i + dir <= Z.of_nat (length m))%Z ->
  m !! (Z.to_nat i - 1)%nat = Some cur -> isLocked cur = false ->
  m !! (Z.to_nat (i + dir) - 1)%nat = Some other ->
  moveSlide i dir (carousel f m l)
  = Updated (carousel f (<[(Z.to_nat (i + dir) - 1)%nat := cur]>
                           (<[(Z.to_nat i - 1)%nat := other]> m)) l).
Proof.
  intros Hi Hj Hcur Hun Hother. unfold moveSlide. rewrite carousel_length. cbv zeta.
  destruct (i + dir <=? 0)%Z eqn:E1; [apply Z.leb_le in E1; lia|].
  destruct (Z.of_nat (S (S (length m))) - 1 <=? i + dir)%Z eqn:E2;
    [apply Z.leb_le in E2; lia|].
  cbn [orb].
  assert (Hlki : carousel f m l !! Z.to_nat i = Some (Some cur)).
  { replace (Z.to_nat i) with (S (Z.to_nat i - 1)) by lia.
    rewrite carousel_lookup_mid by lia. now rewrite Hcur. }
  assert (Hlkj : carousel f m l !! Z.to_nat (i + dir) = Some (Some other)).
  { replace (Z.to_nat (i + dir)) with (S (Z.to_nat (i + dir) - 1)) by lia.
    rewrite carousel_lookup_mid by lia. now rewrite Hother. }
  assert (Hget : arr_get (carousel f m l) i = Some cur)
    by (apply arr_get_Some; split; [lia | exact Hlki]).
  rewrite Hget, Hun. unfold swap. rewrite Hlki, Hlkj. f_equal.
  remember (Z.to_nat i - 1)%nat as a eqn:Ea.
  remember (Z.to_nat (i + dir) - 1)%nat as b eqn:Eb.
  assert (Hia : Z.to_nat i = S a) by lia.
  assert (Hjb : Z.to_nat (i + dir) = S b) by lia.
  rewrite Hia, Hjb.
  rewrite insert_carousel_mid by lia.
  rewrite insert_carousel_mid by (rewrite length_insert; lia).
  reflexivity.
Qed.

(** Replacing a slide by one that is as good keeps the list good. *)
Lemma arr_set_good f m l (i : Z) cur v :
  endSlide "cover" f -> Forall midSlide m -> endSlide "cta" l ->
  (1 <= length m <= 10)%nat ->
  arr_get (carousel f m l) i = Some cur ->
  (forall t, endSlide t cur -> endSlide t v) -> (midSlide cur -> midSlide v) ->
  goodSlides (arr_set (carousel f m l) i v)
  /\ length (arr_set (carousel f m l) i v) = length (carousel f m l).
Proof.
  intros Hf Hm Hl Hlen Hget Hend Hmid.
  assert (Hi : (0 <= i < Z.of_nat (length (carousel f m l)))%Z).
  { apply arr_get_Some in Hget as [H0 Hlk]. split; [exact H0|].
    apply lookup_lt_Some in Hlk. lia. }
  destruct (carousel_get f m l i Hi) as (sl & Hget1 & Hcase).
  rewrite Hget in Hget1. injection Hget1 as <-.
  rewrite arr_set_carousel by exact Hi. rewrite !carousel_length in *.
  destruct Hcase as [[-> ->]|[[-> ->]|[Hr Hlk]]].
  - cbn [Z.eqb]. split; [|now rewrite carousel_length].
    exists v, m, l. split; [reflexivity|]. split; [now apply Hend|]. auto.
  - destruct (Z.of_nat (S (length m)) =? 0)%Z eqn:E0; [apply Z.eqb_eq in E0; lia|].
    rewrite Z.eqb_refl. split; [|now rewrite carousel_length].
    exists f, m, v. split; [reflexivity|]. split; [exact Hf|]. split; [exact Hm|].
    split; [now apply Hend | exact Hlen].
  - destruct (i =? 0)%Z eqn:E0; [apply Z.eqb_eq in E0; lia|].
    destruct (i =? Z.of_nat (S (length m)))%Z eqn:E1; [apply Z.eqb_eq in E1; lia|].
    split; [|now rewrite carousel_length, length_insert].
    exists f, (<[(Z.to_nat i - 1)%nat := v]> m), l.
    split; [reflexivity|]. split; [exact Hf|]. split; [|split; [exact Hl|]].
    + apply Forall_insert; [exact Hm|]. apply Hmid. eapply Forall_lookup_1; eauto.
    + rewrite length_insert. lia.
Qed.

(* ================================================================== *)
(** ** The controls, one by one *)

(** The screen of a good state with a slide list, and what a control that
    is available there tells. *)
Ltac on_screen Hg Hs Hav :=
  let cur := fresh "cur" in
  let def := fresh "def" in
  let Hcur := fresh "Hcur" in
  let Hdef := fresh "Hdef" in
  let Hscr := fresh "Hscr" in
  let Hpv := fresh "Hpv" in
  destruct (goodEditor_screen _ _ Hg Hs) as (cur & def & Hcur & Hdef & Hscr);
  unfold available in Hav; rewrite Hscr in Hav;
  destruct (st_previewMode _) eqn:Hpv; try discriminate Hav.

Section Controls.
Variables (ed : Editor) (f : Slide) (m : list Slide) (l : Slide).
Hypothesis Hg : goodEditor ed.
Hypothesis Hs : st_slides ed = Some (carousel f m l).
Hypothesis Hf : endSlide "cover" f.
Hypothesis Hm : Forall midSlide m.
Hypothesis Hl : endSlide "cta" l.
Hypothesis Hlen : (1 <= length m <= 10)%nat.

Let sel := st_selectedIdx ed.

Lemma sel_range : (0 <= sel < Z.of_nat (S (S (length m))))%Z.
Proof using All.
  unfold goodEditor in Hg. rewrite Hs in Hg. destruct Hg as [_ H].
  now rewrite carousel_length in H.
Qed.

Lemma run_ClickAddSlide :
  available ClickAddSlide ed = true ->
  (length m < 10)%nat
  /\ run ClickAddSlide ed
     = Next (mkEditor (Some (carousel f (m ++ [mkSlide "single" None (Some "") ∅]) l))
               (Z.of_nat (length m) + 1) (st_previewMode ed) (st_exporting ed)).
Proof using All.
  intros Hav. on_screen Hg Hs Hav.
  apply Nat.ltb_lt in Hav. rewrite carousel_length in Hav.
  split; [lia|].
  unfold run. rewrite Hs. unfold App_addSlide, App_handler. rewrite Hs.
  rewrite carousel_length.
  rewrite addSlide_carousel by lia.
  replace (Z.to_nat (Z.of_nat (S (S (length m))) - 2)) with (length m) by lia.
  rewrite firstn_all, skipn_all. rewrite Hpv.
  do 3 f_equal. lia.
Qed.

Lemma run_ClickInsertAfter :
  available ClickInsertAfter ed = true ->
  (length m < 10)%nat /\ (1 <= sel <= Z.of_nat (length m))%Z
  /\ (exists cur, m !! (Z.to_nat sel - 1)%nat = Some cur /\ isLocked cur = false)
  /\ run ClickInsertAfter ed
     = Next (mkEditor
               (Some (carousel f (take (Z.to_nat sel) m
                                    ++ mkSlide "single" None (Some "") ∅
                                    :: drop (Z.to_nat sel) m) l))
               (sel + 1) (st_previewMode ed) (st_exporting ed)).
Proof using All.
  intros Hav. on_screen Hg Hs Hav.
  apply andb_true_iff in Hav as [Hun Hn].
  apply negb_true_iff in Hun, Hn. apply Nat.leb_gt in Hn. rewrite carousel_length in Hn.
  destruct (unlocked_in_mid f m l _ cur Hf Hl Hcur Hun) as [Hr Hlk].
  split; [lia|]. split; [exact Hr|]. split; [eauto|].
  unfold run. unfold App_addSlide, App_handler. rewrite Hs.
  fold sel. rewrite addSlide_carousel by (unfold sel; lia).
  now rewrite Hpv.
Qed.

Lemma run_ClickRemove :
  available ClickRemove ed = true ->
  (5 <= length m)%nat /\ (1 <= sel <= Z.of_nat (length m))%Z
  /\ (exists cur, m !! (Z.to_nat sel - 1)%nat = Some cur /\ isLocked cur = false)
  /\ run ClickRemove ed
     = Next (mkEditor
               (Some (carousel f (take (Z.to_nat sel - 1) m ++ drop (Z.to_nat sel) m) l))
               (sel - 1) (st_previewMode ed) (st_exporting ed)).
Proof using All.
  intros Hav. on_screen Hg Hs Hav.
  apply andb_true_iff in Hav as [Hun Hn].
  apply negb_true_iff in Hun, Hn. apply Nat.leb_gt in Hn. rewrite carousel_length in Hn.
  destruct (unlocked_in_mid f m l _ cur Hf Hl Hcur Hun) as [Hr Hlk].
  split; [lia|]. split; [exact Hr|]. split; [eauto|].
  unfold run. unfold App_removeSlide, App_handler. rewrite Hs.
  fold sel. rewrite (removeSlide_carousel f m l sel cur) by (auto; lia).
  rewrite Hpv.
  destruct (sel <=? sel)%Z eqn:E1; [|apply Z.leb_gt in E1; lia].
  destruct (0 <? sel)%Z eqn:E2; [|apply Z.ltb_ge in E2; lia].
  reflexivity.
Qed.

Lemma run_move (up : bool) :
  let e := if up then ClickMoveUp else ClickMoveDown in
  let dir := if up then (-1)%Z else 1%Z in
  available e ed = true ->
  (1 <= sel <= Z.of_nat (length m))%Z /\ (1 <= sel + dir <= Z.of_nat (length m))%Z
  /\ exists cur other,
       m !! (Z.to_nat sel - 1)%nat = Some cur /\ isLocked cur = false
       /\ m !! (Z.to_nat (sel + dir) - 1)%nat = Some other
       /\ run e ed
          = Next (mkEditor
                    (Some (carousel f (<[(Z.to_nat (sel + dir) - 1)%nat := cur]>
                                         (<[(Z.to_nat sel - 1)%nat := other]> m)) l))
                    (sel + dir) (st_previewMode ed) (st_exporting ed)).
Proof using All.
  cbv zeta. intros Hav.
  assert (Hcond : exists cur,
             arr_get (carousel f m l) sel = Some cur /\ isLocked cur = false
             /\ st_previewMode ed = false
             /\ (if up then (1 < sel)%Z else (sel < Z.of_nat (length m))%Z)).
  { destruct up; on_screen Hg Hs Hav; apply andb_true_iff in Hav as [Hun Hn];
      apply negb_true_iff in Hun, Hn; apply Z.leb_gt in Hn;
      rewrite ?carousel_length in Hn; exists cur; repeat split; auto; fold sel in Hn; lia. }
  destruct Hcond as (cur & Hcur & Hun & Hpv & Hn).
  destruct (unlocked_in_mid f m l _ cur Hf Hl Hcur Hun) as [Hr Hlk].
  set (dir := if up then (-1)%Z else 1%Z).
  assert (Hd : (1 <= sel + dir <= Z.of_nat (length m))%Z) by (destruct up; subst dir; lia).
  destruct (lookup_lt_is_Some_2 m (Z.to_nat (sel + dir) - 1)) as [other Hother]; [lia|].
  split; [exact Hr|]. split; [exact Hd|]. exists cur, other.
  split; [exact Hlk|]. split; [exact Hun|]. split; [exact Hother|].
  assert (Hrun : run (if up then ClickMoveUp else ClickMoveDown) ed
                 = App_moveSlide sel dir ed) by (destruct up; reflexivity).
  rewrite Hrun. unfold App_moveSlide, App_handler. rewrite Hs.
  rewrite (moveSlide_carousel f m l sel dir cur other) by auto.
  now rewrite Hpv.
Qed.

End Controls.

Lemma goodSlides_length s : goodSlides s -> (3 <= length s <= 12)%nat.
Proof.
  intros (f & m & l & -> & _ & _ & _ & Hlen). rewrite carousel_length. lia.
Qed.

Lemma isLocked_retemplate cur t :
  isLocked (mkSlide t (locked cur) (note cur) ∅) = isLocked cur.
Proof. reflexivity. Qed.

Section MoreControls.
Variables (ed : Editor) (s : Slides).
Hypothesis Hg : goodEditor ed.
Hypothesis Hs : st_slides ed = Some s.

Lemma good_s : goodSlides s.
Proof using All. unfold goodEditor in Hg. rewrite Hs in Hg. tauto. Qed.

Lemma run_SelectTemplate t :
  available (SelectTemplate t) ed = true ->
  exists cur,
    arr_get s (st_selectedIdx ed) = Some cur /\ isLocked cur = false
    /\ In t selectableTemplates
    /\ run (SelectTemplate t) ed
       = Next (mkEditor
                 (Some (arr_set s (st_selectedIdx ed)
                          (mkSlide t (locked cur) (note cur) ∅)))
                 (st_selectedIdx ed) (st_previewMode ed) (st_exporting ed))
    /\ goodSlides (arr_set s (st_selectedIdx ed) (mkSlide t (locked cur) (note cur) ∅))
    /\ length (arr_set s (st_selectedIdx ed) (mkSlide t (locked cur) (note cur) ∅))
       = length s.
Proof using All.
  intros Hav. on_screen Hg Hs Hav.
  apply andb_true_iff in Hav as [Hun Ht]. apply negb_true_iff in Hun.
  apply selectable_check in Ht.
  exists cur. split; [exact Hcur|]. split; [exact Hun|]. split; [exact Ht|].
  split.
  - unfold run, App_changeTemplate, App_handler. rewrite Hs.
    unfold changeTemplate. rewrite Hcur. cbn [retemplate]. now rewrite Hpv.
  - destruct good_s as (f & m & l & -> & Hf & Hm & Hl & Hlen).
    apply (arr_set_good f m l _ cur); auto.
    + intros t0 [Hlock _]. rewrite Hun in Hlock. discriminate.
    + intros _. split; [exact Hun|]. split; [exact Ht|].
      destruct (selectable_known t Ht) as [d Hd]. eapply emptyData_fits; eauto.
Qed.

Lemma run_ChangeField key act :
  available (ChangeField key act) ed = true ->
  exists cur def fd v,
    arr_get s (st_selectedIdx ed) = Some cur
    /\ assoc (template cur) TEMPLATES = Some def
    /\ fieldOf def key = Some fd
    /\ FieldEditor_onChange fd (field (data cur) key) act = Some v
    /\ let cur1 := mkSlide (template cur) (locked cur) (note cur) (<[key := v]> (data cur)) in
       run (ChangeField key act) ed
       = Next (mkEditor (Some (arr_set s (st_selectedIdx ed) cur1))
                 (st_selectedIdx ed) (st_previewMode ed) (st_exporting ed))
       /\ goodSlides (arr_set s (st_selectedIdx ed) cur1)
       /\ length (arr_set s (st_selectedIdx ed) cur1) = length s.
Proof using All.
  intros Hav.
  destruct (goodEditor_screen _ _ Hg Hs) as (cur & def & Hcur & Hdef & Hscr).
  unfold available in Hav. rewrite Hscr in Hav.
  destruct (st_previewMode ed) eqn:Hpv; try discriminate Hav.
  destruct (fieldOf def key) as [fd|] eqn:Hfd; [|discriminate].
  destruct (FieldEditor_onChange fd (field (data cur) key) act) as [v|] eqn:Hon;
    [|discriminate].
  exists cur, def, fd, v. repeat (split; [assumption|]). cbv zeta. split.
  - unfold run. rewrite Hscr, Hfd, Hon.
    unfold App_updateSlideData, App_handler. rewrite Hs.
    unfold updateSlideData. rewrite Hcur. now rewrite Hpv.
  - pose proof (onChange_holds _ _ _ _ _ _ _ Hdef Hfd Hon) as Hholds.
    assert (Hfit : dataFits cur ->
                   dataFits (mkSlide (template cur) (locked cur) (note cur)
                               (<[key := v]> (data cur)))).
    { intros (def1 & Hdef1 & Hdata). exists def1. split; [exact Hdef1|]. cbn.
      intros k v1 Hk. destruct (decide (key = k)) as [->|Hne].
      - rewrite lookup_insert in Hk. rewrite decide_True in Hk by reflexivity.
        injection Hk as <-.
        rewrite Hdef in Hdef1. injection Hdef1 as <-. eauto.
      - rewrite lookup_insert_ne in Hk by exact Hne. now apply Hdata. }
    destruct good_s as (f & m & l & -> & Hf & Hm & Hl & Hlen).
    apply (arr_set_good f m l _ cur); auto.
    + intros t0 (Hlock & Ht & Hd). split; [exact Hlock|]. split; [exact Ht|]. now apply Hfit.
    + intros (Hlock & Ht & Hd). split; [exact Hlock|]. split; [exact Ht|]. now apply Hfit.
Qed.

End MoreControls.

(* ================================================================== *)
(** ** Every control keeps the state good *)

Lemma goodEditor_intro s sel pv ex :
  goodSlides s -> (0 <= sel < Z.of_nat (length s))%Z ->
  goodEditor (mkEditor (Some s) sel pv ex).
Proof. intros Hs Hsel. unfold goodEditor. cbn. auto. Qed.

Lemma goodSlides_carousel f m l :
  endSlide "cover" f -> Forall midSlide m -> endSlide "cta" l ->
  (1 <= length m <= 10)%nat -> goodSlides (carousel f m l).
Proof. intros. exists f, m, l. auto. Qed.

Lemma blank_single_mid : midSlide (mkSlide "single" None (Some "") ∅).
Proof. apply newSlide_mid. apply selectable_check. vm_compute. reflexivity. Qed.

Lemma step_good ed e ed1 :
  goodEditor ed -> available e ed = true -> run e ed = Next ed1 -> goodEditor ed1.
Proof.
  intros Hg Hav Hrun. destruct (st_slides ed) as [s|] eqn:Hs.
  - pose proof (good_s ed s Hg Hs) as Hgood.
    pose proof Hg as Hsel. unfold goodEditor in Hsel. rewrite Hs in Hsel.
    destruct Hsel as [_ Hsel].
    destruct e.
    + on_screen Hg Hs Hav.
    + on_screen Hg Hs Hav.
    + (* New *) cbn in Hrun. injection Hrun as <-. exact I.
    + (* Preview *) cbn in Hrun. injection Hrun as <-.
      unfold goodEditor, setPreviewMode. cbn. rewrite Hs. auto.
    + (* Back *) cbn in Hrun. injection Hrun as <-.
      unfold goodEditor, setPreviewMode. cbn. rewrite Hs. auto.
    + (* Prev *) on_screen Hg Hs Hav. apply negb_true_iff, Z.eqb_neq in Hav.
      cbn in Hrun. injection Hrun as <-.
      unfold goodEditor, setSelectedIdx. cbn. rewrite Hs. split; [exact Hgood | lia].
    + (* Next *) on_screen Hg Hs Hav. apply negb_true_iff, Z.eqb_neq in Hav.
      cbn in Hrun. injection Hrun as <-.
      unfold goodEditor, setSelectedIdx. cbn. rewrite Hs. split; [exact Hgood | lia].
    + (* Thumb *) on_screen Hg Hs Hav. apply Nat.ltb_lt in Hav.
      cbn in Hrun. injection Hrun as <-.
      unfold goodEditor, setSelectedIdx. cbn. rewrite Hs. split; [exact Hgood | lia].
    + (* Item *) on_screen Hg Hs Hav. apply Nat.ltb_lt in Hav.
      cbn in Hrun. injection Hrun as <-.
      unfold goodEditor, setSelectedIdx. cbn. rewrite Hs. split; [exact Hgood | lia].
    + (* Add slide *)
      destruct Hgood as (f & m & l & -> & Hf & Hm & Hl & Hlen).
      destruct (run_ClickAddSlide ed f m l Hg Hs Hf Hm Hl Hlen Hav) as [Hn Hr].
      rewrite Hr in Hrun. injection Hrun as <-.
      apply goodEditor_intro.
      * apply goodSlides_carousel; auto.
        -- apply Forall_app. split; [exact Hm|]. apply Forall_singleton, blank_single_mid.
        -- rewrite length_app. cbn. lia.
      * rewrite carousel_length, length_app. cbn. lia.
    + (* Select template *)
      destruct (run_SelectTemplate ed s Hg Hs t Hav)
        as (cur & Hcur & Hun & Ht & Hr & Hgood1 & Hlen1).
      rewrite Hr in Hrun. injection Hrun as <-.
      apply goodEditor_intro; [exact Hgood1 | now rewrite Hlen1].
    + (* Change field *)
      destruct (run_ChangeField ed s Hg Hs key act Hav)
        as (cur & def & fd & v & Hcur & Hdef & Hfd & Hon & Hr & Hgood1 & Hlen1).
      rewrite Hr in Hrun. injection Hrun as <-.
      apply goodEditor_intro; [exact Hgood1 | now rewrite Hlen1].
    + (* Move up *)
      destruct Hgood as (f & m & l & -> & Hf & Hm & Hl & Hlen).
      destruct (run_move ed f m l Hg Hs Hf Hm Hl Hlen true Hav)
        as (Hr1 & Hr2 & cur & other & Hcur & Hun & Hother & Hr).
      cbv beta iota in Hr. rewrite Hr in Hrun. injection Hrun as <-.
      apply goodEditor_intro.
      * apply goodSlides_carousel; auto.
        -- apply Forall_insert; [apply Forall_insert; [exact Hm|]|];
             eapply Forall_lookup_1; eauto.
        -- rewrite !length_insert. lia.
      * rewrite carousel_length, !length_insert. lia.
    + (* Move down *)
      destruct Hgood as (f & m & l & -> & Hf & Hm & Hl & Hlen).
      destruct (run_move ed f m l Hg Hs Hf Hm Hl Hlen false Hav)
        as (Hr1 & Hr2 & cur & other & Hcur & Hun & Hother & Hr).
      cbv beta iota in Hr. rewrite Hr in Hrun. injection Hrun as <-.
      apply goodEditor_intro.
      * apply goodSlides_carousel; auto.
        -- apply Forall_insert; [apply Forall_insert; [exact Hm|]|];
             eapply Forall_lookup_1; eauto.
        -- rewrite !length_insert. lia.
      * rewrite carousel_length, !length_insert. lia.
    + (* Insert after *)
      destruct Hgood as (f & m & l & -> & Hf & Hm & Hl & Hlen).
      destruct (run_ClickInsertAfter ed f m l Hg Hs Hf Hm Hl Hlen Hav)
        as (Hn & Hr1 & _ & Hr).
      rewrite Hr in Hrun. injection Hrun as <-.
      apply goodEditor_intro.
      * apply goodSlides_carousel; auto.
        -- apply Forall_app. split; [now apply Forall_take|].
           apply List.Forall_cons; [apply blank_single_mid | now apply Forall_drop].
        -- rewrite length_app, length_take. cbn. rewrite length_drop. lia.
      * rewrite carousel_length, length_app, length_take. cbn. rewrite length_drop. lia.
    + (* Remove *)
      destruct Hgood as (f & m & l & -> & Hf & Hm & Hl & Hlen).
      destruct (run_ClickRemove ed f m l Hg Hs Hf Hm Hl Hlen Hav)
        as (Hn & Hr1 & _ & Hr).
      rewrite Hr in Hrun. injection Hrun as <-.
      apply goodEditor_intro.
      * apply goodSlides_carousel; auto.
        -- apply Forall_app. split; [now apply Forall_take | now apply Forall_drop].
        -- rewrite length_app, length_take, length_drop. lia.
      * rewrite carousel_length, length_app, length_take, length_drop. lia.
    + (* Export *) cbn in Hrun. injection Hrun as <-.
      unfold goodEditor, setExporting. cbn. rewrite Hs. auto.
    + (* Export done *) cbn in Hrun. injection Hrun as <-.
      unfold goodEditor, setExporting. cbn. rewrite Hs. auto.
  - assert (Hscr : App_screen ed = PickerScreen) by (unfold App_screen; now rewrite Hs).
    unfold available in Hav. rewrite Hscr in Hav.
    destruct e; try discriminate Hav.
    + unfold run, App_initFromSequence in Hrun.
      destruct (initFromSequence key) as [s| |] eqn:E; try discriminate.
      injection Hrun as <-. apply goodSlides_initFromSequence in E.
      apply goodEditor_intro; [exact E|]. apply goodSlides_length in E. lia.
    + cbn in Hrun. injection Hrun as <-.
      apply goodEditor_intro; [apply goodSlides_initCustom|]. cbn. lia.
    + cbn in Hrun. injection Hrun as <-. unfold goodEditor, setExporting. cbn.
      now rewrite Hs.
Qed.

Lemma reachable_good ed : editorReachable ed -> goodEditor ed.
Proof.
  induction 1 as [|ed e ed1 _ IH Hav Hrun]; [exact I|]. eapply step_good; eauto.
Qed.

(* ================================================================== *)
(** ** What holds in every state of the editor *)

Lemma customEditor_reachable : editorReachable customEditor.
Proof. apply (er_step initialEditor ClickCustom); [apply er_initial | reflexivity | reflexivity]. Qed.

(** X1.  In every state the controls lead to, [App] renders: the selection
    names a slide of the list, no slide is missing, and every slide's
    template is an entry of [TEMPLATES], so that none of the property reads
    of the render function throws. *)
Theorem editor_always_renders (ed : Editor) :
  editorReachable ed -> App_screen ed <> RenderThrows.
Proof.
  intros Hr. apply reachable_good in Hr.
  destruct (st_slides ed) as [s|] eqn:Hs.
  - destruct (goodEditor_screen ed s Hr Hs) as (cur & def & _ & _ & Hscr).
    rewrite Hscr. destruct (st_previewMode ed); discriminate.
  - unfold App_screen. rewrite Hs. discriminate.
Qed.

(** X1 at work: the editor on the custom skeleton. *)
Lemma editor_always_renders_witness : App_screen customEditor <> RenderThrows.
Proof. apply editor_always_renders. apply customEditor_reachable. Defined.

Lemma slideAt_mk s sel pv ex i : slideAt (mkEditor (Some s) sel pv ex) i = arr_get s i.
Proof. reflexivity. Qed.

Lemma arr_get_carousel_mid f m l (i : Z) :
  (1 <= i <= Z.of_nat (length m))%Z ->
  arr_get (carousel f m l) i = m !! (Z.to_nat i - 1)%nat.
Proof.
  intros Hi. unfold arr_get.
  destruct (i <? 0)%Z eqn:E; [apply Z.ltb_lt in E; lia|].
  replace (Z.to_nat i) with (S (Z.to_nat i - 1)) at 1 by lia.
  rewrite carousel_lookup_mid by lia.
  now destruct (m !! (Z.to_nat i - 1)%nat).
Qed.

(** X2.  In every state the controls lead to, a control that is on the
    screen and enabled runs its handler to the end: it does not throw, and
    the buttons of the slide list do not stop at a guard.  Add and insert
    make the list one slide longer and select the new blank slide; remove
    makes it one shorter and selects the slide before; a move swaps the
    selected slide with its neighbour and keeps it selected. *)
Theorem available_controls_work (ed : Editor) (e : Event) :
  editorReachable ed -> available e ed = true ->
  exists ed1,
    run e ed = Next ed1
    /\ match e with
       | ClickAddSlide =>
           slideCount ed1 = S (slideCount ed)
           /\ st_selectedIdx ed1 = (Z.of_nat (slideCount ed) - 1)%Z
           /\ slideAt ed1 (st_selectedIdx ed1) = Some blankSingle
       | ClickInsertAfter =>
           slideCount ed1 = S (slideCount ed)
           /\ st_selectedIdx ed1 = (st_selectedIdx ed + 1)%Z
           /\ slideAt ed1 (st_selectedIdx ed1) = Some blankSingle
           /\ slideAt ed1 (st_selectedIdx ed) = slideAt ed (st_selectedIdx ed)
       | ClickRemove =>
           S (slideCount ed1) = slideCount ed
           /\ st_selectedIdx ed1 = (st_selectedIdx ed - 1)%Z
           /\ slideAt ed1 (st_selectedIdx ed1) = slideAt ed (st_selectedIdx ed - 1)
       | ClickMoveUp =>
           slideCount ed1 = slideCount ed
           /\ st_selectedIdx ed1 = (st_selectedIdx ed - 1)%Z
           /\ slideAt ed1 (st_selectedIdx ed1) = slideAt ed (st_selectedIdx ed)
           /\ slideAt ed1 (st_selectedIdx ed) = slideAt ed (st_selectedIdx ed1)
       | ClickMoveDown =>
           slideCount ed1 = slideCount ed
           /\ st_selectedIdx ed1 = (st_selectedIdx ed + 1)%Z
           /\ slideAt ed1 (st_selectedIdx ed1) = slideAt ed (st_selectedIdx ed)
           /\ slideAt ed1 (st_selectedIdx ed) = slideAt ed (st_selectedIdx ed1)
       | _ => True
       end.
Proof.
  intros Hreach Hav. pose proof (reachable_good ed Hreach) as Hg.
  destruct (st_slides ed) as [s|] eqn:Hs.
  - pose proof (good_s ed s Hg Hs) as Hgood.
    destruct e; try (eexists; split; [reflexivity | exact I]).
    + on_screen Hg Hs Hav.
    + (* Add slide *)
      destruct Hgood as (f & m & l & -> & Hf & Hm & Hl & Hlen).
      destruct (run_ClickAddSlide ed f m l Hg Hs Hf Hm Hl Hlen Hav) as [Hn Hr].
      eexists. split; [exact Hr|]. unfold slideCount. rewrite Hs. cbn [st_slides st_selectedIdx].
      rewrite !carousel_length, length_app. cbn [length].
      split; [lia|]. split; [lia|].
      rewrite slideAt_mk, arr_get_carousel_mid by (rewrite length_app; cbn; lia).
      replace (Z.to_nat (Z.of_nat (length m) + 1) - 1)%nat with (length m) by lia.
      now rewrite lookup_app_r, Nat.sub_diag by lia.
    + (* Select template *)
      destruct (run_SelectTemplate ed s Hg Hs t Hav) as (cur & _ & _ & _ & Hr & _).
      eexists. split; [exact Hr | exact I].
    + (* Change field *)
      destruct (run_ChangeField ed s Hg Hs key act Hav)
        as (cur & def & fd & v & _ & _ & _ & _ & Hr & _).
      eexists. split; [exact Hr | exact I].
    + (* Move up *)
      destruct Hgood as (f & m & l & -> & Hf & Hm & Hl & Hlen).
      destruct (run_move ed f m l Hg Hs Hf Hm Hl Hlen true Hav)
        as (Hr1 & Hr2 & cur & other & Hcur & Hun & Hother & Hr).
      cbv beta iota in Hr, Hr2, Hother.
      eexists. split; [exact Hr|]. unfold slideCount, slideAt. rewrite Hs.
      cbn [st_slides st_selectedIdx].
      rewrite !carousel_length, !length_insert.
      split; [reflexivity|]. split; [lia|].
      rewrite !arr_get_carousel_mid by (rewrite ?length_insert; lia).
      split.
      * rewrite list_lookup_insert_eq by (rewrite length_insert; lia). now rewrite Hcur.
      * rewrite list_lookup_insert_ne by lia.
        rewrite list_lookup_insert_eq by lia. now rewrite Hother.
    + (* Move down *)
      destruct Hgood as (f & m & l & -> & Hf & Hm & Hl & Hlen).
      destruct (run_move ed f m l Hg Hs Hf Hm Hl Hlen false Hav)
        as (Hr1 & Hr2 & cur & other & Hcur & Hun & Hother & Hr).
      cbv beta iota in Hr, Hr2, Hother.
      eexists. split; [exact Hr|]. unfold slideCount, slideAt. rewrite Hs.
      cbn [st_slides st_selectedIdx].
      rewrite !carousel_length, !length_insert.
      split; [reflexivity|]. split; [lia|].
      rewrite !arr_get_carousel_mid by (rewrite ?length_insert; lia).
      split.
      * rewrite list_lookup_insert_eq by (rewrite length_insert; lia). now rewrite Hcur.
      * rewrite list_lookup_insert_ne by lia.
        rewrite list_lookup_insert_eq by lia. now rewrite Hother.
    + (* Insert after *)
      destruct Hgood as (f & m & l & -> & Hf & Hm & Hl & Hlen).
      destruct (run_ClickInsertAfter ed f m l Hg Hs Hf Hm Hl Hlen Hav)
        as (Hn & Hr1 & (cur & Hcur & Hun) & Hr).
      eexists. split; [exact Hr|]. unfold slideCount, slideAt. rewrite Hs.
      cbn [st_slides st_selectedIdx].
      assert (Hl1 : length (take (Z.to_nat (st_selectedIdx ed)) m
                            ++ blankSingle :: drop (Z.to_nat (st_selectedIdx ed)) m)
                    = S (length m)).
      { rewrite length_app, length_take. cbn. rewrite length_drop. lia. }
      fold blankSingle.
      rewrite !carousel_length, Hl1.
      split; [reflexivity|]. split; [reflexivity|].
      rewrite !arr_get_carousel_mid by (rewrite ?Hl1; lia).
      split.
      * rewrite lookup_app_r by (rewrite length_take; lia).
        rewrite length_take.
        replace (Z.to_nat (st_selectedIdx ed + 1) - 1
                 - Nat.min (Z.to_nat (st_selectedIdx ed)) (length m))%nat with O by lia.
        reflexivity.
      * rewrite lookup_app_l by (rewrite length_take; lia).
        rewrite lookup_take_lt by lia. reflexivity.
    + (* Remove *)
      destruct Hgood as (f & m & l & -> & Hf & Hm & Hl & Hlen).
      destruct (run_ClickRemove ed f m l Hg Hs Hf Hm Hl Hlen Hav)
        as (Hn & Hr1 & (cur & Hcur & Hun) & Hr).
      eexists. split; [exact Hr|]. unfold slideCount, slideAt. rewrite Hs.
      cbn [st_slides st_selectedIdx].
      assert (Hl1 : S (length (take (Z.to_nat (st_selectedIdx ed) - 1) m
                               ++ drop (Z.to_nat (st_selectedIdx ed)) m))
                    = length m).
      { rewrite length_app, length_take, length_drop. lia. }
      rewrite !carousel_length.
      split; [lia|]. split; [reflexivity|].
      destruct (Z.eq_dec (st_selectedIdx ed) 1%Z) as [E1|E1].
      * rewrite E1. reflexivity.
      * rewrite !arr_get_carousel_mid by lia.
        rewrite lookup_app_l by (rewrite length_take; lia).
        rewrite lookup_take_lt by lia. reflexivity.
  - assert (Hscr : App_screen ed = PickerScreen) by (unfold App_screen; now rewrite Hs).
    unfold available in Hav. rewrite Hscr in Hav.
    destruct e; try discriminate Hav.
    + (* a sequence of the table *)
      unfold run, App_initFromSequence, initFromSequence.
      destruct (assoc key SEQUENCES) as [sq|] eqn:E.
      * eexists. split; [reflexivity | exact I].
      * apply existsb_exists in Hav as (k & Hk & Heq). apply String.eqb_eq in Heq. subst k.
        apply In_assoc_known in Hk as [v Hv]. congruence.
    + eexists. split; [reflexivity | exact I].
    + eexists. split; [reflexivity | exact I].
Qed.

(** X2 at work: the button below the list, on the custom skeleton. *)
Lemma available_controls_work_witness :
  exists ed1,
    run ClickAddSlide customEditor = Next ed1
    /\ slideCount ed1 = S (slideCount customEditor)
    /\ st_selectedIdx ed1 = (Z.of_nat (slideCount customEditor) - 1)%Z
    /\ slideAt ed1 (st_selectedIdx ed1) = Some blankSingle.
Proof.
  apply (available_controls_work customEditor ClickAddSlide);
    [apply customEditor_reachable | reflexivity].
Defined.

Lemma selectable_keys t : In t selectableTemplates -> In t TEMPLATE_keys.
Proof.
  intros Hin. unfold selectableTemplates in Hin. apply filter_In in Hin as [Hin _].
  now rewrite TEMPLATES_keys in Hin.
Qed.

(** X3.  In every state the controls lead to, the slide list has between 3
    and 12 slides and no hole, the selection names one of them, the locked
    slides are exactly the first and the last, the first slide and no other
    is a cover, the last and no other a call to action, and every template
    is one of the fourteen. *)
Theorem carousel_shape (ed : Editor) (s : Slides) :
  editorReachable ed -> st_slides ed = Some s ->
  (3 <= length s <= 12)%nat
  /\ (0 <= st_selectedIdx ed < Z.of_nat (length s))%Z
  /\ forall i, (i < length s)%nat ->
       exists sl,
         s !! i = Some (Some sl)
         /\ (isLocked sl = true <-> i = O \/ i = (length s - 1)%nat)
         /\ (template sl = "cover" <-> i = O)
         /\ (template sl = "cta" <-> i = (length s - 1)%nat)
         /\ In (template sl) TEMPLATE_keys.
Proof.
  intros Hreach Hs. pose proof (reachable_good ed Hreach) as Hg.
  unfold goodEditor in Hg. rewrite Hs in Hg. destruct Hg as [Hgood Hsel].
  split; [now apply goodSlides_length|]. split; [exact Hsel|].
  destruct Hgood as (f & m & l & -> & (Hfl & Hft & _) & Hm & (Hll & Hlt & _) & Hlen).
  rewrite carousel_length. intros i Hi.
  replace (S (S (length m)) - 1)%nat with (S (length m)) by lia.
  destruct i as [|k].
  - exists f. split; [reflexivity|].
    split; [split; [now left | intros _; exact Hfl]|].
    split; [split; [reflexivity | intros _; exact Hft]|].
    split; [rewrite Hft; split; [discriminate | lia]|].
    rewrite Hft. cbn. tauto.
  - destruct (Nat.eq_dec k (length m)) as [->|Hk].
    + exists l. split; [apply carousel_lookup_last|].
      split; [split; [now right | intros _; exact Hll]|].
      split; [rewrite Hlt; split; [discriminate | lia]|].
      split; [split; [reflexivity | intros _; exact Hlt]|].
      rewrite Hlt. cbn. tauto.
    + assert (Hlt1 : (k < length m)%nat) by lia.
      destruct (lookup_lt_is_Some_2 m k Hlt1) as [sl Hsl].
      exists sl. split; [rewrite carousel_lookup_mid by exact Hlt1; now rewrite Hsl|].
      destruct (Forall_lookup_1 _ _ _ _ Hm Hsl) as (Hun & Hsel1 & _).
      destruct (selectable_not_end _ Hsel1) as [Hnc Hna].
      split; [split; [congruence | lia]|].
      split; [split; [congruence | lia]|].
      split; [split; [congruence | lia]|].
      now apply selectable_keys.
Qed.

(** X3 at work: the custom skeleton. *)
Lemma carousel_shape_witness :
  (3 <= length initCustom <= 12)%nat
  /\ (0 <= st_selectedIdx customEditor < Z.of_nat (length initCustom))%Z
  /\ forall i, (i < length initCustom)%nat ->
       exists sl,
         initCustom !! i = Some (Some sl)
         /\ (isLocked sl = true <-> i = O \/ i = (length initCustom - 1)%nat)
         /\ (template sl = "cover" <-> i = O)
         /\ (template sl = "cta" <-> i = (length initCustom - 1)%nat)
         /\ In (template sl) TEMPLATE_keys.
Proof.
  apply (carousel_shape customEditor initCustom);
    [apply customEditor_reachable | reflexivity].
Defined.

(** X4.  In every state the controls lead to, every value a slide holds
    belongs to a field of the slide's template and is as the control of
    that field delivers it: no longer than the field allows (the counter of
    [FieldEditor] never shows an excess) and, for a select field, one of
    its options. *)
Theorem field_values_fit (ed : Editor) (s : Slides) (i : Z) (sl : Slide)
    (k v : string) :
  editorReachable ed -> st_slides ed = Some s ->
  arr_get s i = Some sl -> data sl !! k = Some v ->
  exists def fd,
    assoc (template sl) TEMPLATES = Some def
    /\ fieldOf def k = Some fd
    /\ FieldEditor_over fd v = false
    /\ (forall options, fd_options fd = Some options -> In v options).
Proof.
  intros Hreach Hs Hget Hk. pose proof (reachable_good ed Hreach) as Hg.
  unfold goodEditor in Hg. rewrite Hs in Hg. destruct Hg as [Hgood _].
  assert (Hi : (0 <= i < Z.of_nat (length s))%Z).
  { apply arr_get_Some in Hget as [H0 Hlk]. split; [exact H0|].
    apply lookup_lt_Some in Hlk. lia. }
  destruct (goodSlides_get s i Hgood Hi) as (sl1 & Hget1 & def & Hdef & Hdata).
  rewrite Hget in Hget1. injection Hget1 as <-.
  destruct (Hdata k v Hk) as (fd & Hfd & Hover & Hopt).
  exists def, fd. auto.
Qed.

Lemma titledEditor_reachable : editorReachable titledEditor.
Proof.
  apply (er_step customEditor (ChangeField "title" (Typed "Why")));
    [apply customEditor_reachable | reflexivity | reflexivity].
Qed.

(** X4 at work: a title typed into the cover of the custom skeleton. *)
Lemma field_values_fit_witness :
  exists def fd,
    assoc (template titledCover) TEMPLATES = Some def
    /\ fieldOf def "title" = Some fd
    /\ FieldEditor_over fd "Why" = false
    /\ (forall options, fd_options fd = Some options -> In "Why" options).
Proof.
  apply (field_values_fit titledEditor (arr_set initCustom 0 titledCover) 0 titledCover
           "title" "Why");
    [apply titledEditor_reachable | reflexivity | reflexivity | reflexivity].
Defined.

(** X5.  A carousel that can be exported stays so: in a state the controls
    lead to whose list has 6 to 12 slides, every control but New leaves a
    list of 6 to 12 slides, so that the Export button is disabled only
    while an export runs. *)
Theorem exportable_stays_exportable (ed ed1 : Editor) (e : Event) (s : Slides) :
  editorReachable ed -> st_slides ed = Some s -> (6 <= length s <= 12)%nat ->
  available e ed = true -> run e ed = Next ed1 -> e <> ClickNew ->
  exists s1,
    st_slides ed1 = Some s1 /\ (6 <= length s1 <= 12)%nat
    /\ exportDisabled (st_exporting ed1) s1 = st_exporting ed1.
Proof.
  intros Hreach Hs Hlen6 Hav Hrun Hnew.
  pose proof (reachable_good ed Hreach) as Hg.
  pose proof (step_good ed e ed1 Hg Hav Hrun) as Hg1.
  assert (Hcount : exists s1, st_slides ed1 = Some s1 /\ (6 <= length s1)%nat).
  { pose proof (good_s ed s Hg Hs) as Hgood.
    destruct e; try congruence;
      try (cbn in Hrun; injection Hrun as <-; exists s; cbn; split; [exact Hs | lia]).
    - on_screen Hg Hs Hav.
    - on_screen Hg Hs Hav.
    - destruct Hgood as (f & m & l & -> & Hf & Hm & Hl & Hlen).
      destruct (run_ClickAddSlide ed f m l Hg Hs Hf Hm Hl Hlen Hav) as [Hn Hr].
      rewrite Hr in Hrun. injection Hrun as <-. eexists. split; [reflexivity|].
      rewrite carousel_length in *. rewrite length_app. cbn. lia.
    - destruct (run_SelectTemplate ed s Hg Hs t Hav) as (cur & _ & _ & _ & Hr & _ & Hl1).
      rewrite Hr in Hrun. injection Hrun as <-. eexists. split; [reflexivity|].
      rewrite Hl1. lia.
    - destruct (run_ChangeField ed s Hg Hs key act Hav)
        as (cur & def & fd & v & _ & _ & _ & _ & Hr & _ & Hl1).
      rewrite Hr in Hrun. injection Hrun as <-. eexists. split; [reflexivity|].
      rewrite Hl1. lia.
    - destruct Hgood as (f & m & l & -> & Hf & Hm & Hl & Hlen).
      destruct (run_move ed f m l Hg Hs Hf Hm Hl Hlen true Hav)
        as (_ & _ & cur & other & _ & _ & _ & Hr).
      cbv beta iota in Hr. rewrite Hr in Hrun. injection Hrun as <-.
      eexists. split; [reflexivity|].
      rewrite carousel_length in *. rewrite !length_insert. lia.
    - destruct Hgood as (f & m & l & -> & Hf & Hm & Hl & Hlen).
      destruct (run_move ed f m l Hg Hs Hf Hm Hl Hlen false Hav)
        as (_ & _ & cur & other & _ & _ & _ & Hr).
      cbv beta iota in Hr. rewrite Hr in Hrun. injection Hrun as <-.
      eexists. split; [reflexivity|].
      rewrite carousel_length in *. rewrite !length_insert. lia.
    - destruct Hgood as (f & m & l & -> & Hf & Hm & Hl & Hlen).
      destruct (run_ClickInsertAfter ed f m l Hg Hs Hf Hm Hl Hlen Hav)
        as (Hn & Hr1 & _ & Hr).
      rewrite Hr in Hrun. injection Hrun as <-. eexists. split; [reflexivity|].
      rewrite carousel_length in *. rewrite length_app, length_take. cbn.
      rewrite length_drop. lia.
    - destruct Hgood as (f & m & l & -> & Hf & Hm & Hl & Hlen).
      destruct (run_ClickRemove ed f m l Hg Hs Hf Hm Hl Hlen Hav)
        as (Hn & Hr1 & _ & Hr).
      rewrite Hr in Hrun. injection Hrun as <-. eexists. split; [reflexivity|].
      rewrite carousel_length in *. rewrite length_app, length_take, length_drop. lia. }
  destruct Hcount as (s1 & Hs1 & Hl1). exists s1. split; [exact Hs1|].
  unfold goodEditor in Hg1. rewrite Hs1 in Hg1. destruct Hg1 as [Hgood1 _].
  apply goodSlides_length in Hgood1. split; [lia|].
  unfold exportDisabled.
  destruct (length s1 <? 6)%nat eqn:E1; [apply Nat.ltb_lt in E1; lia|].
  destruct (12 <? length s1)%nat eqn:E2; [apply Nat.ltb_lt in E2; lia|].
  now rewrite !orb_false_r.
Qed.

Lemma hottakeEditor_reachable : editorReachable hottakeEditor.
Proof.
  apply (er_step initialEditor (ClickSequence "hottake"));
    [apply er_initial | reflexivity | reflexivity].
Qed.

(** X5 at work: a slide added to the seven of the hot take. *)
Lemma exportable_stays_exportable_witness :
  exists s1,
    st_slides hottakeGrown = Some s1 /\ (6 <= length s1 <= 12)%nat
    /\ exportDisabled (st_exporting hottakeGrown) s1 = st_exporting hottakeGrown.
Proof.
  apply (exportable_stays_exportable hottakeEditor hottakeGrown ClickAddSlide hottakeSlides);
    [apply hottakeEditor_reachable | reflexivity | cbn; lia | reflexivity | reflexivity
    | discriminate].
Defined.

(** A control of the editing screen is on the screen only outside the
    preview. *)
Lemma edit_control_not_preview ed s e :
  goodEditor ed -> st_slides ed = Some s -> available e ed = true ->
  match e with
  | ClickMoveUp | ClickMoveDown | ClickInsertAfter | ClickRemove => True
  | _ => False
  end ->
  st_previewMode ed = false.
Proof.
  intros Hg Hs Hav He.
  destruct e; try contradiction; on_screen Hg Hs Hav; reflexivity.
Qed.

(** The screen of a good state with an unlocked slide selected. *)
Lemma edit_screen_mid ed f m l cur :
  goodEditor ed -> st_slides ed = Some (carousel f m l) -> st_previewMode ed = false ->
  (1 <= st_selectedIdx ed <= Z.of_nat (length m))%Z ->
  m !! (Z.to_nat (st_selectedIdx ed) - 1)%nat = Some cur ->
  exists def, App_screen ed = EditScreen (carousel f m l) cur def.
Proof.
  intros Hg Hs Hpv Hr Hlk.
  destruct (goodEditor_screen _ _ Hg Hs) as (cur1 & def & Hcur & _ & Hscr).
  rewrite arr_get_carousel_mid in Hcur by exact Hr. rewrite Hlk in Hcur.
  injection Hcur as <-. rewrite Hpv in Hscr. eauto.
Qed.

Lemma editor_eta ed s :
  st_slides ed = Some s ->
  ed = mkEditor (Some s) (st_selectedIdx ed) (st_previewMode ed) (st_exporting ed).
Proof. destruct ed; cbn; now intros ->. Qed.

(** X6.  Moving a slide up and then down again, or down and then up, gives
    back the state before: after one of the two move buttons was used, the
    other is enabled, and using it restores the list and the selection. *)
Theorem move_there_and_back (ed ed1 : Editor) (up : bool) :
  editorReachable ed ->
  available (moveEvent up) ed = true -> run (moveEvent up) ed = Next ed1 ->
  available (moveEvent (negb up)) ed1 = true
  /\ run (moveEvent (negb up)) ed1 = Next ed.
Proof.
  intros Hreach Hav Hrun.
  pose proof (reachable_good ed Hreach) as Hg.
  pose proof (step_good ed _ ed1 Hg Hav Hrun) as Hg1.
  destruct (st_slides ed) as [s|] eqn:Hs;
    [|destruct up; unfold available, App_screen in Hav; rewrite Hs in Hav; discriminate].
  destruct (good_s ed s Hg Hs) as (f & m & l & -> & Hf & Hm & Hl & Hlen).
  assert (Hpv : st_previewMode ed = false).
  { apply (edit_control_not_preview ed _ (moveEvent up) Hg Hs Hav). now destruct up. }
  destruct (run_move ed f m l Hg Hs Hf Hm Hl Hlen up Hav)
    as (Hr & Hd & cur & other & Hcur & Hun & Hother & Hr1).
  cbv zeta in Hd, Hother, Hr1. fold (moveEvent up) in Hr1.
  rewrite Hr1 in Hrun. injection Hrun as <-.
  remember (st_selectedIdx ed) as sel eqn:Esel.
  remember (if up then (-1)%Z else 1%Z) as dir eqn:Edir.
  remember (Z.to_nat sel - 1)%nat as a eqn:Ea.
  remember (Z.to_nat (sel + dir) - 1)%nat as b eqn:Eb.
  assert (Hab : a <> b) by (destruct up; subst dir; lia).
  assert (Hla : (a < length m)%nat) by lia.
  assert (Hlb : (b < length m)%nat) by lia.
  set (m1 := <[b := cur]> (<[a := other]> m)) in *.
  assert (Hm1 : Forall midSlide m1).
  { apply Forall_insert; [apply Forall_insert; [exact Hm|]|];
      eapply Forall_lookup_1; eauto. }
  assert (Hlen1 : (1 <= length m1 <= 10)%nat)
    by (unfold m1; rewrite !length_insert; lia).
  assert (Hlm1 : length m1 = length m) by (unfold m1; now rewrite !length_insert).
  assert (Hb1 : m1 !! b = Some cur)
    by (unfold m1; apply list_lookup_insert_eq; rewrite length_insert; lia).
  assert (Ha1 : m1 !! a = Some other).
  { unfold m1. rewrite list_lookup_insert_ne by congruence.
    now apply list_lookup_insert_eq. }
  set (ed1 := mkEditor (Some (carousel f m1 l)) (sel + dir)
                (st_previewMode ed) (st_exporting ed)) in *.
  assert (Hs1 : st_slides ed1 = Some (carousel f m1 l)) by reflexivity.
  assert (Hav1 : available (moveEvent (negb up)) ed1 = true).
  { destruct (edit_screen_mid ed1 f m1 l cur Hg1 Hs1 Hpv) as [def Hscr].
    - cbn. lia.
    - cbn. now rewrite <- Eb.
    - unfold available. rewrite Hscr. rewrite carousel_length. cbn [st_selectedIdx ed1].
      rewrite Hun. cbn [negb andb].
      destruct up; cbn [negb moveEvent]; subst dir.
      + destruct (Z.of_nat (S (S (length m1))) - 2 <=? sel + -1)%Z eqn:E;
          [apply Z.leb_le in E; lia | reflexivity].
      + destruct (sel + 1 <=? 1)%Z eqn:E; [apply Z.leb_le in E; lia | reflexivity]. }
  split; [exact Hav1|].
  destruct (run_move ed1 f m1 l Hg1 Hs1 Hf Hm1 Hl Hlen1 (negb up) Hav1)
    as (_ & _ & cur' & other' & Hcur' & _ & Hother' & Hr2).
  cbv zeta in Hother', Hr2. fold (moveEvent (negb up)) in Hr2.
  cbn [st_selectedIdx st_previewMode st_exporting ed1] in Hcur', Hother', Hr2.
  rewrite Hr2.
  assert (Hback : (sel + dir + (if negb up then -1 else 1) = sel)%Z)
    by (destruct up; subst dir; cbn; lia).
  rewrite Hback in *. rewrite <- Eb in Hcur'. rewrite <- Ea in Hother'.
  rewrite <- Ea, <- Eb.
  rewrite Hb1 in Hcur'. injection Hcur' as <-.
  rewrite Ha1 in Hother'. injection Hother' as <-.
  assert (Hm2 : <[a := cur]> (<[b := other]> m1) = m).
  { unfold m1. rewrite list_insert_insert_eq.
    rewrite (list_insert_insert_ne _ a b) by exact Hab.
    rewrite list_insert_insert_eq.
    rewrite (list_insert_id m a cur) by exact Hcur.
    now apply list_insert_id. }
  rewrite Hm2. rewrite (editor_eta ed _ Hs) at 3. now rewrite <- Esel.
Qed.

Lemma hottakeThird_reachable : editorReachable hottakeThird.
Proof.
  apply (er_step hottakeEditor (ClickItem 2));
    [apply hottakeEditor_reachable | reflexivity | reflexivity].
Qed.

(** X6 at work: the third slide of the hot take, moved up and back. *)
Lemma move_there_and_back_witness :
  available (moveEvent (negb true)) hottakeMoved = true
  /\ run (moveEvent (negb true)) hottakeMoved = Next hottakeThird.
Proof.
  apply (move_there_and_back hottakeThird hottakeMoved true);
    [apply hottakeThird_reachable | reflexivity | reflexivity].
Defined.

(** X7.  A slide inserted with Insert after can be taken out again with
    Remove exactly when the list had six slides or more before; Remove then
    gives back the state before the insertion, list and selection. *)
Theorem insert_then_remove (ed ed1 : Editor) :
  editorReachable ed ->
  available ClickInsertAfter ed = true -> run ClickInsertAfter ed = Next ed1 ->
  (available ClickRemove ed1 = true <-> (6 <= slideCount ed)%nat)
  /\ ((6 <= slideCount ed)%nat -> run ClickRemove ed1 = Next ed).
Proof.
  intros Hreach Hav Hrun.
  pose proof (reachable_good ed Hreach) as Hg.
  pose proof (step_good ed _ ed1 Hg Hav Hrun) as Hg1.
  destruct (st_slides ed) as [s|] eqn:Hs;
    [|unfold available, App_screen in Hav; rewrite Hs in Hav; discriminate].
  destruct (good_s ed s Hg Hs) as (f & m & l & -> & Hf & Hm & Hl & Hlen).
  assert (Hpv : st_previewMode ed = false)
    by (apply (edit_control_not_preview ed _ ClickInsertAfter Hg Hs Hav); exact I).
  destruct (run_ClickInsertAfter ed f m l Hg Hs Hf Hm Hl Hlen Hav)
    as (Hn & Hr & (cur & Hcur & Hun) & Hr1).
  rewrite Hr1 in Hrun. injection Hrun as <-.
  unfold slideCount at 1 2. rewrite Hs, carousel_length.
  remember (st_selectedIdx ed) as sel eqn:Esel.
  set (m1 := take (Z.to_nat sel) m ++ mkSlide "single" None (Some "") ∅
               :: drop (Z.to_nat sel) m) in *.
  assert (Hlt : length (take (Z.to_nat sel) m) = Z.to_nat sel)
    by (apply length_take_le; lia).
  assert (Hlm1 : length m1 = S (length m)).
  { unfold m1. rewrite length_app, Hlt. cbn [length]. rewrite length_drop. lia. }
  assert (Hm1 : Forall midSlide m1).
  { unfold m1. apply Forall_app. split; [now apply Forall_take|].
    apply List.Forall_cons; [apply blank_single_mid | now apply Forall_drop]. }
  assert (Hlk1 : m1 !! (Z.to_nat (sel + 1) - 1)%nat = Some (mkSlide "single" None (Some "") ∅)).
  { unfold m1. replace (Z.to_nat (sel + 1) - 1)%nat with (length (take (Z.to_nat sel) m) + 0)%nat
      by lia.
    now rewrite lookup_app_r, Nat.add_comm, Nat.add_sub by lia. }
  set (ed1 := mkEditor (Some (carousel f m1 l)) (sel + 1)
                (st_previewMode ed) (st_exporting ed)) in *.
  assert (Hs1 : st_slides ed1 = Some (carousel f m1 l)) by reflexivity.
  destruct (edit_screen_mid ed1 f m1 l (mkSlide "single" None (Some "") ∅) Hg1 Hs1 Hpv)
    as [def Hscr]; [cbn; lia | exact Hlk1 |].
  assert (Havail : available ClickRemove ed1 = negb (length m <=? 3)%nat).
  { unfold available. rewrite Hscr, carousel_length, Hlm1. reflexivity. }
  split.
  - rewrite Havail. destruct (length m <=? 3)%nat eqn:E.
    + apply Nat.leb_le in E. split; [discriminate | lia].
    + apply Nat.leb_gt in E. split; [lia | reflexivity].
  - intros H6.
    assert (Hav1 : available ClickRemove ed1 = true).
    { rewrite Havail. destruct (length m <=? 3)%nat eqn:E; [apply Nat.leb_le in E; lia|].
      reflexivity. }
    assert (Hlen1 : (1 <= length m1 <= 10)%nat) by lia.
    destruct (run_ClickRemove ed1 f m1 l Hg1 Hs1 Hf Hm1 Hl Hlen1 Hav1) as (_ & _ & _ & Hr2).
    rewrite Hr2. cbn [st_selectedIdx st_previewMode st_exporting ed1].
    assert (Hm2 : take (Z.to_nat (sel + 1) - 1) m1 ++ drop (Z.to_nat (sel + 1)) m1 = m).
    { unfold m1.
      rewrite take_app_length' by lia.
      rewrite drop_app_ge by lia. rewrite Hlt.
      replace (Z.to_nat (sel + 1) - Z.to_nat sel)%nat with 1%nat by lia.
      cbn [drop]. rewrite drop_0. apply take_drop. }
    rewrite Hm2. replace (sel + 1 - 1)%Z with sel by lia.
    rewrite (editor_eta ed _ Hs) at 3. now rewrite <- Esel.
Qed.

(** X7 at work: a slide inserted behind the third slide of the hot take. *)
Lemma insert_then_remove_witness :
  (available ClickRemove hottakeInserted = true <-> (6 <= slideCount hottakeThird)%nat)
  /\ ((6 <= slideCount hottakeThird)%nat -> run ClickRemove hottakeInserted = Next hottakeThird).
Proof.
  apply (insert_then_remove hottakeThird hottakeInserted);
    [apply hottakeThird_reachable | reflexivity | reflexivity].
Defined.

(** The preview is entered from the editing screen only, and the list is
    discarded from the editing screen only: a state in preview mode has a
    list. *)
Lemma preview_has_slides ed :
  editorReachable ed -> st_previewMode ed = true -> st_slides ed <> None.
Proof.
  induction 1 as [|ed e ed1 Hreach IH Hav Hrun]; [discriminate|].
  pose proof (reachable_good ed Hreach) as Hg.
  destruct (st_slides ed) as [s|] eqn:Hs.
  - pose proof (step_good ed e ed1 Hg Hav Hrun) as Hg1.
    destruct (goodEditor_screen _ _ Hg Hs) as (cur & def & Hcur & Hdef & Hscr).
    destruct e; unfold run in Hrun;
      unfold App_initFromSequence, App_initCustom, App_changeTemplate, App_updateSlideData,
        App_addSlide, App_removeSlide, App_moveSlide, App_handler in Hrun;
      rewrite ?Hs in Hrun;
      repeat match type of Hrun with
             | context [match ?x with _ => _ end] => destruct x
             end;
      try discriminate Hrun; injection Hrun as <-; cbn; intros Hp;
      try discriminate; try (rewrite Hs; discriminate).
    unfold available in Hav. rewrite Hscr, Hp in Hav. discriminate.
  - unfold available, App_screen in Hav. rewrite Hs in Hav.
    destruct e; try discriminate Hav; cbn in Hrun.
    + unfold App_initFromSequence in Hrun.
      destruct (initFromSequence key); try discriminate. injection Hrun as <-.
      discriminate.
    + injection Hrun as <-. discriminate.
    + injection Hrun as <-. cbn. intros Hp. specialize (IH Hp). congruence.
Qed.

(** X8.  The preview changes no slide: in preview mode the only controls
    are Back, Prev, Next and the thumbnails (and the timer that ends an
    export), and none of them changes the slide list. *)
Theorem preview_changes_no_slide (ed ed1 : Editor) (e : Event) :
  editorReachable ed -> st_previewMode ed = true ->
  available e ed = true -> run e ed = Next ed1 ->
  st_slides ed1 = st_slides ed
  /\ match e with
     | ClickBack | ClickPrev | ClickNext | ClickThumb _ | ExportDone => True
     | _ => False
     end.
Proof.
  intros Hreach Hp Hav Hrun.
  pose proof (reachable_good ed Hreach) as Hg.
  pose proof (preview_has_slides ed Hreach Hp) as Hsome.
  destruct (st_slides ed) as [s|] eqn:Hs; [|congruence].
  destruct (goodEditor_screen _ _ Hg Hs) as (cur & def & _ & _ & Hscr).
  rewrite Hp in Hscr. unfold available in Hav; rewrite Hscr in Hav.
  destruct e; try discriminate Hav; cbn in Hrun; injection Hrun as <-; cbn;
    (split; [now rewrite Hs | exact I]).
Qed.

Lemma customPreview_reachable : editorReachable customPreview.
Proof.
  apply (er_step customEditor ClickPreview);
    [apply customEditor_reachable | reflexivity | reflexivity].
Qed.

(** X8 at work: Next in the preview of the custom skeleton. *)
Lemma preview_changes_no_slide_witness :
  st_slides customPreviewNext = st_slides customPreview /\ True.
Proof.
  apply (preview_changes_no_slide customPreview customPreviewNext ClickNext);
    [apply customPreview_reachable | reflexivity | reflexivity | reflexivity].
Defined.

Lemma arr_set_in_range slides i v :
  (0 <= i)%Z -> (Z.to_nat i < length slides)%nat ->
  arr_set slides i v = <[Z.to_nat i := Some v]> slides.
Proof.
  intros Hi Hlt. unfold arr_set.
  destruct (i <? 0)%Z eqn:Hneg; [apply Z.ltb_lt in Hneg; lia|].
  apply Nat.ltb_lt in Hlt. now rewrite Hlt.
Qed.

Lemma arr_get_insert slides i v :
  (0 <= i)%Z -> (Z.to_nat i < length slides)%nat ->
  arr_get (<[Z.to_nat i := Some v]> slides) i = Some v.
Proof.
  intros Hi Hlt. apply arr_get_Some. split; [exact Hi|]. now apply list_lookup_insert_eq.
Qed.

Lemma arr_get_insert_ne slides i j v :
  (0 <= i)%Z -> j <> i ->
  arr_get (<[Z.to_nat i := Some v]> slides) j = arr_get slides j.
Proof.
  intros Hi Hj. unfold arr_get. destruct (j <? 0)%Z eqn:Hneg; [reflexivity|].
  apply Z.ltb_ge in Hneg. rewrite list_lookup_insert_ne; [reflexivity | lia].
Qed.

(** X9.  [updateSlideData] throws exactly when the list has no slide at the
    index (past the end, negative, or a hole).  Otherwise it sets the one
    field of that slide and leaves the slide's template, lock flag, note
    and other fields, the length of the list and every other slide as they
    were. *)
Theorem updateSlideData_sets_one_field (slides : Slides) (idx : Z) (key value : string) :
  match updateSlideData idx key value slides with
  | Updated next =>
      exists s s1,
        arr_get slides idx = Some s /\ arr_get next idx = Some s1
        /\ field (data s1) key = value
        /\ (forall k, k <> key -> data s1 !! k = data s !! k)
        /\ template s1 = template s /\ locked s1 = locked s /\ note s1 = note s
        /\ length next = length slides
        /\ (forall j, j <> idx -> arr_get next j = arr_get slides j)
  | Returned => False
  | TypeError => arr_get slides idx = None
  end.
Proof.
  unfold updateSlideData. destruct (arr_get slides idx) as [s|] eqn:Hget; [|reflexivity].
  pose proof Hget as Hg. apply arr_get_Some in Hg as [Hi Hl].
  assert (Hlt : (Z.to_nat idx < length slides)%nat) by (eapply lookup_lt_Some; exact Hl).
  rewrite arr_set_in_range by assumption.
  eexists s, _. split; [reflexivity|]. split; [now apply arr_get_insert|].
  cbn [data template locked note].
  split; [unfold field; now rewrite lookup_insert_eq|].
  split; [intros k Hk; now apply lookup_insert_ne|].
  do 3 (split; [reflexivity|]).
  split; [apply length_insert|].
  intros j Hj. now apply arr_get_insert_ne.
Qed.

(** X10.  Of two values given to the same field of a slide the later one
    stays: the two updates give the list the later update alone gives.  And
    a change of template after an update gives the list the change of
    template alone gives: what was typed is gone. *)
Theorem updateSlideData_then (slides next : Slides) (idx : Z) (key v1 : string) :
  updateSlideData idx key v1 slides = Updated next ->
  (forall v2, updateSlideData idx key v2 next = updateSlideData idx key v2 slides)
  /\ (forall t, changeTemplate idx t next = changeTemplate idx t slides).
Proof.
  unfold updateSlideData. destruct (arr_get slides idx) as [s|] eqn:Hget; [|discriminate].
  intros Hup. injection Hup as <-.
  pose proof Hget as Hg. apply arr_get_Some in Hg as [Hi Hl].
  assert (Hlt : (Z.to_nat idx < length slides)%nat) by (eapply lookup_lt_Some; exact Hl).
  rewrite arr_set_in_range by assumption.
  split.
  - intros v2. rewrite arr_get_insert by assumption. cbn [data template locked note].
    rewrite !arr_set_in_range by (rewrite ?length_insert; assumption).
    now rewrite list_insert_insert_eq, insert_insert_eq.
  - intros t. unfold changeTemplate. rewrite arr_get_insert by assumption.
    rewrite Hget. cbn [retemplate data template locked note].
    rewrite !arr_set_in_range by (rewrite ?length_insert; assumption).
    now rewrite list_insert_insert_eq.
Qed.

(** X10 at work: a title typed into the cover of the custom skeleton. *)
Lemma updateSlideData_then_witness :
  (forall v2, updateSlideData 0 "title" v2 (arr_set initCustom 0 titledCover)
              = updateSlideData 0 "title" v2 initCustom)
  /\ (forall t, changeTemplate 0 t (arr_set initCustom 0 titledCover)
                = changeTemplate 0 t initCustom).
Proof.
  apply (updateSlideData_then initCustom (arr_set initCustom 0 titledCover) 0 "title" "Why").
  reflexivity.
Defined.

(* ================================================================== *)
(** ** The loop of [exportPDF] *)

Section ExportPages.
Context `{Host}.

(** The slide number a turn of the loop passes on. *)
Let pageNum (s : Slide) (i : nat) : option nat :=
  if negb (existsb (String.eqb (template s))
             ["cover"; "cta"; "punchline"; "section_divider"])
  then Some (i + 1)%nat else None.

Lemma exportPDF_page_run slides i c :
  exportPDF_page slides i c
  = match mjoin (slides !! i) with
    | None => Threw
    | Some s =>
        match renderers_get (template s) with
        | Own r =>
            Rendered (final (restore (final (r (data s) (pageNum s i) (final (pageSetup c))))))
              (trace (pageSetup c) ++ trace (r (data s) (pageNum s i) (final (pageSetup c))))
        | Inherited => InheritedCall
        | Undefined =>
            Skipped (final (restore (final (pageSetup c)))) (trace (pageSetup c))
        end
    end.
Proof.
  unfold exportPDF_page. cbv zeta.
  change ((clearRect 0 0 (C.slide * 2) (C.slide * 2);; save;; scale 2 2)%canvas c)
    with (tt, final (pageSetup c), trace (pageSetup c)).
  cbv iota.
  destruct (mjoin (slides !! i)) as [s|]; [|reflexivity].
  destruct (renderers_get (template s)) as [r| |]; [|reflexivity|].
  - fold (pageNum s i). rewrite run_bind.
    assert (Hnil : forall c1, trace (restore c1) = []).
    { intros c1. unfold restore. now destruct (saved c1). }
    now rewrite Hnil, app_nil_r.
  - assert (Hnil : trace (restore (final (pageSetup c))) = []) by reflexivity.
    destruct (restore (final (pageSetup c))) as [[u c1] o1] eqn:E.
    cbn in Hnil. subst o1. now rewrite app_nil_r.
Qed.

(** The calls of a turn do not depend on the turns before it. *)
Lemma pageOps_idle slides i c :
  exportIdle c ->
  pageOps (exportPDF_page slides i c) = pageOps (exportPDF_page slides i freshContext).
Proof.
  intros Hc. apply exportIdle_default in Hc as [Hd Hs].
  rewrite !exportPDF_page_run.
  destruct (mjoin (slides !! i)) as [s|]; [|reflexivity].
  destruct (renderers_get (template s)) as [r| |] eqn:Eg; [|reflexivity|].
  - apply renderers_get_Own in Eg.
    destruct (renderers_read_entry _ _ (data s) (pageNum s i) Eg) as [b Hreads].
    destruct (Hreads (final (pageSetup c)) (final (pageSetup freshContext))) as (_ & Htr & _).
    { rewrite !final_pageSetup. cbn [draw saved]. rewrite Hd.
      split; [apply agree_refl | split; [discriminate | exact I]]. }
    cbn [pageOps]. rewrite Htr. f_equal. f_equal.
    unfold pageSetup. rewrite !trace_bind. cbn. now rewrite Hd.
  - cbn [pageOps]. f_equal. unfold pageSetup. rewrite !trace_bind. cbn. now rewrite Hd.
Qed.

Lemma pageOps_exportIdle slides i c c1 ops :
  exportIdle c ->
  (exportPDF_page slides i c = Rendered c1 ops \/ exportPDF_page slides i c = Skipped c1 ops) ->
  exportIdle c1.
Proof.
  intros Hc [Hp|Hp]; [eapply idle_rendered | eapply idle_skipped]; eauto.
Qed.

(** A turn of the loop, run. *)
Lemma exportPDF_turn_run slides i c :
  exportPDF_turn slides i c
  = match mjoin (slides !! i) with
    | None => None
    | Some s =>
        match renderers_get (template s) with
        | Own r =>
            Some (final (restore (final (r (data s) (pageNum s i) (final (pageSetup c))))),
                  trace (pageSetup c) ++ trace (r (data s) (pageNum s i) (final (pageSetup c))))
        | Inherited =>
            if inheritedCallThrows (template s) then None
            else Some (final (restore (final (pageSetup c))), trace (pageSetup c))
        | Undefined => Some (final (restore (final (pageSetup c))), trace (pageSetup c))
        end
    end.
Proof.
  unfold exportPDF_turn. rewrite exportPDF_page_run.
  destruct (mjoin (slides !! i)) as [s|]; [|reflexivity].
  destruct (renderers_get (template s)) as [r| |]; [reflexivity| |reflexivity].
  destruct (inheritedCallThrows (template s)); [reflexivity|].
  assert (Hnil : trace (restore (final (pageSetup c))) = []) by reflexivity.
  rewrite (surjective_pairing ((pageSetup;; restore)%canvas c)).
  rewrite (surjective_pairing (fst ((pageSetup;; restore)%canvas c))).
  change (snd (fst ((pageSetup;; restore)%canvas c)))
    with (final ((pageSetup;; restore)%canvas c)).
  change (snd ((pageSetup;; restore)%canvas c))
    with (trace ((pageSetup;; restore)%canvas c)).
  now rewrite final_bind, trace_bind, Hnil, app_nil_r.
Qed.

(** A turn that ran a renderer or skipped it is that turn. *)
Lemma turnOps_page slides i c ops :
  pageOps (exportPDF_page slides i c) = Some ops -> turnOps slides i c = Some ops.
Proof.
  unfold turnOps, exportPDF_turn.
  destruct (exportPDF_page slides i c) as [c1 o|c1 o| |]; cbn; congruence.
Qed.

(** The names whose turn throws are names of no renderer. *)
Lemma inheritedCallThrows_get name :
  inheritedCallThrows name = true -> renderers_get name = Inherited.
Proof.
  unfold inheritedCallThrows. cbn [existsb]. rewrite !orb_true_iff.
  intros [He|[He|[He|He]]]; try discriminate;
    apply String.eqb_eq in He; subst name; reflexivity.
Qed.

(** The turns that throw. *)
Lemma turnOps_None slides i c :
  turnOps slides i c = None
  <-> match mjoin (slides !! i) with
      | None => True
      | Some s => inheritedCallThrows (template s) = true
      end.
Proof.
  unfold turnOps. rewrite exportPDF_turn_run.
  destruct (mjoin (slides !! i)) as [s|]; [|cbn; tauto].
  destruct (inheritedCallThrows (template s)) eqn:Et.
  - rewrite (inheritedCallThrows_get _ Et). cbn. tauto.
  - destruct (renderers_get (template s)); cbn; split; discriminate.
Qed.

(** The calls of a turn do not depend on the turns before it. *)
Lemma turnOps_idle slides i c :
  exportIdle c -> turnOps slides i c = turnOps slides i freshContext.
Proof.
  intros Hc. pose proof (pageOps_idle slides i c Hc) as Hsame.
  apply exportIdle_default in Hc as [Hd Hs].
  unfold turnOps. rewrite !exportPDF_turn_run.
  rewrite !exportPDF_page_run in Hsame.
  destruct (mjoin (slides !! i)) as [s|]; [|reflexivity].
  assert (Hsetup : trace (pageSetup c) = trace (pageSetup freshContext)).
  { unfold pageSetup. rewrite !trace_bind. cbn. now rewrite Hd. }
  destruct (renderers_get (template s)) as [r| |].
  - cbn [pageOps] in Hsame. cbn [option_map snd]. exact Hsame.
  - destruct (inheritedCallThrows (template s)); [reflexivity|].
    cbn [option_map snd]. now rewrite Hsetup.
  - cbn [option_map snd]. now rewrite Hsetup.
Qed.

(** A turn leaves the context as the next turn wants it. *)
Lemma exportPDF_turn_idle slides i c c1 ops :
  exportIdle c -> exportPDF_turn slides i c = Some (c1, ops) -> exportIdle c1.
Proof.
  intros Hc. unfold exportPDF_turn.
  destruct (exportPDF_page slides i c) as [c2 o|c2 o| |] eqn:Hp.
  - intros [= <- _]. eapply idle_rendered; eauto.
  - intros [= <- _]. eapply idle_skipped; eauto.
  - discriminate.
  - destruct (mjoin (slides !! i)) as [s|]; [|discriminate].
    destruct (inheritedCallThrows (template s)); [discriminate|].
    intros Hrun.
    apply (idle_skipped [Some (mkSlide "timeline" None None ∅)] 0%nat c c1
             (trace (pageSetup c)) Hc).
    rewrite exportPDF_page_run.
    change (mjoin ([Some (mkSlide "timeline" None None ∅)] !! 0%nat))
      with (Some (mkSlide "timeline" None None ∅)).
    change (renderers_get (template (mkSlide "timeline" None None ∅))) with Undefined.
    cbv iota. f_equal.
    rewrite (surjective_pairing ((pageSetup;; restore)%canvas c)) in Hrun.
    rewrite (surjective_pairing (fst ((pageSetup;; restore)%canvas c))) in Hrun.
    injection Hrun as <- _.
    destruct c as [[] sv pt]. reflexivity.
Qed.

(** The pages of the loop, turn by turn. *)
Lemma exportPDF_from_pages slides todo :
  forall i c, exportIdle c ->
  match exportPDF_from slides todo i c with
  | Saved pages =>
      length pages = todo
      /\ forall j, (j < todo)%nat ->
           exists ops, pages !! j = Some ops
             /\ turnOps slides (i + j) freshContext = Some ops
  | ExportThrew =>
      exists j, (j < todo)%nat /\ turnOps slides (i + j) freshContext = None
  end.
Proof.
  induction todo as [|k IH]; intros i c Hc; cbn [exportPDF_from].
  - split; [reflexivity | intros j Hj; lia].
  - pose proof (turnOps_idle slides i c Hc) as Hsame. unfold turnOps at 1 in Hsame.
    destruct (exportPDF_turn slides i c) as [[c1 ops]|] eqn:Hp.
    + assert (Hc1 : exportIdle c1) by (eapply exportPDF_turn_idle; eauto).
      specialize (IH (S i) c1 Hc1). cbn [option_map snd] in Hsame.
      destruct (exportPDF_from slides k (S i) c1) as [pages|].
      * destruct IH as [Hlen Hpages]. split; [cbn; lia|].
        intros [|j] Hj.
        -- exists ops. rewrite Nat.add_0_r. split; [reflexivity | now rewrite <- Hsame].
        -- destruct (Hpages j ltac:(lia)) as (ops1 & Hl & Ho). exists ops1.
           split; [exact Hl|]. now replace (i + S j)%nat with (S i + j)%nat by lia.
      * destruct IH as (j & Hj & Ho). exists (S j). split; [lia|].
        now replace (i + S j)%nat with (S i + j)%nat by lia.
    + exists 0%nat. split; [lia|]. now rewrite Nat.add_0_r, <- Hsame.
Qed.

(** X11.  The pages of an export do not depend on one another: when
    [exportPDF] gets through its loop it has made one page for each slide,
    and the calls it made on the canvas for a page are the calls it makes
    for that slide on a canvas just created.  It does not get through
    exactly when the list has a hole, or a slide whose template is
    [__defineGetter__], [__defineSetter__] or [__proto__], the three
    properties that [renderers] inherits and whose call throws; a slide
    whose template names another inherited property gets a page on which
    nothing is drawn. *)
Theorem export_pages_alone (slides : Slides) :
  match exportPDF slides with
  | Saved pages =>
      length pages = length slides
      /\ forall i, (i < length slides)%nat ->
           exists ops, pages !! i = Some ops
             /\ turnOps slides i freshContext = Some ops
  | ExportThrew =>
      exists i, (i < length slides)%nat /\ turnOps slides i freshContext = None
  end
  /\ (exportPDF slides = ExportThrew
      <-> exists i, (i < length slides)%nat
            /\ (slides !! i = Some None
                \/ exists s, slides !! i = Some (Some s)
                     /\ In (template s)
                          ["__defineGetter__"; "__defineSetter__"; "__proto__"]))
  /\ (forall i s,
        slides !! i = Some (Some s) ->
        In (template s) objectPrototypeKeys ->
        ~ In (template s) ["__defineGetter__"; "__defineSetter__"; "__proto__"] ->
        turnOps slides i freshContext
        = Some [ClearRect (1, 1)%Q 0 0 (C.slide * 2) (C.slide * 2)]).
Proof.
  assert (Hthrows : forall name,
            inheritedCallThrows name = true
            <-> In name ["__defineGetter__"; "__defineSetter__"; "__proto__"]).
  { intros name. unfold inheritedCallThrows. rewrite existsb_exists. split.
    - intros (k & Hk & He). apply String.eqb_eq in He. now subst.
    - intros Hin. exists name. split; [exact Hin | apply String.eqb_refl]. }
  assert (Hbad : forall i, (i < length slides)%nat ->
            (turnOps slides i freshContext = None
             <-> slides !! i = Some None
                 \/ exists s, slides !! i = Some (Some s)
                      /\ In (template s)
                           ["__defineGetter__"; "__defineSetter__"; "__proto__"])).
  { intros i Hi. rewrite turnOps_None.
    destruct (lookup_lt_is_Some_2 slides i Hi) as [o Ho]. rewrite Ho.
    destruct o as [s|]; cbn [mjoin option_join option_bind mbind].
    - rewrite Hthrows. split.
      + intros Hin. right. exists s. split; [reflexivity | exact Hin].
      + intros [Hn|(s1 & Hs1 & Hin)]; [discriminate|]. now injection Hs1 as ->.
    - split; [intros _; now left | intros _; exact I]. }
  pose proof (exportPDF_from_pages slides (length slides) 0%nat freshContext idle_new)
    as Hpages.
  fold (exportPDF slides) in Hpages.
  split; [exact Hpages|]. split.
  - destruct (exportPDF slides) as [pages|].
    + split; [discriminate|]. intros (i & Hi & Hb). exfalso.
      destruct Hpages as [_ Hp]. destruct (Hp i Hi) as (ops & _ & Ho).
      apply (Hbad i Hi) in Hb. cbn [Nat.add] in Ho. congruence.
    + split; [|reflexivity]. intros _. destruct Hpages as (i & Hi & Ho).
      exists i. split; [exact Hi|]. apply (Hbad i Hi). exact Ho.
  - intros i s Hs Hin Hnot. unfold turnOps. rewrite exportPDF_turn_run, Hs.
    cbn [mjoin option_join option_bind mbind].
    assert (Hg : renderers_get (template s) = Inherited).
    { cbn [objectPrototypeKeys In] in Hin.
      repeat (destruct Hin as [<-|Hin]; [reflexivity|]). destruct Hin. }
    rewrite Hg.
    destruct (inheritedCallThrows (template s)) eqn:Et.
    + apply Hthrows in Et. contradiction.
    + reflexivity.
Qed.

(** A slide whose template is [constructor] gets an empty page and the
    export goes on; one whose template is [__proto__] stops it. *)
Example export_inherited_names :
  exportPDF [Some (mkSlide "constructor" None None ∅); Some (mkSlide "toString" None None ∅)]
  = Saved [ [ClearRect (1, 1)%Q 0 0 (C.slide * 2) (C.slide * 2)];
            [ClearRect (1, 1)%Q 0 0 (C.slide * 2) (C.slide * 2)] ]
  /\ exportPDF [Some (mkSlide "__proto__" None None ∅)] = ExportThrew
  /\ exportPDF [Some (mkSlide "__defineGetter__" None None ∅)] = ExportThrew
  /\ exportPDF [Some (mkSlide "__defineSetter__" None None ∅)] = ExportThrew.
Proof. repeat split. Qed.

(** The turn of the loop for a slide as the editor keeps it. *)
Lemma exportPDF_page_fits slides i sl :
  arr_get slides (Z.of_nat i) = Some sl -> dataFits sl ->
  exists r,
    assoc (template sl) renderers = Some r
    /\ pageOps (exportPDF_page slides i freshContext)
       = Some (trace (pageSetup freshContext)
               ++ trace (r (data sl) (previewSlideNum sl (Z.of_nat i))
                           (final (pageSetup freshContext)))).
Proof.
  intros Hget (def & Hdef & _).
  apply arr_get_Some in Hget as [_ Hlk]. rewrite Nat2Z.id in Hlk.
  destruct (In_assoc_known (template sl) renderers) as [r Hr].
  { rewrite renderers_keys, <- TEMPLATES_keys.
    apply assoc_In in Hdef. apply (in_map fst) in Hdef. exact Hdef. }
  exists r. split; [exact Hr|].
  rewrite exportPDF_page_run, Hlk. cbn [mjoin option_join option_bind mbind].
  unfold renderers_get. rewrite Hr. cbn [pageOps].
  unfold previewSlideNum, pageNum, unnumbered. now rewrite Nat2Z.id.
Qed.

(** X12.  The list of every state the controls lead to can be exported:
    the loop of [exportPDF] gets through, makes one page for each slide,
    and draws each page with the renderer of the slide's template, the
    slide's record, and the slide number the editor shows for that slide. *)
Theorem export_of_editor_list (ed : Editor) (s : Slides) :
  editorReachable ed -> st_slides ed = Some s ->
  exists pages,
    exportPDF s = Saved pages
    /\ length pages = length s
    /\ forall i sl, arr_get s (Z.of_nat i) = Some sl ->
         exists r,
           assoc (template sl) renderers = Some r
           /\ pages !! i
              = Some (trace (pageSetup freshContext)
                      ++ trace (r (data sl) (previewSlideNum sl (Z.of_nat i))
                                  (final (pageSetup freshContext)))).
Proof using Type.
  intros Hreach Hs. pose proof (reachable_good ed Hreach) as Hg.
  pose proof (good_s ed s Hg Hs) as Hgood.
  assert (Hfit : forall i, (i < length s)%nat ->
            exists sl, arr_get s (Z.of_nat i) = Some sl /\ dataFits sl).
  { intros i Hi. apply goodSlides_get; [exact Hgood | lia]. }
  pose proof (exportPDF_from_pages s (length s) 0%nat freshContext idle_new) as Hpages.
  fold (exportPDF s) in Hpages.
  destruct (exportPDF s) as [pages|].
  - destruct Hpages as [Hlen Hp]. exists pages. split; [reflexivity|]. split; [exact Hlen|].
    intros i sl Hget.
    assert (Hi : (i < length s)%nat).
    { apply arr_get_Some in Hget as [_ Hlk]. rewrite Nat2Z.id in Hlk.
      eapply lookup_lt_Some; eauto. }
    destruct (Hfit i Hi) as (sl1 & Hget1 & Hfits). rewrite Hget in Hget1.
    injection Hget1 as <-.
    destruct (exportPDF_page_fits s i sl Hget Hfits) as (r & Hr & Hops).
    exists r. split; [exact Hr|].
    destruct (Hp i Hi) as (ops & Hl & Ho). cbn [Nat.add] in Ho.
    apply turnOps_page in Hops.
    rewrite Hl. rewrite Hops in Ho. now injection Ho as <-.
  - destruct Hpages as (j & Hj & Ho). destruct (Hfit j Hj) as (sl & Hget & Hfits).
    destruct (exportPDF_page_fits s j sl Hget Hfits) as (r & _ & Hops).
    apply turnOps_page in Hops.
    cbn [Nat.add] in Ho. rewrite Hops in Ho. discriminate.
Qed.

End ExportPages.

(* ================================================================== *)
(** ** The fields a renderer reads *)

Ltac same_keys Hag keys :=
  lazymatch keys with
  | nil => idtac
  | cons ?k ?r =>
      try rewrite (Hag k ltac:(vm_compute; repeat (first [left; reflexivity | right])));
      same_keys Hag r
  end.

Ltac same_fields Hag :=
  lazymatch type of Hag with
  | forall k, In k ?keys -> _ => let l := eval vm_compute in keys in same_keys Hag l
  end.

Section FieldsRead.
Context `{Host}.
Variables (d1 d2 : Data) (slideNum : option nat).

Lemma fields_render_cover :
  (forall k, In k (declaredKeys "cover") -> field d1 k = field d2 k) ->
  render_cover d1 slideNum = render_cover d2 slideNum.
Proof.
  intros Hag. unfold render_cover, parseLabels. same_fields Hag. reflexivity.
Qed.

Lemma fields_render_single :
  (forall k, In k (declaredKeys "single") -> field d1 k = field d2 k) ->
  render_single d1 slideNum = render_single d2 slideNum.
Proof.
  intros Hag. unfold render_single, parseLabels. same_fields Hag. reflexivity.
Qed.

Lemma fields_render_comparison :
  (forall k, In k (declaredKeys "comparison") -> field d1 k = field d2 k) ->
  render_comparison d1 slideNum = render_comparison d2 slideNum.
Proof.
  intros Hag. unfold render_comparison, parseLabels. same_fields Hag. reflexivity.
Qed.

Lemma fields_render_framework :
  (forall k, In k (declaredKeys "framework") -> field d1 k = field d2 k) ->
  render_framework d1 slideNum = render_framework d2 slideNum.
Proof.
  intros Hag. unfold render_framework, parseLabels. same_fields Hag. reflexivity.
Qed.

Lemma fields_render_punchline :
  (forall k, In k (declaredKeys "punchline") -> field d1 k = field d2 k) ->
  render_punchline d1 slideNum = render_punchline d2 slideNum.
Proof.
  intros Hag. unfold render_punchline, parseLabels. same_fields Hag. reflexivity.
Qed.

Lemma fields_render_data :
  (forall k, In k (declaredKeys "data") -> field d1 k = field d2 k) ->
  render_data d1 slideNum = render_data d2 slideNum.
Proof.
  intros Hag. unfold render_data, parseLabels. same_fields Hag. reflexivity.
Qed.

Lemma fields_render_cta :
  (forall k, In k (declaredKeys "cta") -> field d1 k = field d2 k) ->
  render_cta d1 slideNum = render_cta d2 slideNum.
Proof.
  intros Hag. unfold render_cta, parseLabels. same_fields Hag. reflexivity.
Qed.

Lemma fields_render_quote :
  (forall k, In k (declaredKeys "quote") -> field d1 k = field d2 k) ->
  render_quote d1 slideNum = render_quote d2 slideNum.
Proof.
  intros Hag. unfold render_quote, parseLabels. same_fields Hag. reflexivity.
Qed.

Lemma fields_render_section_divider :
  (forall k, In k (declaredKeys "section_divider") -> field d1 k = field d2 k) ->
  render_section_divider d1 slideNum = render_section_divider d2 slideNum.
Proof.
  intros Hag. unfold render_section_divider, parseLabels. same_fields Hag. reflexivity.
Qed.

Lemma fields_render_two_up :
  (forall k, In k (declaredKeys "two_up") -> field d1 k = field d2 k) ->
  render_two_up d1 slideNum = render_two_up d2 slideNum.
Proof.
  intros Hag. unfold render_two_up, parseLabels. same_fields Hag. reflexivity.
Qed.

Lemma fields_render_checklist :
  (forall k, In k (declaredKeys "checklist") -> field d1 k = field d2 k) ->
  render_checklist d1 slideNum = render_checklist d2 slideNum.
Proof.
  intros Hag. unfold render_checklist, parseLabels. same_fields Hag. reflexivity.
Qed.

Lemma fields_render_blank :
  (forall k, In k (declaredKeys "blank") -> field d1 k = field d2 k) ->
  render_blank d1 slideNum = render_blank d2 slideNum.
Proof.
  intros Hag. unfold render_blank, parseLabels. same_fields Hag. reflexivity.
Qed.

Lemma fields_numberedItems :
  (forall k, In k (declaredKeys "numbered_list") -> field d1 k = field d2 k) ->
  numberedItems d1 = numberedItems d2.
Proof.
  intros Hag. unfold numberedItems. cbn [flat_map].
  change ("item" +:+ Js.String_ 1 +:+ "_title") with "item1_title".
  change ("item" +:+ Js.String_ 2 +:+ "_title") with "item2_title".
  change ("item" +:+ Js.String_ 3 +:+ "_title") with "item3_title".
  change ("item" +:+ Js.String_ 4 +:+ "_title") with "item4_title".
  change ("item" +:+ Js.String_ 5 +:+ "_title") with "item5_title".
  change ("item" +:+ Js.String_ 1 +:+ "_body") with "item1_body".
  change ("item" +:+ Js.String_ 2 +:+ "_body") with "item2_body".
  change ("item" +:+ Js.String_ 3 +:+ "_body") with "item3_body".
  change ("item" +:+ Js.String_ 4 +:+ "_body") with "item4_body".
  change ("item" +:+ Js.String_ 5 +:+ "_body") with "item5_body".
  same_fields Hag. reflexivity.
Qed.

Lemma fields_render_numbered_list :
  (forall k, In k (declaredKeys "numbered_list") -> field d1 k = field d2 k) ->
  render_numbered_list d1 slideNum = render_numbered_list d2 slideNum.
Proof.
  intros Hag. unfold render_numbered_list. rewrite (fields_numberedItems Hag).
  same_fields Hag. reflexivity.
Qed.

Lemma fields_render_three_up :
  (forall k, In k (declaredKeys "three_up") -> field d1 k = field d2 k) ->
  render_three_up d1 slideNum = render_three_up d2 slideNum.
Proof.
  intros Hag. unfold render_three_up. cbv zeta. unfold forEach. cbn [forEachFrom].
  change ("item" +:+ Js.String_ (0 + 1) +:+ "_title") with "item1_title".
  change ("item" +:+ Js.String_ (1 + 1) +:+ "_title") with "item2_title".
  change ("item" +:+ Js.String_ (2 + 1) +:+ "_title") with "item3_title".
  change ("item" +:+ Js.String_ (0 + 1) +:+ "_body") with "item1_body".
  change ("item" +:+ Js.String_ (1 + 1) +:+ "_body") with "item2_body".
  change ("item" +:+ Js.String_ (2 + 1) +:+ "_body") with "item3_body".
  same_fields Hag. reflexivity.
Qed.

(** X13.  Each of the fourteen renderers reads the fields [TEMPLATES]
    declares for its template and no other: on two records that agree on
    those fields it returns the same, makes the same calls and leaves the
    same context. *)
Theorem renderers_read_declared_fields (name : string) (r : Renderer) (c : Context2D) :
  In (name, r) renderers ->
  (forall k, In k (declaredKeys name) -> field d1 k = field d2 k) ->
  r d1 slideNum c = r d2 slideNum c.
Proof using Type.
  unfold renderers. cbn [In]. intros Hin Hag.
  repeat (destruct Hin as [Hin|Hin]; [injection Hin as <- <- |]); try contradiction.
  - now rewrite (fields_render_cover Hag).
  - now rewrite (fields_render_single Hag).
  - now rewrite (fields_render_comparison Hag).
  - now rewrite (fields_render_framework Hag).
  - now rewrite (fields_render_punchline Hag).
  - now rewrite (fields_render_data Hag).
  - now rewrite (fields_render_cta Hag).
  - now rewrite (fields_render_numbered_list Hag).
  - now rewrite (fields_render_quote Hag).
  - now rewrite (fields_render_section_divider Hag).
  - now rewrite (fields_render_two_up Hag).
  - now rewrite (fields_render_three_up Hag).
  - now rewrite (fields_render_checklist Hag).
  - now rewrite (fields_render_blank Hag).
Qed.

End FieldsRead.

(** X13 at work: the cover does not show a key that is not a field of
    it. *)
Lemma renderers_read_declared_fields_witness :
  @render_cover demoHost coverData None freshContext
  = @render_cover demoHost coverDataNoted None freshContext.
Proof.
  apply (@renderers_read_declared_fields demoHost coverData coverDataNoted None
           "cover" (@render_cover demoHost) freshContext).
  - left. reflexivity.
  - intros k Hk. vm_compute in Hk. destruct Hk as [<-|[<-|[]]]; reflexivity.
Defined.

(** X14.  Each of the fourteen renderers leaves the context as it found it,
    colours, font, line width and path apart: called with text alignment
    [start] and letter spacing [0px] (the values of a new context), it
    leaves the stack of saved states, the opacity, the text alignment, the
    dash pattern, the line cap and join, the letter spacing and the
    transform as they were, whatever the record holds. *)
Theorem renderers_leave_context `{Host} (name : string) (r : Renderer) (data : Data)
    (slideNum : option nat) (c : Context2D) :
  In (name, r) renderers ->
  textAlign (draw c) = "start" -> letterSpacing (draw c) = "0px" ->
  let c1 := final (r data slideNum c) in
  saved c1 = saved c
  /\ globalAlpha (draw c1) = globalAlpha (draw c)
  /\ textAlign (draw c1) = textAlign (draw c)
  /\ lineDash (draw c1) = lineDash (draw c)
  /\ lineCap (draw c1) = lineCap (draw c)
  /\ lineJoin (draw c1) = lineJoin (draw c)
  /\ letterSpacing (draw c1) = letterSpacing (draw c)
  /\ transform (draw c1) = transform (draw c).
Proof.
  intros Hin Ha Hs c1.
  destruct (renderers_keep_entry c Ha Hs name r data slideNum Hin c) as [Hag Hst].
  { split; [apply agree_refl | reflexivity]. }
  cbn [snd entryAbs stackKept] in Hst. fold c1 in Hag, Hst.
  unfold agree, entryAbs, entryMask in Hag. cbn in Hag.
  decompose [and] Hag.
  split; [exact Hst|].
  repeat (split; [symmetry; auto|]). symmetry; auto.
Qed.

(** X14 at work: the framework renderer on a new context. *)
Lemma renderers_leave_context_witness :
  let c1 := final (@render_framework demoHost coverData (Some 2%nat) freshContext) in
  saved c1 = saved freshContext
  /\ globalAlpha (draw c1) = globalAlpha (draw freshContext)
  /\ textAlign (draw c1) = textAlign (draw freshContext)
  /\ lineDash (draw c1) = lineDash (draw freshContext)
  /\ lineCap (draw c1) = lineCap (draw freshContext)
  /\ lineJoin (draw c1) = lineJoin (draw freshContext)
  /\ letterSpacing (draw c1) = letterSpacing (draw freshContext)
  /\ transform (draw c1) = transform (draw freshContext).
Proof.
  apply (@renderers_leave_context demoHost "framework" (@render_framework demoHost));
    [do 3 right; left; reflexivity | reflexivity | reflexivity].
Defined.

(** X12 at work: the custom skeleton. *)
Lemma export_of_editor_list_witness :
  exists pages,
    @exportPDF demoHost initCustom = Saved pages
    /\ length pages = length initCustom
    /\ forall i sl, arr_get initCustom (Z.of_nat i) = Some sl ->
         exists r,
           assoc (template sl) (@renderers demoHost) = Some r
           /\ pages !! i
              = Some (trace (pageSetup freshContext)
                      ++ trace (r (data sl) (previewSlideNum sl (Z.of_nat i))
                                  (final (pageSetup freshContext)))).
Proof.
  apply (@export_of_editor_list demoHost customEditor initCustom);
    [apply customEditor_reachable | reflexivity].
Defined.

(* ================================================================== *)
(** ** No character of a text is lost *)

Lemma append_cons c a b : String c a +:+ b = String c (a +:+ b).
Proof. reflexivity. Qed.

Lemma append_empty_r a : a +:+ "" = a.
Proof. induction a as [|c a IH]; [reflexivity|]. now rewrite append_cons, IH. Qed.

Lemma append_assoc_s a b c : (a +:+ b) +:+ c = a +:+ (b +:+ c).
Proof. induction a as [|x a IH]; [reflexivity|]. now rewrite !append_cons, IH. Qed.

Lemma visible_app a b : visible (a +:+ b) = visible a +:+ visible b.
Proof.
  induction a as [|c a IH]; [reflexivity|].
  rewrite append_cons. cbn [visible]. destruct (Js.isWhiteSpace c); [exact IH|].
  now rewrite append_cons, IH.
Qed.

Lemma visible_trimStart s : visible (Js.trimStart s) = visible s.
Proof.
  induction s as [|c s IH]; [reflexivity|]. cbn [Js.trimStart visible].
  destruct (Js.isWhiteSpace c) eqn:E; [exact IH|]. cbn [visible]. now rewrite E.
Qed.

Lemma visible_trimEnd s : visible (Js.trimEnd s) = visible s.
Proof.
  induction s as [|c s IH]; [reflexivity|]. cbn [Js.trimEnd visible].
  destruct (Js.trimEnd s) as [|c1 t] eqn:Et.
  - cbn [visible] in IH. destruct (Js.isWhiteSpace c) eqn:E.
    + exact IH.
    + cbn [visible]. now rewrite E, <- IH.
  - cbn [visible] in *. now rewrite IH.
Qed.

Lemma visible_trim s : visible (Js.trim s) = visible s.
Proof. unfold Js.trim. now rewrite visible_trimStart, visible_trimEnd. Qed.

Lemma joined_app l1 l2 : joined (l1 ++ l2) = joined l1 +:+ joined l2.
Proof.
  induction l1 as [|a l1 IH]; [reflexivity|].
  cbn [app joined fold_right]. fold (joined (l1 ++ l2)). fold (joined l1).
  now rewrite IH, append_assoc_s.
Qed.

Lemma joined_cons a l : joined (a :: l) = a +:+ joined l.
Proof. reflexivity. Qed.

(** Splitting at a white-space character loses no other character. *)
Lemma visible_split sep s :
  Js.isWhiteSpace sep = true -> visible (joined (Js.split sep s)) = visible s.
Proof.
  intros Hsep. induction s as [|c s IH]; [reflexivity|].
  cbn [Js.split]. destruct (Ascii.eqb c sep) eqn:E.
  - apply Ascii.eqb_eq in E as ->. rewrite joined_cons. cbn [visible].
    now rewrite Hsep.
  - destruct (Js.split sep s) as [|w ws] eqn:Es; [now destruct (JsFacts.split_nonempty sep s)|].
    rewrite joined_cons in *. rewrite append_cons. cbn [visible]. now rewrite IH.
Qed.

Lemma visible_wrapWord (mt : string -> Q) W lines line word :
  let st := wrapWord mt W (lines, line) word in
  visible (joined (fst st)) +:+ visible (snd st)
  = (visible (joined lines) +:+ visible line) +:+ visible word.
Proof.
  cbv zeta. unfold wrapWord. destruct (Qgtb _ _ && _); cbn [fst snd].
  - rewrite joined_app, !visible_app, joined_cons, visible_app, visible_trim.
    cbn [joined fold_right visible]. change (visible " ") with "".
    now rewrite !append_empty_r, !append_assoc_s.
  - rewrite !visible_app. change (visible " ") with "".
    now rewrite !append_empty_r, !append_assoc_s.
Qed.

Lemma visible_wrapWords (mt : string -> Q) W words :
  forall lines line,
    let st := fold_left (wrapWord mt W) words (lines, line) in
    visible (joined (fst st)) +:+ visible (snd st)
    = (visible (joined lines) +:+ visible line) +:+ visible (joined words).
Proof.
  induction words as [|w r IH]; intros lines line; cbv zeta.
  - cbn. now rewrite append_empty_r.
  - cbn [fold_left]. pose proof (visible_wrapWord mt W lines line w) as Hw.
    cbv zeta in Hw. destruct (wrapWord mt W (lines, line) w) as [lines1 line1].
    cbn [fst snd] in Hw. specialize (IH lines1 line1). cbv zeta in IH.
    rewrite IH, Hw, joined_cons, visible_app. now rewrite !append_assoc_s.
Qed.

Lemma visible_wrapParagraph (mt : string -> Q) W lines p :
  visible (joined (wrapParagraph mt W lines p)) = visible (joined lines) +:+ visible p.
Proof.
  unfold wrapParagraph. destruct (String.eqb (Js.trim p) "") eqn:E.
  - apply String.eqb_eq in E. rewrite joined_app, visible_app.
    rewrite <- (visible_trim p), E. reflexivity.
  - pose proof (visible_wrapWords mt W (Js.split " " p) lines "") as Hw. cbv zeta in Hw.
    destruct (fold_left (wrapWord mt W) (Js.split " " p) (lines, "")) as [lines1 line].
    cbn [fst snd] in Hw.
    rewrite joined_app, visible_app, joined_cons. cbn [joined fold_right].
    rewrite append_empty_r, visible_trim, Hw.
    rewrite (visible_split " " p eq_refl). cbn [visible]. now rewrite append_empty_r.
Qed.

(** The lines [wrapText] and [drawTextWithEmphasis] lay out hold the
    characters of the text. *)
Lemma visible_layoutLines (mt : string -> Q) text W :
  visible (joined (layoutLines mt text W)) = visible text.
Proof.
  unfold layoutLines.
  assert (Hgen : forall ps acc,
    visible (joined (fold_left (wrapParagraph mt W) ps acc))
    = visible (joined acc) +:+ visible (joined ps)).
  { induction ps as [|p r IH]; intros acc; cbn [fold_left].
    - cbn. now rewrite append_empty_r.
    - rewrite IH, visible_wrapParagraph, joined_cons, visible_app.
      now rewrite append_assoc_s. }
  rewrite Hgen. cbn [joined fold_right visible]. cbn [String.append].
  apply (visible_split "010" text eq_refl).
Qed.

Lemma drawnText_app o1 o2 : drawnText (o1 ++ o2) = drawnText o1 +:+ drawnText o2.
Proof. unfold drawnText. now rewrite flat_map_app, joined_app. Qed.

Lemma drawnText_drawnLines d lines x y lh :
  drawnText (drawnLines d lines x y lh) = joined lines.
Proof.
  unfold drawnLines. generalize 0%nat.
  induction lines as [|l r IH]; intros i; [reflexivity|].
  cbn [flatMapFrom]. rewrite drawnText_app, IH, joined_cons.
  destruct (String.eqb l "") eqn:E.
  - apply String.eqb_eq in E as ->. reflexivity.
  - cbn [negb]. unfold drawnText. cbn. now rewrite append_empty_r.
Qed.

Section Characters.
Context `{Host}.

Lemma visible_wrapText c text x y W lh :
  Js.truthy text = true ->
  visible (drawnText (trace (wrapText text x y W lh c))) = visible text.
Proof.
  intros Ht. rewrite (wrapText_run text x y W lh c Ht). cbn [trace snd].
  now rewrite drawnText_drawnLines, visible_layoutLines.
Qed.

(** X15.  [wrapText] loses no character and draws none twice: the strings
    it draws, one after the other, hold the characters of the text that
    are not white space, each once and in the order of the text, whatever
    the width and the measures. *)
Theorem wrapText_draws_every_character (c : Context2D) (text : string)
    (x y maxWidth lineHeight : Q) :
  visible (drawnText (trace (wrapText text x y maxWidth lineHeight c))) = visible text.
Proof.
  destruct (Js.truthy text) eqn:Ht.
  - now apply visible_wrapText.
  - destruct text; [reflexivity | discriminate].
Qed.

Lemma drawnText_words (emph : string -> bool) d col ly step words :
  forall i cx,
    drawnText (flatMapAccFrom step
                 (fun cx w _ => if emph w then emphasisedWord d col w cx ly
                                else plainWord d w cx ly) i words cx)
    = joined words.
Proof.
  induction words as [|w r IH]; intros i cx; [reflexivity|].
  cbn [flatMapAccFrom]. rewrite drawnText_app, IH, joined_cons. f_equal.
  destruct (emph w); unfold drawnText; cbn; now rewrite append_empty_r.
Qed.

Lemma visible_emphasisTrace (emph : string -> bool) d col lines x y lh :
  visible (drawnText (emphasisTrace emph d col lines x y lh)) = visible (joined lines).
Proof.
  unfold emphasisTrace. generalize 0%nat at 1.
  induction lines as [|l r IH]; intros i; [reflexivity|].
  cbn [flatMapFrom]. rewrite drawnText_app, joined_cons, !visible_app, IH. f_equal.
  destruct (String.eqb l "") eqn:E.
  - apply String.eqb_eq in E as ->. reflexivity.
  - cbv zeta. rewrite drawnText_words. apply (visible_split " " l eq_refl).
Qed.

(** X16.  [drawTextWithEmphasis] lays the text out as [wrapText] does: it
    returns the number of lines [wrapText] returns for the same text and
    width, draws the same characters, and leaves the drawing state (the
    font and the fill colour with it) and the stack of saved states as it
    found them, whatever the emphasis phrase. *)
Theorem drawTextWithEmphasis_as_wrapText (c : Context2D) (text emphasisWord : string)
    (x y maxWidth lineHeight : Q) (emphColor : string) :
  let r := drawTextWithEmphasis text emphasisWord x y maxWidth lineHeight emphColor c in
  value r = value (wrapText text x y maxWidth lineHeight c)
  /\ visible (drawnText (trace r)) = visible text
  /\ draw (final r) = draw c
  /\ saved (final r) = saved c.
Proof.
  cbv zeta.
  destruct (Js.truthy text) eqn:Ht;
    [|destruct text; [repeat split | discriminate]].
  destruct (negb (Js.truthy emphasisWord)
            || negb (Js.includes (Js.toLowerCase text) (Js.toLowerCase emphasisWord)))
    eqn:Egate.
  - assert (Hsame : drawTextWithEmphasis text emphasisWord x y maxWidth lineHeight emphColor c
                    = wrapText text x y maxWidth lineHeight c).
    { unfold drawTextWithEmphasis. now rewrite Ht, Egate. }
    rewrite Hsame. split; [reflexivity|].
    split; [now apply visible_wrapText|].
    rewrite (wrapText_run text x y maxWidth lineHeight c Ht). split; reflexivity.
  - apply orb_false_iff in Egate as [Hp Hinc]. apply negb_false_iff in Hp, Hinc.
    destruct (drawTextWithEmphasis_run text emphasisWord x y maxWidth lineHeight emphColor c
                Hp Hinc) as [pt1 Hrun].
    rewrite Hrun, (wrapText_run text x y maxWidth lineHeight c Ht).
    cbn [value final trace fst snd draw saved].
    split; [reflexivity|].
    split; [now rewrite visible_emphasisTrace, visible_layoutLines|].
    split; reflexivity.
Qed.

End Characters.

(* ================================================================== *)
(** ** The labels of a framework slide *)

Lemma trimStart_twice s : Js.trimStart (Js.trimStart s) = Js.trimStart s.
Proof.
  induction s as [|c s IH]; [reflexivity|]. cbn [Js.trimStart].
  destruct (Js.isWhiteSpace c) eqn:E; [exact IH|]. cbn [Js.trimStart]. now rewrite E.
Qed.

Lemma trimEnd_twice s : Js.trimEnd (Js.trimEnd s) = Js.trimEnd s.
Proof.
  induction s as [|c s IH]; [reflexivity|]. cbn [Js.trimEnd].
  destruct (Js.trimEnd s) as [|c1 t] eqn:Et.
  - destruct (Js.isWhiteSpace c) eqn:E; [reflexivity|]. cbn [Js.trimEnd]. now rewrite E.
  - cbn [Js.trimEnd]. cbn [Js.trimEnd] in IH. now rewrite IH.
Qed.

Lemma trimEnd_trimStart s : Js.trimEnd (Js.trimStart s) = Js.trimStart (Js.trimEnd s).
Proof.
  induction s as [|c s IH]; [reflexivity|]. cbn [Js.trimStart Js.trimEnd].
  destruct (Js.isWhiteSpace c) eqn:E.
  - rewrite IH. destruct (Js.trimEnd s) as [|c1 t]; [reflexivity|].
    cbn [Js.trimStart]. now rewrite E.
  - cbn [Js.trimEnd]. destruct (Js.trimEnd s) as [|c1 t]; cbn [Js.trimStart]; now rewrite E.
Qed.

Lemma trim_twice s : Js.trim (Js.trim s) = Js.trim s.
Proof.
  unfold Js.trim. rewrite (trimEnd_trimStart (Js.trimEnd s)), trimEnd_twice.
  apply trimStart_twice.
Qed.

Lemma hasChar_split sep s w : In w (Js.split sep s) -> hasChar sep w = false.
Proof.
  revert w. induction s as [|c r IH]; intros w Hw; cbn [Js.split] in Hw.
  - destruct Hw as [<-|[]]. reflexivity.
  - destruct (Ascii.eqb c sep) eqn:E.
    + destruct Hw as [<-|Hw]; [reflexivity | now apply IH].
    + destruct (Js.split sep r) as [|w1 ws] eqn:Es.
      * destruct Hw as [<-|[]]. cbn. now rewrite E.
      * destruct Hw as [<-|Hw].
        -- cbn [hasChar]. rewrite E. apply IH. now left.
        -- apply IH. now right.
Qed.

Lemma hasChar_trimStart ch s : hasChar ch s = false -> hasChar ch (Js.trimStart s) = false.
Proof.
  induction s as [|c r IH]; [reflexivity|]. cbn [Js.trimStart]. intros Hs.
  destruct (Js.isWhiteSpace c); [|exact Hs].
  cbn [hasChar] in Hs. apply orb_false_iff in Hs as [_ Hr]. now apply IH.
Qed.

Lemma hasChar_trimEnd ch s : hasChar ch s = false -> hasChar ch (Js.trimEnd s) = false.
Proof.
  induction s as [|c r IH]; [reflexivity|]. cbn [hasChar Js.trimEnd]. intros Hs.
  apply orb_false_iff in Hs as [Hc Hr]. specialize (IH Hr).
  destruct (Js.trimEnd r) as [|c1 t].
  - destruct (Js.isWhiteSpace c); [reflexivity|]. cbn. now rewrite Hc.
  - cbn [hasChar] in *. now rewrite Hc, IH.
Qed.

Lemma firstn_In {A} (x : A) n l : In x (firstn n l) -> In x l.
Proof.
  revert l. induction n as [|n IH]; intros [|a l] Hin; cbn in Hin; try contradiction.
  destruct Hin as [<-|Hin]; [now left | right; now apply IH].
Qed.

(** X17.  The labels of a framework slide: [parseLabels] gives at most
    eight labels, none of them empty, none with white space at an end and
    none with a comma in it; a record without the field gives none. *)
Theorem parseLabels_labels (data : Data) :
  (length (parseLabels data) <= 8)%nat
  /\ (forall l, In l (parseLabels data) ->
        l <> "" /\ Js.trim l = l /\ hasChar "," l = false)
  /\ (field data "labels" = "" -> parseLabels data = []).
Proof.
  unfold parseLabels. split; [apply firstn_le_length|]. split.
  - intros l Hin. apply firstn_In in Hin.
    unfold Js.filterBoolean in Hin. apply filter_In in Hin as [Hin Ht].
    apply in_map_iff in Hin as (w & <- & Hw).
    split; [|split].
    + unfold Js.truthy in Ht. apply negb_true_iff in Ht. now apply String.eqb_neq in Ht.
    + apply trim_twice.
    + unfold Js.trim. apply hasChar_trimStart, hasChar_trimEnd.
      eapply hasChar_split; eauto.
  - intros ->. reflexivity.
Qed.

(* ================================================================== *)
(** ** The size of the preview canvas *)

(** X18.  The side [handleResize] gives the canvas.  A window at least 768
    wide gets a canvas between 188 and 540 that leaves 580 beside it; a
    narrower window gets its width less 48, which is more than the 540 of
    the widest windows from 589 on, and no size at all (zero or less) for a
    window of 48 or less. *)
Theorem handleResize_bounds (w : Z) :
  ((768 <= w)%Z -> (188 <= handleResize w <= 540)%Z /\ (handleResize w + 580 <= w)%Z)
  /\ ((w < 768)%Z -> handleResize w = (w - 48)%Z)
  /\ ((588 < w < 768)%Z -> (540 < handleResize w)%Z)
  /\ ((w <= 48)%Z -> (handleResize w <= 0)%Z).
Proof.
  unfold handleResize.
  destruct (w <? 768)%Z eqn:E1; [apply Z.ltb_lt in E1 | apply Z.ltb_ge in E1];
    (destruct (w <? 1200)%Z eqn:E2; [apply Z.ltb_lt in E2 | apply Z.ltb_ge in E2]);
    repeat split; intros; lia.
Qed.

(* ================================================================== *)
(** ** What a renderer takes from the context, and the slide number *)

(** X19.  A renderer takes nothing from what was drawn before it: on two
    contexts with the same opacity, text alignment, dash pattern, line cap
    and join, letter spacing and transform, each of the fourteen renderers
    makes the same calls, whatever fill and stroke colours, font, line
    width, path and saved states the contexts hold. *)
Theorem renderers_ignore_leftovers `{Host} (name : string) (r : Renderer) (data : Data)
    (slideNum : option nat) (c1 c2 : Context2D) :
  In (name, r) renderers ->
  globalAlpha (draw c1) = globalAlpha (draw c2) ->
  textAlign (draw c1) = textAlign (draw c2) ->
  lineDash (draw c1) = lineDash (draw c2) ->
  lineCap (draw c1) = lineCap (draw c2) ->
  lineJoin (draw c1) = lineJoin (draw c2) ->
  letterSpacing (draw c1) = letterSpacing (draw c2) ->
  transform (draw c1) = transform (draw c2) ->
  trace (r data slideNum c1) = trace (r data slideNum c2).
Proof.
  intros Hin Halpha Halign Hdash Hcap Hjoin Hspacing Hxf.
  destruct (renderers_read_entry name r data slideNum Hin) as [b Hreads].
  apply (Hreads c1 c2).
  split; [|split; [discriminate | exact I]].
  unfold agree, entryAbs, entryMask. cbn. repeat split; auto; discriminate.
Qed.

(** X19 at work: the single-concept renderer on a new context and on one
    that was drawn on. *)
Lemma renderers_ignore_leftovers_witness :
  trace (@render_single demoHost coverData (Some 2%nat) freshContext)
  = trace (@render_single demoHost coverData (Some 2%nat) usedContext).
Proof.
  apply (@renderers_ignore_leftovers demoHost "single" (@render_single demoHost));
    [right; left; reflexivity | reflexivity ..].
Defined.

Section SlideNumber.
Context `{Host}.

Lemma keeps_paperBackground c0 : keeps c0 entryAbs paperBackground entryAbs.
Proof. eapply keeps_le_post; [canvas_rules | side]. Qed.

(** The number is the first thing drawn on the ruled paper. *)
Lemma numbered_start (k : Canvas unit) c n :
  In (FillText (slideNumStyle (draw c)) (Js.padStart2 (Js.String_ (S n))) 64 80)
     (trace ((paperBackground ;; slideNumLabel (Some (S n)) ;; k)%canvas c)).
Proof.
  rewrite trace_bind. apply in_or_app. right.
  rewrite trace_bind. apply in_or_app. left.
  destruct (keeps_paperBackground c c) as [Hag _];
    [split; [apply agree_refl | reflexivity]|].
  set (c1 := final (paperBackground c)) in *.
  unfold agree, entryAbs, entryMask in Hag. cbn in Hag. decompose [and] Hag.
  unfold slideNumLabel, slideNumShown.
  rewrite !trace_bind. cbn. left. unfold textOf, slideNumStyle. cbn.
  f_equal; try (f_equal; symmetry; auto).
Qed.

Lemma slideNumLabel_zero : slideNumLabel (Some O) = slideNumLabel None.
Proof. reflexivity. Qed.

(** X20.  The slide number and the templates that show it.  The renderers
    of the four templates [exportPDF] and [App] pass no number to (cover,
    call to action, punchline, section divider) draw the same with any
    number; each of the other ten draws a number from 1 on at (64, 80), in
    two digits at least, in grey and in the small monospace font, and draws
    for the number 0 what it draws for none. *)
Theorem slide_number_printed (name : string) (r : Renderer) (data : Data) (n : nat)
    (c : Context2D) :
  In (name, r) renderers ->
  if existsb (String.eqb name) unnumbered
  then r data (Some n) c = r data None c
  else In (FillText (slideNumStyle (draw c)) (Js.padStart2 (Js.String_ (S n))) 64 80)
          (trace (r data (Some (S n)) c))
       /\ r data (Some O) c = r data None c.
Proof.
  unfold renderers. cbn [In]. intros Hin.
  repeat (destruct Hin as [Hin|Hin]; [injection Hin as <- <- |]); try contradiction.
  - change (existsb (String.eqb "cover") unnumbered) with true. cbv iota.
    unfold render_cover. reflexivity.
  - change (existsb (String.eqb "single") unnumbered) with false. cbv iota.
    unfold render_single. split; [apply numbered_start | now rewrite slideNumLabel_zero].
  - change (existsb (String.eqb "comparison") unnumbered) with false. cbv iota.
    unfold render_comparison. split; [apply numbered_start | now rewrite slideNumLabel_zero].
  - change (existsb (String.eqb "framework") unnumbered) with false. cbv iota.
    unfold render_framework. split; [apply numbered_start | now rewrite slideNumLabel_zero].
  - change (existsb (String.eqb "punchline") unnumbered) with true. cbv iota.
    unfold render_punchline. reflexivity.
  - change (existsb (String.eqb "data") unnumbered) with false. cbv iota.
    unfold render_data. split; [apply numbered_start | now rewrite slideNumLabel_zero].
  - change (existsb (String.eqb "cta") unnumbered) with true. cbv iota.
    unfold render_cta. reflexivity.
  - change (existsb (String.eqb "numbered_list") unnumbered) with false. cbv iota.
    unfold render_numbered_list. split; [apply numbered_start | now rewrite slideNumLabel_zero].
  - change (existsb (String.eqb "quote") unnumbered) with false. cbv iota.
    unfold render_quote. split; [apply numbered_start | now rewrite slideNumLabel_zero].
  - change (existsb (String.eqb "section_divider") unnumbered) with true. cbv iota.
    unfold render_section_divider. reflexivity.
  - change (existsb (String.eqb "two_up") unnumbered) with false. cbv iota.
    unfold render_two_up. split; [apply numbered_start | now rewrite slideNumLabel_zero].
  - change (existsb (String.eqb "three_up") unnumbered) with false. cbv iota.
    unfold render_three_up. split; [apply numbered_start | now rewrite slideNumLabel_zero].
  - change (existsb (String.eqb "checklist") unnumbered) with false. cbv iota.
    unfold render_checklist. split; [apply numbered_start | now rewrite slideNumLabel_zero].
  - change (existsb (String.eqb "blank") unnumbered) with false. cbv iota.
    unfold render_blank. split; [apply numbered_start | now rewrite slideNumLabel_zero].
Qed.

End SlideNumber.

(** X20 at work: the second slide of a carousel, a single concept. *)
Lemma slide_number_printed_witness :
  In (FillText (slideNumStyle (draw freshContext)) (Js.padStart2 (Js.String_ 2)) 64 80)
     (trace (@render_single demoHost coverData (Some 2%nat) freshContext))
  /\ @render_single demoHost coverData (Some O) freshContext
     = @render_single demoHost coverData None freshContext.
Proof.
  apply (@slide_number_printed demoHost "single" (@render_single demoHost) coverData 1%nat
           freshContext).
  right; left; reflexivity.
Defined.

(* ================================================================== *)
(** ** Rendering under the scale of the export *)

Section Scaled.
Variable xf : (Q * Q)%type.

Lemma scaled_ret {X} (x : X) : scaled xf (ret x).
Proof. intros c. reflexivity. Qed.

Lemma scaled_bind {A B} (m : Canvas A) (k : A -> Canvas B) :
  scaled xf m -> (forall x, scaled xf (k x)) -> scaled xf (bind m k).
Proof.
  intros Hm Hk c. rewrite !run_bind. cbn [value final trace fst snd].
  rewrite (Hm c). cbn [value final trace fst snd].
  rewrite (Hk (value (m c)) (final (m c))). cbn [value final trace fst snd].
  now rewrite map_app.
Qed.

Lemma scaled_if {X} (t : bool) (m1 m2 : Canvas X) :
  scaled xf m1 -> scaled xf m2 -> scaled xf (if t then m1 else m2).
Proof. now destruct t. Qed.

Lemma scaled_option {X V} (o : option V) (f : V -> Canvas X) (g : Canvas X) :
  (forall v, scaled xf (f v)) -> scaled xf g ->
  scaled xf (match o with Some v => f v | None => g end).
Proof. intros Hf Hg. destruct o; auto. Qed.

Lemma scaled_forEachFrom {V} (body : V -> nat -> Canvas unit) :
  (forall x i, scaled xf (body x i)) -> forall l i, scaled xf (forEachFrom i l body).
Proof.
  intros Hb l. induction l as [|x r IH]; intros i; cbn [forEachFrom].
  - apply scaled_ret.
  - apply scaled_bind; [apply Hb | intros _; apply IH].
Qed.

Lemma scaled_forEach {V} (l : list V) (body : V -> nat -> Canvas unit) :
  (forall x i, scaled xf (body x i)) -> scaled xf (forEach l body).
Proof. intros Hb. unfold forEach. now apply scaled_forEachFrom. Qed.

Lemma scaled_forEachAccFrom {V W} (body : W -> V -> nat -> Canvas W) :
  (forall v x i, scaled xf (body v x i)) -> forall l i v, scaled xf (forEachAccFrom i l v body).
Proof.
  intros Hb l. induction l as [|x r IH]; intros i v; cbn [forEachAccFrom].
  - apply scaled_ret.
  - apply scaled_bind; [apply Hb | intros v1; apply IH].
Qed.

Lemma scaled_forEachAcc {V W} (l : list V) (v : W) (body : W -> V -> nat -> Canvas W) :
  (forall v x i, scaled xf (body v x i)) -> scaled xf (forEachAcc l v body).
Proof. intros Hb. unfold forEachAcc. now apply scaled_forEachAccFrom. Qed.

Lemma scaled_mapM {V W} (f : V -> Canvas W) (l : list V) :
  (forall x, scaled xf (f x)) -> scaled xf (mapM f l).
Proof.
  intros Hb. induction l as [|x r IH]; cbn [mapM].
  - apply scaled_ret.
  - apply scaled_bind; [apply Hb | intros y].
    apply scaled_bind; [exact IH | intros ys; apply scaled_ret].
Qed.

(** An assignment to an attribute that is not the transform. *)
Lemma scaled_modify (f : DrawState -> DrawState) :
  (forall d, f (with_transform xf d) = with_transform xf (f d)) -> scaled xf (modify f).
Proof. intros Hf c. unfold modify, ctxAt. cbn. now rewrite Hf. Qed.

Lemma scaled_emit (f : DrawState -> Op) :
  (forall d, f (with_transform xf d) = opAt xf (f d)) -> scaled xf (emit f).
Proof. intros Hf c. unfold emit, ctxAt. cbn. now rewrite Hf. Qed.

Lemma scaled_addPath s : scaled xf (addPath s).
Proof. intros c. reflexivity. Qed.

Lemma scaled_save : scaled xf save.
Proof. intros c. reflexivity. Qed.

Lemma scaled_restore : scaled xf restore.
Proof. intros [d [|d1 sv] pt]; reflexivity. Qed.

Lemma scaled_beginPath : scaled xf beginPath.
Proof. intros c. reflexivity. Qed.

Lemma scaled_stroke : scaled xf stroke.
Proof. intros c. reflexivity. Qed.

Lemma scaled_fill : scaled xf fill.
Proof. intros c. reflexivity. Qed.

Lemma scaled_get_font : scaled xf get_font.
Proof. intros c. reflexivity. Qed.

Lemma scaled_get_fillStyle : scaled xf get_fillStyle.
Proof. intros c. reflexivity. Qed.

Lemma scaled_measureText `{Host} : scaled xf measureText.
Proof. intros c. reflexivity. Qed.

Lemma scaled_ruledLoop fuel : forall y, scaled xf (ruledLoop fuel y).
Proof.
  induction fuel as [|f IH]; intros y; cbn [ruledLoop]; [apply scaled_ret|].
  destruct (Qleb y C.slide); [|apply scaled_ret].
  apply scaled_bind; [apply scaled_beginPath | intros _].
  apply scaled_bind; [apply scaled_addPath | intros _].
  apply scaled_bind; [apply scaled_addPath | intros _].
  apply scaled_bind; [apply scaled_stroke | intros _].
  apply IH.
Qed.

End Scaled.

(** One statement: the rule for its head. *)
Ltac scaled_rules :=
  cbv beta iota zeta;
  lazymatch goal with
  | |- scaled _ (bind _ _) => apply scaled_bind; [scaled_rules | intros ?; scaled_rules]
  | |- scaled _ (ret _) => apply scaled_ret
  | |- scaled _ (if _ then _ else _) => apply scaled_if; scaled_rules
  | |- scaled _ (match _ with Some _ => _ | None => _ end) =>
      apply scaled_option; [intros ?; scaled_rules | scaled_rules]
  | |- scaled _ (match ?x with pair _ _ => _ end) => destruct x; scaled_rules
  | |- scaled _ ((match ?x with pair _ _ => _ end) _) => destruct x; scaled_rules
  | |- scaled _ (forEach _ _) => apply scaled_forEach; intros ? ?; scaled_rules
  | |- scaled _ (forEachAcc _ _ _) => apply scaled_forEachAcc; intros ? ? ?; scaled_rules
  | |- scaled _ (mapM _ _) => apply scaled_mapM; intros ?; scaled_rules
  | |- scaled _ (ruledLoop _ _) => apply scaled_ruledLoop
  | |- scaled _ (modify _) => apply scaled_modify; intros ?; reflexivity
  | |- scaled _ (emit _) => apply scaled_emit; intros ?; reflexivity
  | |- scaled _ (addPath _) => apply scaled_addPath
  | |- scaled _ save => apply scaled_save
  | |- scaled _ restore => apply scaled_restore
  | |- scaled _ beginPath => apply scaled_beginPath
  | |- scaled _ stroke => apply scaled_stroke
  | |- scaled _ fill => apply scaled_fill
  | |- scaled _ get_font => apply scaled_get_font
  | |- scaled _ get_fillStyle => apply scaled_get_fillStyle
  | |- scaled _ measureText => apply scaled_measureText
  | |- scaled _ (scale _ _) => fail "the transform is assigned"
  | |- scaled _ ?m => let h := head_of m in unfold h; scaled_rules
  end.

Section ScaledRenderers.
Context `{Host}.
Variable xf : (Q * Q)%type.

Lemma scaled_renderers name r data slideNum :
  In (name, r) renderers -> scaled xf (r data slideNum).
Proof.
  unfold renderers. cbn [In]. intros Hin.
  repeat (destruct Hin as [Hin|Hin]; [injection Hin as _ <- |]); try contradiction.
  - scaled_rules.
  - scaled_rules.
  - scaled_rules.
  - scaled_rules.
  - scaled_rules.
  - scaled_rules.
  - scaled_rules.
  - scaled_rules.
  - scaled_rules.
  - scaled_rules.
  - scaled_rules.
  - scaled_rules.
  - scaled_rules.
  - scaled_rules.
Qed.

End ScaledRenderers.

Section PageAsCanvas.
Context `{Host}.

(** What [SlideCanvas] does for a template that has a renderer. *)
Lemma SlideCanvas_effect_known template data slideNum r :
  assoc template renderers = Some r ->
  SlideCanvas_effect template data slideNum
  = Rendered (final (r data slideNum freshContext))
      (ClearRect (1, 1)%Q 0 0 C.slide C.slide :: trace (r data slideNum freshContext)).
Proof.
  intros Hr. unfold SlideCanvas_effect, renderers_get. rewrite Hr.
  change (clearRect 0 0 C.slide C.slide freshContext)
    with (tt, freshContext, [ClearRect (1, 1)%Q 0 0 C.slide C.slide]).
  cbv iota.
  destruct (r data slideNum freshContext) as [[u c1] o1]. reflexivity.
Qed.

(** The turn of the loop of [exportPDF] for such a slide. *)
Lemma exportPDF_page_known slides i sl r c :
  arr_get slides (Z.of_nat i) = Some sl -> assoc (template sl) renderers = Some r ->
  exportPDF_page slides i c
  = Rendered
      (final (restore (final (r (data sl) (previewSlideNum sl (Z.of_nat i))
                                 (final (pageSetup c))))))
      (trace (pageSetup c)
       ++ trace (r (data sl) (previewSlideNum sl (Z.of_nat i)) (final (pageSetup c)))).
Proof.
  intros Hget Hr. apply arr_get_Some in Hget as [_ Hlk]. rewrite Nat2Z.id in Hlk.
  rewrite exportPDF_page_run, Hlk. cbn [mjoin option_join option_bind mbind].
  unfold renderers_get. rewrite Hr.
  unfold previewSlideNum, unnumbered. now rewrite Nat2Z.id.
Qed.

(** X21.  What the editor shows is what the PDF holds.  For a slide whose
    template is one of the fourteen, the turn of the loop of [exportPDF]
    for the slide makes, after it cleared its canvas, the calls that
    [SlideCanvas] makes for the slide with the slide number of the editor
    after it cleared its own: the same calls with the same arguments, in
    the same order, under the scale 2 of the export. *)
Theorem export_page_as_canvas (slides : Slides) (i : nat) (sl : Slide) (c : Context2D) :
  arr_get slides (Z.of_nat i) = Some sl -> In (template sl) TEMPLATE_keys ->
  exportIdle c ->
  exists c1 c2 drawn,
    SlideCanvas_effect (template sl) (data sl) (previewSlideNum sl (Z.of_nat i))
    = Rendered c1 (ClearRect (1, 1)%Q 0 0 C.slide C.slide :: drawn)
    /\ exportPDF_page slides i c
       = Rendered c2 (ClearRect (1, 1)%Q 0 0 (C.slide * 2)%Q (C.slide * 2)%Q
                      :: map (opAt (2, 2)%Q) drawn).
Proof.
  intros Hget Hin Hc.
  destruct (In_assoc_known (template sl) renderers) as [r Hr];
    [now rewrite renderers_keys|].
  set (num := previewSlideNum sl (Z.of_nat i)).
  eexists _, _, (trace (r (data sl) num freshContext)).
  split; [now apply SlideCanvas_effect_known|].
  rewrite (exportPDF_page_known slides i sl r c Hget Hr). fold num.
  apply exportIdle_default in Hc as [Hd Hs].
  f_equal.
  assert (Hsetup : trace (pageSetup c)
                   = [ClearRect (1, 1)%Q 0 0 (C.slide * 2)%Q (C.slide * 2)%Q]).
  { unfold pageSetup. rewrite !trace_bind. cbn. now rewrite Hd. }
  rewrite Hsetup. cbn [app]. f_equal.
  apply assoc_In in Hr.
  destruct (renderers_read_entry _ _ (data sl) num Hr) as [b Hreads].
  destruct (Hreads (final (pageSetup c)) (ctxAt (2, 2)%Q freshContext)) as (_ & Htr & _).
  { rewrite final_pageSetup. cbn [draw saved]. rewrite Hd.
    split; [|split; [discriminate | exact I]].
    unfold agree. cbn. repeat split; reflexivity. }
  rewrite Htr.
  rewrite (scaled_renderers (2, 2)%Q _ _ (data sl) num Hr freshContext). reflexivity.
Qed.

End PageAsCanvas.

(** X21 at work: the second slide of the custom skeleton, on the canvas
    of a new export. *)
Lemma export_page_as_canvas_witness :
  exists c1 c2 drawn,
    @SlideCanvas_effect demoHost "single" ∅ (Some 2%nat)
    = Rendered c1 (ClearRect (1, 1)%Q 0 0 C.slide C.slide :: drawn)
    /\ @exportPDF_page demoHost initCustom 1 freshContext
       = Rendered c2 (ClearRect (1, 1)%Q 0 0 (C.slide * 2)%Q (C.slide * 2)%Q
                      :: map (opAt (2, 2)%Q) drawn).
Proof.
  apply (@export_page_as_canvas demoHost initCustom 1
           (mkSlide "single" None (Some "Your content") ∅) freshContext);
    [reflexivity | right; left; reflexivity | apply idle_new].
Defined.

(* ================================================================== *)
(** ** Every carousel can be built *)

Lemma coverSlide_end : endSlide "cover" coverSlide.
Proof.
  split; [reflexivity|]. split; [reflexivity|]. eapply emptyData_fits. reflexivity.
Qed.

Lemma ctaSlide_end : endSlide "cta" ctaSlide.
Proof.
  split; [reflexivity|]. split; [reflexivity|]. eapply emptyData_fits. reflexivity.
Qed.

Lemma customWith_good m sel :
  Forall midSlide m -> (1 <= length m <= 10)%nat ->
  (0 <= sel < Z.of_nat (S (S (length m))))%Z ->
  goodEditor (customWith m sel).
Proof.
  intros Hm Hlen Hsel. apply goodEditor_intro.
  - apply goodSlides_carousel; auto using coverSlide_end, ctaSlide_end.
  - now rewrite carousel_length.
Qed.

(** The button below the list, as often as it takes. *)
Lemma customWith_grow k :
  (1 <= k <= 10)%nat ->
  exists m sel,
    editorReachable (customWith m sel) /\ Forall midSlide m /\ length m = k
    /\ (0 <= sel < Z.of_nat (S (S (length m))))%Z.
Proof.
  induction k as [|k IH]; [lia|]. intros Hk.
  destruct (Nat.eq_dec k 0) as [->|Hk0].
  - exists [mkSlide "single" None (Some "Your content") ∅], 0%Z.
    split; [exact customEditor_reachable|].
    split; [|split; [reflexivity | cbn; lia]].
    apply List.Forall_cons; [|apply List.Forall_nil]. apply newSlide_mid.
    apply selectable_check. vm_compute. reflexivity.
  - destruct IH as (m & sel & Hreach & Hm & Hlen & Hsel); [lia|].
    pose proof (customWith_good m sel Hm ltac:(lia) Hsel) as Hg.
    assert (Hav : available ClickAddSlide (customWith m sel) = true).
    { destruct (goodEditor_screen _ _ Hg eq_refl) as (cur & def & _ & _ & Hscr).
      unfold available. rewrite Hscr. cbn [st_previewMode customWith].
      rewrite carousel_length. apply Nat.ltb_lt. lia. }
    destruct (run_ClickAddSlide (customWith m sel) coverSlide m ctaSlide Hg eq_refl
                coverSlide_end Hm ctaSlide_end ltac:(lia) Hav) as [_ Hrun].
    exists (m ++ [mkSlide "single" None (Some "") ∅]), (Z.of_nat (length m) + 1)%Z.
    split; [exact (er_step _ _ _ Hreach Hav Hrun)|].
    split; [apply Forall_app; split; [exact Hm|];
            apply List.Forall_cons; [apply blank_single_mid | apply List.Forall_nil]|].
    rewrite length_app. cbn [length]. split; lia.
Qed.

(** The list items and the template selector, slide by slide. *)
Lemma customWith_templates (ts : list string) :
  Forall (fun t => In t selectableTemplates) ts ->
  forall n m sel,
    editorReachable (customWith m sel) -> Forall midSlide m ->
    length m = length ts -> (1 <= length m <= 10)%nat -> (n <= length m)%nat ->
    exists m1 sel1,
      editorReachable (customWith m1 sel1) /\ Forall midSlide m1
      /\ length m1 = length m
      /\ forall j, (j < n)%nat -> template <$> (m1 !! j) = ts !! j.
Proof.
  intros Hts. induction n as [|n IH]; intros m sel Hreach Hm Hlts Hlen Hn.
  - exists m, sel. repeat split; auto. intros j Hj. lia.
  - destruct (IH m sel Hreach Hm Hlts Hlen ltac:(lia))
      as (m1 & sel1 & Hreach1 & Hm1 & Hl1 & Hdone).
    destruct (lookup_lt_is_Some_2 m1 n ltac:(lia)) as [cur Hcur].
    destruct (lookup_lt_is_Some_2 ts n ltac:(lia)) as [t Ht].
    assert (Htsel : In t selectableTemplates).
    { rewrite List.Forall_forall in Hts. apply Hts.
      apply list_elem_of_In. eapply list_elem_of_lookup_2; eauto. }
    pose proof (Forall_lookup_1 _ _ _ _ Hm1 Hcur) as (Hun & _ & _).
    (* the item of the list *)
    assert (Hsel1 : goodEditor (customWith m1 sel1)) by (apply reachable_good; exact Hreach1).
    assert (Hav1 : available (ClickItem (S n)) (customWith m1 sel1) = true).
    { destruct (goodEditor_screen _ _ Hsel1 eq_refl) as (c0 & def & _ & _ & Hscr).
      unfold available. rewrite Hscr. cbn [st_previewMode customWith].
      rewrite carousel_length. apply Nat.ltb_lt. lia. }
    assert (Hreach2 : editorReachable (customWith m1 (Z.of_nat (S n))))
      by exact (er_step _ (ClickItem (S n)) _ Hreach1 Hav1 eq_refl).
    destruct (String.eqb (template cur) t) eqn:Esame.
    + apply String.eqb_eq in Esame.
      exists m1, (Z.of_nat (S n)). repeat split; auto.
      intros j Hj. destruct (Nat.eq_dec j n) as [->|Hjn].
      * now rewrite Hcur, Ht, <- Esame.
      * apply Hdone. lia.
    + (* the template selector *)
      pose proof (customWith_good m1 (Z.of_nat (S n)) Hm1 ltac:(lia) ltac:(lia)) as Hg2.
      assert (Hget : arr_get (carousel coverSlide m1 ctaSlide) (Z.of_nat (S n)) = Some cur).
      { rewrite arr_get_carousel_mid by lia.
        replace (Z.to_nat (Z.of_nat (S n)) - 1)%nat with n by lia. exact Hcur. }
      assert (Hav2 : available (SelectTemplate t) (customWith m1 (Z.of_nat (S n))) = true).
      { destruct (goodEditor_screen _ _ Hg2 eq_refl) as (c0 & def & Hc0 & _ & Hscr).
        cbn [st_selectedIdx customWith] in Hc0. rewrite Hget in Hc0. injection Hc0 as <-.
        unfold available. rewrite Hscr. cbn [st_previewMode customWith].
        rewrite Hun. cbn [negb andb]. apply existsb_exists.
        exists t. split; [exact Htsel | apply String.eqb_refl]. }
      destruct (run_SelectTemplate _ _ Hg2 eq_refl t Hav2)
        as (cur2 & Hget2 & _ & _ & Hrun & _ & _).
      cbn [st_selectedIdx st_previewMode st_exporting customWith] in Hget2, Hrun.
      rewrite Hget in Hget2. injection Hget2 as <-.
      rewrite arr_set_carousel in Hrun by (rewrite carousel_length; lia).
      destruct (Z.of_nat (S n) =? 0)%Z eqn:E0; [apply Z.eqb_eq in E0; lia|].
      destruct (Z.of_nat (S n) =? Z.of_nat (S (length m1)))%Z eqn:E1;
        [apply Z.eqb_eq in E1; lia|].
      replace (Z.to_nat (Z.of_nat (S n)) - 1)%nat with n in Hrun by lia.
      set (new := mkSlide t (locked cur) (note cur) ∅) in *.
      exists (<[n := new]> m1), (Z.of_nat (S n)).
      split; [exact (er_step _ _ _ Hreach2 Hav2 Hrun)|].
      split.
      { apply Forall_insert; [exact Hm1|].
        split; [exact Hun|]. split; [exact Htsel|].
        destruct (selectable_known t Htsel) as [d Hd]. eapply emptyData_fits; eauto. }
      split; [rewrite length_insert; exact Hl1|].
      intros j Hj. destruct (Nat.eq_dec j n) as [->|Hjn].
      * rewrite list_lookup_insert_eq by lia. now rewrite Ht.
      * rewrite list_lookup_insert_ne by congruence. apply Hdone. lia.
Qed.

Lemma lookup_map {A B} (f : A -> B) (l : list A) j : map f l !! j = f <$> (l !! j).
Proof.
  revert j. induction l as [|x r IH]; intros [|j]; cbn; try reflexivity. apply IH.
Qed.

Lemma templatesOf_carousel f m l :
  templatesOf (carousel f m l) = template f :: map template m ++ [template l].
Proof.
  unfold templatesOf, carousel. cbn [map]. f_equal.
  rewrite map_app. cbn [map]. f_equal.
  induction m as [|x r IH]; [reflexivity|]. cbn. now rewrite <- IH.
Qed.

(** X22.  Every carousel can be built: for every sequence of one to ten
    of the twelve templates the selector offers, the controls lead (from
    the custom skeleton, with the button below the list, the list items
    and the template selector) to a list of a cover, slides with these
    templates in this order, and a call to action. *)
Theorem every_carousel_can_be_built (ts : list string) :
  (1 <= length ts <= 10)%nat -> Forall (fun t => In t selectableTemplates) ts ->
  exists ed s,
    editorReachable ed /\ st_slides ed = Some s
    /\ templatesOf s = "cover" :: ts ++ ["cta"].
Proof.
  intros Hlen Hts.
  destruct (customWith_grow (length ts) Hlen) as (m & sel & Hreach & Hm & Hl & _).
  destruct (customWith_templates ts Hts (length m) m sel Hreach Hm Hl ltac:(lia) (le_n _))
    as (m1 & sel1 & Hreach1 & _ & Hl1 & Hdone).
  exists (customWith m1 sel1), (carousel coverSlide m1 ctaSlide).
  split; [exact Hreach1|]. split; [reflexivity|].
  rewrite templatesOf_carousel. cbn [template coverSlide ctaSlide]. f_equal. f_equal.
  apply list_eq. intros j. rewrite lookup_map.
  destruct (Nat.lt_ge_cases j (length m)) as [Hj|Hj].
  - now apply Hdone.
  - rewrite (lookup_ge_None_2 m1) by lia. rewrite (lookup_ge_None_2 ts) by lia. reflexivity.
Qed.

(** X22 at work: a quote and a data point. *)
Lemma every_carousel_can_be_built_witness :
  exists ed s,
    editorReachable ed /\ st_slides ed = Some s
    /\ templatesOf s = "cover" :: ["quote"; "data"] ++ ["cta"].
Proof.
  apply (every_carousel_can_be_built ["quote"; "data"]).
  - cbn. lia.
  - apply List.Forall_cons; [apply selectable_check; vm_compute; reflexivity|].
    apply List.Forall_cons; [apply selectable_check; vm_compute; reflexivity|].
    apply List.Forall_nil.
Defined.

(* ================================================================== *)
(** ** The colours a renderer paints in *)

Lemma palettes_ret {X} (x : X) : palettes (ret x).
Proof. intros c Hc. split; [reflexivity | exact Hc]. Qed.

Lemma palettes_bind {A B} (m : Canvas A) (k : A -> Canvas B) :
  palettes m -> (forall x, palettes (k x)) -> palettes (bind m k).
Proof.
  intros Hm Hk c Hc. rewrite trace_bind, final_bind.
  destruct (Hm c Hc) as [Ho1 Hc1].
  destruct (Hk (value (m c)) (final (m c)) Hc1) as [Ho2 Hc2].
  split; [|exact Hc2]. rewrite forallb_app. now rewrite Ho1, Ho2.
Qed.

(** The fill colour read off a context of the palette is of the
    palette. *)
Lemma palettes_bind_get_fillStyle {B} (k : string -> Canvas B) :
  (forall x, inPalette x = true -> palettes (k x)) -> palettes (bind get_fillStyle k).
Proof.
  intros Hk c Hc. rewrite trace_bind, final_bind.
  change (trace (get_fillStyle c)) with (@nil Op).
  change (final (get_fillStyle c)) with c.
  change (value (get_fillStyle c)) with (fillStyle (draw c)).
  cbn [app]. apply Hk; [|exact Hc]. now destruct Hc as [[Hf _] _].
Qed.

Lemma palettes_if {X} (t : bool) (m1 m2 : Canvas X) :
  palettes m1 -> palettes m2 -> palettes (if t then m1 else m2).
Proof. now destruct t. Qed.

Lemma palettes_option {X V} (o : option V) (f : V -> Canvas X) (g : Canvas X) :
  (forall v, palettes (f v)) -> palettes g ->
  palettes (match o with Some v => f v | None => g end).
Proof. intros Hf Hg. destruct o; auto. Qed.

Lemma palettes_forEachFrom {V} (body : V -> nat -> Canvas unit) :
  (forall x i, palettes (body x i)) -> forall l i, palettes (forEachFrom i l body).
Proof.
  intros Hb l. induction l as [|x r IH]; intros i; cbn [forEachFrom].
  - apply palettes_ret.
  - apply palettes_bind; [apply Hb | intros _; apply IH].
Qed.

Lemma palettes_forEach {V} (l : list V) (body : V -> nat -> Canvas unit) :
  (forall x i, palettes (body x i)) -> palettes (forEach l body).
Proof. intros Hb. unfold forEach. now apply palettes_forEachFrom. Qed.

Lemma palettes_forEachAccFrom {V W} (body : W -> V -> nat -> Canvas W) :
  (forall v x i, palettes (body v x i)) -> forall l i v, palettes (forEachAccFrom i l v body).
Proof.
  intros Hb l. induction l as [|x r IH]; intros i v; cbn [forEachAccFrom].
  - apply palettes_ret.
  - apply palettes_bind; [apply Hb | intros v1; apply IH].
Qed.

Lemma palettes_forEachAcc {V W} (l : list V) (v : W) (body : W -> V -> nat -> Canvas W) :
  (forall v x i, palettes (body v x i)) -> palettes (forEachAcc l v body).
Proof. intros Hb. unfold forEachAcc. now apply palettes_forEachAccFrom. Qed.

Lemma palettes_mapM {V W} (f : V -> Canvas W) (l : list V) :
  (forall x, palettes (f x)) -> palettes (mapM f l).
Proof.
  intros Hb. induction l as [|x r IH]; cbn [mapM].
  - apply palettes_ret.
  - apply palettes_bind; [apply Hb | intros y].
    apply palettes_bind; [exact IH | intros ys; apply palettes_ret].
Qed.

(** A program that neither paints nor touches the colours. *)
Lemma palettes_still {X} (m : Canvas X) :
  (forall c, trace (m c) = []
             /\ fillStyle (draw (final (m c))) = fillStyle (draw c)
             /\ strokeStyle (draw (final (m c))) = strokeStyle (draw c)
             /\ saved (final (m c)) = saved c) ->
  palettes m.
Proof.
  intros Hm c [[Hf Hs] Hsv]. destruct (Hm c) as (Ht & Hf1 & Hs1 & Hsv1).
  rewrite Ht. split; [reflexivity|]. split; [split|]; congruence.
Qed.

Lemma palettes_set_fillStyle v : inPalette v = true -> palettes (set_fillStyle v).
Proof.
  intros Hv c [[Hf Hs] Hsv]. split; [reflexivity|]. split; [split|]; assumption.
Qed.

Lemma palettes_set_strokeStyle v : inPalette v = true -> palettes (set_strokeStyle v).
Proof.
  intros Hv c [[Hf Hs] Hsv]. split; [reflexivity|]. split; [split|]; assumption.
Qed.

Lemma palettes_save : palettes save.
Proof.
  intros c [Hd Hsv]. split; [reflexivity|]. split; [exact Hd|].
  apply List.Forall_cons; assumption.
Qed.

Lemma palettes_restore : palettes restore.
Proof.
  intros [d [|d1 sv] pt] [Hd Hsv]; (split; [reflexivity|]).
  - split; assumption.
  - inversion Hsv; subst. split; assumption.
Qed.

(** A call that paints with the colours of the context. *)
Lemma palettes_emit (f : DrawState -> Op) :
  (forall d, drawInPalette d -> opInPalette (f d) = true) -> palettes (emit f).
Proof.
  intros Hf c [Hd Hsv]. unfold emit. cbn. rewrite (Hf _ Hd). split; [reflexivity|].
  split; assumption.
Qed.

Lemma palettes_stroke : palettes stroke.
Proof.
  intros [[] sv pt] [[Hf Hs] Hsv]. cbn in *. split; [now rewrite Hs|].
  split; [split|]; assumption.
Qed.

Lemma palettes_fill : palettes fill.
Proof.
  intros [[] sv pt] [[Hf Hs] Hsv]. cbn in *. split; [now rewrite Hf|].
  split; [split|]; assumption.
Qed.

Lemma palettes_ruledLoop `{Host} fuel : forall y, palettes (ruledLoop fuel y).
Proof.
  induction fuel as [|f IH]; intros y; cbn [ruledLoop]; [apply palettes_ret|].
  destruct (Qleb y C.slide); [|apply palettes_ret].
  apply palettes_bind; [now apply palettes_still | intros _].
  apply palettes_bind; [now apply palettes_still | intros _].
  apply palettes_bind; [now apply palettes_still | intros _].
  apply palettes_bind; [apply palettes_stroke | intros _].
  apply IH.
Qed.

(** The colour is one of the palette: it is a constant of [C], a colour
    read off the context, or one of two constants. *)
Ltac palette_colour :=
  first [ assumption
        | reflexivity
        | match goal with
          | |- context [if ?t then _ else _] => destruct t; reflexivity
          end ].

Ltac palettes_rules :=
  cbv beta iota zeta;
  lazymatch goal with
  | |- palettes (bind get_fillStyle _) =>
      apply palettes_bind_get_fillStyle; intros ? ?; palettes_rules
  | |- palettes (bind _ _) => apply palettes_bind; [palettes_rules | intros ?; palettes_rules]
  | |- palettes (ret _) => apply palettes_ret
  | |- palettes (if _ then _ else _) => apply palettes_if; palettes_rules
  | |- palettes (match _ with Some _ => _ | None => _ end) =>
      apply palettes_option; [intros ?; palettes_rules | palettes_rules]
  | |- palettes (match ?x with pair _ _ => _ end) => destruct x; palettes_rules
  | |- palettes ((match ?x with pair _ _ => _ end) _) => destruct x; palettes_rules
  | |- palettes (forEach _ _) => apply palettes_forEach; intros ? ?; palettes_rules
  | |- palettes (forEachAcc _ _ _) => apply palettes_forEachAcc; intros ? ? ?; palettes_rules
  | |- palettes (mapM _ _) => apply palettes_mapM; intros ?; palettes_rules
  | |- palettes (ruledLoop _ _) => apply palettes_ruledLoop
  | |- palettes (set_fillStyle _) => apply palettes_set_fillStyle; palette_colour
  | |- palettes (set_strokeStyle _) => apply palettes_set_strokeStyle; palette_colour
  | |- palettes (set_font _) => now apply palettes_still
  | |- palettes (set_lineWidth _) => now apply palettes_still
  | |- palettes (set_globalAlpha _) => now apply palettes_still
  | |- palettes (set_textAlign _) => now apply palettes_still
  | |- palettes (setLineDash _) => now apply palettes_still
  | |- palettes (set_lineCap _) => now apply palettes_still
  | |- palettes (set_lineJoin _) => now apply palettes_still
  | |- palettes (set_letterSpacing _) => now apply palettes_still
  | |- palettes save => apply palettes_save
  | |- palettes restore => apply palettes_restore
  | |- palettes beginPath => now apply palettes_still
  | |- palettes (moveTo _ _) => now apply palettes_still
  | |- palettes (lineTo _ _) => now apply palettes_still
  | |- palettes (arc _ _ _ _ _) => now apply palettes_still
  | |- palettes closePath => now apply palettes_still
  | |- palettes stroke => apply palettes_stroke
  | |- palettes fill => apply palettes_fill
  | |- palettes (fillRect _ _ _ _) => apply palettes_emit; now intros ? [? ?]
  | |- palettes (strokeRect _ _ _ _) => apply palettes_emit; now intros ? [? ?]
  | |- palettes (fillText _ _ _) => apply palettes_emit; now intros ? [? ?]
  | |- palettes (clearRect _ _ _ _) => apply palettes_emit; now intros ? [? ?]
  | |- palettes get_font => now apply palettes_still
  | |- palettes measureText => now apply palettes_still
  | |- palettes ?m => let h := head_of m in unfold h; palettes_rules
  end.

Section Palette.
Context `{Host}.

Lemma palettes_renderers name r data slideNum :
  In (name, r) renderers -> palettes (r data slideNum).
Proof.
  unfold renderers. cbn [In]. intros Hin.
  repeat (destruct Hin as [Hin|Hin]; [injection Hin as _ <- |]); try contradiction.
  - palettes_rules.
  - palettes_rules.
  - palettes_rules.
  - palettes_rules.
  - palettes_rules.
  - palettes_rules.
  - palettes_rules.
  - palettes_rules.
  - palettes_rules.
  - palettes_rules.
  - palettes_rules.
  - palettes_rules.
  - palettes_rules.
  - palettes_rules.
Qed.

(** X23.  The renderers paint in the six colours of the design system and
    no other: every call of a renderer that paints (a filled or stroked
    rectangle or path, a text) does so in one of the colours of [C],
    whatever the record holds and whatever colours the context had. *)
Theorem renderers_paint_in_palette (name : string) (r : Renderer) (data : Data)
    (slideNum : option nat) (c : Context2D) :
  In (name, r) renderers -> forallb opInPalette (trace (r data slideNum c)) = true.
Proof.
  intros Hin.
  destruct (renderers_read_entry name r data slideNum Hin) as [b Hreads].
  destruct (Hreads c (inked c)) as (_ & Htr & _).
  { split; [|split; [discriminate | exact I]].
    unfold agree, inked. cbn. repeat split; first [reflexivity | congruence]. }
  rewrite Htr. apply (palettes_renderers name r data slideNum Hin).
  split; [split; reflexivity | apply List.Forall_nil].
Qed.

End Palette.

(** X23 at work: the framework renderer on a new context, whose colours
    are black. *)
Lemma renderers_paint_in_palette_witness :
  forallb opInPalette (trace (@render_framework demoHost coverData (Some 2%nat) freshContext))
  = true.
Proof.
  apply (@renderers_paint_in_palette demoHost "framework" (@render_framework demoHost)).
  do 3 right; left; reflexivity.
Defined.

(* ================================================================== *)
(** ** The texts a renderer draws *)

Lemma textsDrawn_app o1 o2 : textsDrawn (o1 ++ o2) = textsDrawn o1 ++ textsDrawn o2.
Proof. unfold textsDrawn. apply flat_map_app. Qed.

Lemma says_eq {X} (m : Canvas X) l1 l2 : says m l1 -> l1 = l2 -> says m l2.
Proof. now intros Hm <-. Qed.

Lemma says_ret {X} (x : X) : says (ret x) [].
Proof. intros c. reflexivity. Qed.

Lemma says_bind {A B} (m : Canvas A) (k : A -> Canvas B) l1 l2 :
  says m l1 -> (forall x, says (k x) l2) -> says (bind m k) (l1 ++ l2).
Proof.
  intros Hm Hk c. rewrite trace_bind, textsDrawn_app. now rewrite Hm, Hk.
Qed.

Lemma says_if {X} (t : bool) (m1 m2 : Canvas X) l1 l2 :
  says m1 l1 -> says m2 l2 -> says (if t then m1 else m2) (if t then l1 else l2).
Proof. now destruct t. Qed.

Lemma says_option {X V} (o : option V) (f : V -> Canvas X) (g : Canvas X) l1 l2 :
  (forall v, says (f v) (l1 v)) -> says g l2 ->
  says (match o with Some v => f v | None => g end)
       (match o with Some v => l1 v | None => l2 end).
Proof. intros Hf Hg. destruct o; auto. Qed.

Lemma says_forEachFrom {V} (body : V -> nat -> Canvas unit) g :
  (forall x i, says (body x i) (g x i)) ->
  forall l i, says (forEachFrom i l body) (saysFrom i l g).
Proof.
  intros Hb l. induction l as [|x r IH]; intros i; cbn [forEachFrom saysFrom].
  - apply says_ret.
  - apply says_bind; [apply Hb | intros _; apply IH].
Qed.

Lemma says_forEach {V} (l : list V) (body : V -> nat -> Canvas unit) g :
  (forall x i, says (body x i) (g x i)) -> says (forEach l body) (saysFrom 0 l g).
Proof. intros Hb. unfold forEach. now apply says_forEachFrom. Qed.

Lemma says_forEachAccFrom {V W} (body : W -> V -> nat -> Canvas W) g :
  (forall v x i, says (body v x i) (g x i)) ->
  forall l i v, says (forEachAccFrom i l v body) (saysFrom i l g).
Proof.
  intros Hb l. induction l as [|x r IH]; intros i v; cbn [forEachAccFrom saysFrom].
  - apply says_ret.
  - apply says_bind; [apply Hb | intros v1; apply IH].
Qed.

Lemma says_forEachAcc {V W} (l : list V) (v : W) (body : W -> V -> nat -> Canvas W) g :
  (forall v x i, says (body v x i) (g x i)) -> says (forEachAcc l v body) (saysFrom 0 l g).
Proof. intros Hb. unfold forEachAcc. now apply says_forEachAccFrom. Qed.

Lemma says_mapM_quiet {V W} (f : V -> Canvas W) (l : list V) :
  (forall x, says (f x) []) -> says (mapM f l) [].
Proof.
  intros Hb. induction l as [|x r IH]; cbn [mapM].
  - apply says_ret.
  - apply (says_bind _ _ [] []); [apply Hb | intros y].
    apply (says_bind _ _ [] []); [exact IH | intros ys; apply says_ret].
Qed.

(** A call that draws no text. *)
Lemma says_quiet {X} (m : Canvas X) :
  (forall c, textsDrawn (trace (m c)) = []) -> says m [].
Proof. intros Hm c. apply Hm. Qed.

Lemma says_fillText s x y : says (fillText s x y) [s].
Proof. intros c. reflexivity. Qed.

Lemma says_ruledLoop fuel : forall y, says (ruledLoop fuel y) [].
Proof.
  induction fuel as [|f IH]; intros y; cbn [ruledLoop]; [apply says_ret|].
  destruct (Qleb y C.slide); [|apply says_ret].
  apply (says_bind _ _ [] []); [now apply says_quiet | intros _].
  apply (says_bind _ _ [] []); [now apply says_quiet | intros _].
  apply (says_bind _ _ [] []); [now apply says_quiet | intros _].
  apply (says_bind _ _ [] []); [now apply says_quiet | intros _].
  apply IH.
Qed.

(** The turns of a loop that draw their element each. *)
Lemma saysFrom_each (l : list string) : forall i, saysFrom i l (fun x _ => [x]) = l.
Proof. induction l as [|x r IH]; intros i; cbn; [reflexivity | now rewrite IH]. Qed.

(** One statement: the rule for its head. *)
Ltac says_rules :=
  cbv beta iota zeta;
  lazymatch goal with
  | |- says (bind _ _) _ => eapply says_bind; [says_rules | intros ?; says_rules]
  | |- says (ret _) _ => apply says_ret
  | |- says (if _ then _ else _) _ => eapply says_if; says_rules
  | |- says (match _ with Some _ => _ | None => _ end) _ =>
      eapply says_option; [intros ?; says_rules | says_rules]
  | |- says (match ?x with pair _ _ => _ end) _ => destruct x; says_rules
  | |- says ((match ?x with pair _ _ => _ end) _) _ => destruct x; says_rules
  | |- says (forEach _ _) _ => eapply says_forEach; intros ? ?; says_rules
  | |- says (forEachAcc _ _ _) _ => eapply says_forEachAcc; intros ? ? ?; says_rules
  | |- says (mapM _ _) _ =>
      eapply says_mapM_quiet; intros ?; eapply says_eq; [says_rules | reflexivity]
  | |- says (ruledLoop _ _) _ => apply says_ruledLoop
  | |- says (fillText _ _ _) _ => apply says_fillText
  | |- says (modify _) _ => now apply says_quiet
  | |- says (emit _) _ => fail "a call that paints"
  | |- says (addPath _) _ => now apply says_quiet
  | |- says save _ => now apply says_quiet
  | |- says restore _ => apply says_quiet; intros [? [|? ?] ?]; reflexivity
  | |- says beginPath _ => now apply says_quiet
  | |- says stroke _ => now apply says_quiet
  | |- says fill _ => now apply says_quiet
  | |- says (fillRect _ _ _ _) _ => now apply says_quiet
  | |- says (strokeRect _ _ _ _) _ => now apply says_quiet
  | |- says (clearRect _ _ _ _) _ => now apply says_quiet
  | |- says get_font _ => now apply says_quiet
  | |- says get_fillStyle _ => now apply says_quiet
  | |- says measureText _ => now apply says_quiet
  | |- says ?m _ => let h := head_of m in unfold h; says_rules
  end.

(** The statements before the next one that draws a text or loops. *)
Ltac says_prefix :=
  repeat (lazymatch goal with
          | |- says (bind ?m _) _ =>
              lazymatch m with
              | forEach _ _ => fail
              | forEachAcc _ _ _ => fail
              | fillText _ _ _ => fail
              | _ => eapply says_bind; [says_rules | intros ?]
              end
          end; cbv zeta).

Section Texts.
Context `{Host}.

Lemma says_flowBox rowLen rw boxH yBox yMid yText curX label i :
  says (flowBox rowLen rw boxH yBox yMid yText curX label i) [label].
Proof.
  eapply says_eq; [says_rules|]. now destruct (beforeLast i rowLen).
Qed.

Lemma says_cycleNode n cx cy radius nodeR label i :
  says (cycleNode n cx cy radius nodeR label i) [label].
Proof. eapply says_eq; [says_rules | reflexivity]. Qed.

Lemma says_framework_flow labels cx cy contentW :
  says (framework_flow labels cx cy contentW) labels.
Proof.
  unfold framework_flow.
  eapply says_eq.
  - eapply says_bind; [says_rules | intros _].
    eapply says_bind; [says_rules | intros mt]. cbv zeta.
    eapply says_eq with (l2 := labels).
    + eapply says_if.
      * eapply says_bind; [|intros ?; apply says_ret].
        eapply says_forEachAcc with (g := fun x _ => [x]). intros v x i. apply says_flowBox.
      * eapply says_forEach with (g := fun row _ => row). intros row ri. cbv zeta.
        eapply says_eq.
        -- eapply says_bind; [|intros ?; apply says_ret].
           eapply says_forEachAcc with (g := fun x _ => [x]). intros v x i.
           apply says_flowBox.
        -- now rewrite saysFrom_each, app_nil_r.
    + destruct (F64.leb _ _).
      * now rewrite saysFrom_each, app_nil_r.
      * cbn [saysFrom]. rewrite app_nil_r. apply firstn_skipn.
  - reflexivity.
Qed.

Lemma says_framework_quadrant labels cx cy contentW areaH :
  says (framework_quadrant labels cx cy contentW areaH) (firstn 4 labels).
Proof.
  unfold framework_quadrant. cbv zeta.
  eapply says_eq.
  - says_prefix.
    eapply says_forEach with (g := fun x _ => [x]). intros label i.
    eapply says_eq; [says_rules | reflexivity].
  - cbn [app]. apply saysFrom_each.
Qed.

Lemma says_framework_cycle labels cx cy contentW areaH :
  says (framework_cycle labels cx cy contentW areaH) labels.
Proof.
  unfold framework_cycle. cbv zeta.
  eapply says_eq.
  - says_prefix.
    eapply says_forEach with (g := fun x _ => [x]). intros label i. apply says_cycleNode.
  - cbn [app]. apply saysFrom_each.
Qed.

Lemma says_framework_hierarchy labels cx areaTop :
  labels <> [] -> says (framework_hierarchy labels cx areaTop) labels.
Proof.
  intros Hne. unfold framework_hierarchy. cbv zeta.
  eapply says_eq.
  - says_prefix.
    eapply says_bind; [apply says_fillText | intros _].
    says_prefix.
    eapply says_if; [|apply says_ret].
    says_prefix.
    eapply says_bind; [|intros ?; says_rules].
    eapply says_forEachAcc with (g := fun x _ => [x]). intros v child i.
    eapply says_eq; [says_rules | reflexivity].
  - cbn [app]. destruct labels as [|root children]; [contradiction|].
    cbn [hd skipn]. f_equal.
    destruct children as [|c1 r]; [reflexivity|].
    cbn [length Nat.ltb Nat.leb]. now rewrite saysFrom_each, app_nil_r.
Qed.

Lemma says_paperBackground : says paperBackground [].
Proof. eapply says_eq; [says_rules | reflexivity]. Qed.

Lemma says_slideNumLabel slideNum :
  says (slideNumLabel slideNum)
       (match slideNumShown slideNum with
        | Some n => [Js.padStart2 (Js.String_ n)]
        | None => []
        end).
Proof.
  unfold slideNumLabel. destruct (slideNumShown slideNum) as [n|]; [|apply says_ret].
  eapply says_eq; [says_rules | reflexivity].
Qed.

Lemma says_diagram data labels cx cy contentW areaH areaTop :
  let type := field data "diagram_type" ||| "flow" in
  says (if (0 <? length labels)%nat then
          if String.eqb type "flow" then framework_flow labels cx cy contentW
          else if String.eqb type "quadrant" then framework_quadrant labels cx cy contentW areaH
          else if String.eqb type "cycle" then framework_cycle labels cx cy contentW areaH
          else if String.eqb type "hierarchy" then framework_hierarchy labels cx areaTop
          else ret tt
        else ret tt)
       (diagramLabels type labels).
Proof.
  cbv zeta. unfold diagramLabels.
  destruct (0 <? length labels)%nat eqn:E.
  - destruct (String.eqb _ "flow"); [apply says_framework_flow|].
    destruct (String.eqb _ "quadrant"); [apply says_framework_quadrant|].
    destruct (String.eqb _ "cycle"); [apply says_framework_cycle|].
    destruct (String.eqb _ "hierarchy"); [|apply says_ret].
    apply says_framework_hierarchy. intros ->. discriminate.
  - destruct labels; [|discriminate].
    destruct (String.eqb _ "flow"); [apply says_ret|].
    destruct (String.eqb _ "quadrant"); [apply says_ret|].
    destruct (String.eqb _ "cycle"); [apply says_ret|].
    destruct (String.eqb _ "hierarchy"); apply says_ret.
Qed.

(** X24.  The texts of a framework slide.  The renderer draws, in this
    order: the slide number if it is given one from 1 on, the title, the
    labels, and the caption if there is one.  The flow, the cycle and the
    hierarchy show every label [parseLabels] gives, once each and in the
    order given; the quadrant shows the first four and leaves out the
    others; a diagram type that is none of the four shows none. *)
Theorem framework_texts (data : Data) (slideNum : option nat) (c : Context2D) :
  textsDrawn (trace (render_framework data slideNum c))
  = match slideNumShown slideNum with
    | Some n => [Js.padStart2 (Js.String_ n)]
    | None => []
    end
    ++ [field data "title" ||| "Framework"]
    ++ diagramLabels (field data "diagram_type" ||| "flow") (parseLabels data)
    ++ (if Js.truthy (field data "caption") then [field data "caption"] else []).
Proof.
  revert c. change (says (render_framework data slideNum)
    (match slideNumShown slideNum with
     | Some n => [Js.padStart2 (Js.String_ n)]
     | None => []
     end
     ++ [field data "title" ||| "Framework"]
     ++ diagramLabels (field data "diagram_type" ||| "flow") (parseLabels data)
     ++ (if Js.truthy (field data "caption") then [field data "caption"] else []))).
  unfold render_framework.
  eapply says_eq.
  - eapply says_bind; [apply says_paperBackground | intros _].
    eapply says_bind; [apply says_slideNumLabel | intros _].
    eapply says_bind; [says_rules | intros _].
    eapply says_bind; [says_rules | intros _].
    eapply says_bind; [apply says_fillText | intros _].
    cbv zeta.
    eapply says_bind; [apply says_diagram | intros _].
    unfold whenTruthy. eapply says_if; [|apply says_ret].
    eapply says_eq; [says_rules | reflexivity].
  - cbn [app]. reflexivity.
Qed.

End Texts.
